(** * DronePilotWeb: the flight command / control engine

    A shallow embedding of
      - [src/components/utils/droneControl/commands.js]   (module [Command]),
      - [src/components/utils/droneControl/DroneControl.js] (module [DroneControl]),
      - [src/components/utils/droneControl/mission.js]    (module [Mission]),
      - the controller-facing part of [src/components/utils/drone.js] (module [Drone]),
      - the relative moves and the missions of the browser's WebSocket bridge
        (module [DroneWsBridge]),
      - the request bookkeeping of the MCP server (module [BrowserBridge]),
    followed by the properties of the engine and of the two bridges.

    Conventions.
    - JavaScript numbers are idealised as real numbers ([R]); [Math.sqrt] is
      [sqrt], [Math.abs] is [Rabs], [Math.max] is [Rmax].
    - [performance.now()] is an input: every operation that reads the clock
      takes the reading as its argument [now].
    - A [Promise] is a cell of a promise store shared between a command and
      whoever holds the handle returned by the controller: a handle that is
      absent from the store is still pending.
    - Observer callbacks ([onCommandStart], [onStateChange], ...) and console
      output are recorded in a log, in call order.
    - [Math.cos], [Math.sin] and [Math.PI] are [cos], [sin] and [PI];
      [Date.now()] is an input like the clock, a natural number of
      milliseconds. *)

From Stdlib Require Import Reals Lra Ascii String List Bool Arith Lia.
From stdpp Require Import base option list gmap strings pretty.
Import ListNotations.

#[local] Open Scope R_scope.
#[local] Open Scope string_scope.

(** ** JavaScript values *)

(** A thrown value; the engine only throws [new Error(message)]. *)
Definition Error : Type := string.

(** [x ?? d] *)
Definition nullish {A} (x : option A) (d : A) : A :=
  match x with Some v => v | None => d end.

(** ToNumber of a number-or-null operand of an arithmetic operator. *)
Definition to_number (x : option R) : R := nullish x 0.

(** Comparison operators as tests. *)
Definition Rltb (x y : R) : bool := if Rlt_dec x y then true else false.
Definition Rgtb (x y : R) : bool := Rltb y x.

(** Truthiness of a number-or-null ([0] and [null] are falsy). *)
Definition truthy (x : option R) : bool :=
  match x with
  | Some v => if Req_dec_T v 0 then false else true
  | None => false
  end.

(** [Math.atan2(y, x)] *)
Definition atan2 (y x : R) : R :=
  if Rltb 0 x then atan (y / x)
  else if Rltb x 0 then (if Rltb y 0 then atan (y / x) - PI else atan (y / x) + PI)
  else if Rltb 0 y then PI / 2
  else if Rltb y 0 then - (PI / 2)
  else 0.

Module Position.
Record t : Type := { x : R; y : R; z : R }.
End Position.

(** ** Motion instructions: [{ hover, angle, speed, altitude }] *)
Module Motion.
Record Instruction : Type :=
  { hover : bool; angle : R; speed : R; altitude : option R }.
End Motion.

(** The hover instruction every command and the controller build. *)
Definition hover_at (alt : option R) : Motion.Instruction :=
  {| Motion.hover := true; Motion.angle := 0; Motion.speed := 0;
     Motion.altitude := alt |}.

(** ** Promises *)

(** A MoveTo target: [{ x, y, z }], [y = null] meaning "keep the altitude". *)
Record Target : Type := { tx : R; ty : option R; tz : R }.

(** The values commands resolve their promise with. *)
Inductive CommandResult : Type :=
| RNull
| RHover (position : Position.t)
| RTakeOff (altitude target : R)
| RLand (altitude : R)
| RMoveTo (position : Position.t) (target : Target)
| RRotateYaw (angle : R).

Inductive Settlement : Type :=
| Resolved (result : CommandResult)
| Rejected (reason : Error).

(** The promise store: a handle that is not bound is pending. *)
Abbreviation Promises := (gmap nat Settlement).

(** The [resolve] / [reject] functions of a promise: the first call settles
    it, later calls do nothing. *)
Definition settle (p : nat) (s : Settlement) (ps : Promises) : Promises :=
  match ps !! p with
  | Some _ => ps
  | None => <[p := s]> ps
  end.

(** The controller's view of the vehicle, built by [DroneControl.getState()]
    and handed to the commands. *)
Inductive ControllerState : Type := IDLE | RUNNING | PAUSED.

Module DroneState.
Record t : Type :=
  { position : Position.t;
    isActive : bool;
    queueLength : nat;
    state : ControllerState;
    currentCommand : option string;
    headingRad : R }.
End DroneState.

(** ** commands.js *)
Module Command.

Module DEFAULT_CONFIG.
Definition maxSpeed : R := 0.2.
Definition minSpeed : R := 0.05.
Definition positionTolerance : R := 0.08.
Definition altitudeTolerance : R := 0.05.
Definition defaultAltitude : R := 1.0.
Definition groundAltitude : R := 0.05.
Definition timeoutMs : R := 30000.
Definition slowdownDistance : R := 0.3.
End DEFAULT_CONFIG.

(** The [options] object of the constructors; an absent key is [None]. *)
Record Options : Type :=
  { o_timeoutMs : option R;
    o_maxSpeed : option R;
    o_minSpeed : option R;
    o_positionTolerance : option R;
    o_altitudeTolerance : option R;
    o_slowdownDistance : option R;
    o_groundAltitude : option R }.

Definition no_options : Options :=
  {| o_timeoutMs := None; o_maxSpeed := None; o_minSpeed := None;
     o_positionTolerance := None; o_altitudeTolerance := None;
     o_slowdownDistance := None; o_groundAltitude := None |}.

(** The fields the subclasses add to [BaseCommand]. *)
Inductive Variant : Type :=
| Base
| Hover (targetAltitude : option R)
| TakeOff (targetAltitude altitudeTolerance : R) (stableFrames : nat)
          (lastAltitude : option R)
| Land (groundAltitude altitudeTolerance : R) (stableFrames : nat)
| MoveTo (target : Target)
         (maxSpeed minSpeed positionTolerance altitudeTolerance
            slowdownDistance : R)
         (stableFrames : nat)
| RotateYaw (targetAngle : R).

Record t : Type :=
  { startTime : option R;
    timeoutMs : R;
    completed : bool;
    error : option Error;
    promise : nat;
    variant : Variant }.

Definition with_variant (v : Variant) (c : t) : t :=
  {| startTime := startTime c; timeoutMs := timeoutMs c;
     completed := completed c; error := error c; promise := promise c;
     variant := v |}.

Definition with_startTime (s : option R) (c : t) : t :=
  {| startTime := s; timeoutMs := timeoutMs c;
     completed := completed c; error := error c; promise := promise c;
     variant := variant c |}.

(** [BaseCommand] constructor; [p] is the promise it allocates. *)
Definition new_base (options : Options) (p : nat) (v : Variant) : t :=
  {| startTime := None;
     timeoutMs := nullish (o_timeoutMs options) DEFAULT_CONFIG.timeoutMs;
     completed := false;
     error := None;
     promise := p;
     variant := v |}.

Definition new_BaseCommand (options : Options) (p : nat) : t :=
  new_base options p Base.

Definition new_HoverCommand (options : Options) (p : nat) : t :=
  new_base options p (Hover None).

Definition new_TakeOffCommand (altitude : option R) (options : Options)
    (p : nat) : t :=
  new_base options p
    (TakeOff (nullish altitude DEFAULT_CONFIG.defaultAltitude)
       (nullish (o_altitudeTolerance options) DEFAULT_CONFIG.altitudeTolerance)
       0 None).

Definition new_LandCommand (options : Options) (p : nat) : t :=
  new_base options p
    (Land (nullish (o_groundAltitude options) DEFAULT_CONFIG.groundAltitude)
       (nullish (o_altitudeTolerance options) DEFAULT_CONFIG.altitudeTolerance)
       0).

(** [target] is the caller's object: absent [x], [z] default to 0, an
    absent [y] stays [null]. *)
Definition new_MoveToCommand (tgx tgy tgz : option R) (options : Options)
    (p : nat) : t :=
  new_base options p
    (MoveTo {| tx := nullish tgx 0; ty := tgy; tz := nullish tgz 0 |}
       (nullish (o_maxSpeed options) DEFAULT_CONFIG.maxSpeed)
       (nullish (o_minSpeed options) DEFAULT_CONFIG.minSpeed)
       (nullish (o_positionTolerance options) DEFAULT_CONFIG.positionTolerance)
       (nullish (o_altitudeTolerance options) DEFAULT_CONFIG.altitudeTolerance)
       (nullish (o_slowdownDistance options) DEFAULT_CONFIG.slowdownDistance)
       0).

Definition new_RotateYawCommand (targetAngle : R) (options : Options)
    (p : nat) : t :=
  new_base options p (RotateYaw targetAngle).

(** [complete(result)] *)
Definition complete (result : CommandResult) (c : t) (ps : Promises)
    : t * Promises :=
  if completed c then (c, ps)
  else ({| startTime := startTime c; timeoutMs := timeoutMs c;
           completed := true; error := error c; promise := promise c;
           variant := variant c |},
        settle (promise c) (Resolved result) ps).

(** [fail(error)] *)
Definition fail (e : Error) (c : t) (ps : Promises) : t * Promises :=
  if completed c then (c, ps)
  else ({| startTime := startTime c; timeoutMs := timeoutMs c;
           completed := true; error := Some e; promise := promise c;
           variant := variant c |},
        settle (promise c) (Rejected e) ps).

Definition cancelled_error : Error := "Command cancelled".
Definition timeout_error : Error := "Command timeout".

(** [cancel()] *)
Definition cancel (c : t) (ps : Promises) : t * Promises :=
  fail cancelled_error c ps.

(** [isComplete(droneState)] *)
Definition isComplete (c : t) : bool := completed c.

(** [BaseCommand.start]: records the start time. *)
Definition start_base (now : R) (c : t) : t := with_startTime (Some now) c.

(** [start(droneState)], by class. *)
Definition start (now : R) (ds : DroneState.t) (c : t) (ps : Promises)
    : t * Promises :=
  let c := start_base now c in
  let pos := DroneState.position ds in
  match variant c with
  | Base => (c, ps)
  | Hover _ =>
      complete (RHover pos) (with_variant (Hover (Some (Position.y pos))) c) ps
  | TakeOff ta tol sf _ =>
      (with_variant (TakeOff ta tol sf (Some (Position.y pos))) c, ps)
  | Land _ _ _ => (c, ps)
  | MoveTo tg mx mn ptol atol sd sf =>
      match ty tg with
      | None =>
          (with_variant
             (MoveTo {| tx := tx tg; ty := Some (Position.y pos); tz := tz tg |}
                mx mn ptol atol sd sf) c, ps)
      | Some _ => (c, ps)
      end
  | RotateYaw a => complete (RRotateYaw a) c ps
  end.

(** The timeout test [BaseCommand.update] starts with. *)
Definition timed_out (now : R) (c : t) : bool :=
  truthy (startTime c)
  && Rgtb (now - to_number (startTime c)) (timeoutMs c).

Definition check_timeout (now : R) (c : t) (ps : Promises) : t * Promises :=
  if timed_out now c then fail timeout_error c ps else (c, ps).

(** [BaseCommand.update] *)
Definition update_base (now : R) (ds : DroneState.t) (c : t) (ps : Promises)
    : t * Promises * Motion.Instruction :=
  (check_timeout now c ps, hover_at (Some (Position.y (DroneState.position ds)))).

(** The speed profile of [MoveToCommand.update], before the final floor. *)
Definition zone_speed (mx mn ptol sd horizontalDist : R) : R :=
  if Rltb horizontalDist (ptol * 2) then mn
  else if Rltb horizontalDist sd then
    let t := horizontalDist / sd in mn + (mx - mn) * t
  else mx.

Definition guarded_speed (speed delta ptol horizontalDist : R) : R :=
  let frameDistance := speed * delta in
  if Rgtb frameDistance horizontalDist && Rgtb horizontalDist ptol
  then horizontalDist / delta * 0.8
  else speed.

(** [update(delta, droneState)], by class. *)
Definition update (now delta : R) (ds : DroneState.t) (c : t) (ps : Promises)
    : t * Promises * Motion.Instruction :=
  let pos := DroneState.position ds in
  match variant c with
  | Base => update_base now ds c ps
  | Hover ta =>
      let '(c, ps, _) := update_base now ds c ps in
      (c, ps, hover_at ta)
  | TakeOff ta tol sf _ =>
      let '(c, ps, _) := update_base now ds c ps in
      let currentY := Position.y pos in
      let diff := Rabs (currentY - ta) in
      let '(c, ps) :=
        if Rltb diff tol then
          let sf := S sf in
          let c := with_variant (TakeOff ta tol sf (Some currentY)) c in
          if (2 <=? sf)%nat then complete (RTakeOff currentY ta) c ps else (c, ps)
        else (with_variant (TakeOff ta tol 0 (Some currentY)) c, ps) in
      (c, ps, hover_at (Some ta))
  | Land ga tol sf =>
      let '(c, ps, _) := update_base now ds c ps in
      let currentY := Position.y pos in
      let diff := Rabs (currentY - ga) in
      let '(c, ps) :=
        if Rltb diff tol then
          let sf := S sf in
          let c := with_variant (Land ga tol sf) c in
          if (2 <=? sf)%nat then complete (RLand currentY) c ps else (c, ps)
        else (with_variant (Land ga tol 0) c, ps) in
      (c, ps, hover_at (Some ga))
  | MoveTo tg mx mn ptol atol sd sf =>
      let '(c, ps, _) := update_base now ds c ps in
      let dx := tx tg - Position.x pos in
      let dz := tz tg - Position.z pos in
      let dy := to_number (ty tg) - Position.y pos in
      let horizontalDist := sqrt (dx * dx + dz * dz) in
      let altitudeDiff := Rabs dy in
      let arrived := Rltb horizontalDist ptol && Rltb altitudeDiff atol in
      let sf := if arrived then S sf else 0%nat in
      let c := with_variant (MoveTo tg mx mn ptol atol sd sf) c in
      if arrived && (2 <=? sf)%nat then
        let position :=
          {| Position.x := Position.x pos; Position.y := Position.y pos;
             Position.z := Position.z pos |} in
        let '(c, ps) := complete (RMoveTo position tg) c ps in
        (c, ps, hover_at (ty tg))
      else
        let angle := atan2 dz dx in
        let speed := zone_speed mx mn ptol sd horizontalDist in
        let speed := guarded_speed speed delta ptol horizontalDist in
        (c, ps,
         {| Motion.hover := false;
            Motion.angle := angle;
            Motion.speed := Rmax speed (mn * 0.8);
            Motion.altitude := ty tg |})
  | RotateYaw _ => (c, ps, hover_at (Some (Position.y pos)))
  end.

(** The class name, [cmd.constructor.name]. *)
Definition className (c : t) : string :=
  match variant c with
  | Base => "BaseCommand"
  | Hover _ => "HoverCommand"
  | TakeOff _ _ _ _ => "TakeOffCommand"
  | Land _ _ _ => "LandCommand"
  | MoveTo _ _ _ _ _ _ _ => "MoveToCommand"
  | RotateYaw _ => "RotateYawCommand"
  end.

(** [start] and [update] are overridable ([BaseCommand] is exported and the
    controller accepts any command object), and an override may throw: a
    method table gives, for each call, the object and the promise store as
    the call leaves them, and the thrown value if it threw. *)
Record Methods : Type :=
  { m_start : R -> DroneState.t -> t -> Promises -> t * Promises * option Error;
    m_update : R -> R -> DroneState.t -> t -> Promises
               -> t * Promises * (Motion.Instruction + Error) }.

(** The classes of commands.js: neither method throws. *)
Definition builtin : Methods :=
  {| m_start := fun now ds c ps => (start now ds c ps, None);
     m_update := fun now delta ds c ps =>
                   let '(c, ps, instr) := update now delta ds c ps in
                   (c, ps, inl instr) |}.

End Command.

(** ** The vehicle *)

(** Modelled from the spec: DroneMovement.js is not part of the sources; the
    controller reads [movement.model] (null until the vehicle's model is
    loaded; its [position] otherwise) and [movement.currentAngle], and hands
    every motion instruction to [movement.setMovementCommand], "the only
    channel used to drive vehicle motion", which keeps the instruction as the
    one to apply. *)
Module Movement.
Record t : Type :=
  { model : option Position.t;
    currentAngle : option R;
    command : option Motion.Instruction }.

Definition setMovementCommand (cmd : Motion.Instruction) (m : t) : t :=
  {| model := model m; currentAngle := currentAngle m; command := Some cmd |}.
End Movement.

(** ** What the controller shares with its environment *)

(** The calls of the observer callbacks and of [console.error]. *)
Inductive Notification : Type :=
| CommandStart (c : Command.t)
| CommandComplete (c : Command.t)
| CommandError (c : Command.t) (e : Error)
| StateChange (newState oldState : ControllerState)
| ExecutionError (e : Error).

Record Runtime : Type :=
  { promises : Promises;
    nextPromise : nat;
    log : list Notification }.

Definition with_promises (ps : Promises) (rt : Runtime) : Runtime :=
  {| promises := ps; nextPromise := nextPromise rt; log := log rt |}.

Definition notify (n : Notification) (rt : Runtime) : Runtime :=
  {| promises := promises rt; nextPromise := nextPromise rt;
     log := log rt ++ [n] |}.

(** [new Promise(...)]: a fresh, pending handle. *)
Definition new_promise (rt : Runtime) : nat * Runtime :=
  (nextPromise rt,
   {| promises := promises rt; nextPromise := S (nextPromise rt);
      log := log rt |}).

Definition state_eqb (a b : ControllerState) : bool :=
  match a, b with
  | IDLE, IDLE | RUNNING, RUNNING | PAUSED, PAUSED => true
  | _, _ => false
  end.

(** ** DroneControl.js *)
Module DroneControl.

Record t : Type :=
  { movement : Movement.t;
    state : ControllerState;
    currentCommand : option Command.t;
    commandQueue : list Command.t;
    paused : bool }.

(** [new DroneControl(movement)] *)
Definition new (movement : Movement.t) : t :=
  {| movement := movement; state := IDLE; currentCommand := None;
     commandQueue := []; paused := false |}.

Definition with_movement (m : Movement.t) (ctl : t) : t :=
  {| movement := m; state := state ctl;
     currentCommand := currentCommand ctl;
     commandQueue := commandQueue ctl; paused := paused ctl |}.

Definition with_state (s : ControllerState) (ctl : t) : t :=
  {| movement := movement ctl; state := s;
     currentCommand := currentCommand ctl;
     commandQueue := commandQueue ctl; paused := paused ctl |}.

Definition with_currentCommand (c : option Command.t) (ctl : t) : t :=
  {| movement := movement ctl; state := state ctl; currentCommand := c;
     commandQueue := commandQueue ctl; paused := paused ctl |}.

Definition with_commandQueue (q : list Command.t) (ctl : t) : t :=
  {| movement := movement ctl; state := state ctl;
     currentCommand := currentCommand ctl;
     commandQueue := q; paused := paused ctl |}.

Definition with_paused (b : bool) (ctl : t) : t :=
  {| movement := movement ctl; state := state ctl;
     currentCommand := currentCommand ctl;
     commandQueue := commandQueue ctl; paused := b |}.

(** [isActive()] *)
Definition isActive (ctl : t) : bool :=
  match currentCommand ctl with Some _ => true | None => false end
  || (0 <? length (commandQueue ctl))%nat.

(** [getState()] *)
Definition getState (ctl : t) : DroneState.t :=
  {| DroneState.position :=
       match Movement.model (movement ctl) with
       | Some pos =>
           {| Position.x := Position.x pos; Position.y := Position.y pos;
              Position.z := Position.z pos |}
       | None => {| Position.x := 0; Position.y := 0; Position.z := 0 |}
       end;
     DroneState.isActive := isActive ctl;
     DroneState.queueLength := length (commandQueue ctl);
     DroneState.state := state ctl;
     DroneState.currentCommand :=
       match currentCommand ctl with
       | Some c => Some (Command.className c)
       | None => None
       end;
     DroneState.headingRad :=
       nullish (Movement.currentAngle (movement ctl)) 0 |}.

(** [_setState(newState)] *)
Definition _setState (newState : ControllerState) (ctl : t) (rt : Runtime)
    : t * Runtime :=
  if state_eqb (state ctl) newState then (ctl, rt)
  else (with_state newState ctl,
        notify (StateChange newState (state ctl)) rt).

(** The hover instruction [cancel] and [pause] write when a vehicle is
    attached. *)
Definition hoverInPlace (ctl : t) : t :=
  match Movement.model (movement ctl) with
  | Some pos =>
      with_movement
        (Movement.setMovementCommand (hover_at (Some (Position.y pos))) (movement ctl))
        ctl
  | None => ctl
  end.

(** The loop of [cancel] over the queue: [shift] then [cmd.cancel()]. *)
Fixpoint cancelQueue (q : list Command.t) (ps : Promises) : Promises :=
  match q with
  | [] => ps
  | cmd :: q => cancelQueue q (snd (Command.cancel cmd ps))
  end.

(** [cancel()] *)
Definition cancel (ctl : t) (rt : Runtime) : t * Runtime :=
  let ps := promises rt in
  let ps :=
    match currentCommand ctl with
    | Some c => snd (Command.cancel c ps)
    | None => ps
    end in
  let ctl := with_currentCommand None ctl in
  let ps := cancelQueue (commandQueue ctl) ps in
  let ctl := with_commandQueue [] ctl in
  let '(ctl, rt) := _setState IDLE ctl (with_promises ps rt) in
  (hoverInPlace ctl, rt).

(** [pause()] *)
Definition pause (ctl : t) (rt : Runtime) : t * Runtime :=
  if state_eqb (state ctl) RUNNING then
    let ctl := with_paused true ctl in
    let '(ctl, rt) := _setState PAUSED ctl rt in
    (hoverInPlace ctl, rt)
  else (ctl, rt).

(** [resume()] *)
Definition resume (ctl : t) (rt : Runtime) : t * Runtime :=
  if state_eqb (state ctl) PAUSED then
    let ctl := with_paused false ctl in
    _setState RUNNING ctl rt
  else (ctl, rt).

(** [enqueue(command)]; the result is [command.promise]. *)
Definition enqueue (command : Command.t) (ctl : t) (rt : Runtime)
    : t * Runtime * nat :=
  (with_commandQueue (commandQueue ctl ++ [command]) ctl, rt,
   Command.promise command).

(** [executeImmediate(command)] *)
Definition executeImmediate (command : Command.t) (ctl : t) (rt : Runtime)
    : t * Runtime * nat :=
  let '(ctl, rt) := cancel ctl rt in
  enqueue command ctl rt.

(** [hover()] *)
Definition hover (ctl : t) (rt : Runtime) : t * Runtime * nat :=
  let '(p, rt) := new_promise rt in
  executeImmediate (Command.new_HoverCommand Command.no_options p) ctl rt.

(** [takeOff(altitude, options)] *)
Definition takeOff (altitude : option R) (options : Command.Options)
    (ctl : t) (rt : Runtime) : t * Runtime * nat :=
  let altitude := nullish altitude Command.DEFAULT_CONFIG.defaultAltitude in
  let '(p, rt) := new_promise rt in
  enqueue (Command.new_TakeOffCommand (Some altitude) options p) ctl rt.

(** [land(options)] *)
Definition land (options : Command.Options) (ctl : t) (rt : Runtime)
    : t * Runtime * nat :=
  let '(p, rt) := new_promise rt in
  enqueue (Command.new_LandCommand options p) ctl rt.

(** [moveTo(target, options)] *)
Definition moveTo (tgx tgy tgz : option R) (options : Command.Options)
    (ctl : t) (rt : Runtime) : t * Runtime * nat :=
  let '(p, rt) := new_promise rt in
  enqueue (Command.new_MoveToCommand tgx tgy tgz options p) ctl rt.

(** [rotateYaw(angle, options)] *)
Definition rotateYaw (angle : R) (options : Command.Options)
    (ctl : t) (rt : Runtime) : t * Runtime * nat :=
  let '(p, rt) := new_promise rt in
  enqueue (Command.new_RotateYawCommand angle options p) ctl rt.

Section Tick.

(** The methods the commands in the controller dispatch to. *)
Variable M : Command.Methods.

(** [_startNextCommand()]; [Some e] when [start] threw [e]. *)
Definition _startNextCommand (now : R) (ctl : t) (rt : Runtime)
    : t * Runtime * option Error :=
  match commandQueue ctl with
  | [] => (ctl, rt, None)
  | c :: rest =>
      let ctl := with_commandQueue rest (with_currentCommand (Some c) ctl) in
      let '(ctl, rt) := _setState RUNNING ctl rt in
      let droneState := getState ctl in
      let '(c, ps, thrown) :=
        Command.m_start M now droneState c (promises rt) in
      let ctl := with_currentCommand (Some c) ctl in
      let rt := with_promises ps rt in
      match thrown with
      | Some e => (ctl, rt, Some e)
      | None => (ctl, notify (CommandStart c) rt, None)
      end
  end.

(** The [try] block of [update]; [Some e] when it threw [e]. *)
Definition tryUpdate (now delta : R) (droneState : DroneState.t)
    (c : Command.t) (ctl : t) (rt : Runtime) : t * Runtime * option Error :=
  let '(c, ps, r) := Command.m_update M now delta droneState c (promises rt) in
  let ctl := with_currentCommand (Some c) ctl in
  let rt := with_promises ps rt in
  match r with
  | inr e => (ctl, rt, Some e)
  | inl movementCmd =>
      let ctl :=
        with_movement
          (Movement.setMovementCommand movementCmd (movement ctl)) ctl in
      if Command.completed c then
        let rt :=
          match Command.error c with
          | Some e => notify (CommandError c e) rt
          | None => notify (CommandComplete c) rt
          end in
        let ctl := with_currentCommand None ctl in
        if (0 <? length (commandQueue ctl))%nat
        then _startNextCommand now ctl rt
        else (ctl, rt, None)
      else (ctl, rt, None)
  end.

(** The [catch] block of [update]. With no current command,
    [this.currentCommand.fail] is itself a fault. *)
Definition catchUpdate (e : Error) (ctl : t) (rt : Runtime)
    : t * Runtime * option Error :=
  let rt := notify (ExecutionError e) rt in
  match currentCommand ctl with
  | Some c =>
      let '(c, ps) := Command.fail e c (promises rt) in
      let rt := notify (CommandError c e) (with_promises ps rt) in
      (with_currentCommand None ctl, rt, None)
  | None => (ctl, rt, Some "TypeError: Cannot read properties of null")
  end.

(** [update(delta)]: [inl b] when it returns [b], [inr e] when the fault
    [e] leaves the call. *)
Definition update (now delta : R) (ctl : t) (rt : Runtime)
    : t * Runtime * (bool + Error) :=
  if paused ctl
     || match Movement.model (movement ctl) with
        | Some _ => false
        | None => true
        end
  then (ctl, rt, inl false)
  else
    let '(ctl, rt, thrown) :=
      if match currentCommand ctl with Some _ => false | None => true end
         && (0 <? length (commandQueue ctl))%nat
      then _startNextCommand now ctl rt
      else (ctl, rt, None) in
    match thrown with
    | Some e => (ctl, rt, inr e)
    | None =>
        match currentCommand ctl with
        | None =>
            let '(ctl, rt) :=
              if state_eqb (state ctl) IDLE then (ctl, rt)
              else _setState IDLE ctl rt in
            (ctl, rt, inl false)
        | Some c =>
            let droneState := getState ctl in
            let '(ctl, rt, thrown) := tryUpdate now delta droneState c ctl rt in
            match thrown with
            | None => (ctl, rt, inl true)
            | Some e =>
                let '(ctl, rt, thrown) := catchUpdate e ctl rt in
                match thrown with
                | None => (ctl, rt, inl true)
                | Some e => (ctl, rt, inr e)
                end
            end
        end
    end.

End Tick.

End DroneControl.

(** ** drone.js: the part that drives the controller *)
Module Drone.

(** [control.movement] and [drone.movement] are one object: it is kept in
    the controller. [_controllerActive] is undefined until the first tick. *)
Record t : Type :=
  { control : DroneControl.t;
    _controllerActive : option bool }.

(** [isControllerActive()] *)
Definition isControllerActive (d : t) : bool :=
  nullish (_controllerActive d) false || DroneControl.isActive (control d).

Section Update.

Variable M : Command.Methods.

(** [movement.update(delta)], the vehicle's own dynamics (DroneMovement.js). *)
Variable movementUpdate : R -> Movement.t -> Movement.t.

(** [update(delta)], up to the bookkeeping of [_controllerActive];
    [Some e] when the controller's tick let the fault [e] through. *)
Definition update (now delta : R) (d : t) (rt : Runtime)
    : t * Runtime * option Error :=
  match DroneControl.update M now delta (control d) rt with
  | (ctl, rt, inr e) =>
      ({| control := ctl; _controllerActive := _controllerActive d |},
       rt, Some e)
  | (ctl, rt, inl controllerActive) =>
      let ctl :=
        DroneControl.with_movement
          (movementUpdate delta (DroneControl.movement ctl)) ctl in
      ({| control := ctl; _controllerActive := Some controllerActive |},
       rt, None)
  end.

End Update.

End Drone.

(** ** mission.js *)

(** A waypoint object; an absent key is [None]. *)
Module Waypoint.
Record t : Type :=
  { type : option string;
    x : option R;
    y : option R;
    z : option R;
    altitude : option R;
    durationMs : option R;
    options : option Command.Options }.
End Waypoint.

Module Mission.

Inductive MissionState : Type :=
| PENDING | RUNNING | PAUSED | COMPLETED | CANCELLED | FAILED.

Definition state_eqb (a b : MissionState) : bool :=
  match a, b with
  | PENDING, PENDING | RUNNING, RUNNING | PAUSED, PAUSED
  | COMPLETED, COMPLETED | CANCELLED, CANCELLED | FAILED, FAILED => true
  | _, _ => false
  end.

(** What [_executeWaypoint] returns. *)
Inductive WaypointResult : Type :=
| FromCommand (result : CommandResult)
| Hovered (duration : R).

(** An entry of [results]: [{ index, success: true, result }] or
    [{ index, success: false, error }]. *)
Inductive ResultEntry : Type :=
| Success (index : nat) (result : WaypointResult)
| Failure (index : nat) (error : Error).

Definition index (r : ResultEntry) : nat :=
  match r with Success i _ | Failure i _ => i end.

Definition success (r : ResultEntry) : bool :=
  match r with Success _ _ => true | Failure _ _ => false end.

(** The value the mission's promise resolves with. *)
Record Summary : Type :=
  { duration : R;
    s_results : list ResultEntry;
    waypointsCompleted : nat;
    waypointsTotal : nat }.

Inductive MissionSettlement : Type :=
| MResolved (summary : Summary)
| MRejected (reason : Error).

(** Where [run] is suspended: at the [await] of a controller promise, at
    the [await] of the promise of [hover()] (the delay still to come), or at
    the [await] of the delay. *)
Inductive Continuation : Type :=
| NotSuspended
| AwaitCommand (i : nat) (p : nat)
| AwaitHover (i : nat) (p : nat) (durationMs : R)
| AwaitDelay (i : nat) (durationMs : R).

(** The calls [run] makes to the outside, in order: the three option
    callbacks, and the controller call of [_executeWaypoint]. *)
Inductive Event : Type :=
| Progress (current total : nat) (waypoint : Waypoint.t)
| ControllerCall (i : nat) (waypoint : Waypoint.t)
| WaypointComplete (i : nat) (result : WaypointResult)
| ErrorCallback (error : Error) (i : nat).

Record t : Type :=
  { waypoints : list Waypoint.t;
    continueOnError : bool;
    timeoutMs : R;
    state : MissionState;
    currentIndex : nat;
    startTime : option R;
    results : list ResultEntry;
    cancelled : bool;
    promise : option MissionSettlement;
    control : bool;
    continuation : Continuation;
    trace : list Event }.

(** [new Mission(waypoints, options)]: [continueOnError || false],
    [timeoutMs || 300000]. *)
Definition new (waypoints : list Waypoint.t) (continueOnError : option bool)
    (timeoutMs : option R) : t :=
  {| waypoints := waypoints;
     continueOnError := nullish continueOnError false;
     timeoutMs := if truthy timeoutMs then to_number timeoutMs else 300000;
     state := PENDING;
     currentIndex := 0;
     startTime := None;
     results := [];
     cancelled := false;
     promise := None;
     control := false;
     continuation := NotSuspended;
     trace := [] |}.

Definition with_state (s : MissionState) (m : t) : t :=
  {| waypoints := waypoints m; continueOnError := continueOnError m;
     timeoutMs := timeoutMs m; state := s; currentIndex := currentIndex m;
     startTime := startTime m; results := results m;
     cancelled := cancelled m; promise := promise m; control := control m;
     continuation := continuation m; trace := trace m |}.

Definition with_currentIndex (i : nat) (m : t) : t :=
  {| waypoints := waypoints m; continueOnError := continueOnError m;
     timeoutMs := timeoutMs m; state := state m; currentIndex := i;
     startTime := startTime m; results := results m;
     cancelled := cancelled m; promise := promise m; control := control m;
     continuation := continuation m; trace := trace m |}.

Definition with_results (r : list ResultEntry) (m : t) : t :=
  {| waypoints := waypoints m; continueOnError := continueOnError m;
     timeoutMs := timeoutMs m; state := state m;
     currentIndex := currentIndex m;
     startTime := startTime m; results := r;
     cancelled := cancelled m; promise := promise m; control := control m;
     continuation := continuation m; trace := trace m |}.

Definition with_cancelled (b : bool) (m : t) : t :=
  {| waypoints := waypoints m; continueOnError := continueOnError m;
     timeoutMs := timeoutMs m; state := state m;
     currentIndex := currentIndex m;
     startTime := startTime m; results := results m;
     cancelled := b; promise := promise m; control := control m;
     continuation := continuation m; trace := trace m |}.

Definition with_continuation (k : Continuation) (m : t) : t :=
  {| waypoints := waypoints m; continueOnError := continueOnError m;
     timeoutMs := timeoutMs m; state := state m;
     currentIndex := currentIndex m;
     startTime := startTime m; results := results m;
     cancelled := cancelled m; promise := promise m; control := control m;
     continuation := k; trace := trace m |}.

Definition emit (e : Event) (m : t) : t :=
  {| waypoints := waypoints m; continueOnError := continueOnError m;
     timeoutMs := timeoutMs m; state := state m;
     currentIndex := currentIndex m;
     startTime := startTime m; results := results m;
     cancelled := cancelled m; promise := promise m; control := control m;
     continuation := continuation m; trace := trace m ++ [e] |}.

(** [this._resolve] / [this._reject]: the first call settles the promise. *)
Definition settleMission (s : MissionSettlement) (m : t) : t :=
  match promise m with
  | Some _ => m
  | None =>
      {| waypoints := waypoints m; continueOnError := continueOnError m;
         timeoutMs := timeoutMs m; state := state m;
         currentIndex := currentIndex m;
         startTime := startTime m; results := results m;
         cancelled := cancelled m; promise := Some s; control := control m;
         continuation := continuation m; trace := trace m |}
  end.

(** The mission, the controller it runs on, and the runtime. *)
Record World : Type :=
  { mission : t;
    controller : DroneControl.t;
    runtime : Runtime }.

Definition with_mission (m : t) (w : World) : World :=
  {| mission := m; controller := controller w; runtime := runtime w |}.

(** [_executeWaypoint(waypoint)] up to its first [await]: the controller
    call and the promise awaited. *)
Definition _executeWaypoint (i : nat) (waypoint : Waypoint.t)
    (ctl : DroneControl.t) (rt : Runtime)
    : DroneControl.t * Runtime * Continuation :=
  let type := match Waypoint.type waypoint with
              | Some EmptyString | None => "moveTo"
              | Some s => s
              end in
  let options := nullish (Waypoint.options waypoint) Command.no_options in
  if String.eqb type "takeOff" then
    let '(ctl, rt, p) :=
      DroneControl.takeOff (Waypoint.altitude waypoint) options ctl rt in
    (ctl, rt, AwaitCommand i p)
  else if String.eqb type "land" then
    let '(ctl, rt, p) := DroneControl.land options ctl rt in
    (ctl, rt, AwaitCommand i p)
  else if String.eqb type "hover" then
    let durationMs :=
      if truthy (Waypoint.durationMs waypoint)
      then to_number (Waypoint.durationMs waypoint) else 1000 in
    let '(ctl, rt, p) := DroneControl.hover ctl rt in
    (ctl, rt, AwaitHover i p durationMs)
  else
    let '(ctl, rt, p) :=
      DroneControl.moveTo (Waypoint.x waypoint) (Waypoint.y waypoint)
        (Waypoint.z waypoint) options ctl rt in
    (ctl, rt, AwaitCommand i p).

Definition cancelled_error : Error := "Mission cancelled".
Definition timeout_error : Error := "Mission timeout".
Definition started_error : Error := "Mission already started".

(** The [for] loop of [run] entered at index [i], up to the next [await]
    or to the end of [run]. Nothing in the loop body throws outside the
    inner [try] (the callbacks are recorded, not run), so the outer [catch]
    has no case here. *)
Definition iterate (now : R) (i : nat) (w : World) : World :=
  let m := mission w in
  match waypoints m !! i with
  | None =>
      let m := with_state COMPLETED m in
      let m :=
        settleMission
          (MResolved
             {| duration := now - to_number (startTime m);
                s_results := results m;
                waypointsCompleted := length (List.filter success (results m));
                waypointsTotal := length (waypoints m) |}) m in
      with_mission (with_continuation NotSuspended m) w
  | Some waypoint =>
      if cancelled m then
        let m := with_state CANCELLED m in
        let m := settleMission (MRejected cancelled_error) m in
        with_mission (with_continuation NotSuspended m) w
      else if Rgtb (now - to_number (startTime m)) (timeoutMs m) then
        let m := with_state FAILED m in
        let m := settleMission (MRejected timeout_error) m in
        with_mission (with_continuation NotSuspended m) w
      else
        let m := with_currentIndex i m in
        let m := emit (Progress i (length (waypoints m)) waypoint) m in
        let m := emit (ControllerCall i waypoint) m in
        let '(ctl, rt, k) :=
          _executeWaypoint i waypoint (controller w) (runtime w) in
        {| mission := with_continuation k m; controller := ctl; runtime := rt |}
  end.

(** [run(control)]; [Some e] when the call throws [e]. *)
Definition run (now : R) (w : World) : World * option Error :=
  let m := mission w in
  if negb (state_eqb (state m) PENDING) then (w, Some started_error)
  else
    let m := with_state RUNNING m in
    let m :=
      {| waypoints := waypoints m; continueOnError := continueOnError m;
         timeoutMs := timeoutMs m; state := state m;
         currentIndex := currentIndex m;
         startTime := Some now; results := results m;
         cancelled := cancelled m; promise := promise m; control := true;
         continuation := continuation m; trace := trace m |} in
    (iterate now 0 (with_mission m w), None).

(** The body of the inner [try] after [_executeWaypoint] returned [result]. *)
Definition waypointDone (now : R) (i : nat) (result : WaypointResult)
    (w : World) : World :=
  let m := mission w in
  let m := with_results (results m ++ [Success i result]) m in
  let m := emit (WaypointComplete i result) m in
  iterate now (S i) (with_mission m w).

(** The inner [catch]. *)
Definition waypointFailed (now : R) (i : nat) (error : Error) (w : World)
    : World :=
  let m := mission w in
  let m := with_results (results m ++ [Failure i error]) m in
  let m := emit (ErrorCallback error i) m in
  if negb (continueOnError m) then
    let m := with_state FAILED m in
    let m := settleMission (MRejected error) m in
    with_mission (with_continuation NotSuspended m) w
  else iterate now (S i) (with_mission m w).

(** [run] resumes when the promise it awaits has settled. *)
Definition resumeRun (now : R) (w : World) : World :=
  match continuation (mission w) with
  | AwaitCommand i p =>
      match promises (runtime w) !! p with
      | Some (Resolved result) => waypointDone now i (FromCommand result) w
      | Some (Rejected error) => waypointFailed now i error w
      | None => w
      end
  | AwaitHover i p durationMs =>
      match promises (runtime w) !! p with
      | Some (Resolved _) =>
          with_mission
            (with_continuation (AwaitDelay i durationMs) (mission w)) w
      | Some (Rejected error) => waypointFailed now i error w
      | None => w
      end
  | AwaitDelay _ _ | NotSuspended => w
  end.

(** The timer of [_delay] fires. *)
Definition delayElapsed (now : R) (w : World) : World :=
  match continuation (mission w) with
  | AwaitDelay i durationMs => waypointDone now i (Hovered durationMs) w
  | _ => w
  end.

(** [cancel()] *)
Definition cancel (w : World) : World :=
  let m := with_cancelled true (mission w) in
  if control m then
    let '(ctl, rt) := DroneControl.cancel (controller w) (runtime w) in
    {| mission := m; controller := ctl; runtime := rt |}
  else with_mission m w.

(** [pause()] *)
Definition pause (w : World) : World :=
  let m := mission w in
  if state_eqb (state m) RUNNING then
    let m := with_state PAUSED m in
    if control m then
      let '(ctl, rt) := DroneControl.pause (controller w) (runtime w) in
      {| mission := m; controller := ctl; runtime := rt |}
    else with_mission m w
  else w.

(** [resume()] *)
Definition resume (w : World) : World :=
  let m := mission w in
  if state_eqb (state m) PAUSED then
    let m := with_state RUNNING m in
    if control m then
      let '(ctl, rt) := DroneControl.resume (controller w) (runtime w) in
      {| mission := m; controller := ctl; runtime := rt |}
    else with_mission m w
  else w.

(** [getProgress()], without the rounded percentage. *)
Definition getProgress (m : t) : nat * nat * MissionState :=
  (currentIndex m, length (waypoints m), state m).

End Mission.

(** ** DroneWsBridge: relative moves and missions *)
Module DroneWsBridge.

(** The [args] of a [move_relative] message; an absent key is [None]. *)
Record RelativeArgs : Type :=
  { frame : option string;
    forward : option R;
    right : option R;
    up : option R;
    options : option Command.Options }.

(** [nextTarget] in the [move_relative] case of [_executeCommand]. [state]
    is [drone.getState()], whose [position] and [headingRad] are those of
    the controller's [getState()], both always present. *)
Definition nextTarget (state : DroneState.t) (args : RelativeArgs) : Target :=
  let pos := DroneState.position state in
  let headingRad := DroneState.headingRad state in
  let frame := nullish (frame args) "world" in
  let forward := nullish (forward args) 0 in
  let right := nullish (right args) 0 in
  let up := nullish (up args) 0 in
  if String.eqb frame "body" then
    let fx := cos headingRad in
    let fz := sin headingRad in
    let rx := cos (headingRad + PI / 2) in
    let rz := sin (headingRad + PI / 2) in
    {| tx := Position.x pos + fx * forward + rx * right;
       ty := Some (Position.y pos + up);
       tz := Position.z pos + fz * forward + rz * right |}
  else
    {| tx := Position.x pos + right;
       ty := Some (Position.y pos + up);
       tz := Position.z pos - forward |}.

(** The [move_relative] case up to its [await]: [api.moveTo(nextTarget,
    args.options)], and the promise awaited. *)
Definition moveRelative (args : RelativeArgs) (ctl : DroneControl.t)
    (rt : Runtime) : DroneControl.t * Runtime * nat :=
  let state := DroneControl.getState ctl in
  let target := nextTarget state args in
  DroneControl.moveTo (Some (tx target)) (ty target) (Some (tz target))
    (nullish (options args) Command.no_options) ctl rt.

(** The bridge and what it drives: the controller of its drone, the
    runtime, the missions it has started (a mission object is named by its
    number in this list) and [currentMission]. *)
Record t : Type :=
  { control : DroneControl.t;
    runtime : Runtime;
    missions : list Mission.t;
    currentMission : option nat }.

(** The mission [i] together with the controller it runs on. *)
Definition world (m : Mission.t) (b : t) : Mission.World :=
  {| Mission.mission := m;
     Mission.controller := control b;
     Mission.runtime := runtime b |}.

(** What a call on the mission [i] leaves: the mission object, the
    controller and the runtime. *)
Definition store (i : nat) (w : Mission.World) (b : t) : t :=
  {| control := Mission.controller w;
     runtime := Mission.runtime w;
     missions := <[i := Mission.mission w]> (missions b);
     currentMission := currentMission b |}.

(** [if (this.currentMission) this.currentMission.cancel()] *)
Definition cancelCurrent (b : t) : t :=
  match currentMission b with
  | Some i =>
      match missions b !! i with
      | Some m => store i (Mission.cancel (world m b)) b
      | None => b
      end
  | None => b
  end.

Definition not_an_array : Error := "waypoints must be an array".

(** [_runMission(args)] up to its [await]: the mission whose promise is
    awaited, or the error thrown. [waypoints] is [None] when [args.waypoints]
    is not an array; the options are those of [args.options] that can come
    in a message. [runMission] is [new Mission] and [mission.run(control)],
    whose promise is dropped. *)
Definition _runMission (waypoints : option (list Waypoint.t))
    (continueOnError : option bool) (timeoutMs : option R) (now : R) (b : t)
    : t * (nat + Error) :=
  match waypoints with
  | None => (b, inr not_an_array)
  | Some waypoints =>
      let b := cancelCurrent b in
      let mission := Mission.new waypoints continueOnError timeoutMs in
      let w := fst (Mission.run now (world mission b)) in
      let i := length (missions b) in
      ({| control := Mission.controller w;
          runtime := Mission.runtime w;
          missions := missions b ++ [Mission.mission w];
          currentMission := Some i |},
       inl i)
  end.

(** [_runMission] resumes from [await mission.promise] once the mission
    [i] it started has settled: [this.currentMission = null], whether the
    promise was resolved or rejected. *)
Definition missionSettled (i : nat) (b : t) : t :=
  match missions b !! i with
  | Some m =>
      match Mission.promise m with
      | Some _ =>
          {| control := control b; runtime := runtime b;
             missions := missions b; currentMission := None |}
      | None => b
      end
  | None => b
  end.

End DroneWsBridge.

(** ** The MCP server: BrowserBridge *)

(** The bridge between the MCP tools and the browser: the handlers of the
    socket events and the two send functions, as functions on the state of
    the bridge. A timer may come due at any moment (the delay,
    [REQUEST_TIMEOUT], is not modelled); a message is given parsed. *)
Module BrowserBridge.

(** A JSON value (a result, the arguments of a command). *)
#[warnings="-register-all"] Inductive Json : Type :=
| JNull
| JBool (b : bool)
| JNumber (n : R)
| JString (s : string)
| JArray (items : list Json)
| JObject (fields : list (string * Json)).

(** The outcome of the promise [sendCommand] / [sendQuery] return. *)
Inductive Outcome : Type :=
| Answered (result : Json)
| Failed (reason : Error).

(** [resolve] / [reject]: the first call settles the promise. *)
Definition settle (p : nat) (o : Outcome) (os : gmap nat Outcome)
    : gmap nat Outcome :=
  match os !! p with
  | Some _ => os
  | None => <[p := o]> os
  end.

(** An entry of [pendingRequests]: the promise whose [resolve] and [reject]
    it holds, and the timer. *)
Record Pending : Type := { promise : nat; timer : nat }.

(** The callback of a timeout timer: the id it deletes, the promise it
    rejects, and the message. *)
Record Timeout : Type :=
  { t_requestId : string; t_promise : nat; t_message : string }.

(** What is sent to the browser. *)
Record Request : Type :=
  { r_type : string; r_requestId : string; r_action : string;
    r_args : option Json }.

(** A parsed message of the browser, by the fields the handlers read;
    [ok] is the truthiness of [message.ok]. *)
Record Message : Type :=
  { type : option string;
    client : option string;
    requestId : option string;
    ok : bool;
    result : Json;
    error : option string }.

Inductive ReadyState : Type := CONNECTING | OPEN | CLOSING | CLOSED.

(** The bridge, the promises it has returned, the timers that are armed,
    and what it has sent (to which socket). Sockets, promises and timers are
    named by numbers. *)
Record t : Type :=
  { browser : option nat;
    pendingRequests : gmap string Pending;
    requestCounter : N;
    outcomes : gmap nat Outcome;
    nextPromise : nat;
    timers : gmap nat Timeout;
    nextTimer : nat;
    sent : list (nat * Request) }.

(** [new BrowserBridge(port)] *)
Definition new : t :=
  {| browser := None; pendingRequests := ∅; requestCounter := 0;
     outcomes := ∅; nextPromise := 0; timers := ∅; nextTimer := 0;
     sent := [] |}.

Definition not_connected : Error :=
  "Browser not connected. Please open the drone simulator in your browser.".

(** [`req_${++this.requestCounter}_${Date.now()}`], after the increment. *)
Definition requestIdOf (counter now : N) : string :=
  "req_" +:+ pretty counter +:+ "_" +:+ pretty now.

Definition is_open (s : ReadyState) : bool :=
  match s with OPEN => true | _ => false end.

(** [sendCommand(action, args)]; [readyState] is that of the browser's
    socket and [now] is [Date.now()], both as the call reads them. The
    result is the promise. *)
Definition sendCommand (action : string) (args : Json)
    (readyState : ReadyState) (now : N) (b : t) : t * nat :=
  let p := nextPromise b in
  match browser b with
  | Some ws =>
      if is_open readyState then
        let counter := (requestCounter b + 1)%N in
        let requestId := requestIdOf counter now in
        let tm := nextTimer b in
        ({| browser := browser b;
            pendingRequests :=
              <[requestId := {| promise := p; timer := tm |}]>
                (pendingRequests b);
            requestCounter := counter;
            outcomes := outcomes b;
            nextPromise := S p;
            timers :=
              <[tm := {| t_requestId := requestId; t_promise := p;
                         t_message := "Request timeout: " +:+ action |}]>
                (timers b);
            nextTimer := S tm;
            sent := sent b
                    ++ [(ws, {| r_type := "command"; r_requestId := requestId;
                                r_action := action; r_args := Some args |})] |},
         p)
      else
        ({| browser := browser b; pendingRequests := pendingRequests b;
            requestCounter := requestCounter b;
            outcomes := settle p (Failed not_connected) (outcomes b);
            nextPromise := S p; timers := timers b; nextTimer := nextTimer b;
            sent := sent b |}, p)
  | None =>
      ({| browser := browser b; pendingRequests := pendingRequests b;
          requestCounter := requestCounter b;
          outcomes := settle p (Failed not_connected) (outcomes b);
          nextPromise := S p; timers := timers b; nextTimer := nextTimer b;
          sent := sent b |}, p)
  end.

(** [sendQuery(action)] *)
Definition sendQuery (action : string) (readyState : ReadyState) (now : N)
    (b : t) : t * nat :=
  let p := nextPromise b in
  match browser b with
  | Some ws =>
      if is_open readyState then
        let counter := (requestCounter b + 1)%N in
        let requestId := requestIdOf counter now in
        let tm := nextTimer b in
        ({| browser := browser b;
            pendingRequests :=
              <[requestId := {| promise := p; timer := tm |}]>
                (pendingRequests b);
            requestCounter := counter;
            outcomes := outcomes b;
            nextPromise := S p;
            timers :=
              <[tm := {| t_requestId := requestId; t_promise := p;
                         t_message := "Query timeout: " +:+ action |}]>
                (timers b);
            nextTimer := S tm;
            sent := sent b
                    ++ [(ws, {| r_type := "query"; r_requestId := requestId;
                                r_action := action; r_args := None |})] |},
         p)
      else
        ({| browser := browser b; pendingRequests := pendingRequests b;
            requestCounter := requestCounter b;
            outcomes := settle p (Failed not_connected) (outcomes b);
            nextPromise := S p; timers := timers b; nextTimer := nextTimer b;
            sent := sent b |}, p)
  | None =>
      ({| browser := browser b; pendingRequests := pendingRequests b;
          requestCounter := requestCounter b;
          outcomes := settle p (Failed not_connected) (outcomes b);
          nextPromise := S p; timers := timers b; nextTimer := nextTimer b;
          sent := sent b |}, p)
  end.

(** A timer comes due: the callback given to [setTimeout] runs, unless the
    timer was cleared. *)
Definition timerFires (tm : nat) (b : t) : t :=
  match timers b !! tm with
  | None => b
  | Some callback =>
      {| browser := browser b;
         pendingRequests := delete (t_requestId callback) (pendingRequests b);
         requestCounter := requestCounter b;
         outcomes :=
           settle (t_promise callback) (Failed (t_message callback))
             (outcomes b);
         nextPromise := nextPromise b;
         timers := delete tm (timers b);
         nextTimer := nextTimer b;
         sent := sent b |}
  end.

(** [message.error || 'Unknown error'] *)
Definition errorOf (message : Message) : Error :=
  match error message with
  | Some EmptyString | None => "Unknown error"
  | Some e => e
  end.

(** [_handleResponse(message)] *)
Definition _handleResponse (message : Message) (b : t) : t :=
  if bool_decide (type message = Some "response") then
    match requestId message with
    | Some rid =>
        match pendingRequests b !! rid with
        | Some pending =>
            {| browser := browser b;
               pendingRequests := delete rid (pendingRequests b);
               requestCounter := requestCounter b;
               outcomes :=
                 (if ok message
                  then settle (promise pending) (Answered (result message))
                  else settle (promise pending) (Failed (errorOf message)))
                   (outcomes b);
               nextPromise := nextPromise b;
               timers := delete (timer pending) (timers b);
               nextTimer := nextTimer b;
               sent := sent b |}
        | None => b
        end
    | None => b
    end
  else b.

(** The ['message'] handler of the socket [ws]. *)
Definition onMessage (ws : nat) (message : Message) (b : t) : t :=
  if bool_decide (type message = Some "init")
     && bool_decide (client message = Some "drone-simulator")
  then
    {| browser := Some ws; pendingRequests := pendingRequests b;
       requestCounter := requestCounter b; outcomes := outcomes b;
       nextPromise := nextPromise b; timers := timers b;
       nextTimer := nextTimer b; sent := sent b |}
  else _handleResponse message b.

Definition disconnected : Error := "Browser disconnected".

(** The loop of the ['close'] handler over the entries: [clearTimeout]
    and [reject]. *)
Definition rejectAll (entries : list (string * Pending))
    (st : gmap nat Outcome * gmap nat Timeout)
    : gmap nat Outcome * gmap nat Timeout :=
  fold_left
    (fun st entry =>
       (settle (promise (snd entry)) (Failed disconnected) (fst st),
        delete (timer (snd entry)) (snd st)))
    entries st.

(** The ['close'] handler of the socket [ws]. The loop runs over the entries
    in the order of [map_to_list]; the order makes no difference to the
    promises and timers of distinct entries. *)
Definition onClose (ws : nat) (b : t) : t :=
  if bool_decide (browser b = Some ws) then
    let st :=
      rejectAll (map_to_list (pendingRequests b)) (outcomes b, timers b) in
    {| browser := None; pendingRequests := ∅;
       requestCounter := requestCounter b; outcomes := fst st;
       nextPromise := nextPromise b; timers := snd st;
       nextTimer := nextTimer b; sent := sent b |}
  else b.

End BrowserBridge.

(** * Vocabulary of the properties *)

Inductive SettleCall : Type :=
| CallComplete (result : CommandResult)
| CallFail (e : Error)
| CallCancel.

Definition settleCall (k : SettleCall) (cp : Command.t * Promises)
    : Command.t * Promises :=
  match k with
  | CallComplete result => Command.complete result (fst cp) (snd cp)
  | CallFail e => Command.fail e (fst cp) (snd cp)
  | CallCancel => Command.cancel (fst cp) (snd cp)
  end.

(** The public operations of the controller, and what its environment does to
    the vehicle object it shares (the model gets loaded, the vehicle moves). *)
Inductive Call : Type :=
| CallHover
| CallTakeOff (altitude : option R) (options : Command.Options)
| CallLand (options : Command.Options)
| CallMoveTo (tgx tgy tgz : option R) (options : Command.Options)
| CallRotateYaw (angle : R) (options : Command.Options)
| CallEnqueue (cmd : Command.t)
| CallExecuteImmediate (cmd : Command.t)
| CallControlCancel
| CallPause
| CallResume
| CallUpdate (now delta : R)
| VehicleChanged (movement : Movement.t).

Definition call (M : Command.Methods) (k : Call)
    (s : DroneControl.t * Runtime) : DroneControl.t * Runtime :=
  let '(ctl, rt) := s in
  match k with
  | CallHover => fst (DroneControl.hover ctl rt)
  | CallTakeOff altitude options =>
      fst (DroneControl.takeOff altitude options ctl rt)
  | CallLand options => fst (DroneControl.land options ctl rt)
  | CallMoveTo tgx tgy tgz options =>
      fst (DroneControl.moveTo tgx tgy tgz options ctl rt)
  | CallRotateYaw angle options =>
      fst (DroneControl.rotateYaw angle options ctl rt)
  | CallEnqueue cmd => fst (DroneControl.enqueue cmd ctl rt)
  | CallExecuteImmediate cmd => fst (DroneControl.executeImmediate cmd ctl rt)
  | CallControlCancel => DroneControl.cancel ctl rt
  | CallPause => DroneControl.pause ctl rt
  | CallResume => DroneControl.resume ctl rt
  | CallUpdate now delta => fst (DroneControl.update M now delta ctl rt)
  | VehicleChanged movement => (DroneControl.with_movement movement ctl, rt)
  end.

Definition calls (M : Command.Methods) (ks : list Call)
    (s : DroneControl.t * Runtime) : DroneControl.t * Runtime :=
  fold_left (fun s k => call M k s) ks s.

(** The invariant as the data model states it. *)
Definition idle_iff_nothing_to_do (ctl : DroneControl.t) : Prop :=
  DroneControl.state ctl = IDLE
  <-> DroneControl.currentCommand ctl = None
      /\ DroneControl.commandQueue ctl = [].

(** The part of it the controller keeps. *)
Definition idle_has_no_current (ctl : DroneControl.t) : Prop :=
  DroneControl.state ctl = IDLE -> DroneControl.currentCommand ctl = None.

Definition empty_runtime : Runtime :=
  {| promises := ∅; nextPromise := 0; log := [] |}.

Definition loaded_vehicle : Movement.t :=
  {| Movement.model :=
       Some {| Position.x := 0; Position.y := 0.05; Position.z := 0 |};
     Movement.currentAngle := Some 0;
     Movement.command := None |}.

(** The current command or one of the queued ones. *)
Definition in_flight (ctl : DroneControl.t) (c : Command.t) : Prop :=
  DroneControl.currentCommand ctl = Some c \/ In c (DroneControl.commandQueue ctl).

(** The two parts of C2 that fail, as stated. *)
Definition cancel_settles_all_as_cancelled (ctl : DroneControl.t) (rt : Runtime)
    : Prop :=
  forall c : Command.t,
    in_flight ctl c ->
    promises (snd (DroneControl.cancel ctl rt)) !! Command.promise c
    = Some (Rejected Command.cancelled_error).

Definition cancel_writes_hover (ctl : DroneControl.t) (rt : Runtime) : Prop :=
  exists instr : Motion.Instruction,
    Movement.command (DroneControl.movement (fst (DroneControl.cancel ctl rt)))
    = Some instr
    /\ Motion.hover instr = true.

Definition unloaded_vehicle : Movement.t :=
  {| Movement.model := None; Movement.currentAngle := None;
     Movement.command := None |}.

Definition still_at_origin : DroneState.t :=
  {| DroneState.position :=
       {| Position.x := 0; Position.y := 0.05; Position.z := 0 |};
     DroneState.isActive := true;
     DroneState.queueLength := 0;
     DroneState.state := RUNNING;
     DroneState.currentCommand := None;
     DroneState.headingRad := 0 |}.

(** A take-off to 1 m started on the ground at 1 ms. *)
Definition climbing : Command.t :=
  fst (Command.start 1 still_at_origin
         (Command.new_TakeOffCommand (Some 1) Command.no_options 0%nat) ∅).

(** A take-off in progress and a move queued behind it, both pending. *)
Definition busy_controller : DroneControl.t :=
  {| DroneControl.movement := loaded_vehicle;
     DroneControl.state := RUNNING;
     DroneControl.currentCommand := Some climbing;
     DroneControl.commandQueue :=
       [Command.new_MoveToCommand (Some 0.5) None (Some 0.5)
          Command.no_options 1%nat];
     DroneControl.paused := false |}.

Definition busy_runtime : Runtime :=
  {| promises := ∅; nextPromise := 2; log := [] |}.

(** How a tick begins (lines 89-91 of [update]): with nothing current and a
    non-empty queue, the head of the queue is started and becomes current. *)
Definition beginTick (M : Command.Methods) (now : R) (ctl : DroneControl.t)
    (rt : Runtime) : DroneControl.t * Runtime * option Error :=
  if match DroneControl.currentCommand ctl with Some _ => false | None => true end
     && (0 <? length (DroneControl.commandQueue ctl))%nat
  then DroneControl._startNextCommand M now ctl rt
  else (ctl, rt, None).

(** C3 as stated: whenever the update of the tick's current command throws
    [e], the tick leaves that command's outcome rejected with [e]. *)
Definition fault_settles_as_failed (M : Command.Methods) (now delta : R)
    (ctl : DroneControl.t) (rt : Runtime) : Prop :=
  forall (ctl1 : DroneControl.t) (rt1 : Runtime) (c c1 : Command.t)
         (ps1 : Promises) (e : Error),
    beginTick M now ctl rt = (ctl1, rt1, None) ->
    DroneControl.currentCommand ctl1 = Some c ->
    Command.m_update M now delta (DroneControl.getState ctl1) c (promises rt1)
    = (c1, ps1, inr e) ->
    promises (snd (fst (DroneControl.update M now delta ctl rt)))
      !! Command.promise c1
    = Some (Rejected e).

(** A command class whose [update] completes the command and then throws. *)
Definition completes_then_throws : Command.Methods :=
  {| Command.m_start := Command.m_start Command.builtin;
     Command.m_update := fun now delta ds c ps =>
                           (Command.complete RNull c ps, inr "boom") |}.

Definition one_running (c : Command.t) : DroneControl.t :=
  {| DroneControl.movement := loaded_vehicle;
     DroneControl.state := RUNNING;
     DroneControl.currentCommand := Some c;
     DroneControl.commandQueue := [];
     DroneControl.paused := false |}.

Definition running_base : Command.t :=
  Command.start_base 1 (Command.new_BaseCommand Command.no_options 0%nat).

(** A class whose [update] throws at once. *)
Definition throws_at_once : Command.Methods :=
  {| Command.m_start := Command.m_start Command.builtin;
     Command.m_update := fun now delta ds c ps => (c, ps, inr "boom") |}.

Definition hovering_at_one : DroneState.t :=
  {| DroneState.position :=
       {| Position.x := 0; Position.y := 1; Position.z := 0 |};
     DroneState.isActive := true;
     DroneState.queueLength := 0;
     DroneState.state := RUNNING;
     DroneState.currentCommand := Some "MoveToCommand";
     DroneState.headingRad := 0 |}.

(** [moveTo({x: 0.5, z: 0.5})] with the default options, started at 1 ms
    from the origin at 1 m: the target altitude is the current one. *)
Definition move_diagonal : Command.t :=
  fst (Command.start 1 hovering_at_one
         (Command.new_MoveToCommand (Some 0.5) None (Some 0.5)
            Command.no_options 0%nat) ∅).

(** [moveTo({x: 10, z: 0})] with the default options, started at 1 ms from
    (0, 1, 0): at the maximal speed of 0.2 m/s the way takes 50 s, and the
    default timeout is 30 s. *)
Definition long_move : Command.t :=
  fst (Command.start 1 hovering_at_one
         (Command.new_MoveToCommand (Some 10) None (Some 0)
            Command.no_options 0%nat) ∅).

(** The vehicle 6 m on that way, flying along +X at the maximal speed. *)
Definition on_the_way : Movement.t :=
  {| Movement.model :=
       Some {| Position.x := 6; Position.y := 1; Position.z := 0 |};
     Movement.currentAngle := Some 0;
     Movement.command :=
       Some {| Motion.hover := false; Motion.angle := 0;
               Motion.speed := 0.2; Motion.altitude := Some 1 |} |}.

Definition flying_far : DroneControl.t :=
  {| DroneControl.movement := on_the_way;
     DroneControl.state := RUNNING;
     DroneControl.currentCommand := Some long_move;
     DroneControl.commandQueue := [];
     DroneControl.paused := false |}.

(** The instruction of the tick on which the timeout fires, by class. *)
Definition timeout_tick_instruction (ds : DroneState.t) (c : Command.t)
    (instr : Motion.Instruction) : Prop :=
  match Command.variant c with
  | Command.MoveTo tg mx mn ptol atol sd sf =>
      let pos := DroneState.position ds in
      let dx := tx tg - Position.x pos in
      let dz := tz tg - Position.z pos in
      let dy := to_number (ty tg) - Position.y pos in
      let d := sqrt (dx * dx + dz * dz) in
      (d < ptol /\ Rabs dy < atol /\ (1 <= sf)%nat -> instr = hover_at (ty tg))
      /\ (~ (d < ptol /\ Rabs dy < atol /\ (1 <= sf)%nat) ->
          Motion.hover instr = false
          /\ Motion.speed instr >= mn * 0.8)
  | _ => Motion.hover instr = true /\ Motion.speed instr = 0
  end.

(** The indices of the waypoints handed to the controller so far. *)
Definition dispatched (m : Mission.t) : list nat :=
  flat_map (fun e => match e with
                     | Mission.ControllerCall i _ => [i]
                     | _ => []
                     end) (Mission.trace m).

(** What can happen to a mission: its own operations, the resumption of
    [run] after a settlement or after the hover delay, and anything the rest
    of the system (ticks of the controller, other callers) does to the
    controller and the runtime in between. *)
Inductive MissionStep : Type :=
| StepRun (now : R)
| StepResumeRun (now : R)
| StepDelayElapsed (now : R)
| StepCancel
| StepPause
| StepResume
| StepEnvironment (ctl : DroneControl.t) (rt : Runtime).

Definition missionStep (k : MissionStep) (w : Mission.World) : Mission.World :=
  match k with
  | StepRun now => fst (Mission.run now w)
  | StepResumeRun now => Mission.resumeRun now w
  | StepDelayElapsed now => Mission.delayElapsed now w
  | StepCancel => Mission.cancel w
  | StepPause => Mission.pause w
  | StepResume => Mission.resume w
  | StepEnvironment ctl rt =>
      {| Mission.mission := Mission.mission w;
         Mission.controller := ctl;
         Mission.runtime := rt |}
  end.

Definition missionSteps (ks : list MissionStep) (w : Mission.World)
    : Mission.World :=
  fold_left (fun w k => missionStep k w) ks w.

(** A mission that is not suspended and not Pending makes no controller call
    any more, whatever happens. *)
Definition finished (m : Mission.t) : Prop :=
  Mission.continuation m = Mission.NotSuspended
  /\ Mission.state m <> Mission.PENDING.

Definition move_east : Waypoint.t :=
  {| Waypoint.type := Some "moveTo"; Waypoint.x := Some 1; Waypoint.y := None;
     Waypoint.z := Some 0; Waypoint.altitude := None;
     Waypoint.durationMs := None; Waypoint.options := None |}.

Definition touch_down : Waypoint.t :=
  {| Waypoint.type := Some "land"; Waypoint.x := None; Waypoint.y := None;
     Waypoint.z := None; Waypoint.altitude := None;
     Waypoint.durationMs := None; Waypoint.options := None |}.

(** A mission of two waypoints on a fresh controller. *)
Definition two_waypoints (continueOnError : option bool) : Mission.World :=
  {| Mission.mission := Mission.new [move_east; touch_down] continueOnError None;
     Mission.controller := DroneControl.new loaded_vehicle;
     Mission.runtime := empty_runtime |}.

(** Somebody else calls [cancel()] on the controller the mission runs on
    (the bridge does, for its [cancel] action). *)
Definition controllerCancelled (w : Mission.World) : Mission.World :=
  let '(ctl, rt) := DroneControl.cancel (Mission.controller w) (Mission.runtime w) in
  {| Mission.mission := Mission.mission w;
     Mission.controller := ctl;
     Mission.runtime := rt |}.

(** The mission is started at 1 ms, and the controller is cancelled while
    the mission waits for the outcome of its first waypoint. *)
Definition first_waypoint_rejected (continueOnError : bool) : Mission.World :=
  controllerCancelled (fst (Mission.run 1 (two_waypoints (Some continueOnError)))).

(** ** Vocabulary of the further properties *)

(** The arrival test of the commands that have one, on a snapshot. *)
Definition stable (ds : DroneState.t) (c : Command.t) : bool :=
  let pos := DroneState.position ds in
  match Command.variant c with
  | Command.TakeOff ta tol _ _ => Rltb (Rabs (Position.y pos - ta)) tol
  | Command.Land ga tol _ => Rltb (Rabs (Position.y pos - ga)) tol
  | Command.MoveTo tg _ _ ptol atol _ _ =>
      let dx := tx tg - Position.x pos in
      let dz := tz tg - Position.z pos in
      let dy := to_number (ty tg) - Position.y pos in
      Rltb (sqrt (dx * dx + dz * dz)) ptol && Rltb (Rabs dy) atol
  | _ => false
  end.

(** [this.stableFrames] *)
Definition stableFrames (c : Command.t) : nat :=
  match Command.variant c with
  | Command.TakeOff _ _ sf _ | Command.Land _ _ sf
  | Command.MoveTo _ _ _ _ _ _ sf => sf
  | _ => 0%nat
  end.

(** The classes that complete on an arrival test. *)
Definition debounces (c : Command.t) : Prop :=
  match Command.variant c with
  | Command.TakeOff _ _ _ _ | Command.Land _ _ _
  | Command.MoveTo _ _ _ _ _ _ _ => True
  | _ => False
  end.

(** One tick as a command sees it: the clock, the frame time, the snapshot. *)
Record Frame : Type :=
  { f_now : R; f_delta : R; f_state : DroneState.t }.

(** The command and the promise store after a sequence of updates. *)
Definition updates (frames : list Frame) (cp : Command.t * Promises)
    : Command.t * Promises :=
  fold_left
    (fun cp f =>
       fst (Command.update (f_now f) (f_delta f) (f_state f) (fst cp) (snd cp)))
    frames cp.

(** What an update leaves alone: the class with its targets and tolerances,
    the start time, the timeout and the promise. *)
Definition parameters (c : Command.t) : Command.Variant * option R * R * nat :=
  (match Command.variant c with
   | Command.TakeOff ta tol _ _ => Command.TakeOff ta tol 0 None
   | Command.Land ga tol _ => Command.Land ga tol 0
   | Command.MoveTo tg mx mn ptol atol sd _ =>
       Command.MoveTo tg mx mn ptol atol sd 0
   | Command.Hover ta => Command.Hover ta
   | v => v
   end,
   Command.startTime c, Command.timeoutMs c, Command.promise c).

(** Two consecutive frames, both stable for [c]. *)
Definition stable_pair (frames : list Frame) (c : Command.t) : Prop :=
  exists (i : nat) (f1 f2 : Frame),
    frames !! i = Some f1 /\ frames !! S i = Some f2
    /\ stable (f_state f1) c = true /\ stable (f_state f2) c = true.

(** The frame at clock reading [now] with the vehicle above the origin at
    [altitude]. *)
Definition frame_at (now altitude : R) : Frame :=
  {| f_now := now; f_delta := 0.016;
     f_state :=
       {| DroneState.position :=
            {| Position.x := 0; Position.y := altitude; Position.z := 0 |};
          DroneState.isActive := true;
          DroneState.queueLength := 0;
          DroneState.state := RUNNING;
          DroneState.currentCommand := Some "TakeOffCommand";
          DroneState.headingRad := 0 |} |}.

(** The altitude the command will put in its instructions is known. *)
Definition altitude_known (c : Command.t) : Prop :=
  match Command.variant c with
  | Command.Hover ta => ta <> None
  | Command.MoveTo tg _ _ _ _ _ _ => ty tg <> None
  | _ => True
  end.

(** The promises of the commands [onCommandStart] was called with, in order. *)
Definition startedPromises (rt : Runtime) : list nat :=
  flat_map (fun n => match n with
                     | CommandStart c => [Command.promise c]
                     | _ => []
                     end) (log rt).

(** The promise of the command a call puts in the queue. *)
Definition enqueuedBy (k : Call) (s : DroneControl.t * Runtime) : list nat :=
  match k with
  | CallHover | CallTakeOff _ _ | CallLand _ | CallMoveTo _ _ _ _
  | CallRotateYaw _ _ => [nextPromise (snd s)]
  | CallEnqueue cmd | CallExecuteImmediate cmd => [Command.promise cmd]
  | _ => []
  end.

(** The promises of all the commands a sequence of calls enqueues, in order. *)
Fixpoint enqueueHistory (M : Command.Methods) (ks : list Call)
    (s : DroneControl.t * Runtime) : list nat :=
  match ks with
  | [] => []
  | k :: ks => enqueuedBy k s ++ enqueueHistory M ks (call M k s)
  end.

(** The calls that cancel what is in flight. *)
Definition cancels (k : Call) : bool :=
  match k with
  | CallHover | CallExecuteImmediate _ | CallControlCancel => true
  | _ => false
  end.

Definition queuedPromises (ctl : DroneControl.t) : list nat :=
  map Command.promise (DroneControl.commandQueue ctl).

(** The commands enqueued so far are those that left the queue, in order,
    followed by the queue; those that were started are among the former. *)
Definition fifo (s : DroneControl.t * Runtime) (enqueued : list nat) : Prop :=
  exists gone : list nat,
    enqueued = (gone ++ queuedPromises (fst s))%list
    /\ startedPromises (snd s) `sublist_of` gone.

Definition fifo_strict (s : DroneControl.t * Runtime) (enqueued : list nat)
    : Prop :=
  enqueued = (startedPromises (snd s) ++ queuedPromises (fst s))%list.

(** Paused with nothing to resume: the flag [paused] is set, the state is
    Idle and no command is current. *)
Definition stalled (ctl : DroneControl.t) : Prop :=
  DroneControl.paused ctl = true
  /\ DroneControl.state ctl = IDLE
  /\ DroneControl.currentCommand ctl = None.

(** From one store to the next, the only settlements are rejections with
    "Command cancelled". *)
Definition only_cancelled (ps ps' : Promises) : Prop :=
  forall p : nat,
    ps' !! p = ps !! p
    \/ (ps !! p = None /\ ps' !! p = Some (Rejected Command.cancelled_error)).

(** The ticks of the host loop: the clock reading and the frame time of
    each. *)
Definition ticks (ts : list (R * R)) : list Call :=
  map (fun t => CallUpdate (fst t) (snd t)) ts.

(** The handle the next [new Promise] returns is fresh: it is pending, and
    no command in flight holds it. *)
Definition fresh_handle (ctl : DroneControl.t) (rt : Runtime) : Prop :=
  promises rt !! nextPromise rt = None
  /\ forall c : Command.t,
       in_flight ctl c -> Command.promise c <> nextPromise rt.

(** The index of the waypoint [run] is waiting for. *)
Definition awaited (k : Mission.Continuation) : option nat :=
  match k with
  | Mission.NotSuspended => None
  | Mission.AwaitCommand i _ | Mission.AwaitHover i _ _
  | Mission.AwaitDelay i _ => Some i
  end.

(** The summary a mission resolves with, but for the duration. *)
Definition summarises (m : Mission.t) (s : Mission.Summary) : Prop :=
  Mission.s_results s = Mission.results m
  /\ Mission.waypointsCompleted s
     = length (List.filter Mission.success (Mission.results m))
  /\ Mission.waypointsTotal s = length (Mission.waypoints m).

(** How the fields of a mission hang together, by state. *)
Definition consistent (m : Mission.t) : Prop :=
  map Mission.index (Mission.results m) = seq 0 (length (Mission.results m))
  /\ dispatched m = seq 0 (length (dispatched m))
  /\ (length (dispatched m) <= length (Mission.waypoints m))%nat
  /\ Mission.currentIndex m = pred (length (dispatched m))
  /\ match Mission.state m with
     | Mission.PENDING =>
         awaited (Mission.continuation m) = None
         /\ Mission.promise m = None
         /\ Mission.results m = []
         /\ dispatched m = []
     | Mission.RUNNING | Mission.PAUSED =>
         awaited (Mission.continuation m) = Some (length (Mission.results m))
         /\ Mission.promise m = None
         /\ length (dispatched m) = S (length (Mission.results m))
     | Mission.COMPLETED =>
         awaited (Mission.continuation m) = None
         /\ length (dispatched m) = length (Mission.results m)
         /\ length (Mission.results m) = length (Mission.waypoints m)
         /\ exists s : Mission.Summary,
              Mission.promise m = Some (Mission.MResolved s)
              /\ summarises m s
     | Mission.CANCELLED =>
         awaited (Mission.continuation m) = None
         /\ length (dispatched m) = length (Mission.results m)
         /\ Mission.promise m
            = Some (Mission.MRejected Mission.cancelled_error)
     | Mission.FAILED =>
         awaited (Mission.continuation m) = None
         /\ length (dispatched m) = length (Mission.results m)
         /\ exists e : Error, Mission.promise m = Some (Mission.MRejected e)
     end.

(** The mission as the [for] loop of [run] finds it at index [i]. *)
Definition loop_head (i : nat) (m : Mission.t) : Prop :=
  (Mission.state m = Mission.RUNNING \/ Mission.state m = Mission.PAUSED)
  /\ Mission.promise m = None
  /\ map Mission.index (Mission.results m) = seq 0 i
  /\ dispatched m = seq 0 i
  /\ (i <= length (Mission.waypoints m))%nat
  /\ Mission.currentIndex m = pred i.

(** A new mission and the controller it will be run on. *)
Definition new_world (waypoints : list Waypoint.t)
    (continueOnError : option bool) (timeoutMs : option R)
    (ctl : DroneControl.t) (rt : Runtime) : Mission.World :=
  {| Mission.mission := Mission.new waypoints continueOnError timeoutMs;
     Mission.controller := ctl;
     Mission.runtime := rt |}.

(** The states a mission ends in. *)
Definition terminal (s : Mission.MissionState) : Prop :=
  s = Mission.COMPLETED \/ s = Mission.CANCELLED \/ s = Mission.FAILED.

(** What is left of a mission for its observers: the state, the outcome, the
    results, the progress cursor, the calls made so far, and where [run]
    stands. *)
Definition observable (m : Mission.t)
    : Mission.MissionState * option Mission.MissionSettlement
      * list Mission.ResultEntry * nat * list Mission.Event
      * Mission.Continuation :=
  (Mission.state m, Mission.promise m, Mission.results m,
   Mission.currentIndex m, Mission.trace m, Mission.continuation m).

(** The horizontal displacement from the vehicle to a target. *)
Definition displacement (state : DroneState.t) (target : Target) : R * R :=
  (tx target - Position.x (DroneState.position state),
   tz target - Position.z (DroneState.position state)).

(** A vehicle at [pos] heading to [-Z], the top of the map. *)
Definition heading_up (pos : Position.t) : DroneState.t :=
  {| DroneState.position := pos;
     DroneState.isActive := false;
     DroneState.queueLength := 0;
     DroneState.state := IDLE;
     DroneState.currentCommand := None;
     DroneState.headingRad := - (PI / 2) |}.

(** The target of a queued MoveTo. *)
Definition targetOf (c : Command.t) : option Target :=
  match Command.variant c with
  | Command.MoveTo target _ _ _ _ _ _ => Some target
  | _ => None
  end.

(** A hover of the default second. *)
Definition hold_position : Waypoint.t :=
  {| Waypoint.type := Some "hover"; Waypoint.x := None; Waypoint.y := None;
     Waypoint.z := None; Waypoint.altitude := None;
     Waypoint.durationMs := None; Waypoint.options := None |}.

(** A mission whose only waypoint is a hover, started at 1 ms, once the
    Hover command has resolved (promise 0) and [run] has gone on to wait for
    the delay. *)
Definition hovering_mission : Mission.World :=
  missionSteps
    [StepRun 1;
     StepEnvironment (DroneControl.new loaded_vehicle)
       {| promises :=
            {[ 0%nat :=
                 Resolved
                   (RHover {| Position.x := 0; Position.y := 0.05;
                              Position.z := 0 |}) ]};
          nextPromise := 1;
          log := [] |};
     StepResumeRun 2]
    (new_world [hold_position] None None (DroneControl.new loaded_vehicle)
       empty_runtime).

(** What the outcome of a TakeOff, Land or MoveTo says: a result reports a
    position within the command's tolerances of its target; the error is
    the timeout. *)
Definition within_tolerance (c : Command.t) (v : Settlement) : Prop :=
  match v with
  | Rejected e => e = Command.timeout_error
  | Resolved r =>
      match Command.variant c, r with
      | Command.TakeOff ta tol _ _, RTakeOff altitude target =>
          target = ta /\ Rabs (altitude - ta) < tol
      | Command.Land ga tol _, RLand altitude => Rabs (altitude - ga) < tol
      | Command.MoveTo tg _ _ ptol atol _ _, RMoveTo pos target =>
          target = tg
          /\ sqrt ((tx tg - Position.x pos) * (tx tg - Position.x pos)
                   + (tz tg - Position.z pos) * (tz tg - Position.z pos))
             < ptol
          /\ Rabs (to_number (ty tg) - Position.y pos) < atol
      | _, _ => False
      end
  end.

(** What happens to the bridge of the MCP server: the tools send commands
    and queries, timers come due, the sockets deliver messages and close. *)
Inductive BridgeEvent : Type :=
| SendCommand (action : string) (args : BrowserBridge.Json)
    (readyState : BrowserBridge.ReadyState) (now : N)
| SendQuery (action : string) (readyState : BrowserBridge.ReadyState) (now : N)
| TimerFires (tm : nat)
| BrowserMessage (ws : nat) (message : BrowserBridge.Message)
| SocketClosed (ws : nat).

Definition bridgeStep (e : BridgeEvent) (b : BrowserBridge.t)
    : BrowserBridge.t :=
  match e with
  | SendCommand action args readyState now =>
      fst (BrowserBridge.sendCommand action args readyState now b)
  | SendQuery action readyState now =>
      fst (BrowserBridge.sendQuery action readyState now b)
  | TimerFires tm => BrowserBridge.timerFires tm b
  | BrowserMessage ws message => BrowserBridge.onMessage ws message b
  | SocketClosed ws => BrowserBridge.onClose ws b
  end.

Definition bridgeSteps (es : list BridgeEvent) (b : BrowserBridge.t)
    : BrowserBridge.t :=
  fold_left (fun b e => bridgeStep e b) es b.

(** A request is listed exactly while its promise is pending, and exactly
    then its timer is armed, with the callback of that request. *)
Definition tidy (b : BrowserBridge.t) : Prop :=
  (forall (rid : string) (pd : BrowserBridge.Pending),
      BrowserBridge.pendingRequests b !! rid = Some pd ->
      BrowserBridge.outcomes b !! BrowserBridge.promise pd = None
      /\ exists msg : string,
           BrowserBridge.timers b !! BrowserBridge.timer pd
           = Some {| BrowserBridge.t_requestId := rid;
                     BrowserBridge.t_promise := BrowserBridge.promise pd;
                     BrowserBridge.t_message := msg |})
  /\ (forall (tm : nat) (cb : BrowserBridge.Timeout),
         BrowserBridge.timers b !! tm = Some cb ->
         exists pd : BrowserBridge.Pending,
           BrowserBridge.pendingRequests b !! BrowserBridge.t_requestId cb
           = Some pd
           /\ BrowserBridge.timer pd = tm
           /\ BrowserBridge.promise pd = BrowserBridge.t_promise cb)
  /\ (forall p : nat,
         (p < BrowserBridge.nextPromise b)%nat ->
         BrowserBridge.outcomes b !! p = None ->
         exists (rid : string) (pd : BrowserBridge.Pending),
           BrowserBridge.pendingRequests b !! rid = Some pd
           /\ BrowserBridge.promise pd = p).

(** Handles and ids are given out once. *)
Definition hygienic (b : BrowserBridge.t) : Prop :=
  (forall (rid : string) (pd : BrowserBridge.Pending),
      BrowserBridge.pendingRequests b !! rid = Some pd ->
      (BrowserBridge.promise pd < BrowserBridge.nextPromise b)%nat
      /\ (BrowserBridge.timer pd < BrowserBridge.nextTimer b)%nat)
  /\ (forall (p : nat) (o : BrowserBridge.Outcome),
         BrowserBridge.outcomes b !! p = Some o ->
         (p < BrowserBridge.nextPromise b)%nat)
  /\ (forall (tm : nat) (cb : BrowserBridge.Timeout),
         BrowserBridge.timers b !! tm = Some cb ->
         (tm < BrowserBridge.nextTimer b)%nat)
  /\ (forall (rid1 rid2 : string) (pd1 pd2 : BrowserBridge.Pending),
         BrowserBridge.pendingRequests b !! rid1 = Some pd1 ->
         BrowserBridge.pendingRequests b !! rid2 = Some pd2 ->
         BrowserBridge.promise pd1 = BrowserBridge.promise pd2 ->
         rid1 = rid2).

(** The ids in use and the ids sent carry a counter that has been reached. *)
Definition numbered (b : BrowserBridge.t) : Prop :=
  (forall (rid : string) (pd : BrowserBridge.Pending),
      BrowserBridge.pendingRequests b !! rid = Some pd ->
      exists c now : N,
        rid = BrowserBridge.requestIdOf c now
        /\ (c <= BrowserBridge.requestCounter b)%N)
  /\ (forall (ws : nat) (r : BrowserBridge.Request),
         In (ws, r) (BrowserBridge.sent b) ->
         exists c now : N,
           BrowserBridge.r_requestId r = BrowserBridge.requestIdOf c now
           /\ (c <= BrowserBridge.requestCounter b)%N).

(** No underscore in a string. *)
Fixpoint plain (s : string) : Prop :=
  match s with
  | EmptyString => True
  | String a s => a <> "_"%char /\ plain s
  end.

(** The ids of the requests sent, in order. *)
Definition sentIds (b : BrowserBridge.t) : list string :=
  map (fun r => BrowserBridge.r_requestId (snd r)) (BrowserBridge.sent b).

(** What the bridge keeps through every event. *)
Definition sound (b : BrowserBridge.t) : Prop :=
  tidy b /\ hygienic b /\ numbered b.

(** The message a browser registers with. *)
Definition init_message : BrowserBridge.Message :=
  {| BrowserBridge.type := Some "init";
     BrowserBridge.client := Some "drone-simulator";
     BrowserBridge.requestId := None;
     BrowserBridge.ok := false;
     BrowserBridge.result := BrowserBridge.JNull;
     BrowserBridge.error := None |}.

(** The response of the browser to the request [rid]. *)
Definition response (rid : string) (ok : bool) (result : BrowserBridge.Json)
    (error : option string) : BrowserBridge.Message :=
  {| BrowserBridge.type := Some "response";
     BrowserBridge.client := None;
     BrowserBridge.requestId := Some rid;
     BrowserBridge.ok := ok;
     BrowserBridge.result := result;
     BrowserBridge.error := error |}.

(** What a response settles the promise of its request with. *)
Definition outcomeOf (message : BrowserBridge.Message)
    : BrowserBridge.Outcome :=
  if BrowserBridge.ok message
  then BrowserBridge.Answered (BrowserBridge.result message)
  else BrowserBridge.Failed (BrowserBridge.errorOf message).

(** [run] of the mission [i] of the bridge resumes, or something else
    happens to that mission. *)
Definition missionResumes (i : nat) (k : MissionStep) (b : DroneWsBridge.t)
    : DroneWsBridge.t :=
  match DroneWsBridge.missions b !! i with
  | Some m => DroneWsBridge.store i (missionStep k (DroneWsBridge.world m b)) b
  | None => b
  end.

(** A bridge that has started nothing yet. *)
Definition idle_bridge : DroneWsBridge.t :=
  {| DroneWsBridge.control := DroneControl.new loaded_vehicle;
     DroneWsBridge.runtime := empty_runtime;
     DroneWsBridge.missions := [];
     DroneWsBridge.currentMission := None |}.

(** A mission of two waypoints is started at 1 ms, a second mission (a
    landing) at 2 ms while the first waits for its first waypoint, and the
    first mission resumes at 3 ms. *)
Definition second_mission_started : DroneWsBridge.t :=
  fst (DroneWsBridge._runMission (Some [touch_down]) None None 2
         (fst (DroneWsBridge._runMission (Some [move_east; touch_down])
                 None None 1 idle_bridge))).

Definition first_mission_resumed : DroneWsBridge.t :=
  missionResumes 0 (StepResumeRun 3) second_mission_started.

(** Of the outcomes numbered below [n], each is settled, or it is that of a
    command the controller still holds (current or queued) and that is not
    completed. *)
Definition kept (ctl : DroneControl.t) (ps : Promises) (n : nat) : Prop :=
  forall p : nat,
    (p < n)%nat ->
    ps !! p = None ->
    exists c : Command.t,
      in_flight ctl c /\ Command.promise c = p /\ Command.completed c = false.

(** No outcome created so far has been dropped. *)
Definition nothing_dropped (s : DroneControl.t * Runtime) : Prop :=
  kept (fst s) (promises (snd s)) (nextPromise (snd s)).

(** What an operation on a mission that has ended still does to the
    controller and the runtime: [cancel()] tests no state and cancels the
    controller once more; the environment does what it does; no other
    operation reaches the controller. *)
Definition afterTheEnd (s : DroneControl.t * Runtime) (k : MissionStep)
    : DroneControl.t * Runtime :=
  match k with
  | StepCancel => DroneControl.cancel (fst s) (snd s)
  | StepEnvironment ctl rt => (ctl, rt)
  | _ => s
  end.

(** [this.control] is set by [run], before anything is awaited. *)
Definition has_control (m : Mission.t) : Prop :=
  Mission.control m = true
  \/ (Mission.state m = Mission.PENDING
      /\ Mission.continuation m = Mission.NotSuspended).

Definition is_cancel (k : MissionStep) : bool :=
  match k with StepCancel => true | _ => false end.

(** * Properties *)

(** ** Tests on numbers *)

Lemma Rltb_true (a b : R) : a < b -> Rltb a b = true.
Proof.
  intros H. unfold Rltb.
  destruct (Rlt_dec a b); [reflexivity | contradiction].
Qed.

Lemma Rltb_false (a b : R) : b <= a -> Rltb a b = false.
Proof. intros H. unfold Rltb. destruct (Rlt_dec a b); [lra | reflexivity]. Qed.

Lemma Rltb_spec (a b : R) : Rltb a b = true <-> a < b.
Proof.
  unfold Rltb. destruct (Rlt_dec a b); split; intros; try assumption;
    try reflexivity; try discriminate; contradiction.
Qed.

Lemma truthy_Some (v : R) : v <> 0 -> truthy (Some v) = true.
Proof.
  intros H. unfold truthy.
  destruct (Req_dec_T v 0); [contradiction | reflexivity].
Qed.

Lemma truthy_zero : truthy (Some 0) = false.
Proof. unfold truthy. destruct (Req_dec_T 0 0); [reflexivity | lra]. Qed.

(** ** Promises settle once *)

Lemma settle_settled (p q : nat) (s s' : Settlement) (ps : Promises) :
  ps !! p = Some s -> settle q s' ps !! p = Some s.
Proof.
  intros H. unfold settle. destruct (ps !! q) eqn:Hq; [assumption |].
  destruct (decide (q = p)) as [-> | Hne]; [congruence |].
  rewrite lookup_insert_ne; assumption.
Qed.

Lemma settle_pending (p : nat) (s : Settlement) (ps : Promises) :
  ps !! p = None -> settle p s ps !! p = Some s.
Proof. intros H. unfold settle. rewrite H. apply lookup_insert_eq. Qed.

Lemma settle_other (p q : nat) (s : Settlement) (ps : Promises) :
  p <> q -> settle q s ps !! p = ps !! p.
Proof.
  intros H. unfold settle. destruct (ps !! q); [reflexivity |].
  rewrite lookup_insert_ne; [reflexivity | congruence].
Qed.

Lemma settle_is_Some (p q : nat) (s : Settlement) (ps : Promises) :
  is_Some (ps !! p) -> is_Some (settle q s ps !! p).
Proof. intros [v Hv]. exists v. apply settle_settled; assumption. Qed.

(** ** The settlement calls of a command *)

Lemma settleCall_completed (k : SettleCall) (cp : Command.t * Promises) :
  Command.completed (fst (settleCall k cp)) = true.
Proof.
  destruct cp as [c ps], k; simpl;
    unfold Command.cancel, Command.complete, Command.fail;
    destruct (Command.completed c) eqn:E; simpl; auto.
Qed.

Lemma settleCall_noop (k : SettleCall) (cp : Command.t * Promises) :
  Command.completed (fst cp) = true -> settleCall k cp = cp.
Proof.
  destruct cp as [c ps], k; simpl; intros H;
    unfold Command.cancel, Command.complete, Command.fail; rewrite H;
    reflexivity.
Qed.

Lemma settleCalls_noop (ks : list SettleCall) (cp : Command.t * Promises) :
  Command.completed (fst cp) = true ->
  fold_left (fun cp k => settleCall k cp) ks cp = cp.
Proof.
  induction ks as [| k ks IH]; intros H; simpl; [reflexivity |].
  rewrite settleCall_noop by assumption. apply IH; assumption.
Qed.

Lemma settleCall_store_monotone (k : SettleCall) (cp : Command.t * Promises)
    (p : nat) (s : Settlement) :
  snd cp !! p = Some s -> snd (settleCall k cp) !! p = Some s.
Proof.
  destruct cp as [c ps], k; simpl; intros H;
    unfold Command.cancel, Command.complete, Command.fail;
    destruct (Command.completed c); simpl; auto using settle_settled.
Qed.

(** C1. The first call to [complete], [fail] or [cancel] settles a command;
    whatever calls follow, in any number and order, leave the command (its
    [completed] flag and its stored [error]) and the promise store (its
    settled value) exactly as the first call left them. *)
Theorem command_settles_at_most_once :
  forall (first : SettleCall) (later : list SettleCall)
         (c : Command.t) (ps : Promises),
    Command.completed (fst (settleCall first (c, ps))) = true
    /\ fold_left (fun cp k => settleCall k cp) later (settleCall first (c, ps))
       = settleCall first (c, ps).
Proof.
  intros first later c ps. split.
  - apply settleCall_completed.
  - apply settleCalls_noop, settleCall_completed.
Qed.

(** ** Activity of the controller *)

Lemma isActive_iff (ctl : DroneControl.t) :
  DroneControl.isActive ctl = true
  <-> DroneControl.currentCommand ctl <> None
      \/ DroneControl.commandQueue ctl <> [].
Proof.
  unfold DroneControl.isActive.
  destruct (DroneControl.currentCommand ctl) as [c |];
    destruct (DroneControl.commandQueue ctl) as [| q qs]; simpl; split; intros H.
  - left. discriminate.
  - reflexivity.
  - left. discriminate.
  - reflexivity.
  - discriminate.
  - destruct H as [H | H]; contradiction.
  - right. discriminate.
  - reflexivity.
Qed.

Lemma isActive_enqueue (cmd : Command.t) (ctl : DroneControl.t) (rt : Runtime) :
  DroneControl.isActive (fst (fst (DroneControl.enqueue cmd ctl rt))) = true.
Proof.
  apply isActive_iff. right. simpl.
  destruct (DroneControl.commandQueue ctl); discriminate.
Qed.

Lemma isActive_executeImmediate (cmd : Command.t) (ctl : DroneControl.t)
    (rt : Runtime) :
  DroneControl.isActive (fst (fst (DroneControl.executeImmediate cmd ctl rt)))
  = true.
Proof.
  unfold DroneControl.executeImmediate.
  destruct (DroneControl.cancel ctl rt) as [ctl' rt'].
  apply isActive_enqueue.
Qed.

(** C9. [isActive()] is true exactly when there is a current command or a
    queued one; it is true right after each intent call (no tick needed);
    and after a tick of the drone in which the controller reported active,
    [isControllerActive()] is true, and stays true until the next tick
    whatever is done to the controller. *)
Theorem isActive_reports_current_or_queued :
  (forall ctl : DroneControl.t,
      DroneControl.isActive ctl = true
      <-> DroneControl.currentCommand ctl <> None
          \/ DroneControl.commandQueue ctl <> [])
  /\ (forall (ctl : DroneControl.t) (rt : Runtime)
             (altitude tgx tgy tgz : option R) (angle : R)
             (options : Command.Options),
         DroneControl.isActive (fst (fst (DroneControl.hover ctl rt))) = true
         /\ DroneControl.isActive
              (fst (fst (DroneControl.takeOff altitude options ctl rt))) = true
         /\ DroneControl.isActive
              (fst (fst (DroneControl.land options ctl rt))) = true
         /\ DroneControl.isActive
              (fst (fst (DroneControl.moveTo tgx tgy tgz options ctl rt))) = true
         /\ DroneControl.isActive
              (fst (fst (DroneControl.rotateYaw angle options ctl rt))) = true)
  /\ (forall (M : Command.Methods) (movementUpdate : R -> Movement.t -> Movement.t)
             (now delta : R) (d : Drone.t) (rt : Runtime),
         snd (DroneControl.update M now delta (Drone.control d) rt) = inl true ->
         let d' := fst (fst (Drone.update M movementUpdate now delta d rt)) in
         Drone.isControllerActive d' = true
         /\ forall ctl : DroneControl.t,
              Drone.isControllerActive
                {| Drone.control := ctl;
                   Drone._controllerActive := Drone._controllerActive d' |}
              = true).
Proof.
  split; [exact isActive_iff |]. split.
  - intros ctl rt altitude tgx tgy tgz angle options.
    unfold DroneControl.hover, DroneControl.takeOff, DroneControl.land,
      DroneControl.moveTo, DroneControl.rotateYaw.
    destruct (new_promise rt) as [p rt'].
    repeat split;
      first [apply isActive_executeImmediate | apply isActive_enqueue].
  - intros M movementUpdate now delta d rt H d'. unfold d', Drone.update.
    destruct (DroneControl.update M now delta (Drone.control d) rt)
      as [[ctl rt'] r].
    simpl in H. subst r. split; [reflexivity | intros ctl'; reflexivity].
Qed.

(** A drone whose vehicle is loaded, with one rotation queued: the tick
    starts it and reports active. *)
Lemma isActive_reports_current_or_queued_witness :
  let ctl :=
    DroneControl.with_commandQueue
      [Command.new_RotateYawCommand 0 Command.no_options 0%nat]
      (DroneControl.new
         {| Movement.model :=
              Some {| Position.x := 0; Position.y := 0; Position.z := 0 |};
            Movement.currentAngle := None;
            Movement.command := None |}) in
  let d := {| Drone.control := ctl; Drone._controllerActive := None |} in
  let rt := {| promises := ∅; nextPromise := 1; log := [] |} in
  Drone.isControllerActive
    (fst (fst (Drone.update Command.builtin (fun _ m => m) 0 0 d rt))) = true.
Proof.
  intros ctl d rt.
  apply (proj2 (proj2 isActive_reports_current_or_queued)
           Command.builtin (fun _ m => m) 0 0 d rt).
  reflexivity.
Defined.

(** ** The controller's state machine *)

Lemma state_eqb_eq (a b : ControllerState) : state_eqb a b = true <-> a = b.
Proof. destruct a, b; simpl; split; intros H; congruence. Qed.

Lemma setState_state (s : ControllerState) (ctl : DroneControl.t) (rt : Runtime) :
  DroneControl.state (fst (DroneControl._setState s ctl rt)) = s.
Proof.
  unfold DroneControl._setState.
  destruct (state_eqb (DroneControl.state ctl) s) eqn:E; simpl; [| reflexivity].
  apply state_eqb_eq; assumption.
Qed.

Lemma setState_rest (s : ControllerState) (ctl : DroneControl.t) (rt : Runtime) :
  let ctl' := fst (DroneControl._setState s ctl rt) in
  DroneControl.currentCommand ctl' = DroneControl.currentCommand ctl
  /\ DroneControl.commandQueue ctl' = DroneControl.commandQueue ctl
  /\ DroneControl.paused ctl' = DroneControl.paused ctl
  /\ DroneControl.movement ctl' = DroneControl.movement ctl.
Proof.
  unfold DroneControl._setState.
  destruct (state_eqb (DroneControl.state ctl) s); simpl; auto.
Qed.

Lemma setState_promises (s : ControllerState) (ctl : DroneControl.t) (rt : Runtime) :
  promises (snd (DroneControl._setState s ctl rt)) = promises rt
  /\ nextPromise (snd (DroneControl._setState s ctl rt)) = nextPromise rt.
Proof.
  unfold DroneControl._setState.
  destruct (state_eqb (DroneControl.state ctl) s); simpl; auto.
Qed.

Lemma hoverInPlace_rest (ctl : DroneControl.t) :
  let ctl' := DroneControl.hoverInPlace ctl in
  DroneControl.state ctl' = DroneControl.state ctl
  /\ DroneControl.currentCommand ctl' = DroneControl.currentCommand ctl
  /\ DroneControl.commandQueue ctl' = DroneControl.commandQueue ctl
  /\ DroneControl.paused ctl' = DroneControl.paused ctl.
Proof.
  unfold DroneControl.hoverInPlace.
  destruct (Movement.model (DroneControl.movement ctl)); simpl; auto.
Qed.

(** What [cancel] leaves in the controller. *)
Lemma cancel_controller (ctl : DroneControl.t) (rt : Runtime) :
  let ctl' := fst (DroneControl.cancel ctl rt) in
  DroneControl.state ctl' = IDLE
  /\ DroneControl.currentCommand ctl' = None
  /\ DroneControl.commandQueue ctl' = []
  /\ DroneControl.paused ctl' = DroneControl.paused ctl.
Proof.
  unfold DroneControl.cancel.
  match goal with
  | |- context [DroneControl._setState ?s ?c ?r] =>
      pose proof (setState_state s c r) as Hs;
      pose proof (setState_rest s c r) as (Hc & Hq & Hp & _);
      destruct (DroneControl._setState s c r) as [ctl1 rt1]
  end.
  simpl in *.
  destruct (hoverInPlace_rest ctl1) as (H1 & H2 & H3 & H4).
  rewrite H1, H2, H3, H4. auto.
Qed.

Lemma startNext_invariant (M : Command.Methods) (now : R)
    (ctl : DroneControl.t) (rt : Runtime) :
  idle_has_no_current ctl ->
  idle_has_no_current (fst (fst (DroneControl._startNextCommand M now ctl rt))).
Proof.
  intros Inv. unfold DroneControl._startNextCommand.
  destruct (DroneControl.commandQueue ctl) as [| c rest]; [exact Inv |].
  match goal with
  | |- context [DroneControl._setState ?s ?c ?r] =>
      pose proof (setState_state s c r) as Hs;
      destruct (DroneControl._setState s c r) as [ctl1 rt1]
  end.
  simpl in Hs.
  destruct (Command.m_start M now (DroneControl.getState ctl1) c (promises rt1))
    as [[c' ps'] thrown].
  destruct thrown; simpl; intros H; unfold idle_has_no_current in *; simpl in *;
    congruence.
Qed.

Lemma tryUpdate_invariant (M : Command.Methods) (now delta : R)
    (ds : DroneState.t) (c : Command.t) (ctl : DroneControl.t) (rt : Runtime) :
  DroneControl.state ctl <> IDLE ->
  idle_has_no_current
    (fst (fst (DroneControl.tryUpdate M now delta ds c ctl rt))).
Proof.
  intros Hne. unfold DroneControl.tryUpdate.
  destruct (Command.m_update M now delta ds c (promises rt)) as [[c' ps'] r].
  destruct r as [instr | e]; [| intros H; simpl in H; contradiction].
  destruct (Command.completed c'); [| intros H; simpl in H; contradiction].
  match goal with
  | |- context [if ?b then _ else _] => destruct b
  end.
  - apply startNext_invariant. intros H. reflexivity.
  - intros H. reflexivity.
Qed.

Lemma catchUpdate_invariant (e : Error) (ctl : DroneControl.t) (rt : Runtime) :
  idle_has_no_current ctl ->
  idle_has_no_current (fst (fst (DroneControl.catchUpdate e ctl rt))).
Proof.
  intros Inv. unfold DroneControl.catchUpdate.
  destruct (DroneControl.currentCommand ctl) as [c |] eqn:E; [| exact Inv].
  destruct (Command.fail e c (promises (notify (ExecutionError e) rt)))
    as [c' ps']. intros H. reflexivity.
Qed.

Lemma update_invariant (M : Command.Methods) (now delta : R)
    (ctl : DroneControl.t) (rt : Runtime) :
  idle_has_no_current ctl ->
  idle_has_no_current (fst (fst (DroneControl.update M now delta ctl rt))).
Proof.
  intros Inv. unfold DroneControl.update.
  match goal with
  | |- context [if ?b then (ctl, rt, inl false) else _] => destruct b
  end; [exact Inv |].
  match goal with
  | |- context [if ?b then DroneControl._startNextCommand M now ctl rt else _] =>
      destruct b
  end.
  - pose proof (startNext_invariant M now ctl rt Inv) as Inv1.
    destruct (DroneControl._startNextCommand M now ctl rt) as [[ctl1 rt1] thrown].
    simpl in Inv1. destruct thrown as [e |]; [exact Inv1 |].
    destruct (DroneControl.currentCommand ctl1) as [c |] eqn:Ec.
    + assert (Hne : DroneControl.state ctl1 <> IDLE).
      { intros H. apply Inv1 in H. congruence. }
      pose proof (tryUpdate_invariant M now delta
                    (DroneControl.getState ctl1) c ctl1 rt1 Hne) as Inv2.
      destruct (DroneControl.tryUpdate M now delta (DroneControl.getState ctl1)
                  c ctl1 rt1) as [[ctl2 rt2] thrown].
      simpl in Inv2. destruct thrown as [e |]; [| exact Inv2].
      pose proof (catchUpdate_invariant e ctl2 rt2 Inv2) as Inv3.
      destruct (DroneControl.catchUpdate e ctl2 rt2) as [[ctl3 rt3] thrown].
      destruct thrown; exact Inv3.
    + destruct (state_eqb (DroneControl.state ctl1) IDLE); simpl.
      * intros _. exact Ec.
      * pose proof (setState_rest IDLE ctl1 rt1) as (Hc & _).
        destruct (DroneControl._setState IDLE ctl1 rt1) as [ctl2 rt2].
        simpl in *. intros _. congruence.
  - destruct (DroneControl.currentCommand ctl) as [c |] eqn:Ec.
    + assert (Hne : DroneControl.state ctl <> IDLE).
      { intros H. apply Inv in H. congruence. }
      pose proof (tryUpdate_invariant M now delta
                    (DroneControl.getState ctl) c ctl rt Hne) as Inv2.
      destruct (DroneControl.tryUpdate M now delta (DroneControl.getState ctl)
                  c ctl rt) as [[ctl2 rt2] thrown].
      simpl in Inv2. destruct thrown as [e |]; [| exact Inv2].
      pose proof (catchUpdate_invariant e ctl2 rt2 Inv2) as Inv3.
      destruct (DroneControl.catchUpdate e ctl2 rt2) as [[ctl3 rt3] thrown].
      destruct thrown; exact Inv3.
    + destruct (state_eqb (DroneControl.state ctl) IDLE); simpl.
      * intros _. exact Ec.
      * pose proof (setState_rest IDLE ctl rt) as (Hc & _).
        destruct (DroneControl._setState IDLE ctl rt) as [ctl2 rt2].
        simpl in *. intros _. congruence.
Qed.

Lemma enqueue_invariant (cmd : Command.t) (ctl : DroneControl.t) (rt : Runtime) :
  idle_has_no_current ctl ->
  idle_has_no_current (fst (fst (DroneControl.enqueue cmd ctl rt))).
Proof. intros Inv. exact Inv. Qed.

Lemma cancel_invariant (ctl : DroneControl.t) (rt : Runtime) :
  idle_has_no_current (fst (DroneControl.cancel ctl rt)).
Proof. intros _. apply (cancel_controller ctl rt). Qed.

Lemma executeImmediate_invariant (cmd : Command.t) (ctl : DroneControl.t)
    (rt : Runtime) :
  idle_has_no_current (fst (fst (DroneControl.executeImmediate cmd ctl rt))).
Proof.
  unfold DroneControl.executeImmediate.
  pose proof (cancel_invariant ctl rt) as Inv.
  destruct (DroneControl.cancel ctl rt) as [ctl' rt']. exact Inv.
Qed.

Lemma pause_invariant (ctl : DroneControl.t) (rt : Runtime) :
  idle_has_no_current ctl -> idle_has_no_current (fst (DroneControl.pause ctl rt)).
Proof.
  intros Inv. unfold DroneControl.pause.
  destruct (state_eqb (DroneControl.state ctl) RUNNING); [| exact Inv].
  match goal with
  | |- context [DroneControl._setState ?s ?c ?r] =>
      pose proof (setState_state s c r) as Hs;
      destruct (DroneControl._setState s c r) as [ctl1 rt1]
  end.
  simpl in *. intros H.
  destruct (hoverInPlace_rest ctl1) as (H1 & _). congruence.
Qed.

Lemma resume_invariant (ctl : DroneControl.t) (rt : Runtime) :
  idle_has_no_current ctl -> idle_has_no_current (fst (DroneControl.resume ctl rt)).
Proof.
  intros Inv. unfold DroneControl.resume.
  destruct (state_eqb (DroneControl.state ctl) PAUSED); [| exact Inv].
  match goal with
  | |- context [DroneControl._setState ?s ?c ?r] =>
      pose proof (setState_state s c r) as Hs
  end.
  intros H. congruence.
Qed.

Lemma call_invariant (M : Command.Methods) (k : Call)
    (s : DroneControl.t * Runtime) :
  idle_has_no_current (fst s) -> idle_has_no_current (fst (call M k s)).
Proof.
  destruct s as [ctl rt]. simpl. intros Inv.
  destruct k; simpl;
    unfold DroneControl.hover, DroneControl.takeOff, DroneControl.land,
      DroneControl.moveTo, DroneControl.rotateYaw;
    try destruct (new_promise rt) as [p rt'];
    first [ apply executeImmediate_invariant
          | apply cancel_invariant
          | apply pause_invariant; exact Inv
          | apply resume_invariant; exact Inv
          | apply update_invariant; exact Inv
          | exact Inv ].
Qed.

Lemma calls_invariant (M : Command.Methods) (ks : list Call)
    (s : DroneControl.t * Runtime) :
  idle_has_no_current (fst s) -> idle_has_no_current (fst (calls M ks s)).
Proof.
  revert s. induction ks as [| k ks IH]; intros s Inv; simpl; [exact Inv |].
  apply IH, call_invariant, Inv.
Qed.

Lemma startNext_takes_head (M : Command.Methods) (now : R)
    (ctl : DroneControl.t) (rt : Runtime) :
  DroneControl.commandQueue ctl <> [] ->
  DroneControl.currentCommand
    (fst (fst (DroneControl._startNextCommand M now ctl rt))) <> None.
Proof.
  intros Hq. unfold DroneControl._startNextCommand.
  destruct (DroneControl.commandQueue ctl) as [| c rest]; [contradiction |].
  destruct (DroneControl._setState _ _ _) as [ctl1 rt1].
  destruct (Command.m_start M now (DroneControl.getState ctl1) c (promises rt1))
    as [[c' ps'] thrown].
  destruct thrown; simpl; discriminate.
Qed.

(** A tick that finds nothing to run leaves the controller idle and empty. *)
Lemma update_inactive (M : Command.Methods) (now delta : R)
    (ctl : DroneControl.t) (rt : Runtime) :
  DroneControl.paused ctl = false ->
  Movement.model (DroneControl.movement ctl) <> None ->
  snd (DroneControl.update M now delta ctl rt) = inl false ->
  let ctl' := fst (fst (DroneControl.update M now delta ctl rt)) in
  DroneControl.state ctl' = IDLE
  /\ DroneControl.currentCommand ctl' = None
  /\ DroneControl.commandQueue ctl' = [].
Proof.
  intros Hp Hm. unfold DroneControl.update. rewrite Hp.
  destruct (Movement.model (DroneControl.movement ctl)) as [pos |];
    [| contradiction]. simpl.
  destruct (DroneControl.currentCommand ctl) as [c |] eqn:Ec; simpl.
  - rewrite Ec.
    destruct (DroneControl.tryUpdate M now delta (DroneControl.getState ctl)
                c ctl rt) as [[ctl2 rt2] thrown].
    destruct thrown as [e |]; [| discriminate].
    destruct (DroneControl.catchUpdate e ctl2 rt2) as [[ctl3 rt3] thrown].
    destruct thrown; discriminate.
  - destruct (DroneControl.commandQueue ctl) as [| q qs] eqn:Eq; simpl.
    + rewrite Ec.
      destruct (state_eqb (DroneControl.state ctl) IDLE) eqn:Es; simpl.
      * intros _. apply state_eqb_eq in Es. auto.
      * pose proof (setState_state IDLE ctl rt) as Hs.
        pose proof (setState_rest IDLE ctl rt) as (Hc & Hq & _).
        destruct (DroneControl._setState IDLE ctl rt) as [ctl2 rt2].
        simpl in *. intros _. repeat split; congruence.
    + assert (Hne : DroneControl.commandQueue ctl <> []) by (rewrite Eq; discriminate).
      pose proof (startNext_takes_head M now ctl rt Hne) as Hcur.
      destruct (DroneControl._startNextCommand M now ctl rt)
        as [[ctl1 rt1] thrown].
      simpl in Hcur. destruct thrown as [e |]; [discriminate |].
      destruct (DroneControl.currentCommand ctl1) as [c |]; [| contradiction].
      destruct (DroneControl.tryUpdate M now delta (DroneControl.getState ctl1)
                  c ctl1 rt1) as [[ctl2 rt2] thrown].
      destruct thrown as [e |]; [| discriminate].
      destruct (DroneControl.catchUpdate e ctl2 rt2) as [[ctl3 rt3] thrown].
      destruct thrown; discriminate.
Qed.

(** C4 as stated fails: enqueueing leaves the state at Idle with a command in
    the queue, and the tick in which the last command finishes leaves the
    state at Running with nothing current and nothing queued. *)
Lemma idle_iff_nothing_to_do_fails :
  ~ idle_iff_nothing_to_do
      (fst (calls Command.builtin
              [CallTakeOff None Command.no_options]
              (DroneControl.new loaded_vehicle, empty_runtime)))
  /\ ~ idle_iff_nothing_to_do
         (fst (calls Command.builtin
                 [CallRotateYaw 0 Command.no_options; CallUpdate 0 0]
                 (DroneControl.new loaded_vehicle, empty_runtime))).
Proof.
  split.
  - intros [H _]. destruct (H eq_refl) as [_ Hq]. discriminate Hq.
  - intros [_ H].
    assert (E : DroneControl.state
                  (fst (calls Command.builtin
                          [CallRotateYaw 0 Command.no_options; CallUpdate 0 0]
                          (DroneControl.new loaded_vehicle, empty_runtime)))
                = IDLE) by (apply H; split; reflexivity).
    discriminate E.
Qed.

(** C4, amended. In every state the controller reaches from its creation by
    its public operations (any commands, any command methods, and whatever
    happens to the vehicle), an Idle state has no current command; and a tick
    of an unpaused controller with a vehicle that reports inactive leaves it
    Idle with no current command and an empty queue. There is one slot for
    the current command, so at most one command is current. *)
Theorem idle_state_has_no_current_command :
  forall (M : Command.Methods) (ks : list Call) (movement : Movement.t),
    let ctl := fst (calls M ks (DroneControl.new movement, empty_runtime)) in
    (DroneControl.state ctl = IDLE -> DroneControl.currentCommand ctl = None)
    /\ (forall (now delta : R) (rt : Runtime),
           DroneControl.paused ctl = false ->
           Movement.model (DroneControl.movement ctl) <> None ->
           snd (DroneControl.update M now delta ctl rt) = inl false ->
           let ctl' := fst (fst (DroneControl.update M now delta ctl rt)) in
           DroneControl.state ctl' = IDLE
           /\ DroneControl.currentCommand ctl' = None
           /\ DroneControl.commandQueue ctl' = []).
Proof.
  intros M ks movement ctl. split.
  - apply (calls_invariant M ks (DroneControl.new movement, empty_runtime)).
    intros _. reflexivity.
  - intros now delta rt. apply update_inactive.
Qed.

(** After one enqueued take-off the state is Idle and nothing is current;
    a tick of the fresh controller reports inactive and leaves it Idle. *)
Lemma idle_state_has_no_current_command_witness :
  let ctl :=
    fst (calls Command.builtin [CallTakeOff None Command.no_options]
           (DroneControl.new loaded_vehicle, empty_runtime)) in
  let fresh := DroneControl.new loaded_vehicle in
  (DroneControl.state ctl = IDLE /\ DroneControl.currentCommand ctl = None)
  /\ DroneControl.state
       (fst (fst (DroneControl.update Command.builtin 0 0 fresh empty_runtime)))
     = IDLE.
Proof.
  intros ctl fresh. split.
  - split; [reflexivity |].
    apply (proj1 (idle_state_has_no_current_command Command.builtin
                    [CallTakeOff None Command.no_options] loaded_vehicle)).
    reflexivity.
  - apply (proj2 (idle_state_has_no_current_command Command.builtin
                    [] loaded_vehicle) 0 0 empty_runtime);
      [reflexivity | discriminate | reflexivity].
Defined.

(** ** Cancellation *)

Lemma cancel_store_settled (c : Command.t) (ps : Promises) (p : nat)
    (s : Settlement) :
  ps !! p = Some s -> snd (Command.cancel c ps) !! p = Some s.
Proof.
  intros H. unfold Command.cancel, Command.fail.
  destruct (Command.completed c); simpl; auto using settle_settled.
Qed.

Lemma cancel_store_pending (c : Command.t) (ps : Promises) :
  Command.completed c = false ->
  ps !! Command.promise c = None ->
  snd (Command.cancel c ps) !! Command.promise c
  = Some (Rejected Command.cancelled_error).
Proof.
  intros Hc Hp. unfold Command.cancel, Command.fail. rewrite Hc. simpl.
  apply settle_pending; assumption.
Qed.

Lemma cancel_store_pending_or_cancelled (c : Command.t) (ps : Promises) (p : nat) :
  ps !! p = None ->
  snd (Command.cancel c ps) !! p = None
  \/ snd (Command.cancel c ps) !! p = Some (Rejected Command.cancelled_error).
Proof.
  intros Hp. unfold Command.cancel, Command.fail.
  destruct (Command.completed c); simpl; [left; assumption |].
  destruct (decide (p = Command.promise c)) as [-> | Hne].
  - right. apply settle_pending; assumption.
  - left. rewrite settle_other; assumption.
Qed.

Lemma cancelQueue_settled (q : list Command.t) (ps : Promises) (p : nat)
    (s : Settlement) :
  ps !! p = Some s -> DroneControl.cancelQueue q ps !! p = Some s.
Proof.
  revert ps. induction q as [| c q IH]; intros ps H; simpl; [assumption |].
  apply IH, cancel_store_settled, H.
Qed.

Lemma cancelQueue_member (q : list Command.t) (ps : Promises) (c : Command.t) :
  In c q ->
  Command.completed c = false ->
  ps !! Command.promise c = None ->
  DroneControl.cancelQueue q ps !! Command.promise c
  = Some (Rejected Command.cancelled_error).
Proof.
  revert ps. induction q as [| c0 q IH]; intros ps Hin Hc Hp; [contradiction |].
  simpl. destruct Hin as [-> | Hin].
  - apply cancelQueue_settled, cancel_store_pending; assumption.
  - destruct (cancel_store_pending_or_cancelled c0 ps _ Hp) as [Hn | Hs].
    + apply IH; assumption.
    + apply cancelQueue_settled; assumption.
Qed.

Lemma cancel_promises (ctl : DroneControl.t) (rt : Runtime) :
  promises (snd (DroneControl.cancel ctl rt))
  = DroneControl.cancelQueue (DroneControl.commandQueue ctl)
      (match DroneControl.currentCommand ctl with
       | Some c => snd (Command.cancel c (promises rt))
       | None => promises rt
       end).
Proof.
  unfold DroneControl.cancel.
  match goal with
  | |- context [DroneControl._setState ?s ?c ?r] =>
      pose proof (setState_promises s c r) as [Hp _];
      destruct (DroneControl._setState s c r) as [ctl1 rt1]
  end.
  simpl in *. exact Hp.
Qed.

Lemma cancel_movement (ctl : DroneControl.t) (rt : Runtime) :
  DroneControl.movement (fst (DroneControl.cancel ctl rt))
  = match Movement.model (DroneControl.movement ctl) with
    | Some pos =>
        Movement.setMovementCommand (hover_at (Some (Position.y pos)))
          (DroneControl.movement ctl)
    | None => DroneControl.movement ctl
    end.
Proof.
  unfold DroneControl.cancel.
  match goal with
  | |- context [DroneControl._setState ?s ?c ?r] =>
      pose proof (setState_rest s c r) as (_ & _ & _ & Hm);
      destruct (DroneControl._setState s c r) as [ctl1 rt1]
  end.
  simpl in *. unfold DroneControl.hoverInPlace. rewrite Hm.
  destruct (Movement.model (DroneControl.movement ctl)); simpl; congruence.
Qed.

Lemma cancel_rejects_pending (ctl : DroneControl.t) (rt : Runtime)
    (c : Command.t) :
  in_flight ctl c ->
  Command.completed c = false ->
  promises rt !! Command.promise c = None ->
  promises (snd (DroneControl.cancel ctl rt)) !! Command.promise c
  = Some (Rejected Command.cancelled_error).
Proof.
  intros Hin Hc Hp. rewrite cancel_promises.
  destruct Hin as [Hcur | Hq].
  - rewrite Hcur. apply cancelQueue_settled, cancel_store_pending; assumption.
  - destruct (DroneControl.currentCommand ctl) as [c0 |].
    + destruct (cancel_store_pending_or_cancelled c0 (promises rt) _ Hp)
        as [Hn | Hs].
      * apply cancelQueue_member; assumption.
      * apply cancelQueue_settled; assumption.
    + apply cancelQueue_member; assumption.
Qed.

Lemma cancel_keeps_settled (ctl : DroneControl.t) (rt : Runtime) (p : nat)
    (s : Settlement) :
  promises rt !! p = Some s ->
  promises (snd (DroneControl.cancel ctl rt)) !! p = Some s.
Proof.
  intros Hp. rewrite cancel_promises. apply cancelQueue_settled.
  destruct (DroneControl.currentCommand ctl);
    [apply cancel_store_settled |]; assumption.
Qed.

(** C2 as stated fails twice. A rotation started at the end of the tick that
    finished its predecessor is current and already resolved when [cancel]
    comes: its outcome stays resolved. And with no vehicle model attached,
    [cancel] writes no instruction. *)
Lemma cancel_claim_fails :
  (let s := calls Command.builtin
              [CallRotateYaw 0 Command.no_options;
               CallRotateYaw 1 Command.no_options;
               CallUpdate 0 0]
              (DroneControl.new loaded_vehicle, empty_runtime) in
   ~ cancel_settles_all_as_cancelled (fst s) (snd s))
  /\ (let s := calls Command.builtin
                 [CallTakeOff None Command.no_options]
                 (DroneControl.new unloaded_vehicle, empty_runtime) in
      ~ cancel_writes_hover (fst s) (snd s)).
Proof.
  split.
  - intros s H.
    destruct (DroneControl.currentCommand (fst s)) as [c |] eqn:Ec;
      [| discriminate Ec].
    specialize (H c (or_introl Ec)).
    vm_compute in Ec. injection Ec as <-.
    vm_compute in H. discriminate H.
  - intros s [instr [H _]]. discriminate H.
Qed.

(** C2, amended. [cancel()] rejects with "Command cancelled" the outcome of
    every command, current or queued, that was not settled yet, and changes
    no outcome that was; so no command whose flag agrees with its promise is
    left unsettled. It empties the queue, clears the current command and sets
    the state to Idle. With a vehicle model attached it writes a hover
    instruction at the vehicle's altitude; without one it writes nothing.
    [executeImmediate(cmd)] is this [cancel()] followed by the enqueueing of
    [cmd], which is then the only queued command. *)
Theorem cancel_settles_pending_as_cancelled :
  forall (ctl : DroneControl.t) (rt : Runtime),
    let ctl' := fst (DroneControl.cancel ctl rt) in
    let rt' := snd (DroneControl.cancel ctl rt) in
    (forall c : Command.t,
        in_flight ctl c ->
        Command.completed c = false ->
        promises rt !! Command.promise c = None ->
        promises rt' !! Command.promise c
        = Some (Rejected Command.cancelled_error))
    /\ (forall (p : nat) (s : Settlement),
           promises rt !! p = Some s -> promises rt' !! p = Some s)
    /\ (forall c : Command.t,
           in_flight ctl c ->
           (Command.completed c = true ->
            is_Some (promises rt !! Command.promise c)) ->
           is_Some (promises rt' !! Command.promise c))
    /\ DroneControl.commandQueue ctl' = []
    /\ DroneControl.currentCommand ctl' = None
    /\ DroneControl.state ctl' = IDLE
    /\ (forall pos : Position.t,
           Movement.model (DroneControl.movement ctl) = Some pos ->
           Movement.command (DroneControl.movement ctl')
           = Some (hover_at (Some (Position.y pos))))
    /\ (Movement.model (DroneControl.movement ctl) = None ->
        DroneControl.movement ctl' = DroneControl.movement ctl)
    /\ (forall cmd : Command.t,
           DroneControl.executeImmediate cmd ctl rt
           = DroneControl.enqueue cmd ctl' rt'
           /\ DroneControl.commandQueue
                (fst (fst (DroneControl.executeImmediate cmd ctl rt))) = [cmd]).
Proof.
  intros ctl rt ctl' rt'.
  assert (Hpending : forall c : Command.t,
             in_flight ctl c ->
             Command.completed c = false ->
             promises rt !! Command.promise c = None ->
             promises rt' !! Command.promise c
             = Some (Rejected Command.cancelled_error))
    by (intros c; apply cancel_rejects_pending).
  assert (Hkept : forall (p : nat) (s : Settlement),
             promises rt !! p = Some s -> promises rt' !! p = Some s)
    by (intros p s; apply cancel_keeps_settled).
  destruct (cancel_controller ctl rt) as (Hs & Hc & Hq & _).
  repeat split; try assumption.
  - intros c Hin Hcoh.
    destruct (promises rt !! Command.promise c) as [s |] eqn:Hp.
    + exists s. apply Hkept; assumption.
    + destruct (Command.completed c) eqn:Ec.
      * destruct (Hcoh eq_refl) as [s Hs']. discriminate Hs'.
      * eexists. apply Hpending; assumption.
  - intros pos Hm. unfold ctl'. rewrite cancel_movement, Hm. reflexivity.
  - intros Hm. unfold ctl'. rewrite cancel_movement, Hm. reflexivity.
  - unfold DroneControl.executeImmediate, ctl', rt'.
    destruct (DroneControl.cancel ctl rt); reflexivity.
  - unfold DroneControl.executeImmediate.
    fold ctl' in Hq.
    destruct (DroneControl.cancel ctl rt) as [c1 r1]. simpl in *.
    unfold ctl' in Hq. simpl in Hq. rewrite Hq. reflexivity.
Qed.

Lemma cancel_settles_pending_as_cancelled_witness :
  let rt' := snd (DroneControl.cancel busy_controller busy_runtime) in
  let ctl' := fst (DroneControl.cancel busy_controller busy_runtime) in
  promises rt' !! 0%nat = Some (Rejected Command.cancelled_error)
  /\ promises rt' !! 1%nat = Some (Rejected Command.cancelled_error)
  /\ Movement.command (DroneControl.movement ctl') = Some (hover_at (Some 0.05)).
Proof.
  intros rt' ctl'.
  pose proof (cancel_settles_pending_as_cancelled busy_controller busy_runtime)
    as (Hpending & _ & _ & _ & _ & _ & Hhover & _).
  split; [| split].
  - apply (Hpending climbing);
      [left; reflexivity | reflexivity | reflexivity].
  - apply (Hpending
             (Command.new_MoveToCommand (Some 0.5) None (Some 0.5)
                Command.no_options 1%nat));
      [right; left; reflexivity | reflexivity | reflexivity].
  - apply (Hhover {| Position.x := 0; Position.y := 0.05; Position.z := 0 |}).
    reflexivity.
Defined.

(** ** Faults in a command's update *)

Lemma fail_store_settled (e : Error) (c : Command.t) (ps : Promises) (p : nat)
    (s : Settlement) :
  ps !! p = Some s -> snd (Command.fail e c ps) !! p = Some s.
Proof.
  intros H. unfold Command.fail.
  destruct (Command.completed c); simpl; auto using settle_settled.
Qed.

Lemma fail_store_pending (e : Error) (c : Command.t) (ps : Promises) :
  Command.completed c = false ->
  ps !! Command.promise c = None ->
  snd (Command.fail e c ps) !! Command.promise c = Some (Rejected e)
  /\ Command.error (fst (Command.fail e c ps)) = Some e
  /\ Command.completed (fst (Command.fail e c ps)) = true.
Proof.
  intros Hc Hp. unfold Command.fail. rewrite Hc. simpl.
  split; [apply settle_pending; assumption | split; reflexivity].
Qed.

(** C3 as stated fails for a command that is settled when its update throws:
    [fail] is then a no-op and the outcome stays what it was. Here a take-off
    of a class whose update completes and then throws is enqueued on a fresh
    controller and ticked once. *)
Lemma fault_settles_as_failed_fails :
  let s := calls completes_then_throws [CallTakeOff None Command.no_options]
             (DroneControl.new loaded_vehicle, empty_runtime) in
  ~ fault_settles_as_failed completes_then_throws 1 0 (fst s) (snd s).
Proof.
  intros s H.
  destruct (beginTick completes_then_throws 1 (fst s) (snd s))
    as [[ctl1 rt1] thrown] eqn:Hb.
  vm_compute in Hb. injection Hb as <- <- <-.
  specialize (H _ _ _ _ _ _ eq_refl eq_refl eq_refl).
  vm_compute in H. discriminate H.
Qed.

(** C3, amended. When the update of the current command (the one that was
    current when the tick began, or the one the tick started from the queue)
    throws [e], the tick returns normally, reporting active: it calls
    [fail(e)] on the command, which rejects the outcome with [e] and stores
    [e] if the command was not settled yet, and leaves a settled outcome as it
    was; it clears the current command; and it reports the fault and emits the
    error notification for the command. *)
Theorem update_fault_is_caught :
  forall (M : Command.Methods) (now delta : R) (ctl ctl1 : DroneControl.t)
         (rt rt1 : Runtime) (c c1 : Command.t) (ps1 : Promises) (e : Error),
    DroneControl.paused ctl = false ->
    Movement.model (DroneControl.movement ctl) <> None ->
    beginTick M now ctl rt = (ctl1, rt1, None) ->
    DroneControl.currentCommand ctl1 = Some c ->
    Command.m_update M now delta (DroneControl.getState ctl1) c (promises rt1)
    = (c1, ps1, inr e) ->
    let r := DroneControl.update M now delta ctl rt in
    let failed := fst (Command.fail e c1 ps1) in
    snd r = inl true
    /\ DroneControl.currentCommand (fst (fst r)) = None
    /\ promises (snd (fst r)) = snd (Command.fail e c1 ps1)
    /\ log (snd (fst r))
       = (log rt1 ++ [ExecutionError e; CommandError failed e])%list
    /\ (Command.completed c1 = false ->
        ps1 !! Command.promise c1 = None ->
        promises (snd (fst r)) !! Command.promise c1 = Some (Rejected e)
        /\ Command.error failed = Some e)
    /\ (forall (p : nat) (s : Settlement),
           ps1 !! p = Some s -> promises (snd (fst r)) !! p = Some s).
Proof.
  intros M now delta ctl ctl1 rt rt1 c c1 ps1 e Hp Hm Hb Hc Hu r failed.
  assert (Hr : r = (DroneControl.with_currentCommand None
                      (DroneControl.with_currentCommand (Some c1) ctl1),
                    notify (CommandError failed e)
                      (with_promises (snd (Command.fail e c1 ps1))
                         (notify (ExecutionError e) (with_promises ps1 rt1))),
                    inl true)).
  { unfold r, DroneControl.update. rewrite Hp.
    destruct (Movement.model (DroneControl.movement ctl)); [| contradiction].
    cbn [orb]. unfold beginTick in Hb. rewrite Hb, Hc.
    unfold DroneControl.tryUpdate. rewrite Hu.
    unfold DroneControl.catchUpdate. cbn -[Command.fail].
    unfold failed. destruct (Command.fail e c1 ps1) as [c2 ps2]. reflexivity. }
  rewrite Hr. simpl.
  repeat split.
  - rewrite <- app_assoc. reflexivity.
  - apply fail_store_pending; assumption.
  - apply fail_store_pending; assumption.
  - intros p s Hs. apply fail_store_settled; assumption.
Qed.

(** An update that throws at once: on a running command, and on a take-off
    the tick has just started from the queue. *)
Lemma update_fault_is_caught_witness :
  (let r := DroneControl.update throws_at_once 0 0 (one_running running_base)
              {| promises := ∅; nextPromise := 1; log := [] |} in
   snd r = inl true
   /\ DroneControl.currentCommand (fst (fst r)) = None
   /\ promises (snd (fst r)) !! 0%nat = Some (Rejected "boom"))
  /\ (let s := calls throws_at_once [CallTakeOff None Command.no_options]
                 (DroneControl.new loaded_vehicle, empty_runtime) in
      let r := DroneControl.update throws_at_once 7 0 (fst s) (snd s) in
      snd r = inl true
      /\ DroneControl.currentCommand (fst (fst r)) = None
      /\ promises (snd (fst r)) !! 0%nat = Some (Rejected "boom")).
Proof.
  split.
  - intros r.
    pose proof (update_fault_is_caught throws_at_once 0 0
                  (one_running running_base) (one_running running_base)
                  {| promises := ∅; nextPromise := 1; log := [] |}
                  {| promises := ∅; nextPromise := 1; log := [] |}
                  running_base running_base ∅ "boom"
                  eq_refl ltac:(discriminate) eq_refl eq_refl eq_refl)
      as (H1 & H2 & _ & _ & H5 & _).
    split; [exact H1 | split; [exact H2 |]].
    apply (H5 eq_refl eq_refl).
  - intros s r.
    destruct (beginTick throws_at_once 7 (fst s) (snd s))
      as [[ctl1 rt1] thrown] eqn:Hb.
    vm_compute in Hb. injection Hb as <- <- <-.
    pose proof (update_fault_is_caught throws_at_once 7 0 (fst s) _ (snd s) _
                  _ _ _ "boom"
                  eq_refl ltac:(discriminate) eq_refl eq_refl eq_refl)
      as (H1 & H2 & _ & _ & H5 & _).
    split; [exact H1 | split; [exact H2 |]].
    apply (H5 eq_refl eq_refl).
Defined.

(** ** The MoveTo instruction *)

Lemma andb_Rltb_nat (a b c d : R) (n : nat) :
  Rltb a b && Rltb c d && (2 <=? S n)%nat = true
  <-> a < b /\ c < d /\ (1 <= n)%nat.
Proof.
  rewrite !andb_true_iff, !Rltb_spec, Nat.leb_le. split.
  - intros [[H1 H2] H3]. repeat split; try assumption. lia.
  - intros (H1 & H2 & H3). repeat split; try assumption. lia.
Qed.

(** The instruction of a MoveTo tick that does not complete the command. *)
Lemma moveTo_instruction (now delta : R) (ds : DroneState.t) (c : Command.t)
    (ps : Promises) (tg : Target) (mx mn ptol atol sd : R) (sf : nat) :
  Command.variant c = Command.MoveTo tg mx mn ptol atol sd sf ->
  let pos := DroneState.position ds in
  let dx := tx tg - Position.x pos in
  let dz := tz tg - Position.z pos in
  let dy := to_number (ty tg) - Position.y pos in
  let d := sqrt (dx * dx + dz * dz) in
  ~ (d < ptol /\ Rabs dy < atol /\ (1 <= sf)%nat) ->
  snd (Command.update now delta ds c ps)
  = {| Motion.hover := false;
       Motion.angle := atan2 dz dx;
       Motion.speed :=
         Rmax (Command.guarded_speed
                 (Command.zone_speed mx mn ptol sd d) delta ptol d)
           (mn * 0.8);
       Motion.altitude := ty tg |}.
Proof.
  intros Hv pos dx dz dy d Hnot.
  unfold Command.update. rewrite Hv.
  destruct (Command.update_base now ds c ps) as [[c1 ps1] i1].
  fold pos. fold dx dz dy. fold d.
  destruct (Rltb d ptol && Rltb (Rabs dy) atol) eqn:Harr.
  - destruct (2 <=? S sf)%nat eqn:Hsf.
    + exfalso. apply Hnot.
      apply (andb_Rltb_nat d ptol (Rabs dy) atol sf).
      rewrite Harr, Hsf. reflexivity.
    + cbn [andb]. reflexivity.
  - cbn [andb]. reflexivity.
Qed.

(** C6. On a MoveTo tick in which the arrival test does not reach its second
    consecutive stable tick, with [d] the horizontal distance to the target:
    the instruction is a motion instruction with [angle = atan2(dz, dx)] and
    the target altitude; the pre-clamp speed is [minSpeed] when
    [d < 2 * positionTolerance], else
    [minSpeed + (maxSpeed - minSpeed) * (d / slowdownDistance)] when
    [d < slowdownDistance], else [maxSpeed]; if [speed * delta > d] and
    [d > positionTolerance] it is replaced by [0.8 * d / delta]; and the
    returned speed is the maximum of that value and [0.8 * minSpeed]. *)
Theorem moveTo_speed_profile :
  forall (now delta : R) (ds : DroneState.t) (c : Command.t) (ps : Promises)
         (tg : Target) (mx mn ptol atol sd : R) (sf : nat),
    Command.variant c = Command.MoveTo tg mx mn ptol atol sd sf ->
    let pos := DroneState.position ds in
    let dx := tx tg - Position.x pos in
    let dz := tz tg - Position.z pos in
    let dy := to_number (ty tg) - Position.y pos in
    let d := sqrt (dx * dx + dz * dz) in
    ~ (d < ptol /\ Rabs dy < atol /\ (1 <= sf)%nat) ->
    let instr := snd (Command.update now delta ds c ps) in
    Motion.hover instr = false
    /\ Motion.angle instr = atan2 dz dx
    /\ Motion.altitude instr = ty tg
    /\ exists pre guarded : R,
         (d < 2 * ptol -> pre = mn)
         /\ (~ d < 2 * ptol -> d < sd -> pre = mn + (mx - mn) * (d / sd))
         /\ (~ d < 2 * ptol -> ~ d < sd -> pre = mx)
         /\ (pre * delta > d /\ d > ptol -> guarded = 0.8 * d / delta)
         /\ (~ (pre * delta > d /\ d > ptol) -> guarded = pre)
         /\ Motion.speed instr = Rmax guarded (0.8 * mn).
Proof.
  intros now delta ds c ps tg mx mn ptol atol sd sf Hv pos dx dz dy d Hnot instr.
  assert (Hinstr := moveTo_instruction now delta ds c ps tg mx mn ptol atol sd sf
                      Hv Hnot).
  fold instr in Hinstr. cbv zeta in Hinstr. fold pos dx dz d in Hinstr.
  rewrite Hinstr. cbn [Motion.hover Motion.angle Motion.altitude Motion.speed].
  repeat split.
  exists (Command.zone_speed mx mn ptol sd d),
    (Command.guarded_speed (Command.zone_speed mx mn ptol sd d) delta ptol d).
  repeat split.
  - intros H. unfold Command.zone_speed.
    rewrite (Rltb_true d (ptol * 2)) by lra. reflexivity.
  - intros H1 H2. unfold Command.zone_speed.
    rewrite (Rltb_false d (ptol * 2)) by lra.
    rewrite (Rltb_true d sd) by assumption. reflexivity.
  - intros H1 H2. unfold Command.zone_speed.
    rewrite (Rltb_false d (ptol * 2)) by lra.
    rewrite (Rltb_false d sd) by lra. reflexivity.
  - intros [H1 H2]. unfold Command.guarded_speed, Rgtb.
    rewrite (Rltb_true d _) by lra. rewrite (Rltb_true ptol d) by lra.
    cbn [andb]. unfold Rdiv. ring.
  - intros H. unfold Command.guarded_speed, Rgtb.
    destruct (Rltb d (Command.zone_speed mx mn ptol sd d * delta)) eqn:E1;
      [| reflexivity].
    destruct (Rltb ptol d) eqn:E2; [| reflexivity].
    exfalso. apply H. apply Rltb_spec in E1. apply Rltb_spec in E2. lra.
  - rewrite (Rmult_comm mn 0.8). reflexivity.
Qed.

Lemma diagonal_distance :
  0.3 <= sqrt ((0.5 - 0) * (0.5 - 0) + (0.5 - 0) * (0.5 - 0)) <= 1.
Proof.
  split.
  - rewrite <- (sqrt_square 0.3) at 1 by lra. apply sqrt_le_1_alt. lra.
  - apply Rle_trans with (sqrt 1); [apply sqrt_le_1_alt; lra |].
    rewrite sqrt_1. lra.
Qed.

(** The move to (0.5, 0.5) from the origin with the default speeds: the
    first tick heads at 45 degrees at the maximal speed. *)
Lemma moveTo_speed_profile_witness :
  let instr := snd (Command.update 2 0.016 hovering_at_one move_diagonal ∅) in
  Motion.hover instr = false
  /\ Motion.angle instr = PI / 4
  /\ Motion.speed instr = 0.2.
Proof.
  intros instr.
  pose proof diagonal_distance as [Hlo Hhi].
  assert (Hnot :
            ~ (sqrt ((tx {| tx := 0.5; ty := Some 1; tz := 0.5 |}
                      - Position.x (DroneState.position hovering_at_one))
                     * (tx {| tx := 0.5; ty := Some 1; tz := 0.5 |}
                        - Position.x (DroneState.position hovering_at_one))
                     + (tz {| tx := 0.5; ty := Some 1; tz := 0.5 |}
                        - Position.z (DroneState.position hovering_at_one))
                       * (tz {| tx := 0.5; ty := Some 1; tz := 0.5 |}
                          - Position.z (DroneState.position hovering_at_one)))
               < 0.08
               /\ Rabs (to_number (ty {| tx := 0.5; ty := Some 1; tz := 0.5 |})
                        - Position.y (DroneState.position hovering_at_one))
                  < 0.05
               /\ (1 <= 0)%nat)).
  { intros (_ & _ & H). lia. }
  pose proof (moveTo_speed_profile 2 0.016 hovering_at_one move_diagonal ∅
                {| tx := 0.5; ty := Some 1; tz := 0.5 |}
                0.2 0.05 0.08 0.05 0.3 0%nat eq_refl Hnot)
    as (Hh & Ha & _ & pre & guarded & _ & _ & Hfar & _ & Hkeep & Hs).
  cbn [tx tz Position.x Position.z DroneState.position hovering_at_one]
    in Hfar, Hkeep, Ha.
  fold instr in Hh, Ha, Hs.
  split; [exact Hh | split].
  - rewrite Ha. unfold atan2. rewrite (Rltb_true 0 (0.5 - 0)) by lra.
    replace ((0.5 - 0) / (0.5 - 0)) with 1 by (field; lra).
    apply atan_1.
  - assert (Hpre : pre = 0.2) by (apply Hfar; lra).
    assert (Hg : guarded = 0.2).
    { rewrite <- Hpre. apply Hkeep. rewrite Hpre. lra. }
    rewrite Hs, Hg. apply Rmax_left. lra.
Defined.

(** ** Timeouts *)

Lemma timed_out_true (now t : R) (c : Command.t) :
  Command.startTime c = Some t -> t <> 0 -> now - t > Command.timeoutMs c ->
  Command.timed_out now c = true.
Proof.
  intros Hs Ht Hgt. unfold Command.timed_out. rewrite Hs.
  rewrite truthy_Some by assumption. simpl.
  unfold Rgtb. apply Rltb_true. unfold to_number, nullish. lra.
Qed.

(** What the timeout check does to a running, unsettled command. *)
Lemma update_base_times_out (now t : R) (ds : DroneState.t) (c : Command.t)
    (ps : Promises) :
  Command.startTime c = Some t -> t <> 0 -> now - t > Command.timeoutMs c ->
  Command.completed c = false ->
  Command.update_base now ds c ps
  = ({| Command.startTime := Command.startTime c;
        Command.timeoutMs := Command.timeoutMs c;
        Command.completed := true;
        Command.error := Some Command.timeout_error;
        Command.promise := Command.promise c;
        Command.variant := Command.variant c |},
     settle (Command.promise c) (Rejected Command.timeout_error) ps,
     hover_at (Some (Position.y (DroneState.position ds)))).
Proof.
  intros Hs Ht Hgt Hc. unfold Command.update_base, Command.check_timeout.
  rewrite (timed_out_true now t c Hs Ht Hgt).
  unfold Command.fail. rewrite Hc. reflexivity.
Qed.

Lemma complete_settled (result : CommandResult) (c : Command.t) (ps : Promises) :
  Command.completed c = true -> Command.complete result c ps = (c, ps).
Proof. intros H. unfold Command.complete. rewrite H. reflexivity. Qed.

(** The tick on which the timeout fires, class by class. For a command that
    was started (at a non-zero reading of the clock) and is not settled yet,
    once the elapsed time exceeds [timeoutMs] the next [update] rejects the
    outcome with "Command timeout" and stores the error ([RotateYaw] has no
    timeout check). The base class, Hover, TakeOff and Land return a hover
    instruction on that tick. [MoveToCommand.update] calls [super.update]
    for the check but drops the hover it returns and goes on with its own
    instruction: the hover of the arrival on its second stable tick, a
    motion instruction otherwise. *)
Lemma update_on_timeout_tick :
  forall (now delta t : R) (ds : DroneState.t) (c : Command.t) (ps : Promises),
    Command.startTime c = Some t ->
    t <> 0 ->
    now - t > Command.timeoutMs c ->
    Command.completed c = false ->
    ps !! Command.promise c = None ->
    (forall a : R, Command.variant c <> Command.RotateYaw a) ->
    let r := Command.update now delta ds c ps in
    snd (fst r) !! Command.promise c = Some (Rejected Command.timeout_error)
    /\ Command.completed (fst (fst r)) = true
    /\ Command.error (fst (fst r)) = Some Command.timeout_error
    /\ timeout_tick_instruction ds c (snd r).
Proof.
  intros now delta t ds c ps Hs Ht Hgt Hc Hp Hrot r.
  pose proof (update_base_times_out now t ds c ps Hs Ht Hgt Hc) as Hb.
  pose proof (settle_pending _ (Rejected Command.timeout_error) ps Hp) as Hset.
  unfold r, timeout_tick_instruction, Command.update.
  destruct (Command.variant c) as
    [| ta | ta tol sf la | ga tol sf | tg mx mn ptol atol sd sf | a] eqn:Hv.
  - rewrite Hb. simpl. auto.
  - rewrite Hb. simpl. auto.
  - rewrite Hb.
    destruct (Rltb (Rabs (Position.y (DroneState.position ds) - ta)) tol);
      [destruct (2 <=? S sf)%nat; [rewrite complete_settled by reflexivity |] |];
      simpl; auto.
  - rewrite Hb.
    destruct (Rltb (Rabs (Position.y (DroneState.position ds) - ga)) tol);
      [destruct (2 <=? S sf)%nat; [rewrite complete_settled by reflexivity |] |];
      simpl; auto.
  - rewrite Hb.
    set (pos := DroneState.position ds).
    set (dx := tx tg - Position.x pos).
    set (dz := tz tg - Position.z pos).
    set (dy := to_number (ty tg) - Position.y pos).
    set (d := sqrt (dx * dx + dz * dz)).
    destruct (Rltb d ptol && Rltb (Rabs dy) atol) eqn:Harr.
    + destruct (2 <=? S sf)%nat eqn:Hsf.
      * cbn [andb]. rewrite complete_settled by reflexivity.
        cbn [fst snd Command.completed Command.error Command.with_variant].
        split; [assumption | split; [reflexivity | split; [reflexivity |]]].
        split.
        -- intros _. reflexivity.
        -- intros Hnot. exfalso. apply Hnot.
           apply (andb_Rltb_nat d ptol (Rabs dy) atol sf).
           rewrite Harr, Hsf. reflexivity.
      * cbn [andb fst snd Command.completed Command.error Command.with_variant].
        split; [assumption | split; [reflexivity | split; [reflexivity |]]].
        split.
        -- intros Hyes. exfalso.
           apply (andb_Rltb_nat d ptol (Rabs dy) atol sf) in Hyes.
           rewrite Harr, Hsf in Hyes. discriminate Hyes.
        -- intros _. split; [reflexivity |].
           cbn [Motion.speed]. apply Rle_ge, Rmax_r.
    + cbn [andb fst snd Command.completed Command.error Command.with_variant].
      split; [assumption | split; [reflexivity | split; [reflexivity |]]].
      split.
      * intros Hyes. exfalso.
        apply (andb_Rltb_nat d ptol (Rabs dy) atol sf) in Hyes.
        rewrite Harr in Hyes. discriminate Hyes.
      * intros _. split; [reflexivity |].
        cbn [Motion.speed]. apply Rle_ge, Rmax_r.
  - exfalso. apply (Hrot a). reflexivity.
Qed.

(** A tick with nothing current and nothing queued writes no instruction. *)
Lemma idle_tick (M : Command.Methods) (now delta : R) (ctl : DroneControl.t)
    (rt : Runtime) :
  DroneControl.currentCommand ctl = None ->
  DroneControl.commandQueue ctl = [] ->
  let r := DroneControl.update M now delta ctl rt in
  DroneControl.movement (fst (fst r)) = DroneControl.movement ctl
  /\ DroneControl.currentCommand (fst (fst r)) = None
  /\ DroneControl.commandQueue (fst (fst r)) = []
  /\ promises (snd (fst r)) = promises rt
  /\ snd r = inl false.
Proof.
  intros Hc Hq r. unfold r, DroneControl.update.
  destruct (DroneControl.paused ctl
            || match Movement.model (DroneControl.movement ctl) with
               | Some _ => false
               | None => true
               end); [cbn; auto |].
  rewrite Hc, Hq. cbn [andb length Nat.ltb Nat.leb]. rewrite Hc.
  destruct (state_eqb (DroneControl.state ctl) IDLE) eqn:E.
  - cbn. auto.
  - unfold DroneControl._setState. rewrite E. cbn. auto.
Qed.

Lemma idle_ticks (M : Command.Methods) (ts : list (R * R))
    (ctl : DroneControl.t) (rt : Runtime) :
  DroneControl.currentCommand ctl = None ->
  DroneControl.commandQueue ctl = [] ->
  let s := calls M (ticks ts) (ctl, rt) in
  DroneControl.movement (fst s) = DroneControl.movement ctl
  /\ DroneControl.currentCommand (fst s) = None
  /\ DroneControl.commandQueue (fst s) = []
  /\ promises (snd s) = promises rt.
Proof.
  revert ctl rt. induction ts as [| [now delta] ts IH]; intros ctl rt Hc Hq.
  - cbn. auto.
  - cbn [ticks map calls fold_left call fst snd].
    destruct (idle_tick M now delta ctl rt Hc Hq) as (H1 & H2 & H3 & H4 & _).
    destruct (DroneControl.update M now delta ctl rt) as [[ctl1 rt1] b].
    cbn [fst snd] in *.
    destruct (IH ctl1 rt1 H2 H3) as (I1 & I2 & I3 & I4).
    unfold calls, ticks in I1, I2, I3, I4.
    rewrite I1, I2, I3, I4. auto.
Qed.

(** C5. What the code does when the timeout of a MoveTo fires while the
    vehicle is still on its way (the arrival test is not on its second stable
    tick). The tick rejects the outcome with "Command timeout", as the claim
    says; but the instruction it writes to the vehicle is not a hover: it is
    the motion instruction of the speed profile ([hover] false, heading
    [atan2(dz, dx)], speed at least [0.8 * minSpeed]). The controller then
    drops the command, and with nothing queued no later tick writes another
    instruction: the controller reports itself inactive while the motion
    instruction stays the one the vehicle applies. *)
Theorem timed_out_move_is_left_flying :
  forall (later : list (R * R)) (now delta t : R) (ctl : DroneControl.t)
         (rt : Runtime) (c : Command.t) (pos : Position.t) (tg : Target)
         (mx mn ptol atol sd : R) (sf : nat),
    DroneControl.paused ctl = false ->
    Movement.model (DroneControl.movement ctl) = Some pos ->
    DroneControl.currentCommand ctl = Some c ->
    DroneControl.commandQueue ctl = [] ->
    Command.variant c = Command.MoveTo tg mx mn ptol atol sd sf ->
    Command.startTime c = Some t ->
    t <> 0 ->
    now - t > Command.timeoutMs c ->
    Command.completed c = false ->
    promises rt !! Command.promise c = None ->
    let dx := tx tg - Position.x pos in
    let dz := tz tg - Position.z pos in
    let dy := to_number (ty tg) - Position.y pos in
    let d := sqrt (dx * dx + dz * dz) in
    ~ (d < ptol /\ Rabs dy < atol /\ (1 <= sf)%nat) ->
    let r := DroneControl.update Command.builtin now delta ctl rt in
    let s := calls Command.builtin (ticks later) (fst r) in
    let instr :=
      {| Motion.hover := false;
         Motion.angle := atan2 dz dx;
         Motion.speed :=
           Rmax (Command.guarded_speed
                   (Command.zone_speed mx mn ptol sd d) delta ptol d)
             (mn * 0.8);
         Motion.altitude := ty tg |} in
    promises (snd (fst r)) !! Command.promise c
    = Some (Rejected Command.timeout_error)
    /\ Movement.command (DroneControl.movement (fst (fst r))) = Some instr
    /\ Motion.speed instr >= mn * 0.8
    /\ DroneControl.currentCommand (fst (fst r)) = None
    /\ DroneControl.commandQueue (fst (fst r)) = []
    /\ Movement.command (DroneControl.movement (fst s)) = Some instr
    /\ DroneControl.isActive (fst s) = false
    /\ promises (snd s) = promises (snd (fst r)).
Proof.
  intros later now delta t ctl rt c pos tg mx mn ptol atol sd sf
    Hp Hm Hcur Hq Hv Hs Ht Hgt Hc Hpend dx dz dy d Hnot r s instr.
  assert (Hrot : forall a : R, Command.variant c <> Command.RotateYaw a).
  { intros a H. rewrite Hv in H. discriminate H. }
  pose proof (update_on_timeout_tick now delta t (DroneControl.getState ctl)
                c (promises rt) Hs Ht Hgt Hc Hpend Hrot) as (U1 & U2 & U3 & _).
  assert (Hi : snd (Command.update now delta (DroneControl.getState ctl) c
                      (promises rt)) = instr).
  { assert (Hpos : DroneState.position (DroneControl.getState ctl)
                   = {| Position.x := Position.x pos;
                        Position.y := Position.y pos;
                        Position.z := Position.z pos |}).
    { unfold DroneControl.getState. rewrite Hm. reflexivity. }
    pose proof (moveTo_instruction now delta (DroneControl.getState ctl) c
                  (promises rt) tg mx mn ptol atol sd sf Hv) as Hi.
    cbv zeta in Hi. rewrite Hpos in Hi.
    cbn [Position.x Position.y Position.z] in Hi.
    apply Hi. exact Hnot. }
  assert (Er : r = (DroneControl.with_currentCommand None
                      (DroneControl.with_movement
                         (Movement.setMovementCommand instr
                            (DroneControl.movement ctl))
                         (DroneControl.with_currentCommand
                            (Some (fst (fst (Command.update now delta
                                               (DroneControl.getState ctl) c
                                               (promises rt))))) ctl)),
                    notify (CommandError
                              (fst (fst (Command.update now delta
                                           (DroneControl.getState ctl) c
                                           (promises rt))))
                              Command.timeout_error)
                      (with_promises
                         (snd (fst (Command.update now delta
                                      (DroneControl.getState ctl) c
                                      (promises rt)))) rt),
                    inl true)).
  { unfold r, DroneControl.update. rewrite Hp, Hm, Hcur. cbn [orb andb].
    rewrite Hcur. unfold DroneControl.tryUpdate.
    cbn [Command.m_update Command.builtin].
    destruct (Command.update now delta (DroneControl.getState ctl) c
                (promises rt)) as [[c' ps'] i'].
    cbn [fst snd] in U2, U3, Hi |- *. rewrite U2, U3, Hi.
    cbn [DroneControl.commandQueue DroneControl.with_currentCommand
         DroneControl.with_movement DroneControl.movement].
    rewrite Hq. reflexivity. }
  assert (Hlater := idle_ticks Command.builtin later (fst (fst r)) (snd (fst r))).
  rewrite <- surjective_pairing in Hlater. fold s in Hlater.
  rewrite Er in *. cbn [fst snd] in *.
  destruct Hlater as (L1 & L2 & L3 & L4); [reflexivity | exact Hq |].
  split; [exact U1 |]. split; [reflexivity |].
  split; [apply Rle_ge, Rmax_r |].
  split; [reflexivity |]. split; [exact Hq |].
  split; [rewrite L1; reflexivity |].
  split; [| exact L4].
  unfold DroneControl.isActive. rewrite L2, L3. reflexivity.
Qed.

(** The move of 10 m, 30 s after its start: the vehicle is 4 m short of the
    target, the outcome is rejected, and two ticks later the vehicle is still
    told to fly. *)
Lemma timed_out_move_is_left_flying_witness :
  let r := DroneControl.update Command.builtin 30002 0.016 flying_far
             {| promises := ∅; nextPromise := 1; log := [] |} in
  let s := calls Command.builtin
             (ticks [(30018, 0.016); (30034, 0.016)]) (fst r) in
  promises (snd s) !! 0%nat = Some (Rejected Command.timeout_error)
  /\ DroneControl.isActive (fst s) = false
  /\ Movement.command (DroneControl.movement (fst s))
     = Some {| Motion.hover := false; Motion.angle := 0;
               Motion.speed := 0.2; Motion.altitude := Some 1 |}.
Proof.
  intros r s.
  assert (Ht : (1 : R) <> 0) by lra.
  assert (Hgt : 30002 - 1 > Command.timeoutMs long_move).
  { cbn. unfold Command.DEFAULT_CONFIG.timeoutMs. lra. }
  assert (Hpend : promises {| promises := ∅; nextPromise := 1; log := [] |}
                    !! Command.promise long_move = None) by reflexivity.
  destruct (timed_out_move_is_left_flying
              [(30018, 0.016); (30034, 0.016)] 30002 0.016 1 flying_far
              {| promises := ∅; nextPromise := 1; log := [] |} long_move
              {| Position.x := 6; Position.y := 1; Position.z := 0 |}
              {| tx := 10; ty := Some 1; tz := 0 |}
              0.2 0.05 0.08 0.05 0.3 0%nat
              eq_refl eq_refl eq_refl eq_refl eq_refl eq_refl Ht Hgt
              eq_refl Hpend
              ltac:(intros (_ & _ & H); lia))
    as (H1 & _ & _ & _ & _ & H6 & H7 & H8).
  fold r in H1, H8. fold s in H6, H7, H8.
  split; [rewrite H8; exact H1 |].
  split; [exact H7 |].
  etransitivity; [exact H6 |]. cbn [tx ty tz Position.x Position.z].
  assert (Hd : sqrt ((10 - 6) * (10 - 6) + (0 - 0) * (0 - 0)) = 4).
  { replace ((10 - 6) * (10 - 6) + (0 - 0) * (0 - 0)) with (4 * 4) by lra.
    apply sqrt_square. lra. }
  rewrite Hd.
  unfold Command.zone_speed, Command.guarded_speed, Rgtb, atan2.
  rewrite (Rltb_false 4 (0.08 * 2)) by lra.
  rewrite (Rltb_false 4 0.3) by lra.
  rewrite (Rltb_false 4 (0.2 * 0.016)) by lra. cbn [andb].
  rewrite (Rltb_true 0 (10 - 6)) by lra.
  rewrite Rmax_left by lra.
  replace ((0 - 0) / (10 - 6)) with 0 by (field; lra).
  rewrite atan_0. reflexivity.
Defined.

(** ** Missions *)

Lemma mission_state_eqb_eq (a b : Mission.MissionState) :
  Mission.state_eqb a b = true <-> a = b.
Proof. destruct a, b; simpl; split; intros H; congruence. Qed.

Lemma settleMission_fields (s : Mission.MissionSettlement) (m : Mission.t) :
  Mission.state (Mission.settleMission s m) = Mission.state m
  /\ Mission.trace (Mission.settleMission s m) = Mission.trace m
  /\ Mission.cancelled (Mission.settleMission s m) = Mission.cancelled m
  /\ Mission.results (Mission.settleMission s m) = Mission.results m
  /\ Mission.waypoints (Mission.settleMission s m) = Mission.waypoints m
  /\ Mission.continueOnError (Mission.settleMission s m)
     = Mission.continueOnError m.
Proof.
  unfold Mission.settleMission. destruct (Mission.promise m); simpl; auto 10.
Qed.

Lemma settleMission_pending (s : Mission.MissionSettlement) (m : Mission.t) :
  Mission.promise m = None -> Mission.promise (Mission.settleMission s m) = Some s.
Proof. intros H. unfold Mission.settleMission. rewrite H. reflexivity. Qed.

(** The loop exit. *)
Lemma iterate_end (now : R) (i : nat) (w : Mission.World) :
  Mission.waypoints (Mission.mission w) !! i = None ->
  let m := Mission.mission w in
  let w' := Mission.iterate now i w in
  Mission.state (Mission.mission w') = Mission.COMPLETED
  /\ Mission.continuation (Mission.mission w') = Mission.NotSuspended
  /\ Mission.results (Mission.mission w') = Mission.results m
  /\ Mission.trace (Mission.mission w') = Mission.trace m
  /\ Mission.controller w' = Mission.controller w
  /\ Mission.runtime w' = Mission.runtime w
  /\ (Mission.promise m = None ->
      Mission.promise (Mission.mission w')
      = Some (Mission.MResolved
                {| Mission.duration := now - to_number (Mission.startTime m);
                   Mission.s_results := Mission.results m;
                   Mission.waypointsCompleted :=
                     length (List.filter Mission.success (Mission.results m));
                   Mission.waypointsTotal := length (Mission.waypoints m) |})).
Proof.
  intros Hw m w'. subst m w'. unfold Mission.iterate. rewrite Hw.
  unfold Mission.settleMission. simpl.
  destruct (Mission.promise (Mission.mission w)) eqn:Hp; simpl;
    (split; [reflexivity |]); (split; [reflexivity |]);
    (split; [reflexivity |]); (split; [reflexivity |]);
    (split; [reflexivity |]); (split; [reflexivity |]);
    intros H; try discriminate H; reflexivity.
Qed.

(** The loop head when the cancellation flag is set. *)
Lemma iterate_cancelled (now : R) (i : nat) (w : Mission.World)
    (waypoint : Waypoint.t) :
  Mission.waypoints (Mission.mission w) !! i = Some waypoint ->
  Mission.cancelled (Mission.mission w) = true ->
  let w' := Mission.iterate now i w in
  Mission.state (Mission.mission w') = Mission.CANCELLED
  /\ Mission.continuation (Mission.mission w') = Mission.NotSuspended
  /\ Mission.trace (Mission.mission w') = Mission.trace (Mission.mission w)
  /\ Mission.controller w' = Mission.controller w
  /\ Mission.runtime w' = Mission.runtime w.
Proof.
  intros Hw Hc w'. unfold w', Mission.iterate. rewrite Hw, Hc.
  unfold Mission.settleMission. simpl.
  destruct (Mission.promise (Mission.mission w)); simpl; auto.
Qed.

(** The loop head when the waypoint is dispatched. *)
Lemma iterate_dispatch (now : R) (i : nat) (w : Mission.World)
    (waypoint : Waypoint.t) :
  Mission.waypoints (Mission.mission w) !! i = Some waypoint ->
  Mission.cancelled (Mission.mission w) = false ->
  now - to_number (Mission.startTime (Mission.mission w))
  <= Mission.timeoutMs (Mission.mission w) ->
  Mission.iterate now i w
  = let m := Mission.mission w in
    let m := Mission.with_currentIndex i m in
    let m := Mission.emit
               (Mission.Progress i (length (Mission.waypoints m)) waypoint) m in
    let m := Mission.emit (Mission.ControllerCall i waypoint) m in
    let '(ctl, rt, k) :=
      Mission._executeWaypoint i waypoint (Mission.controller w)
        (Mission.runtime w) in
    {| Mission.mission := Mission.with_continuation k m;
       Mission.controller := ctl;
       Mission.runtime := rt |}.
Proof.
  intros Hw Hc Ht. unfold Mission.iterate. rewrite Hw, Hc.
  unfold Rgtb. rewrite Rltb_false by assumption. reflexivity.
Qed.

Lemma dispatched_app (m : Mission.t) (e : Mission.Event) :
  dispatched (Mission.emit e m)
  = (dispatched m ++ match e with
                     | Mission.ControllerCall i _ => [i]
                     | _ => []
                     end)%list.
Proof.
  unfold dispatched, Mission.emit. simpl.
  rewrite flat_map_app. simpl. rewrite app_nil_r. reflexivity.
Qed.

Lemma finished_step (k : MissionStep) (w : Mission.World) :
  finished (Mission.mission w) ->
  finished (Mission.mission (missionStep k w))
  /\ dispatched (Mission.mission (missionStep k w))
     = dispatched (Mission.mission w).
Proof.
  intros [Hk Hs]. destruct k; simpl.
  - unfold Mission.run.
    destruct (Mission.state_eqb (Mission.state (Mission.mission w))
                Mission.PENDING) eqn:E.
    + apply mission_state_eqb_eq in E. contradiction.
    + simpl. split; [split; assumption | reflexivity].
  - unfold Mission.resumeRun. rewrite Hk. split; [split; assumption | reflexivity].
  - unfold Mission.delayElapsed. rewrite Hk.
    split; [split; assumption | reflexivity].
  - unfold Mission.cancel.
    destruct (Mission.control (Mission.with_cancelled true (Mission.mission w)));
      [destruct (DroneControl.cancel _ _) |]; simpl;
      (split; [split; assumption | reflexivity]).
  - unfold Mission.pause.
    destruct (Mission.state_eqb (Mission.state (Mission.mission w))
                Mission.RUNNING); [| split; [split; assumption | reflexivity]].
    destruct (Mission.control _); [destruct (DroneControl.pause _ _) |]; simpl;
      (split; [split; [assumption | discriminate] | reflexivity]).
  - unfold Mission.resume.
    destruct (Mission.state_eqb (Mission.state (Mission.mission w))
                Mission.PAUSED); [| split; [split; assumption | reflexivity]].
    destruct (Mission.control _); [destruct (DroneControl.resume _ _) |]; simpl;
      (split; [split; [assumption | discriminate] | reflexivity]).
  - split; [split; assumption | reflexivity].
Qed.

Lemma finished_steps (ks : list MissionStep) (w : Mission.World) :
  finished (Mission.mission w) ->
  finished (Mission.mission (missionSteps ks w))
  /\ dispatched (Mission.mission (missionSteps ks w))
     = dispatched (Mission.mission w).
Proof.
  revert w. induction ks as [| k ks IH]; intros w Hf; simpl.
  - split; [assumption | reflexivity].
  - destruct (finished_step k w Hf) as [Hf' Hd].
    destruct (IH _ Hf') as [Hf'' Hd'].
    split; [assumption | congruence].
Qed.

Lemma iterate_results (now : R) (i : nat) (w : Mission.World) :
  Mission.results (Mission.mission (Mission.iterate now i w))
  = Mission.results (Mission.mission w)
  /\ Mission.waypoints (Mission.mission (Mission.iterate now i w))
     = Mission.waypoints (Mission.mission w)
  /\ Mission.continueOnError (Mission.mission (Mission.iterate now i w))
     = Mission.continueOnError (Mission.mission w).
Proof.
  unfold Mission.iterate.
  destruct (Mission.waypoints (Mission.mission w) !! i) as [waypoint |].
  - destruct (Mission.cancelled (Mission.mission w)).
    + simpl. unfold Mission.settleMission. simpl.
      destruct (Mission.promise (Mission.mission w)); simpl; auto.
    + destruct (Rgtb _ _).
      * simpl. unfold Mission.settleMission. simpl.
        destruct (Mission.promise (Mission.mission w)); simpl; auto.
      * destruct (Mission._executeWaypoint i waypoint (Mission.controller w)
                    (Mission.runtime w)) as [[ctl rt] k]. simpl. auto.
  - simpl. unfold Mission.settleMission. simpl.
    destruct (Mission.promise (Mission.mission w)); simpl; auto.
Qed.

(** The inner [catch] under the default policy. *)
Lemma waypointFailed_abort (now : R) (i : nat) (e : Error) (w : Mission.World) :
  Mission.continueOnError (Mission.mission w) = false ->
  let m := Mission.mission w in
  let w' := Mission.waypointFailed now i e w in
  Mission.results (Mission.mission w')
  = (Mission.results m ++ [Mission.Failure i e])%list
  /\ Mission.state (Mission.mission w') = Mission.FAILED
  /\ Mission.continuation (Mission.mission w') = Mission.NotSuspended
  /\ dispatched (Mission.mission w') = dispatched m
  /\ Mission.controller w' = Mission.controller w
  /\ Mission.runtime w' = Mission.runtime w
  /\ (Mission.promise m = None ->
      Mission.promise (Mission.mission w') = Some (Mission.MRejected e)).
Proof.
  intros Hc m w'. subst m w'. unfold Mission.waypointFailed. simpl.
  rewrite Hc. simpl. unfold Mission.settleMission. simpl.
  destruct (Mission.promise (Mission.mission w)) eqn:Hp; simpl;
    (split; [reflexivity |]); (split; [reflexivity |]);
    (split; [reflexivity |]);
    (split; [unfold dispatched; simpl; rewrite flat_map_app; simpl;
             apply app_nil_r |]);
    (split; [reflexivity |]); (split; [reflexivity |]);
    intros H; try discriminate H; reflexivity.
Qed.

(** The inner [catch] under [continueOnError]. *)
Lemma waypointFailed_continue (now : R) (i : nat) (e : Error)
    (w : Mission.World) :
  Mission.continueOnError (Mission.mission w) = true ->
  Mission.waypointFailed now i e w
  = Mission.iterate now (S i)
      (Mission.with_mission
         (Mission.emit (Mission.ErrorCallback e i)
            (Mission.with_results
               (Mission.results (Mission.mission w) ++ [Mission.Failure i e])
               (Mission.mission w))) w).
Proof.
  intros Hc. unfold Mission.waypointFailed. simpl. rewrite Hc. reflexivity.
Qed.

Lemma resumeRun_rejected (now : R) (w : Mission.World) (i p : nat) (e : Error) :
  Mission.continuation (Mission.mission w) = Mission.AwaitCommand i p
  \/ (exists d : R,
         Mission.continuation (Mission.mission w) = Mission.AwaitHover i p d) ->
  promises (Mission.runtime w) !! p = Some (Rejected e) ->
  Mission.resumeRun now w = Mission.waypointFailed now i e w.
Proof.
  intros [Hk | [d Hk]] Hp; unfold Mission.resumeRun; rewrite Hk, Hp; reflexivity.
Qed.

Lemma filter_success_failure (rs : list Mission.ResultEntry) (i : nat) (e : Error) :
  List.filter Mission.success (rs ++ [Mission.Failure i e])
  = List.filter Mission.success rs.
Proof. rewrite List.filter_app. simpl. apply app_nil_r. Qed.

(** C7. When the controller call of waypoint [i] fails with [e]: under the
    default policy the failure is recorded, the mission becomes Failed, its
    promise is rejected with [e], and no waypoint is handed to the controller
    any more, whatever happens next; under [continueOnError] the failure is
    recorded with [success: false] and the loop goes on with waypoint
    [i + 1]: it is dispatched (unless the mission was cancelled or timed out),
    or, if [i] was the last one, the mission is Completed and resolves with
    the number of successful waypoints and the total. *)
Theorem waypoint_failure_policy :
  forall (now : R) (w : Mission.World) (i p : nat) (e : Error),
    Mission.continuation (Mission.mission w) = Mission.AwaitCommand i p
    \/ (exists d : R,
           Mission.continuation (Mission.mission w) = Mission.AwaitHover i p d) ->
    promises (Mission.runtime w) !! p = Some (Rejected e) ->
    Mission.promise (Mission.mission w) = None ->
    let m := Mission.mission w in
    let w' := Mission.resumeRun now w in
    let m' := Mission.mission w' in
    Mission.results m' = (Mission.results m ++ [Mission.Failure i e])%list
    /\ Mission.success (Mission.Failure i e) = false
    /\ (Mission.continueOnError m = false ->
        Mission.state m' = Mission.FAILED
        /\ Mission.promise m' = Some (Mission.MRejected e)
        /\ dispatched m' = dispatched m
        /\ forall later : list MissionStep,
             dispatched (Mission.mission (missionSteps later w')) = dispatched m)
    /\ (Mission.continueOnError m = true ->
        (forall waypoint : Waypoint.t,
            Mission.waypoints m !! S i = Some waypoint ->
            Mission.cancelled m = false ->
            now - to_number (Mission.startTime m) <= Mission.timeoutMs m ->
            dispatched m' = (dispatched m ++ [S i])%list
            /\ Mission.state m' = Mission.state m
            /\ Mission.promise m' = None)
        /\ (Mission.waypoints m !! S i = None ->
            Mission.state m' = Mission.COMPLETED
            /\ Mission.promise m'
               = Some (Mission.MResolved
                         {| Mission.duration :=
                              now - to_number (Mission.startTime m);
                            Mission.s_results := Mission.results m';
                            Mission.waypointsCompleted :=
                              length (List.filter Mission.success
                                        (Mission.results m'));
                            Mission.waypointsTotal :=
                              length (Mission.waypoints m) |}))).
Proof.
  intros now w i p e Hk Hp Hpend m w' m'.
  assert (Hw' : w' = Mission.waypointFailed now i e w)
    by (apply resumeRun_rejected with (p := p); assumption).
  split; [| split; [reflexivity | split]].
  - destruct (Mission.continueOnError m) eqn:Hc.
    + unfold m'. rewrite Hw', waypointFailed_continue by assumption.
      rewrite (proj1 (iterate_results _ _ _)). reflexivity.
    + unfold m'. rewrite Hw'. apply (waypointFailed_abort now i e w Hc).
  - intros Hc.
    destruct (waypointFailed_abort now i e w Hc)
      as (_ & Hs & Hcont & Hd & _ & _ & Hpr).
    rewrite <- Hw' in Hs, Hcont, Hd, Hpr.
    split; [exact Hs | split; [exact (Hpr Hpend) | split; [exact Hd |]]].
    intros later.
    assert (Hf : finished (Mission.mission w')).
    { split; [exact Hcont | rewrite Hs; discriminate]. }
    rewrite (proj2 (finished_steps later w' Hf)). exact Hd.
  - intros Hc.
    assert (Hit : w' = Mission.iterate now (S i)
                         (Mission.with_mission
                            (Mission.emit (Mission.ErrorCallback e i)
                               (Mission.with_results
                                  (Mission.results m ++ [Mission.Failure i e]) m))
                            w))
      by (rewrite Hw'; apply waypointFailed_continue; assumption).
    split.
    + intros waypoint Hwp Hcan Ht.
      unfold m'. rewrite Hit.
      rewrite (iterate_dispatch now (S i) _ waypoint) by assumption.
      cbv zeta.
      destruct (Mission._executeWaypoint (S i) waypoint _ _) as [[ctl rt] k].
      cbn [Mission.mission Mission.with_mission].
      split; [| split; [reflexivity | exact Hpend]].
      unfold dispatched. simpl. rewrite !flat_map_app. simpl.
      rewrite !app_nil_r. reflexivity.
    + intros Hwp.
      pose proof (iterate_end now (S i)
                    (Mission.with_mission
                       (Mission.emit (Mission.ErrorCallback e i)
                          (Mission.with_results
                             (Mission.results m ++ [Mission.Failure i e]) m))
                       w) Hwp) as (Hs & _ & Hr & _ & _ & _ & Hpr).
      rewrite <- Hit in Hs, Hr, Hpr. fold m' in Hs, Hr, Hpr.
      split; [exact Hs |].
      rewrite (Hpr Hpend). rewrite Hr. reflexivity.
Qed.

(** [run] at 1 ms hands the first waypoint to the controller and waits. *)
Lemma run_two_waypoints (continueOnError : option bool) :
  fst (Mission.run 1 (two_waypoints continueOnError))
  = {| Mission.mission :=
         {| Mission.waypoints := [move_east; touch_down];
            Mission.continueOnError := nullish continueOnError false;
            Mission.timeoutMs := 300000;
            Mission.state := Mission.RUNNING;
            Mission.currentIndex := 0;
            Mission.startTime := Some 1;
            Mission.results := [];
            Mission.cancelled := false;
            Mission.promise := None;
            Mission.control := true;
            Mission.continuation := Mission.AwaitCommand 0 0;
            Mission.trace :=
              [Mission.Progress 0 2 move_east;
               Mission.ControllerCall 0 move_east] |};
       Mission.controller :=
         DroneControl.with_commandQueue
           [Command.new_MoveToCommand (Some 1) None (Some 0)
              Command.no_options 0%nat]
           (DroneControl.new loaded_vehicle);
       Mission.runtime := {| promises := ∅; nextPromise := 1; log := [] |} |}.
Proof.
  unfold Mission.run. cbn [two_waypoints Mission.mission Mission.new
                             Mission.state Mission.state_eqb negb fst].
  rewrite (iterate_dispatch 1 0 _ move_east);
    [reflexivity | reflexivity | reflexivity |].
  cbn. lra.
Qed.

Lemma first_waypoint_rejected_state (continueOnError : bool) :
  Mission.continuation (Mission.mission (first_waypoint_rejected continueOnError))
  = Mission.AwaitCommand 0 0
  /\ promises (Mission.runtime (first_waypoint_rejected continueOnError)) !! 0%nat
     = Some (Rejected Command.cancelled_error)
  /\ Mission.mission (first_waypoint_rejected continueOnError)
     = Mission.mission (fst (Mission.run 1 (two_waypoints (Some continueOnError)))).
Proof.
  unfold first_waypoint_rejected. rewrite run_two_waypoints.
  repeat split.
Qed.

(** The controller is cancelled under a mission of two waypoints that waits
    for its first: under the default policy the mission fails; under
    [continueOnError] it records the failure and dispatches the landing. *)
Lemma waypoint_failure_policy_witness :
  (let m' := Mission.mission
               (Mission.resumeRun 2 (first_waypoint_rejected false)) in
   Mission.state m' = Mission.FAILED
   /\ Mission.promise m' = Some (Mission.MRejected Command.cancelled_error)
   /\ dispatched m' = [0%nat])
  /\ (let m' := Mission.mission
                  (Mission.resumeRun 2 (first_waypoint_rejected true)) in
      Mission.results m' = [Mission.Failure 0 Command.cancelled_error]
      /\ dispatched m' = [0%nat; 1%nat]
      /\ Mission.state m' = Mission.RUNNING).
Proof.
  split.
  - intros m'.
    destruct (first_waypoint_rejected_state false) as (Hk & Hp & Hm).
    rewrite run_two_waypoints in Hm.
    assert (Hpend : Mission.promise
                      (Mission.mission (first_waypoint_rejected false)) = None)
      by (rewrite Hm; reflexivity).
    assert (Hpol : Mission.continueOnError
                     (Mission.mission (first_waypoint_rejected false)) = false)
      by (rewrite Hm; reflexivity).
    pose proof (waypoint_failure_policy 2 (first_waypoint_rejected false)
                  0%nat 0%nat Command.cancelled_error
                  (or_introl Hk) Hp Hpend)
      as (_ & _ & Habort & _).
    destruct (Habort Hpol) as (Hs & Hpr & Hd & _).
    rewrite Hm in Hd.
    split; [exact Hs | split; [exact Hpr | exact Hd]].
  - intros m'.
    destruct (first_waypoint_rejected_state true) as (Hk & Hp & Hm).
    rewrite run_two_waypoints in Hm.
    assert (Hpend : Mission.promise
                      (Mission.mission (first_waypoint_rejected true)) = None)
      by (rewrite Hm; reflexivity).
    assert (Hpol : Mission.continueOnError
                     (Mission.mission (first_waypoint_rejected true)) = true)
      by (rewrite Hm; reflexivity).
    pose proof (waypoint_failure_policy 2 (first_waypoint_rejected true)
                  0%nat 0%nat Command.cancelled_error
                  (or_introl Hk) Hp Hpend)
      as (Hr & _ & _ & Hcont).
    destruct (Hcont Hpol) as (Hnext & _).
    assert (Ht : 2 - to_number
                       (Mission.startTime
                          (Mission.mission (first_waypoint_rejected true)))
                 <= Mission.timeoutMs
                      (Mission.mission (first_waypoint_rejected true)))
      by (rewrite Hm; cbn; lra).
    assert (Hwp : Mission.waypoints
                    (Mission.mission (first_waypoint_rejected true)) !! 1%nat
                  = Some touch_down)
      by (rewrite Hm; reflexivity).
    assert (Hcan : Mission.cancelled
                     (Mission.mission (first_waypoint_rejected true)) = false)
      by (rewrite Hm; reflexivity).
    destruct (Hnext touch_down Hwp Hcan Ht) as (Hd & Hs & _).
    rewrite Hm in Hr, Hd, Hs.
    split; [exact Hr | split; [exact Hd | exact Hs]].
Defined.

(** ** Running a mission once *)

Lemma iterate_not_pending (now : R) (i : nat) (w : Mission.World) :
  Mission.state (Mission.mission w) <> Mission.PENDING ->
  Mission.state (Mission.mission (Mission.iterate now i w)) <> Mission.PENDING.
Proof.
  intros Hs. unfold Mission.iterate.
  destruct (Mission.waypoints (Mission.mission w) !! i) as [waypoint |].
  - destruct (Mission.cancelled (Mission.mission w)).
    + simpl. rewrite (proj1 (settleMission_fields _ _)). discriminate.
    + destruct (Rgtb _ _).
      * simpl. rewrite (proj1 (settleMission_fields _ _)). discriminate.
      * destruct (Mission._executeWaypoint i waypoint (Mission.controller w)
                    (Mission.runtime w)) as [[ctl rt] k]. simpl. exact Hs.
  - simpl. rewrite (proj1 (settleMission_fields _ _)). discriminate.
Qed.

Lemma waypointFailed_not_pending (now : R) (i : nat) (e : Error)
    (w : Mission.World) :
  Mission.state (Mission.mission w) <> Mission.PENDING ->
  Mission.state (Mission.mission (Mission.waypointFailed now i e w))
  <> Mission.PENDING.
Proof.
  intros Hs. unfold Mission.waypointFailed. simpl.
  destruct (Mission.continueOnError (Mission.mission w)); simpl.
  - apply iterate_not_pending. exact Hs.
  - rewrite (proj1 (settleMission_fields _ _)). discriminate.
Qed.

Lemma waypointDone_not_pending (now : R) (i : nat)
    (result : Mission.WaypointResult) (w : Mission.World) :
  Mission.state (Mission.mission w) <> Mission.PENDING ->
  Mission.state (Mission.mission (Mission.waypointDone now i result w))
  <> Mission.PENDING.
Proof.
  intros Hs. unfold Mission.waypointDone. apply iterate_not_pending. exact Hs.
Qed.

Lemma run_leaves_pending (now : R) (w : Mission.World) :
  Mission.state (Mission.mission (fst (Mission.run now w))) <> Mission.PENDING
  \/ fst (Mission.run now w) = w.
Proof.
  unfold Mission.run.
  destruct (Mission.state_eqb (Mission.state (Mission.mission w))
              Mission.PENDING); simpl; [| right; reflexivity].
  left. apply iterate_not_pending. discriminate.
Qed.

Lemma not_pending_step (k : MissionStep) (w : Mission.World) :
  Mission.state (Mission.mission w) <> Mission.PENDING ->
  Mission.state (Mission.mission (missionStep k w)) <> Mission.PENDING.
Proof.
  intros Hs. destruct k; simpl.
  - destruct (run_leaves_pending now w) as [H | H]; [exact H | rewrite H; exact Hs].
  - unfold Mission.resumeRun.
    destruct (Mission.continuation (Mission.mission w)) as [| i p | i p d | i d];
      try exact Hs;
      destruct (promises (Mission.runtime w) !! p) as [[r | e] |];
      try exact Hs;
      first [ apply waypointDone_not_pending; exact Hs
            | apply waypointFailed_not_pending; exact Hs
            | exact Hs ].
  - unfold Mission.delayElapsed.
    destruct (Mission.continuation (Mission.mission w)); try exact Hs.
    apply waypointDone_not_pending; exact Hs.
  - unfold Mission.cancel.
    destruct (Mission.control _); [destruct (DroneControl.cancel _ _) |];
      exact Hs.
  - unfold Mission.pause.
    destruct (Mission.state_eqb _ _); [| exact Hs].
    destruct (Mission.control _); [destruct (DroneControl.pause _ _) |];
      simpl; discriminate.
  - unfold Mission.resume.
    destruct (Mission.state_eqb _ _); [| exact Hs].
    destruct (Mission.control _); [destruct (DroneControl.resume _ _) |];
      simpl; discriminate.
  - exact Hs.
Qed.

Lemma not_pending_steps (ks : list MissionStep) (w : Mission.World) :
  Mission.state (Mission.mission w) <> Mission.PENDING ->
  Mission.state (Mission.mission (missionSteps ks w)) <> Mission.PENDING.
Proof.
  revert w. induction ks as [| k ks IH]; intros w Hs; simpl; [exact Hs |].
  apply IH, not_pending_step, Hs.
Qed.

Lemma run_started (now : R) (w : Mission.World) :
  Mission.state (Mission.mission w) <> Mission.PENDING ->
  Mission.run now w = (w, Some Mission.started_error).
Proof.
  intros Hs. unfold Mission.run.
  destruct (Mission.state_eqb (Mission.state (Mission.mission w))
              Mission.PENDING) eqn:E; [| reflexivity].
  apply mission_state_eqb_eq in E. contradiction.
Qed.

(** C10. [run] on a mission whose state is not Pending throws "Mission
    already started" and changes nothing: not the state, the cursor, the
    results or the promise of the mission, nor anything else. A first [run]
    is accepted and takes the mission out of Pending for good, so every
    later [run] on it, whatever happened in between, is refused. *)
Theorem run_is_accepted_once :
  forall (now : R) (w : Mission.World),
    (Mission.state (Mission.mission w) <> Mission.PENDING ->
     Mission.run now w = (w, Some Mission.started_error))
    /\ (Mission.state (Mission.mission w) = Mission.PENDING ->
        snd (Mission.run now w) = None
        /\ forall (later : list MissionStep) (now' : R),
             let w' := missionSteps later (fst (Mission.run now w)) in
             Mission.run now' w' = (w', Some Mission.started_error)).
Proof.
  intros now w. split; [apply run_started |].
  intros Hs. split.
  - unfold Mission.run. rewrite Hs. reflexivity.
  - intros later now' w'. apply run_started.
    apply not_pending_steps.
    unfold Mission.run. rewrite Hs. simpl.
    apply iterate_not_pending. discriminate.
Qed.

Lemma run_is_accepted_once_witness :
  (let w := fst (Mission.run 1 (two_waypoints None)) in
   Mission.run 5 w = (w, Some "Mission already started"))
  /\ snd (Mission.run 1 (two_waypoints None)) = None.
Proof.
  split.
  - intros w.
    apply (proj1 (run_is_accepted_once 5 w)).
    unfold w. rewrite run_two_waypoints. discriminate.
  - apply (proj2 (run_is_accepted_once 1 (two_waypoints None))).
    reflexivity.
Defined.

(** ** Cancelling a mission *)

Lemma iterate_when_cancelled (now : R) (i : nat) (w : Mission.World) :
  Mission.cancelled (Mission.mission w) = true ->
  Mission.cancelled (Mission.mission (Mission.iterate now i w)) = true
  /\ dispatched (Mission.mission (Mission.iterate now i w))
     = dispatched (Mission.mission w).
Proof.
  intros Hc. unfold Mission.iterate.
  destruct (Mission.waypoints (Mission.mission w) !! i) as [waypoint |];
    [rewrite Hc |]; simpl; unfold dispatched, Mission.settleMission; simpl;
    destruct (Mission.promise (Mission.mission w)); simpl; auto.
Qed.

(** Once the cancellation flag is set it stays set, and no step of the
    mission hands a waypoint to the controller. *)
Lemma cancelled_step (k : MissionStep) (w : Mission.World) :
  Mission.cancelled (Mission.mission w) = true ->
  Mission.cancelled (Mission.mission (missionStep k w)) = true
  /\ dispatched (Mission.mission (missionStep k w))
     = dispatched (Mission.mission w).
Proof.
  intros Hc.
  assert (Hdone : forall now i result,
             Mission.cancelled
               (Mission.mission (Mission.waypointDone now i result w)) = true
             /\ dispatched (Mission.mission (Mission.waypointDone now i result w))
                = dispatched (Mission.mission w)).
  { intros now i result. unfold Mission.waypointDone.
    match goal with
    | |- context [Mission.iterate now (S i) ?w0] =>
        destruct (iterate_when_cancelled now (S i) w0 Hc) as [H1 H2]
    end.
    split; [exact H1 |]. rewrite H2. unfold dispatched. simpl.
    rewrite flat_map_app. simpl. apply app_nil_r. }
  assert (Hfail : forall now i e,
             Mission.cancelled
               (Mission.mission (Mission.waypointFailed now i e w)) = true
             /\ dispatched (Mission.mission (Mission.waypointFailed now i e w))
                = dispatched (Mission.mission w)).
  { intros now i e. unfold Mission.waypointFailed.
    cbn [Mission.continueOnError Mission.emit Mission.with_results].
    destruct (Mission.continueOnError (Mission.mission w)); cbn [negb].
    - match goal with
      | |- context [Mission.iterate now (S i) ?w0] =>
          destruct (iterate_when_cancelled now (S i) w0 Hc) as [H1 H2]
      end.
      split; [exact H1 |]. rewrite H2. unfold dispatched. simpl.
      rewrite flat_map_app. simpl. apply app_nil_r.
    - unfold Mission.settleMission. simpl.
      destruct (Mission.promise (Mission.mission w)); simpl;
        (split; [exact Hc |]); unfold dispatched; simpl;
        rewrite flat_map_app; simpl; apply app_nil_r. }
  destruct k; simpl.
  - unfold Mission.run.
    destruct (Mission.state_eqb _ _); simpl; [| auto].
    match goal with
    | |- context [Mission.iterate now 0 ?w0] =>
        destruct (iterate_when_cancelled now 0 w0 Hc) as [H1 H2]
    end.
    split; [exact H1 | rewrite H2; reflexivity].
  - unfold Mission.resumeRun.
    destruct (Mission.continuation (Mission.mission w)) as [| i p | i p d | i d];
      auto;
      destruct (promises (Mission.runtime w) !! p) as [[r | e] |]; auto.
  - unfold Mission.delayElapsed.
    destruct (Mission.continuation (Mission.mission w)); auto.
  - unfold Mission.cancel.
    destruct (Mission.control _); [destruct (DroneControl.cancel _ _) |];
      simpl; auto.
  - unfold Mission.pause.
    destruct (Mission.state_eqb _ _); [| auto].
    destruct (Mission.control _); [destruct (DroneControl.pause _ _) |];
      simpl; auto.
  - unfold Mission.resume.
    destruct (Mission.state_eqb _ _); [| auto].
    destruct (Mission.control _); [destruct (DroneControl.resume _ _) |];
      simpl; auto.
  - auto.
Qed.

Lemma cancel_sets_flag (w : Mission.World) :
  Mission.cancelled (Mission.mission (Mission.cancel w)) = true
  /\ dispatched (Mission.mission (Mission.cancel w))
     = dispatched (Mission.mission w)
  /\ Mission.continuation (Mission.mission (Mission.cancel w))
     = Mission.continuation (Mission.mission w).
Proof.
  unfold Mission.cancel.
  destruct (Mission.control _); [destruct (DroneControl.cancel _ _) |];
    simpl; auto.
Qed.

Lemma cancelled_steps (later : list MissionStep) (w : Mission.World) :
  Mission.cancelled (Mission.mission w) = true ->
  dispatched (Mission.mission (missionSteps later w))
  = dispatched (Mission.mission w).
Proof.
  revert w. induction later as [| k ks IH]; intros w Hc; simpl; [reflexivity |].
  destruct (cancelled_step k w Hc) as [Hc' Hd'].
  rewrite IH by exact Hc'. exact Hd'.
Qed.

(** The part of C8 that holds: after [cancel()], whatever happens, no
    further waypoint is handed to the controller. *)
Lemma no_dispatch_after_cancel (later : list MissionStep) (w : Mission.World) :
  dispatched (Mission.mission (missionSteps later (Mission.cancel w)))
  = dispatched (Mission.mission w).
Proof.
  destruct (cancel_sets_flag w) as (Hc & Hd & _).
  rewrite cancelled_steps by exact Hc. exact Hd.
Qed.

(** C8. What the code does when [cancel()] comes while [run] awaits the
    outcome of the waypoint in flight, under the default policy: the
    controller rejects that outcome with "Command cancelled", [run] resumes in
    its inner [catch], and the mission ends Failed, its promise rejected with
    the command's error, not Cancelled. No further waypoint is dispatched. *)
Theorem cancel_in_flight_ends_failed :
  forall (now : R) (w : Mission.World) (i : nat) (c : Command.t),
    Mission.continuation (Mission.mission w)
    = Mission.AwaitCommand i (Command.promise c) ->
    Mission.control (Mission.mission w) = true ->
    Mission.continueOnError (Mission.mission w) = false ->
    Mission.promise (Mission.mission w) = None ->
    in_flight (Mission.controller w) c ->
    Command.completed c = false ->
    promises (Mission.runtime w) !! Command.promise c = None ->
    let w' := Mission.resumeRun now (Mission.cancel w) in
    Mission.state (Mission.mission w') = Mission.FAILED
    /\ Mission.state (Mission.mission w') <> Mission.CANCELLED
    /\ Mission.promise (Mission.mission w')
       = Some (Mission.MRejected Command.cancelled_error)
    /\ forall later : list MissionStep,
         dispatched (Mission.mission (missionSteps later w'))
         = dispatched (Mission.mission w).
Proof.
  intros now w i c Hk Hctl Hpol Hpend Hin Hc Hp w'.
  assert (Hrej : promises (Mission.runtime (Mission.cancel w))
                   !! Command.promise c
                 = Some (Rejected Command.cancelled_error)).
  { unfold Mission.cancel. cbn [Mission.control Mission.with_cancelled].
    rewrite Hctl.
    pose proof (cancel_rejects_pending (Mission.controller w)
                  (Mission.runtime w) c Hin Hc Hp) as H.
    destruct (DroneControl.cancel (Mission.controller w) (Mission.runtime w)).
    exact H. }
  assert (Hm : Mission.mission (Mission.cancel w)
               = Mission.with_cancelled true (Mission.mission w)).
  { unfold Mission.cancel. cbn [Mission.control Mission.with_cancelled].
    rewrite Hctl.
    destruct (DroneControl.cancel (Mission.controller w) (Mission.runtime w)).
    reflexivity. }
  assert (Hw' : w' = Mission.waypointFailed now i Command.cancelled_error
                       (Mission.cancel w)).
  { apply resumeRun_rejected with (p := Command.promise c); [left | exact Hrej].
    rewrite Hm. exact Hk. }
  assert (Hpol' : Mission.continueOnError (Mission.mission (Mission.cancel w))
                  = false) by (rewrite Hm; exact Hpol).
  destruct (waypointFailed_abort now i Command.cancelled_error
              (Mission.cancel w) Hpol')
    as (_ & Hs & Hcont & Hd & _ & _ & Hpr).
  rewrite <- Hw' in Hs, Hcont, Hd, Hpr.
  split; [exact Hs | split; [rewrite Hs; discriminate | split]].
  - apply Hpr. rewrite Hm. exact Hpend.
  - intros later.
    assert (Hf : finished (Mission.mission w')).
    { split; [exact Hcont | rewrite Hs; discriminate]. }
    rewrite (proj2 (finished_steps later w' Hf)), Hd.
    apply (cancel_sets_flag w).
Qed.

(** The mission is started, then cancelled while its first waypoint is
    queued in the controller: it ends Failed. *)
Lemma cancel_in_flight_ends_failed_witness :
  let w' := Mission.resumeRun 2
              (Mission.cancel (fst (Mission.run 1 (two_waypoints None)))) in
  Mission.state (Mission.mission w') = Mission.FAILED
  /\ Mission.promise (Mission.mission w')
     = Some (Mission.MRejected "Command cancelled").
Proof.
  intros w'. unfold w'. rewrite run_two_waypoints.
  match goal with
  | |- context [Mission.cancel ?w0] =>
      pose proof (cancel_in_flight_ends_failed 2 w0 0%nat
                    (Command.new_MoveToCommand (Some 1) None (Some 0)
                       Command.no_options 0%nat)
                    eq_refl eq_refl eq_refl eq_refl
                    (or_intror (or_introl eq_refl)) eq_refl eq_refl)
        as (Hs & _ & Hp & _)
  end.
  split; [exact Hs | exact Hp].
Defined.

(** * Further properties of the commands *)

(** ** The speed of a MoveTo *)

Lemma zone_speed_bounds (mx mn ptol sd d : R) :
  0 <= d -> mn <= mx ->
  mn <= Command.zone_speed mx mn ptol sd d <= mx.
Proof.
  intros Hd Hm. unfold Command.zone_speed.
  destruct (Rltb d (ptol * 2)); [lra |].
  destruct (Rltb d sd) eqn:E; [| lra].
  apply Rltb_spec in E.
  assert (Hsd : 0 < sd) by lra.
  assert (Ht : 0 <= d / sd <= 1).
  { split.
    - apply Rmult_le_pos; [assumption |].
      left. apply Rinv_0_lt_compat. assumption.
    - apply Rmult_le_reg_r with sd; [assumption |].
      unfold Rdiv. rewrite Rmult_assoc, Rinv_l by lra. lra. }
  cbv zeta. nra.
Qed.

Lemma guarded_speed_upper (speed delta ptol d : R) :
  0 <= d -> 0 <= speed ->
  Command.guarded_speed speed delta ptol d <= speed.
Proof.
  intros Hd Hs. unfold Command.guarded_speed, Rgtb. cbv zeta.
  destruct (Rltb d (speed * delta)) eqn:E1; [| simpl; lra].
  destruct (Rltb ptol d); [| simpl; lra].
  simpl. apply Rltb_spec in E1.
  destruct (Rle_or_lt delta 0) as [Hneg | Hpos].
  - exfalso. assert (speed * delta <= 0) by nra. lra.
  - assert (Hq : d / delta < speed).
    { apply Rmult_lt_reg_r with delta; [assumption |].
      unfold Rdiv. rewrite Rmult_assoc, Rinv_l by lra. lra. }
    assert (0 <= d / delta).
    { apply Rmult_le_pos; [assumption |].
      left. apply Rinv_0_lt_compat. assumption. }
    nra.
Qed.

(** X1. With [0 <= minSpeed <= maxSpeed], whatever the other parameters, the
    frame time and the positions, the speed a MoveTo commands is never above
    [maxSpeed], and on a motion instruction never below [0.8 * minSpeed]. *)
Theorem moveTo_speed_within_limits :
  forall (now delta : R) (ds : DroneState.t) (c : Command.t) (ps : Promises)
         (tg : Target) (mx mn ptol atol sd : R) (sf : nat),
    Command.variant c = Command.MoveTo tg mx mn ptol atol sd sf ->
    0 <= mn -> mn <= mx ->
    let instr := snd (Command.update now delta ds c ps) in
    0 <= Motion.speed instr <= mx
    /\ (Motion.hover instr = false -> 0.8 * mn <= Motion.speed instr)
    /\ (Motion.hover instr = true -> Motion.speed instr = 0).
Proof.
  intros now delta ds c ps tg mx mn ptol atol sd sf Hv Hmn Hmx instr.
  unfold instr, Command.update. rewrite Hv.
  destruct (Command.update_base now ds c ps) as [[c1 ps1] i1].
  set (pos := DroneState.position ds).
  set (dx := tx tg - Position.x pos).
  set (dz := tz tg - Position.z pos).
  set (d := sqrt (dx * dx + dz * dz)).
  assert (Hd : 0 <= d) by apply sqrt_pos.
  match goal with
  | |- context [if ?b then _ else _] => destruct b
  end.
  - destruct (Command.complete _ _ _) as [c2 ps2]. simpl.
    split; [lra | split; [discriminate | reflexivity]].
  - cbn [snd Motion.speed Motion.hover].
    pose proof (zone_speed_bounds mx mn ptol sd d Hd Hmx) as [Hz1 Hz2].
    assert (Hz0 : 0 <= Command.zone_speed mx mn ptol sd d) by lra.
    pose proof (guarded_speed_upper _ delta ptol d Hd Hz0) as Hg.
    pose proof (Rmax_r (Command.guarded_speed
                          (Command.zone_speed mx mn ptol sd d) delta ptol d)
                  (mn * 0.8)) as Hr.
    split; [split |].
    + lra.
    + apply Rmax_lub; lra.
    + split; [intros _; lra | discriminate].
Qed.

Lemma moveTo_speed_within_limits_witness :
  let instr := snd (Command.update 2 0.016 hovering_at_one move_diagonal ∅) in
  0 <= Motion.speed instr <= 0.2.
Proof.
  intros instr.
  assert (H0 : 0 <= 0.05) by lra.
  assert (H1 : 0.05 <= 0.2) by lra.
  apply (moveTo_speed_within_limits 2 0.016 hovering_at_one move_diagonal ∅
           {| tx := 0.5; ty := Some 1; tz := 0.5 |}
           0.2 0.05 0.08 0.05 0.3 0%nat eq_refl H0 H1).
Defined.

(** ** Completion on the second consecutive stable tick *)

Lemma stable_parameters (ds : DroneState.t) (c c' : Command.t) :
  parameters c' = parameters c -> stable ds c' = stable ds c.
Proof.
  unfold parameters, stable. intros H.
  destruct (Command.variant c), (Command.variant c'); inversion H; reflexivity.
Qed.

Lemma timed_out_parameters (now : R) (c c' : Command.t) :
  parameters c' = parameters c ->
  Command.timed_out now c' = Command.timed_out now c.
Proof.
  unfold parameters, Command.timed_out. intros H.
  assert (Command.startTime c' = Command.startTime c) by congruence.
  assert (Command.timeoutMs c' = Command.timeoutMs c) by congruence.
  congruence.
Qed.

Lemma debounces_parameters (c c' : Command.t) :
  parameters c' = parameters c -> debounces c -> debounces c'.
Proof.
  unfold parameters, debounces. intros H.
  destruct (Command.variant c), (Command.variant c'); inversion H; auto.
Qed.

Ltac debounce_case Hc :=
  unfold Command.complete; cbn [Command.completed Command.with_variant];
  rewrite ?Hc; cbn;
  (split; [reflexivity |]); (split; [reflexivity |]);
  (split; [first [assumption | reflexivity] |]); (split; [reflexivity |]);
  (split;
   [intros ?; first [reflexivity | congruence]
   | intros ?; first [congruence | eexists; reflexivity]]).

(** One update of a command that is not settled and not timed out. *)
Lemma update_debounce (now delta : R) (ds : DroneState.t) (c : Command.t)
    (ps : Promises) :
  debounces c ->
  Command.completed c = false ->
  Command.timed_out now c = false ->
  let c' := fst (fst (Command.update now delta ds c ps)) in
  let ps' := snd (fst (Command.update now delta ds c ps)) in
  parameters c' = parameters c
  /\ Command.error c' = Command.error c
  /\ Command.completed c' = stable ds c && (1 <=? stableFrames c)%nat
  /\ stableFrames c' = (if stable ds c then S (stableFrames c) else 0%nat)
  /\ (Command.completed c' = false -> ps' = ps)
  /\ (Command.completed c' = true ->
      exists result : CommandResult,
        ps' = settle (Command.promise c) (Resolved result) ps).
Proof.
  intros Hcls Hc Ht.
  unfold debounces in Hcls. unfold stable, stableFrames, parameters.
  unfold Command.update, Command.update_base, Command.check_timeout.
  rewrite Ht.
  destruct (Command.variant c) as
    [| ta | ta tol sf la | ga tol sf | tg mx mn ptol atol sd sf | a] eqn:Hv;
    try contradiction; cbv zeta.
  - destruct (Rltb _ tol); cbn [andb];
      [destruct sf as [| sf]; cbn [Nat.leb] |]; debounce_case Hc.
  - destruct (Rltb _ tol); cbn [andb];
      [destruct sf as [| sf]; cbn [Nat.leb] |]; debounce_case Hc.
  - destruct (Rltb _ ptol && Rltb _ atol); cbn [andb];
      [destruct sf as [| sf]; cbn [Nat.leb] |]; debounce_case Hc.
Qed.

(** A settled command stays as it is under [update]. *)
Lemma update_settled (now delta : R) (ds : DroneState.t) (c : Command.t)
    (ps : Promises) :
  Command.completed c = true ->
  let c' := fst (fst (Command.update now delta ds c ps)) in
  Command.completed c' = true
  /\ Command.error c' = Command.error c
  /\ parameters c' = parameters c
  /\ snd (fst (Command.update now delta ds c ps)) = ps.
Proof.
  intros Hc.
  assert (Hb : Command.check_timeout now c ps = (c, ps)).
  { unfold Command.check_timeout, Command.fail. rewrite Hc.
    destruct (Command.timed_out now c); reflexivity. }
  unfold parameters, Command.update, Command.update_base. rewrite Hb.
  destruct (Command.variant c) as
    [| ta | ta tol sf la | ga tol sf | tg mx mn ptol atol sd sf | a] eqn:Hv;
    cbv zeta; try (cbn [fst snd]; rewrite Hv; auto; fail).
  - destruct (Rltb _ tol); [destruct (2 <=? S sf)%nat |];
      unfold Command.complete; cbn [Command.completed Command.with_variant];
      rewrite ?Hc; cbn; auto.
  - destruct (Rltb _ tol); [destruct (2 <=? S sf)%nat |];
      unfold Command.complete; cbn [Command.completed Command.with_variant];
      rewrite ?Hc; cbn; auto.
  - destruct (Rltb _ ptol && Rltb _ atol); cbn [andb];
      [destruct (2 <=? S sf)%nat |];
      unfold Command.complete; cbn [Command.completed Command.with_variant];
      rewrite ?Hc; cbn; auto.
Qed.

Lemma updates_settled (frames : list Frame) (c : Command.t) (ps : Promises) :
  Command.completed c = true ->
  Command.completed (fst (updates frames (c, ps))) = true
  /\ Command.error (fst (updates frames (c, ps))) = Command.error c
  /\ snd (updates frames (c, ps)) = ps.
Proof.
  revert c ps. induction frames as [| f frames IH]; intros c ps Hc; simpl.
  - auto.
  - destruct (update_settled (f_now f) (f_delta f) (f_state f) c ps Hc)
      as (H1 & H2 & _ & H4).
    destruct (Command.update (f_now f) (f_delta f) (f_state f) c ps)
      as [[c1 ps1] i1]. simpl in *. subst ps1.
    destruct (IH c1 ps H1) as (I1 & I2 & I3).
    repeat split; congruence.
Qed.

Lemma updates_debounce (frames : list Frame) (c : Command.t) (ps : Promises) :
  debounces c ->
  Command.completed c = false ->
  (forall f : Frame, In f frames -> Command.timed_out (f_now f) c = false) ->
  let c' := fst (updates frames (c, ps)) in
  let ps' := snd (updates frames (c, ps)) in
  (Command.completed c' = true
   <-> ((1 <= stableFrames c)%nat
        /\ exists f : Frame,
             frames !! 0%nat = Some f /\ stable (f_state f) c = true)
       \/ stable_pair frames c)
  /\ Command.error c' = Command.error c
  /\ (Command.completed c' = false -> ps' = ps)
  /\ (Command.completed c' = true ->
      exists result : CommandResult,
        ps' = settle (Command.promise c) (Resolved result) ps).
Proof.
  revert c ps. induction frames as [| f frames IH]; intros c ps Hcls Hc Hto.
  - simpl. split; [| split; [reflexivity | split; [reflexivity |]]].
    + split; [congruence |].
      intros [(_ & f & Hf & _) | (i & f1 & f2 & Hf & _)]; discriminate Hf.
    + congruence.
  - simpl.
    assert (Ht : Command.timed_out (f_now f) c = false)
      by (apply Hto; left; reflexivity).
    destruct (update_debounce (f_now f) (f_delta f) (f_state f) c ps Hcls Hc Ht)
      as (Hpar & Herr & Hcomp & Hsf & Hps0 & Hps1).
    destruct (Command.update (f_now f) (f_delta f) (f_state f) c ps)
      as [[c1 ps1] i1]. cbn [fst snd] in *.
    destruct (Command.completed c1) eqn:Hc1.
    + (* the command completes on this frame *)
      destruct (updates_settled frames c1 ps1 Hc1) as (U1 & U2 & U3).
      symmetry in Hcomp. apply andb_true_iff in Hcomp as [Hst Hle].
      apply Nat.leb_le in Hle.
      split; [| split; [congruence | split; [congruence |]]].
      * split; [| intros _; exact U1].
        intros _. left. split; [exact Hle |]. exists f. auto.
      * intros _. rewrite U3. apply Hps1. reflexivity.
    + (* it does not *)
      assert (Hto1 : forall f0 : Frame,
                 In f0 frames -> Command.timed_out (f_now f0) c1 = false).
      { intros f0 Hin. rewrite (timed_out_parameters _ c c1 Hpar).
        apply Hto. right. exact Hin. }
      destruct (IH c1 ps1 (debounces_parameters c c1 Hpar Hcls) Hc1 Hto1)
        as (Iiff & Ierr & Ips0 & Ips1).
      rewrite (Hps0 eq_refl) in *.
      assert (Hprom : Command.promise c1 = Command.promise c)
        by (unfold parameters in Hpar; congruence).
      assert (Hst : forall ds : DroneState.t, stable ds c1 = stable ds c)
        by (intros ds; apply stable_parameters; exact Hpar).
      split; [| split; [congruence | split; [exact Ips0 |]]].
      * rewrite Iiff. rewrite Hsf.
        symmetry in Hcomp. apply andb_false_iff in Hcomp.
        split.
        -- intros [(Hle & f2 & Hf2 & Hst2) | (i & f1 & f2 & H1 & H2 & S1 & S2)].
           ++ right. exists 0%nat, f, f2.
              rewrite Hst in Hst2.
              destruct (stable (f_state f) c) eqn:Hs; [| lia].
              auto.
           ++ right. exists (S i), f1, f2.
              rewrite Hst in S1, S2. auto.
        -- intros [(Hle & f0 & Hf0 & Hst0) | (i & f1 & f2 & H1 & H2 & S1 & S2)].
           ++ exfalso. injection Hf0 as <-.
              destruct Hcomp as [Hs | Hs]; [congruence |].
              apply Nat.leb_gt in Hs. lia.
           ++ destruct i as [| i].
              ** injection H1 as <-. left. rewrite S1. split; [lia |].
                 exists f2. rewrite Hst. auto.
              ** right. exists i, f1, f2.
                 rewrite !Hst. auto.
      * intros Hd. rewrite <- Hprom. apply Ips1. exact Hd.
Qed.

(** X2. A TakeOff, Land or MoveTo that is not settled, whose stable-frame
    counter is 0 (as after the constructor) and that does not time out,
    completes during a sequence of updates exactly if two consecutive updates
    both found the vehicle within the tolerances; it then resolves its
    promise (it stores no error), and until then it settles nothing. *)
Theorem completes_on_second_stable_frame :
  forall (frames : list Frame) (c : Command.t) (ps : Promises),
    debounces c ->
    Command.completed c = false ->
    stableFrames c = 0%nat ->
    (forall f : Frame, In f frames -> Command.timed_out (f_now f) c = false) ->
    let c' := fst (updates frames (c, ps)) in
    let ps' := snd (updates frames (c, ps)) in
    (Command.completed c' = true <-> stable_pair frames c)
    /\ Command.error c' = Command.error c
    /\ (Command.completed c' = false -> ps' = ps)
    /\ (Command.completed c' = true ->
        ps !! Command.promise c = None ->
        exists result : CommandResult,
          ps' !! Command.promise c = Some (Resolved result)).
Proof.
  intros frames c ps Hcls Hc Hsf Hto c' ps'.
  destruct (updates_debounce frames c ps Hcls Hc Hto) as (Hiff & He & H0 & H1).
  fold c' in Hiff, He, H0, H1. fold ps' in H0, H1.
  split; [| split; [exact He | split; [exact H0 |]]].
  - rewrite Hiff. split; [| auto].
    intros [(Hle & _) | H]; [lia | exact H].
  - intros Hd Hp. destruct (H1 Hd) as [result Hr]. exists result.
    rewrite Hr. apply settle_pending. exact Hp.
Qed.

Lemma timed_out_false (now t : R) (c : Command.t) :
  Command.startTime c = Some t -> now - t <= Command.timeoutMs c ->
  Command.timed_out now c = false.
Proof.
  intros Hs Hle. unfold Command.timed_out. rewrite Hs.
  unfold Rgtb. rewrite Rltb_false; [apply andb_false_r |].
  unfold to_number, nullish. lra.
Qed.

(** The take-off to 1 m with tolerance 0.05: at 0.5 m it goes on, and it
    completes on the second of the frames at 0.96 m and 1 m. *)
Lemma completes_on_second_stable_frame_witness :
  let frames := [frame_at 2 0.5; frame_at 3 0.96; frame_at 4 1] in
  Command.completed (fst (updates frames (climbing, ∅))) = true
  /\ exists result : CommandResult,
       snd (updates frames (climbing, ∅)) !! 0%nat = Some (Resolved result).
Proof.
  intros frames.
  assert (Hto : forall f : Frame,
             In f frames -> Command.timed_out (f_now f) climbing = false).
  { intros f [<- | [<- | [<- | []]]];
      apply (timed_out_false _ 1); try reflexivity; cbn;
      unfold Command.DEFAULT_CONFIG.timeoutMs; lra. }
  destruct (completes_on_second_stable_frame frames climbing ∅
              I eq_refl eq_refl Hto) as (Hiff & _ & _ & Hres).
  assert (Hdone : Command.completed (fst (updates frames (climbing, ∅))) = true).
  { apply Hiff. exists 1%nat, (frame_at 3 0.96), (frame_at 4 1).
    split; [reflexivity | split; [reflexivity |]].
    unfold stable. cbn.
    unfold Command.DEFAULT_CONFIG.altitudeTolerance.
    split; apply Rltb_true; apply Rabs_def1; lra. }
  split; [exact Hdone | apply Hres; [exact Hdone | reflexivity]].
Defined.

(** ** The altitude of an instruction *)

Lemma complete_variant (result : CommandResult) (c : Command.t) (ps : Promises) :
  Command.variant (fst (Command.complete result c ps)) = Command.variant c.
Proof. unfold Command.complete. destruct (Command.completed c); reflexivity. Qed.

Lemma start_altitude_known (now : R) (ds : DroneState.t) (c : Command.t)
    (ps : Promises) :
  altitude_known (fst (Command.start now ds c ps)).
Proof.
  unfold altitude_known, Command.start. cbn [Command.variant Command.start_base
                                               Command.with_startTime].
  destruct (Command.variant c) as
    [| ta | ta tol sf la | ga tol sf | tg mx mn ptol atol sd sf | a] eqn:Hv;
    try rewrite complete_variant; cbn; try rewrite Hv; auto.
  destruct (ty tg) eqn:Hy; cbn; [rewrite Hv, Hy |]; discriminate.
Qed.

Ltac split_ifs :=
  repeat match goal with
         | |- context [if ?b then _ else _] => destruct b
         end.

(** What an update returns as altitude, whatever else it does. *)
Lemma update_parameters_altitude (now delta : R) (ds : DroneState.t)
    (c : Command.t) (ps : Promises) :
  parameters (fst (fst (Command.update now delta ds c ps))) = parameters c
  /\ Motion.altitude (snd (Command.update now delta ds c ps))
     = match Command.variant c with
       | Command.Hover ta => ta
       | Command.TakeOff ta _ _ _ => Some ta
       | Command.Land ga _ _ => Some ga
       | Command.MoveTo tg _ _ _ _ _ _ => ty tg
       | _ => Some (Position.y (DroneState.position ds))
       end.
Proof.
  unfold parameters, Command.update, Command.update_base,
    Command.check_timeout, Command.complete, Command.fail.
  destruct (Command.variant c) as
    [| ta | ta tol sf la | ga tol sf | tg mx mn ptol atol sd sf | a] eqn:Hv;
    cbv zeta; split_ifs; cbn; rewrite ?Hv; split; reflexivity.
Qed.

Lemma altitude_known_parameters (c c' : Command.t) :
  parameters c' = parameters c -> altitude_known c -> altitude_known c'.
Proof.
  unfold parameters, altitude_known. intros H.
  destruct (Command.variant c), (Command.variant c'); inversion H; auto.
Qed.

Lemma update_altitude_known (now delta : R) (ds : DroneState.t) (c : Command.t)
    (ps : Promises) :
  altitude_known c ->
  altitude_known (fst (fst (Command.update now delta ds c ps)))
  /\ Motion.altitude (snd (Command.update now delta ds c ps)) <> None.
Proof.
  intros Hk.
  destruct (update_parameters_altitude now delta ds c ps) as [Hp Ha].
  split; [apply (altitude_known_parameters c _ Hp Hk) |].
  rewrite Ha. unfold altitude_known in Hk.
  destruct (Command.variant c); try discriminate; assumption.
Qed.

(** X3. Once a command has been started, every instruction it returns, on
    any sequence of updates, carries an altitude (never null); a MoveTo built
    without [y] that is updated before [start] returns a null altitude. *)
Theorem started_command_altitude_never_null :
  (forall (now : R) (ds : DroneState.t) (c : Command.t) (ps : Promises)
          (frames : list Frame) (f : Frame),
      let started := Command.start now ds c ps in
      let cp := updates frames started in
      Motion.altitude
        (snd (Command.update (f_now f) (f_delta f) (f_state f) (fst cp) (snd cp)))
      <> None)
  /\ (forall (now delta : R) (ds : DroneState.t) (tgx tgz : option R)
             (options : Command.Options) (p : nat) (ps : Promises),
         Motion.altitude
           (snd (Command.update now delta ds
                   (Command.new_MoveToCommand tgx None tgz options p) ps))
         = None).
Proof.
  split.
  - intros now ds c ps frames f started cp.
    assert (Hk : altitude_known (fst cp)).
    { pose proof (start_altitude_known now ds c ps) as H0.
      fold started in H0. subst cp. generalize dependent started.
      induction frames as [| f0 frames IH]; intros [c0 ps0] H0; simpl;
        [exact H0 |].
      apply IH.
      apply (update_altitude_known (f_now f0) (f_delta f0) (f_state f0)
               c0 ps0 H0). }
    apply (update_altitude_known (f_now f) (f_delta f) (f_state f) _ (snd cp) Hk).
  - intros now delta ds tgx tgz options p ps.
    unfold Command.update, Command.update_base, Command.new_MoveToCommand,
      Command.new_base. cbn [Command.variant].
    destruct (Command.check_timeout _ _ _) as [c1 ps1]. cbv zeta.
    match goal with
    | |- context [if ?b then _ else _] => destruct b
    end.
    + destruct (Command.complete _ _ ps1) as [c2 ps2]. reflexivity.
    + reflexivity.
Qed.

(** ** What a result reports *)

Lemma within_tolerance_parameters (c c' : Command.t) (v : Settlement) :
  parameters c' = parameters c ->
  within_tolerance c v -> within_tolerance c' v.
Proof.
  unfold parameters, within_tolerance. intros H.
  destruct v as [r | e]; [| auto].
  destruct (Command.variant c), (Command.variant c'); inversion H; auto.
Qed.

Lemma update_within_tolerance (now delta : R) (ds : DroneState.t)
    (c : Command.t) (ps : Promises) :
  debounces c ->
  Command.completed c = false ->
  let r := Command.update now delta ds c ps in
  parameters (fst (fst r)) = parameters c
  /\ ((Command.completed (fst (fst r)) = false /\ snd (fst r) = ps)
      \/ (Command.completed (fst (fst r)) = true
          /\ exists v : Settlement,
               snd (fst r) = settle (Command.promise c) v ps
               /\ within_tolerance c v)).
Proof.
  intros Hcls Hc r. unfold r, parameters, within_tolerance.
  unfold debounces in Hcls.
  unfold Command.update, Command.update_base, Command.check_timeout,
    Command.fail.
  rewrite Hc.
  destruct (Command.variant c) as
    [| ta | ta tol sf la | ga tol sf | tg mx mn ptol atol sd sf | a] eqn:Hv;
    try contradiction; cbv zeta.
  - destruct (Command.timed_out now c).
    + destruct (Rltb _ tol); [destruct (2 <=? S sf)%nat |];
        unfold Command.complete; cbn; rewrite ?Hv;
        (split; [reflexivity |]); right; (split; [reflexivity |]);
        exists (Rejected Command.timeout_error); auto.
    + destruct (Rltb _ tol) eqn:Et; [destruct (2 <=? S sf)%nat |];
        unfold Command.complete; cbn; rewrite ?Hc; cbn; rewrite ?Hv;
        (split; [reflexivity |]); auto.
      right. split; [reflexivity |].
      exists (Resolved (RTakeOff (Position.y (DroneState.position ds)) ta)).
      split; [reflexivity |]. try rewrite Hv.
      split; [reflexivity | apply Rltb_spec, Et].
  - destruct (Command.timed_out now c).
    + destruct (Rltb _ tol); [destruct (2 <=? S sf)%nat |];
        unfold Command.complete; cbn; rewrite ?Hv;
        (split; [reflexivity |]); right; (split; [reflexivity |]);
        exists (Rejected Command.timeout_error); auto.
    + destruct (Rltb _ tol) eqn:Et; [destruct (2 <=? S sf)%nat |];
        unfold Command.complete; cbn; rewrite ?Hc; cbn; rewrite ?Hv;
        (split; [reflexivity |]); auto.
      right. split; [reflexivity |].
      exists (Resolved (RLand (Position.y (DroneState.position ds)))).
      split; [reflexivity |]. try rewrite Hv. apply Rltb_spec, Et.
  - destruct (Command.timed_out now c).
    + destruct (Rltb _ ptol && Rltb _ atol); cbn [andb];
        [destruct (2 <=? S sf)%nat |];
        unfold Command.complete; cbn; rewrite ?Hv;
        (split; [reflexivity |]); right; (split; [reflexivity |]);
        exists (Rejected Command.timeout_error); auto.
    + destruct (Rltb _ ptol && Rltb _ atol) eqn:Et; cbn [andb];
        [destruct (2 <=? S sf)%nat |];
        unfold Command.complete; cbn; rewrite ?Hc; cbn; rewrite ?Hv;
        (split; [reflexivity |]); auto.
      right. split; [reflexivity |].
      eexists. split; [reflexivity |]. cbn. try rewrite Hv.
      apply andb_true_iff in Et as [E1 E2].
      split; [reflexivity |].
      split; [apply Rltb_spec, E1 | apply Rltb_spec, E2].
Qed.

Lemma parameters_promise (c c' : Command.t) :
  parameters c' = parameters c -> Command.promise c' = Command.promise c.
Proof. unfold parameters. intros H. congruence. Qed.

(** X4. What a TakeOff, Land or MoveTo resolves with is true to its
    tolerances. Over any sequence of updates of such a command, starting
    unsettled with its promise pending, the promise is either still pending
    or settled as follows: a result reports the command's target and the
    vehicle's position, and that position is within the altitude tolerance
    (and, for a MoveTo, the horizontal position tolerance) of the target; a
    rejection is "Command timeout". *)
Theorem result_is_within_tolerance :
  forall (frames : list Frame) (c : Command.t) (ps : Promises),
    debounces c ->
    Command.completed c = false ->
    ps !! Command.promise c = None ->
    let ps' := snd (updates frames (c, ps)) in
    ps' !! Command.promise c = None
    \/ exists v : Settlement,
         ps' !! Command.promise c = Some v /\ within_tolerance c v.
Proof.
  intros frames. induction frames as [| f frames IH]; intros c ps Hcls Hc Hp ps'.
  - left. exact Hp.
  - unfold ps', updates. cbn [fold_left fst snd]. clear ps'.
    destruct (update_within_tolerance (f_now f) (f_delta f) (f_state f) c ps
                Hcls Hc) as (Hpar & Hcase).
    destruct (Command.update (f_now f) (f_delta f) (f_state f) c ps)
      as [[c1 ps1] instr]. cbn [fst snd] in *.
    pose proof (parameters_promise c c1 Hpar) as Hprom.
    destruct Hcase as [(Hc1 & ->) | (Hc1 & v & -> & Hv)].
    + assert (Hp1 : ps !! Command.promise c1 = None) by (rewrite Hprom; exact Hp).
      destruct (IH c1 ps (debounces_parameters c c1 Hpar Hcls) Hc1 Hp1)
        as [Hn | (v & Hs & Hv)]; unfold updates in *; rewrite Hprom in *.
      * left. exact Hn.
      * right. exists v. split; [exact Hs |].
        apply (within_tolerance_parameters c1 c v); [congruence | exact Hv].
    + right. exists v. split; [| exact Hv].
      destruct (updates_settled frames c1
                  (settle (Command.promise c) v ps) Hc1) as (_ & _ & Hst).
      unfold updates in Hst. rewrite Hst. apply settle_pending, Hp.
Qed.

(** The take-off to 1 m through the frames at 0.5 m, 0.96 m and 1 m. *)
Lemma result_is_within_tolerance_witness :
  let frames := [frame_at 2 0.5; frame_at 3 0.96; frame_at 4 1] in
  let ps' := snd (updates frames (climbing, ∅)) in
  ps' !! 0%nat = None
  \/ exists v : Settlement, ps' !! 0%nat = Some v /\ within_tolerance climbing v.
Proof.
  intros frames ps'.
  apply (result_is_within_tolerance frames climbing ∅); reflexivity.
Defined.

(** * Further properties of the controller *)

(** ** No outcome is dropped *)

Lemma settle_subseteq (p : nat) (s : Settlement) (ps : Promises) :
  ps ⊆ settle p s ps.
Proof.
  unfold settle. destruct (ps !! p) eqn:E; [reflexivity |].
  apply insert_subseteq. exact E.
Qed.

Lemma complete_subseteq (result : CommandResult) (c : Command.t) (ps : Promises) :
  ps ⊆ snd (Command.complete result c ps).
Proof.
  unfold Command.complete. destruct (Command.completed c); simpl;
    [reflexivity | apply settle_subseteq].
Qed.

Lemma fail_subseteq (e : Error) (c : Command.t) (ps : Promises) :
  ps ⊆ snd (Command.fail e c ps).
Proof.
  unfold Command.fail. destruct (Command.completed c); simpl;
    [reflexivity | apply settle_subseteq].
Qed.

Lemma start_subseteq (now : R) (ds : DroneState.t) (c : Command.t)
    (ps : Promises) :
  ps ⊆ snd (Command.start now ds c ps).
Proof.
  unfold Command.start.
  destruct (Command.variant (Command.start_base now c));
    try reflexivity; try apply complete_subseteq.
  destruct (ty target); reflexivity.
Qed.

Lemma check_timeout_subseteq (now : R) (c : Command.t) (ps : Promises) :
  ps ⊆ snd (Command.check_timeout now c ps).
Proof.
  unfold Command.check_timeout. destruct (Command.timed_out now c);
    [apply fail_subseteq | reflexivity].
Qed.

Lemma update_subseteq (now delta : R) (ds : DroneState.t) (c : Command.t)
    (ps : Promises) :
  ps ⊆ snd (fst (Command.update now delta ds c ps)).
Proof.
  unfold Command.update, Command.update_base.
  pose proof (check_timeout_subseteq now c ps) as H0.
  destruct (Command.check_timeout now c ps) as [c1 ps1]. cbn [snd] in H0.
  destruct (Command.variant c) as
    [| ta | ta tol sf la | ga tol sf | tg mx mn ptol atol sd sf | a];
    cbv zeta; try exact H0; try reflexivity.
  - destruct (Rltb _ tol); [destruct (2 <=? S sf)%nat |]; try exact H0.
    pose proof (complete_subseteq
                  (RTakeOff (Position.y (DroneState.position ds)) ta)
                  (Command.with_variant
                     (Command.TakeOff ta tol (S sf)
                        (Some (Position.y (DroneState.position ds)))) c1) ps1)
      as H1.
    destruct (Command.complete _ _ ps1) as [c2 ps2]. cbn [fst snd] in *.
    etransitivity; eassumption.
  - destruct (Rltb _ tol); [destruct (2 <=? S sf)%nat |]; try exact H0.
    pose proof (complete_subseteq
                  (RLand (Position.y (DroneState.position ds)))
                  (Command.with_variant (Command.Land ga tol (S sf)) c1) ps1)
      as H1.
    destruct (Command.complete _ _ ps1) as [c2 ps2]. cbn [fst snd] in *.
    etransitivity; eassumption.
  - match goal with
    | |- context [if ?b then _ else _] => destruct b
    end; [| exact H0].
    match goal with
    | |- context [Command.complete ?r ?c0 ps1] =>
        pose proof (complete_subseteq r c0 ps1) as H1;
        destruct (Command.complete r c0 ps1) as [c2 ps2]
    end.
    cbn [fst snd] in *. etransitivity; eassumption.
Qed.

Lemma startNext_builtin_subseteq (now : R) (ctl : DroneControl.t) (rt : Runtime) :
  promises rt
  ⊆ promises (snd (fst (DroneControl._startNextCommand Command.builtin now ctl rt))).
Proof.
  unfold DroneControl._startNextCommand.
  destruct (DroneControl.commandQueue ctl) as [| c rest]; [reflexivity |].
  match goal with
  | |- context [DroneControl._setState ?s ?c0 ?r] =>
      pose proof (setState_promises s c0 r) as [Hp _];
      destruct (DroneControl._setState s c0 r) as [ctl1 rt1]
  end.
  cbn [snd] in Hp. cbn [Command.builtin Command.m_start].
  pose proof (start_subseteq now (DroneControl.getState ctl1) c (promises rt1))
    as H1.
  destruct (Command.start now (DroneControl.getState ctl1) c (promises rt1))
    as [c' ps']. cbn [fst snd] in *. rewrite <- Hp. exact H1.
Qed.

Lemma start_promise (now : R) (ds : DroneState.t) (c : Command.t)
    (ps : Promises) :
  Command.promise (fst (Command.start now ds c ps)) = Command.promise c.
Proof.
  unfold Command.start, Command.complete. cbn.
  destruct (Command.variant c); cbn; try reflexivity;
    try (destruct (Command.completed c); reflexivity).
  destruct (ty target); reflexivity.
Qed.

Lemma settle_own (p : nat) (s : Settlement) (ps : Promises) :
  is_Some (settle p s ps !! p).
Proof.
  destruct (ps !! p) as [v |] eqn:E.
  - exists v. apply settle_settled, E.
  - exists s. apply settle_pending, E.
Qed.

(** A command leaves the state "not completed" only through [complete] or
    [fail], which settle its outcome. *)
Lemma start_keeps (now : R) (ds : DroneState.t) (c : Command.t)
    (ps : Promises) :
  Command.completed c = false ->
  let r := Command.start now ds c ps in
  Command.completed (fst r) = false \/ is_Some (snd r !! Command.promise c).
Proof.
  intros Hc. unfold Command.start, Command.complete, Command.start_base.
  cbn [Command.variant Command.with_startTime Command.with_variant
       Command.completed].
  destruct (Command.variant c) as
    [| ta | ta tol sf la | ga tol sf | tg mx mn ptol atol sd sf | a];
    cbn [Command.completed Command.promise fst snd]; rewrite ?Hc;
    cbn [fst snd Command.completed Command.promise];
    try (left; assumption); try (right; apply settle_own).
  destruct (ty tg); cbn; left; assumption.
Qed.

Lemma update_promise (now delta : R) (ds : DroneState.t) (c : Command.t)
    (ps : Promises) :
  Command.promise (fst (fst (Command.update now delta ds c ps)))
  = Command.promise c.
Proof.
  unfold Command.update, Command.update_base, Command.check_timeout,
    Command.fail, Command.complete.
  destruct (Command.variant c) as
    [| ta | ta tol sf la | ga tol sf | tg mx mn ptol atol sd sf | a];
    destruct (Command.timed_out now c); destruct (Command.completed c);
    cbn; try reflexivity;
    repeat match goal with
           | |- context [if ?b then _ else _] => destruct b; cbn
           end; reflexivity.
Qed.

Lemma update_keeps (now delta : R) (ds : DroneState.t) (c : Command.t)
    (ps : Promises) :
  Command.completed c = false ->
  let r := Command.update now delta ds c ps in
  Command.completed (fst (fst r)) = false
  \/ is_Some (snd (fst r) !! Command.promise c).
Proof.
  intros Hc.
  unfold Command.update, Command.update_base, Command.check_timeout,
    Command.fail, Command.complete.
  rewrite Hc.
  destruct (Command.variant c) as
    [| ta | ta tol sf la | ga tol sf | tg mx mn ptol atol sd sf | a];
    destruct (Command.timed_out now c);
    cbn;
    repeat match goal with
           | |- context [if ?b then _ else _] => destruct b; cbn
           end;
    rewrite ?Hc; try discriminate;
    try (left; reflexivity); try (left; assumption);
    try (right; apply settle_own);
    try (right; apply settle_is_Some, settle_own).
Qed.

Lemma kept_more (ctl ctl' : DroneControl.t) (ps ps' : Promises) (n : nat) :
  ps ⊆ ps' ->
  (forall c : Command.t,
      in_flight ctl c -> Command.completed c = false ->
      is_Some (ps' !! Command.promise c)
      \/ exists c' : Command.t,
           in_flight ctl' c' /\ Command.promise c' = Command.promise c
           /\ Command.completed c' = false) ->
  kept ctl ps n -> kept ctl' ps' n.
Proof.
  intros Hsub Hstep Hk p Hlt Hp.
  assert (Hp0 : ps !! p = None).
  { destruct (ps !! p) as [v |] eqn:E; [| reflexivity].
    rewrite (lookup_weaken ps ps' p v E Hsub) in Hp. discriminate Hp. }
  destruct (Hk p Hlt Hp0) as (c & Hin & Hpc & Hcc).
  destruct (Hstep c Hin Hcc) as [[v Hv] | (c' & Hin' & Hpc' & Hcc')].
  - rewrite Hpc, Hp in Hv. discriminate Hv.
  - exists c'. split; [exact Hin' |]. split; [congruence | exact Hcc'].
Qed.

Lemma cancel_nextPromise (ctl : DroneControl.t) (rt : Runtime) :
  nextPromise (snd (DroneControl.cancel ctl rt)) = nextPromise rt.
Proof.
  unfold DroneControl.cancel.
  match goal with
  | |- context [DroneControl._setState ?s ?c ?r] =>
      pose proof (setState_promises s c r) as [_ Hn];
      destruct (DroneControl._setState s c r) as [ctl1 rt1]
  end.
  exact Hn.
Qed.

(** [cancel()] leaves nothing pending among the outcomes that were kept. *)
Lemma cancel_settles_kept (ctl : DroneControl.t) (rt : Runtime) (n : nat) :
  kept ctl (promises rt) n ->
  forall p : nat,
    (p < n)%nat -> is_Some (promises (snd (DroneControl.cancel ctl rt)) !! p).
Proof.
  intros Hk p Hlt.
  destruct (promises rt !! p) as [v |] eqn:E.
  - exists v. apply cancel_keeps_settled, E.
  - destruct (Hk p Hlt E) as (c & Hin & Hpc & Hcc).
    exists (Rejected Command.cancelled_error). rewrite <- Hpc.
    apply cancel_rejects_pending; [exact Hin | exact Hcc |].
    rewrite Hpc. exact E.
Qed.

Lemma kept_settled (ctl : DroneControl.t) (ps : Promises) (n : nat) :
  (forall p : nat, (p < n)%nat -> is_Some (ps !! p)) -> kept ctl ps n.
Proof.
  intros H p Hlt Hp. destruct (H p Hlt) as [v Hv]. congruence.
Qed.

(** A new command, with the next handle, joins the queue. *)
Lemma kept_enqueue_new (cmd : Command.t) (ctl : DroneControl.t)
    (ps : Promises) (n : nat) :
  Command.promise cmd = n ->
  Command.completed cmd = false ->
  kept ctl ps n ->
  kept (DroneControl.with_commandQueue
          (DroneControl.commandQueue ctl ++ [cmd]) ctl) ps (S n).
Proof.
  intros Hp Hc Hk p Hlt Hpend.
  destruct (decide (p = n)) as [-> | Hne].
  - exists cmd. split; [| auto]. right. cbn. apply in_or_app. right. left.
    reflexivity.
  - destruct (Hk p ltac:(lia) Hpend) as (c & Hin & Hpc & Hcc).
    exists c. split; [| auto].
    destruct Hin as [Hcur | Hq]; [left; exact Hcur |].
    right. cbn. apply in_or_app. left. exact Hq.
Qed.

Lemma kept_enqueue (cmd : Command.t) (ctl : DroneControl.t)
    (ps : Promises) (n : nat) :
  kept ctl ps n ->
  kept (DroneControl.with_commandQueue
          (DroneControl.commandQueue ctl ++ [cmd]) ctl) ps n.
Proof.
  intros Hk p Hlt Hpend.
  destruct (Hk p Hlt Hpend) as (c & Hin & Hpc & Hcc).
  exists c. split; [| auto].
  destruct Hin as [Hcur | Hq]; [left; exact Hcur |].
  right. cbn. apply in_or_app. left. exact Hq.
Qed.

(** Starting the head of the queue keeps every outcome. *)
Lemma startNext_builtin_kept (now : R) (ctl : DroneControl.t) (rt : Runtime)
    (n : nat) :
  DroneControl.currentCommand ctl = None ->
  kept ctl (promises rt) n ->
  let r := DroneControl._startNextCommand Command.builtin now ctl rt in
  kept (fst (fst r)) (promises (snd (fst r))) n
  /\ nextPromise (snd (fst r)) = nextPromise rt
  /\ snd r = None.
Proof.
  intros Hcur Hk. unfold DroneControl._startNextCommand.
  destruct (DroneControl.commandQueue ctl) as [| c rest] eqn:Hq.
  - cbn. auto.
  - match goal with
    | |- context [DroneControl._setState ?s ?c0 ?r] =>
        pose proof (setState_promises s c0 r) as [Hp Hn];
        pose proof (setState_rest s c0 r) as (_ & Hr & _);
        destruct (DroneControl._setState s c0 r) as [ctl1 rt1]
    end.
    cbn [fst snd] in Hp, Hn, Hr. cbn [Command.builtin Command.m_start].
    pose proof (start_subseteq now (DroneControl.getState ctl1) c (promises rt1))
      as Hsub.
    pose proof (start_promise now (DroneControl.getState ctl1) c (promises rt1))
      as Hpc.
    pose proof (start_keeps now (DroneControl.getState ctl1) c (promises rt1))
      as Hkeep.
    destruct (Command.start now (DroneControl.getState ctl1) c (promises rt1))
      as [c' ps'].
    cbn [fst snd] in Hsub, Hpc, Hkeep |- *.
    cbn [promises nextPromise notify with_promises].
    split; [| split; [exact Hn | reflexivity]].
    apply (kept_more ctl _ (promises rt) ps' n); [| | exact Hk].
    + rewrite <- Hp. exact Hsub.
    + intros h [Hh | Hh] Hch; [congruence |].
      rewrite Hq in Hh. destruct Hh as [<- | Hrest].
      * destruct (Hkeep Hch) as [Hf | Hs]; [right | left; exact Hs].
        exists c'. split; [left; reflexivity | auto].
      * right. exists h. split; [| auto]. right.
        cbn [DroneControl.commandQueue DroneControl.with_currentCommand].
        rewrite Hr. exact Hrest.
Qed.

(** The [try] block of a tick keeps every outcome: the current command is
    dropped only once it is completed. *)
Lemma tryUpdate_builtin_kept (now delta : R) (ds : DroneState.t)
    (c : Command.t) (ctl : DroneControl.t) (rt : Runtime) (n : nat) :
  DroneControl.currentCommand ctl = Some c ->
  kept ctl (promises rt) n ->
  let r := DroneControl.tryUpdate Command.builtin now delta ds c ctl rt in
  kept (fst (fst r)) (promises (snd (fst r))) n
  /\ nextPromise (snd (fst r)) = nextPromise rt
  /\ snd r = None.
Proof.
  intros Hcur Hk. unfold DroneControl.tryUpdate.
  cbn [Command.builtin Command.m_update].
  pose proof (update_subseteq now delta ds c (promises rt)) as Hsub.
  pose proof (update_promise now delta ds c (promises rt)) as Hpc.
  pose proof (update_keeps now delta ds c (promises rt)) as Hkeep.
  destruct (Command.update now delta ds c (promises rt)) as [[c' ps'] instr].
  cbn [fst snd] in Hsub, Hpc, Hkeep.
  destruct (Command.completed c') eqn:Hc'.
  - set (rt1 := match Command.error c' with
                | Some e => notify (CommandError c' e) (with_promises ps' rt)
                | None => notify (CommandComplete c') (with_promises ps' rt)
                end).
    assert (Hrt1 : promises rt1 = ps' /\ nextPromise rt1 = nextPromise rt).
    { unfold rt1. destruct (Command.error c'); cbn; auto. }
    destruct Hrt1 as [Hp1 Hn1].
    set (ctl1 := DroneControl.with_currentCommand None
                   (DroneControl.with_movement
                      (Movement.setMovementCommand instr
                         (DroneControl.movement
                            (DroneControl.with_currentCommand (Some c') ctl)))
                      (DroneControl.with_currentCommand (Some c') ctl))).
    assert (Hk1 : kept ctl1 (promises rt1) n).
    { rewrite Hp1.
      apply (kept_more ctl ctl1 (promises rt) ps' n Hsub); [| exact Hk].
      intros h [Hh | Hh] Hch.
      - assert (h = c) by congruence. subst h.
        destruct (Hkeep Hch) as [Hf | Hs]; [congruence | left; exact Hs].
      - right. exists h. split; [right; exact Hh | auto]. }
    destruct (0 <? length (DroneControl.commandQueue ctl1))%nat.
    + destruct (startNext_builtin_kept now ctl1 rt1 n eq_refl Hk1)
        as (H1 & H2 & H3).
      split; [exact H1 | split; [congruence | exact H3]].
    + cbn [fst snd]. split; [exact Hk1 | split; [exact Hn1 | reflexivity]].
  - cbn [fst snd promises nextPromise with_promises].
    split; [| split; reflexivity].
    apply (kept_more ctl _ (promises rt) ps' n Hsub); [| exact Hk].
    intros h [Hh | Hh] Hch.
    + assert (h = c) by congruence. subst h. right. exists c'.
      split; [left; reflexivity | auto].
    + right. exists h. split; [right; exact Hh | auto].
Qed.

(** A tick keeps every outcome. *)
Lemma update_builtin_kept (now delta : R) (ctl : DroneControl.t)
    (rt : Runtime) (n : nat) :
  kept ctl (promises rt) n ->
  let r := DroneControl.update Command.builtin now delta ctl rt in
  kept (fst (fst r)) (promises (snd (fst r))) n
  /\ nextPromise (snd (fst r)) = nextPromise rt.
Proof.
  intros Hk. unfold DroneControl.update.
  destruct (DroneControl.paused ctl
            || match Movement.model (DroneControl.movement ctl) with
               | Some _ => false
               | None => true
               end); [cbn; auto |].
  assert (Hbegin :
            let b := if match DroneControl.currentCommand ctl with
                        | Some _ => false
                        | None => true
                        end
                        && (0 <? length (DroneControl.commandQueue ctl))%nat
                     then DroneControl._startNextCommand Command.builtin now
                            ctl rt
                     else (ctl, rt, None) in
            kept (fst (fst b)) (promises (snd (fst b))) n
            /\ nextPromise (snd (fst b)) = nextPromise rt
            /\ snd b = None).
  { destruct (DroneControl.currentCommand ctl) as [c |] eqn:Hcur;
      [cbn; auto |].
    destruct (0 <? length (DroneControl.commandQueue ctl))%nat;
      [| cbn; auto].
    cbn [andb].
    exact (startNext_builtin_kept now ctl rt n Hcur Hk). }
  cbv zeta in Hbegin.
  destruct (if match DroneControl.currentCommand ctl with
               | Some _ => false
               | None => true
               end
               && (0 <? length (DroneControl.commandQueue ctl))%nat
            then DroneControl._startNextCommand Command.builtin now ctl rt
            else (ctl, rt, None)) as [[ctl1 rt1] thrown].
  cbn [fst snd] in Hbegin. destruct Hbegin as (Hk1 & Hn1 & ->).
  destruct (DroneControl.currentCommand ctl1) as [c |] eqn:Hcur1.
  - pose proof (tryUpdate_builtin_kept now delta (DroneControl.getState ctl1)
                  c ctl1 rt1 n Hcur1 Hk1) as (H1 & H2 & Hth).
    destruct (DroneControl.tryUpdate Command.builtin now delta
                (DroneControl.getState ctl1) c ctl1 rt1)
      as [[ctl2 rt2] thrown2].
    cbn [fst snd] in H1, H2, Hth. subst thrown2. cbn [fst snd].
    split; [exact H1 | congruence].
  - destruct (state_eqb (DroneControl.state ctl1) IDLE) eqn:Est.
    + cbn [fst snd]. split; [exact Hk1 | exact Hn1].
    + unfold DroneControl._setState. rewrite Est. cbn. split; [| exact Hn1].
      intros p Hlt Hp. destruct (Hk1 p Hlt Hp) as (h & Hin & Hrest).
      exists h. split; [exact Hin | exact Hrest].
Qed.

Lemma setState_kept (st : ControllerState) (ctl : DroneControl.t)
    (rt : Runtime) (n : nat) :
  kept ctl (promises rt) n ->
  kept (fst (DroneControl._setState st ctl rt))
    (promises (snd (DroneControl._setState st ctl rt))) n.
Proof.
  intros Hk. unfold DroneControl._setState.
  destruct (state_eqb (DroneControl.state ctl) st); exact Hk.
Qed.

Lemma hoverInPlace_kept (ctl : DroneControl.t) (ps : Promises) (n : nat) :
  kept ctl ps n -> kept (DroneControl.hoverInPlace ctl) ps n.
Proof.
  intros Hk p Hlt Hp. destruct (Hk p Hlt Hp) as (c & Hin & Hrest).
  exists c. split; [| exact Hrest].
  destruct (hoverInPlace_rest ctl) as (_ & H2 & H3 & _).
  unfold in_flight. rewrite H2, H3. exact Hin.
Qed.

(** Every operation of the controller keeps every outcome. *)
Lemma call_builtin_nothing_dropped (k : Call) (s : DroneControl.t * Runtime) :
  nothing_dropped s -> nothing_dropped (call Command.builtin k s).
Proof.
  destruct s as [ctl rt]. unfold nothing_dropped. cbn [fst snd]. intros Hk.
  assert (Hnew : forall cmd : Command.t,
             Command.promise cmd = nextPromise rt ->
             Command.completed cmd = false ->
             let r := DroneControl.enqueue cmd ctl
                        {| promises := promises rt;
                           nextPromise := S (nextPromise rt);
                           log := log rt |} in
             kept (fst (fst r)) (promises (snd (fst r)))
               (nextPromise (snd (fst r)))).
  { intros cmd Hp Hc. cbn. apply kept_enqueue_new; assumption. }
  assert (Hcancel : forall rt0 : Runtime,
             promises rt0 = promises rt ->
             forall p : nat,
               (p < nextPromise rt)%nat ->
               is_Some (promises (snd (DroneControl.cancel ctl rt0)) !! p)).
  { intros rt0 E. apply cancel_settles_kept. rewrite E. exact Hk. }
  destruct k; cbn [call];
    unfold DroneControl.hover, DroneControl.takeOff, DroneControl.land,
      DroneControl.moveTo, DroneControl.rotateYaw,
      DroneControl.executeImmediate, new_promise.
  - pose proof (Hcancel {| promises := promises rt;
                           nextPromise := S (nextPromise rt);
                           log := log rt |} eq_refl) as Hs.
    pose proof (cancel_nextPromise ctl
                  {| promises := promises rt;
                     nextPromise := S (nextPromise rt);
                     log := log rt |}) as Hn.
    destruct (DroneControl.cancel ctl _) as [ctl1 rt1].
    cbn [fst snd nextPromise] in Hs, Hn |- *.
    cbn [DroneControl.enqueue fst snd]. rewrite Hn.
    apply kept_enqueue_new; [reflexivity | reflexivity |].
    apply kept_settled, Hs.
  - apply Hnew; reflexivity.
  - apply Hnew; reflexivity.
  - apply Hnew; reflexivity.
  - apply Hnew; reflexivity.
  - cbn. apply kept_enqueue, Hk.
  - pose proof (Hcancel rt eq_refl) as Hs.
    pose proof (cancel_nextPromise ctl rt) as Hn.
    destruct (DroneControl.cancel ctl rt) as [ctl1 rt1].
    cbn [fst snd] in Hs, Hn |- *. cbn [DroneControl.enqueue fst snd].
    rewrite Hn. apply kept_enqueue, kept_settled, Hs.
  - rewrite cancel_nextPromise. apply kept_settled, (Hcancel rt eq_refl).
  - unfold DroneControl.pause.
    destruct (state_eqb (DroneControl.state ctl) RUNNING); [| exact Hk].
    match goal with
    | |- context [DroneControl._setState ?st ?c0 ?r] =>
        pose proof (setState_kept st c0 r (nextPromise rt)) as Hs;
        pose proof (setState_promises st c0 r) as [_ Hn];
        destruct (DroneControl._setState st c0 r) as [ctl1 rt1]
    end.
    cbn [fst snd] in Hs, Hn |- *. rewrite Hn.
    apply hoverInPlace_kept, Hs. exact Hk.
  - unfold DroneControl.resume.
    destruct (state_eqb (DroneControl.state ctl) PAUSED); [| exact Hk].
    match goal with
    | |- context [DroneControl._setState ?st ?c0 ?r] =>
        pose proof (setState_kept st c0 r (nextPromise rt)) as Hs;
        pose proof (setState_promises st c0 r) as [_ Hn]
    end.
    rewrite Hn. apply Hs. exact Hk.
  - destruct (update_builtin_kept now delta ctl rt (nextPromise rt) Hk)
      as [H1 H2].
    rewrite H2. exact H1.
  - exact Hk.
Qed.

Lemma calls_builtin_nothing_dropped (ks : list Call)
    (s : DroneControl.t * Runtime) :
  nothing_dropped s -> nothing_dropped (calls Command.builtin ks s).
Proof.
  revert s. induction ks as [| k ks IH]; intros s H; [exact H |].
  apply IH, call_builtin_nothing_dropped, H.
Qed.

(** X5. The controller drops no command without settling its outcome. Over
    any sequence of operations on a new controller (intents, enqueue,
    executeImmediate, cancel, pause, resume, ticks) with the command classes
    of commands.js, every outcome created so far by an intent ([hover],
    [takeOff], [land], [moveTo], [rotateYaw]) is settled, or it is the
    outcome of a command that is still current or queued and not completed:
    a tick lets go of the current command only once it is completed, and
    [cancel()] settles what it empties. *)
Theorem no_pending_outcome_is_dropped :
  forall (ks : list Call) (movement : Movement.t) (p : nat),
    let s := calls Command.builtin ks
               (DroneControl.new movement, empty_runtime) in
    (p < nextPromise (snd s))%nat ->
    promises (snd s) !! p = None ->
    exists c : Command.t,
      in_flight (fst s) c
      /\ Command.promise c = p
      /\ Command.completed c = false.
Proof.
  intros ks movement p s.
  apply (calls_builtin_nothing_dropped ks
           (DroneControl.new movement, empty_runtime)).
  intros q Hq. cbn in Hq. lia.
Qed.

(** A rotation and a take-off, a tick, then a landing: the rotation is
    resolved, and the pending take-off is current. *)
Lemma no_pending_outcome_is_dropped_witness :
  let s := calls Command.builtin
             [CallRotateYaw 0 Command.no_options;
              CallTakeOff None Command.no_options;
              CallUpdate 1 0.016;
              CallLand Command.no_options]
             (DroneControl.new loaded_vehicle, empty_runtime) in
  promises (snd s) !! 0%nat = Some (Resolved (RRotateYaw 0))
  /\ exists c : Command.t,
       in_flight (fst s) c
       /\ Command.promise c = 1%nat
       /\ Command.completed c = false.
Proof.
  intros s. split; [reflexivity |].
  apply (no_pending_outcome_is_dropped
           [CallRotateYaw 0 Command.no_options;
            CallTakeOff None Command.no_options;
            CallUpdate 1 0.016;
            CallLand Command.no_options] loaded_vehicle 1%nat).
  - vm_compute. lia.
  - reflexivity.
Defined.

(** ** The queue is first in, first out *)

Lemma startedPromises_notify (n : Notification) (rt : Runtime) :
  startedPromises (notify n rt)
  = (startedPromises rt ++ match n with
                           | CommandStart c => [Command.promise c]
                           | _ => []
                           end)%list.
Proof.
  unfold startedPromises, notify. cbn [log].
  rewrite flat_map_app. simpl. rewrite app_nil_r. reflexivity.
Qed.

Lemma setState_started (st : ControllerState) (ctl : DroneControl.t)
    (rt : Runtime) :
  startedPromises (snd (DroneControl._setState st ctl rt)) = startedPromises rt.
Proof.
  unfold DroneControl._setState.
  destruct (state_eqb (DroneControl.state ctl) st); cbn [snd]; [reflexivity |].
  rewrite startedPromises_notify. apply app_nil_r.
Qed.

Lemma cancel_started (ctl : DroneControl.t) (rt : Runtime) :
  startedPromises (snd (DroneControl.cancel ctl rt)) = startedPromises rt.
Proof.
  unfold DroneControl.cancel.
  match goal with
  | |- context [DroneControl._setState ?s ?c0 ?r] =>
      pose proof (setState_started s c0 r) as Hs;
      destruct (DroneControl._setState s c0 r) as [ctl1 rt1]
  end.
  exact Hs.
Qed.

(** Starting the head of the queue. *)
Lemma startNext_builtin_fifo (now : R) (ctl : DroneControl.t) (rt : Runtime) :
  let r := DroneControl._startNextCommand Command.builtin now ctl rt in
  snd r = None
  /\ exists taken : list Command.t,
       DroneControl.commandQueue ctl
       = (taken ++ DroneControl.commandQueue (fst (fst r)))%list
       /\ startedPromises (snd (fst r))
          = (startedPromises rt ++ map Command.promise taken)%list.
Proof.
  unfold DroneControl._startNextCommand.
  destruct (DroneControl.commandQueue ctl) as [| c rest] eqn:Hq.
  - cbn. split; [reflexivity |]. exists []. cbn. rewrite Hq, app_nil_r. auto.
  - match goal with
    | |- context [DroneControl._setState ?s ?c0 ?r] =>
        pose proof (setState_started s c0 r) as Hs;
        pose proof (setState_rest s c0 r) as (_ & Hr & _);
        destruct (DroneControl._setState s c0 r) as [ctl1 rt1]
    end.
    cbn [fst snd] in *. cbn [Command.builtin Command.m_start].
    pose proof (start_promise now (DroneControl.getState ctl1) c (promises rt1))
      as Hp.
    destruct (Command.start now (DroneControl.getState ctl1) c (promises rt1))
      as [c' ps']. cbn [fst snd] in *.
    split; [reflexivity |]. exists [c]. split.
    + cbn in *. rewrite Hr. reflexivity.
    + rewrite startedPromises_notify. unfold startedPromises in *.
      cbn [log with_promises] in *. rewrite Hs, Hp. reflexivity.
Qed.

Lemma tryUpdate_builtin_fifo (now delta : R) (ds : DroneState.t)
    (c : Command.t) (ctl : DroneControl.t) (rt : Runtime) :
  let r := DroneControl.tryUpdate Command.builtin now delta ds c ctl rt in
  snd r = None
  /\ exists taken : list Command.t,
       DroneControl.commandQueue ctl
       = (taken ++ DroneControl.commandQueue (fst (fst r)))%list
       /\ startedPromises (snd (fst r))
          = (startedPromises rt ++ map Command.promise taken)%list.
Proof.
  unfold DroneControl.tryUpdate. cbn [Command.builtin Command.m_update].
  destruct (Command.update now delta ds c (promises rt)) as [[c1 ps1] i1].
  assert (Hnil : forall (ctl0 : DroneControl.t) (rt0 : Runtime),
             DroneControl.commandQueue ctl0 = DroneControl.commandQueue ctl ->
             startedPromises rt0 = startedPromises rt ->
             (ctl0, rt0, @None Error).2 = None
             /\ exists taken : list Command.t,
                  DroneControl.commandQueue ctl
                  = (taken ++ DroneControl.commandQueue ctl0)%list
                  /\ startedPromises rt0
                     = (startedPromises rt ++ map Command.promise taken)%list).
  { intros ctl0 rt0 Hq Hs. split; [reflexivity |]. exists [].
    rewrite Hq, Hs, app_nil_r. auto. }
  destruct (Command.completed c1); [| apply Hnil; reflexivity].
  assert (Hlog : startedPromises
                   match Command.error c1 with
                   | Some e => notify (CommandError c1 e) (with_promises ps1 rt)
                   | None => notify (CommandComplete c1) (with_promises ps1 rt)
                   end
                 = startedPromises rt).
  { destruct (Command.error c1); rewrite startedPromises_notify;
      apply app_nil_r. }
  match goal with
  | |- context [if ?b then _ else _] => destruct b
  end.
  - match goal with
    | |- context [DroneControl._startNextCommand _ now ?c0 ?r0] =>
        destruct (startNext_builtin_fifo now c0 r0) as (Hth & taken & Hq & Hs)
    end.
    split; [exact Hth |]. exists taken. split; [exact Hq |].
    rewrite Hs, Hlog. reflexivity.
  - apply Hnil; [reflexivity | exact Hlog].
Qed.

Lemma update_builtin_fifo (now delta : R) (ctl : DroneControl.t) (rt : Runtime) :
  let r := DroneControl.update Command.builtin now delta ctl rt in
  exists taken : list Command.t,
    DroneControl.commandQueue ctl
    = (taken ++ DroneControl.commandQueue (fst (fst r)))%list
    /\ startedPromises (snd (fst r))
       = (startedPromises rt ++ map Command.promise taken)%list.
Proof.
  assert (Hrun : forall (ctl0 : DroneControl.t) (rt0 : Runtime) (c : Command.t),
             let r :=
               (let '(ctl1, rt1, thrown) :=
                  DroneControl.tryUpdate Command.builtin now delta
                    (DroneControl.getState ctl0) c ctl0 rt0 in
                match thrown with
                | None => (ctl1, rt1, inl true)
                | Some e =>
                    let '(ctl2, rt2, thrown2) :=
                      DroneControl.catchUpdate e ctl1 rt1 in
                    match thrown2 with
                    | None => (ctl2, rt2, @inl bool Error true)
                    | Some e2 => (ctl2, rt2, inr e2)
                    end
                end) in
             exists taken : list Command.t,
               DroneControl.commandQueue ctl0
               = (taken ++ DroneControl.commandQueue (fst (fst r)))%list
               /\ startedPromises (snd (fst r))
                  = (startedPromises rt0 ++ map Command.promise taken)%list).
  { intros ctl0 rt0 c.
    destruct (tryUpdate_builtin_fifo now delta (DroneControl.getState ctl0)
                c ctl0 rt0) as (Hth & taken & Hq & Hs).
    destruct (DroneControl.tryUpdate _ _ _ _ _ _ _) as [[ctl1 rt1] thrown].
    cbn [fst snd] in *. subst thrown. cbn. exists taken. auto. }
  assert (Hidle : forall (ctl0 : DroneControl.t) (rt0 : Runtime),
             let r :=
               (let '(ctl2, rt2) :=
                  if state_eqb (DroneControl.state ctl0) IDLE then (ctl0, rt0)
                  else DroneControl._setState IDLE ctl0 rt0 in
                (ctl2, rt2, @inl bool Error false)) in
             DroneControl.commandQueue (fst (fst r))
             = DroneControl.commandQueue ctl0
             /\ startedPromises (snd (fst r)) = startedPromises rt0).
  { intros ctl0 rt0.
    destruct (state_eqb (DroneControl.state ctl0) IDLE); [cbn; auto |].
    pose proof (setState_started IDLE ctl0 rt0) as Hs.
    pose proof (setState_rest IDLE ctl0 rt0) as (_ & Hq & _).
    destruct (DroneControl._setState IDLE ctl0 rt0) as [ctl2 rt2].
    cbn in *. auto. }
  unfold DroneControl.update.
  match goal with
  | |- context [if ?b then (ctl, rt, inl false) else _] => destruct b
  end.
  { exists []. cbn. rewrite app_nil_r. auto. }
  match goal with
  | |- context [if ?b then DroneControl._startNextCommand _ now ctl rt else _] =>
      destruct b
  end.
  - destruct (startNext_builtin_fifo now ctl rt) as (Hth & taken & Hq & Hs).
    destruct (DroneControl._startNextCommand _ now ctl rt)
      as [[ctl1 rt1] thrown]. cbn [fst snd] in *. subst thrown.
    destruct (DroneControl.currentCommand ctl1) as [c |].
    + destruct (Hrun ctl1 rt1 c) as (taken2 & Hq2 & Hs2).
      exists (taken ++ taken2)%list. split.
      * rewrite Hq, Hq2 at 1. rewrite app_assoc. reflexivity.
      * rewrite Hs2, Hs, map_app, app_assoc. reflexivity.
    + destruct (Hidle ctl1 rt1) as [Hq2 Hs2].
      exists taken. rewrite Hq2, Hs2. auto.
  - destruct (DroneControl.currentCommand ctl) as [c |].
    + apply Hrun.
    + destruct (Hidle ctl rt) as [Hq2 Hs2].
      exists []. rewrite Hq2, Hs2, app_nil_r. auto.
Qed.

Lemma pause_fifo (ctl : DroneControl.t) (rt : Runtime) :
  DroneControl.commandQueue (fst (DroneControl.pause ctl rt))
  = DroneControl.commandQueue ctl
  /\ startedPromises (snd (DroneControl.pause ctl rt)) = startedPromises rt.
Proof.
  unfold DroneControl.pause.
  destruct (state_eqb (DroneControl.state ctl) RUNNING); [| auto].
  match goal with
  | |- context [DroneControl._setState ?s ?c0 ?r] =>
      pose proof (setState_started s c0 r) as Hs;
      pose proof (setState_rest s c0 r) as (_ & Hq & _);
      destruct (DroneControl._setState s c0 r) as [ctl1 rt1]
  end.
  cbn [fst snd] in *.
  destruct (hoverInPlace_rest ctl1) as (_ & _ & Hq' & _).
  rewrite Hq', Hq. auto.
Qed.

Lemma resume_fifo (ctl : DroneControl.t) (rt : Runtime) :
  DroneControl.commandQueue (fst (DroneControl.resume ctl rt))
  = DroneControl.commandQueue ctl
  /\ startedPromises (snd (DroneControl.resume ctl rt)) = startedPromises rt.
Proof.
  unfold DroneControl.resume.
  destruct (state_eqb (DroneControl.state ctl) PAUSED); [| auto].
  match goal with
  | |- context [DroneControl._setState ?s ?c0 ?r] =>
      pose proof (setState_started s c0 r) as Hs;
      pose proof (setState_rest s c0 r) as (_ & Hq & _)
  end.
  rewrite Hq, Hs. auto.
Qed.

Lemma fifo_take (s s' : DroneControl.t * Runtime) (enqueued taken : list nat) :
  queuedPromises (fst s) = (taken ++ queuedPromises (fst s'))%list ->
  startedPromises (snd s') = (startedPromises (snd s) ++ taken)%list ->
  (fifo s enqueued -> fifo s' enqueued)
  /\ (fifo_strict s enqueued -> fifo_strict s' enqueued).
Proof.
  intros Hq Hs. split.
  - intros (gone & He & Hsub). exists (gone ++ taken)%list. split.
    + rewrite He, Hq, app_assoc. reflexivity.
    + rewrite Hs. apply sublist_app; [exact Hsub | reflexivity].
  - unfold fifo_strict. intros He. rewrite He, Hq, Hs, app_assoc. reflexivity.
Qed.

Lemma fifo_drop (s s' : DroneControl.t * Runtime) (enqueued : list nat) :
  queuedPromises (fst s') = [] ->
  startedPromises (snd s') = startedPromises (snd s) ->
  fifo s enqueued -> fifo s' enqueued.
Proof.
  intros Hq Hs (gone & He & Hsub).
  exists (gone ++ queuedPromises (fst s))%list. split.
  - rewrite He, Hq, app_nil_r. reflexivity.
  - rewrite Hs. apply sublist_inserts_r. exact Hsub.
Qed.

Lemma fifo_push (s s' : DroneControl.t * Runtime) (enqueued : list nat)
    (p : nat) :
  queuedPromises (fst s') = (queuedPromises (fst s) ++ [p])%list ->
  startedPromises (snd s') = startedPromises (snd s) ->
  (fifo s enqueued -> fifo s' (enqueued ++ [p]))
  /\ (fifo_strict s enqueued -> fifo_strict s' (enqueued ++ [p])).
Proof.
  intros Hq Hs. split.
  - intros (gone & He & Hsub). exists gone. split.
    + rewrite He, Hq, app_assoc. reflexivity.
    + rewrite Hs. exact Hsub.
  - unfold fifo_strict. intros He. rewrite He, Hq, Hs, app_assoc. reflexivity.
Qed.

Lemma enqueue_fifo (c : Command.t) (ctl : DroneControl.t) (rt rt' : Runtime)
    (enqueued : list nat) :
  startedPromises rt' = startedPromises rt ->
  let s' := fst (DroneControl.enqueue c ctl rt') in
  (fifo (ctl, rt) enqueued -> fifo s' (enqueued ++ [Command.promise c]))
  /\ (fifo_strict (ctl, rt) enqueued ->
      fifo_strict s' (enqueued ++ [Command.promise c])).
Proof.
  intros Hs s'. apply fifo_push.
  - unfold s', queuedPromises. cbn. apply map_app.
  - exact Hs.
Qed.

Lemma executeImmediate_fifo (c : Command.t) (ctl : DroneControl.t)
    (rt rt' : Runtime) (enqueued : list nat) :
  startedPromises rt' = startedPromises rt ->
  fifo (ctl, rt) enqueued ->
  fifo (fst (DroneControl.executeImmediate c ctl rt'))
    (enqueued ++ [Command.promise c]).
Proof.
  intros Hs Hf. unfold DroneControl.executeImmediate.
  destruct (cancel_controller ctl rt') as (_ & _ & Hq & _).
  pose proof (cancel_started ctl rt') as Hst.
  destruct (DroneControl.cancel ctl rt') as [ctl1 rt1]. cbn [fst snd] in *.
  apply (enqueue_fifo c ctl1 rt1 rt1 enqueued eq_refl).
  apply (fifo_drop (ctl, rt) (ctl1, rt1)); cbn [fst snd].
  - unfold queuedPromises. rewrite Hq. reflexivity.
  - congruence.
  - exact Hf.
Qed.

Lemma call_builtin_fifo (k : Call) (s : DroneControl.t * Runtime)
    (enqueued : list nat) :
  (fifo s enqueued ->
   fifo (call Command.builtin k s) (enqueued ++ enqueuedBy k s))
  /\ (cancels k = false ->
      fifo_strict s enqueued ->
      fifo_strict (call Command.builtin k s) (enqueued ++ enqueuedBy k s)).
Proof.
  destruct s as [ctl rt].
  assert (Hkeep : forall s' : DroneControl.t * Runtime,
             DroneControl.commandQueue (fst s') = DroneControl.commandQueue ctl ->
             startedPromises (snd s') = startedPromises rt ->
             (fifo (ctl, rt) enqueued -> fifo s' (enqueued ++ []))
             /\ (fifo_strict (ctl, rt) enqueued ->
                 fifo_strict s' (enqueued ++ []))).
  { intros s' Hq Hs. rewrite app_nil_r.
    apply (fifo_take (ctl, rt) s' enqueued []); cbn [fst snd].
    - unfold queuedPromises. rewrite Hq. reflexivity.
    - rewrite Hs, app_nil_r. reflexivity. }
  destruct k; cbn [call enqueuedBy cancels snd];
    unfold DroneControl.hover, DroneControl.takeOff, DroneControl.land,
      DroneControl.moveTo, DroneControl.rotateYaw, new_promise.
  - split; [| discriminate].
    apply (executeImmediate_fifo
             (Command.new_HoverCommand Command.no_options (nextPromise rt))).
    reflexivity.
  - destruct (enqueue_fifo
                (Command.new_TakeOffCommand
                   (Some (nullish altitude Command.DEFAULT_CONFIG.defaultAltitude))
                   options (nextPromise rt))
                ctl rt
                {| promises := promises rt; nextPromise := S (nextPromise rt);
                   log := log rt |} enqueued eq_refl) as [H1 H2].
    split; [exact H1 | intros _; exact H2].
  - destruct (enqueue_fifo
                (Command.new_LandCommand options (nextPromise rt))
                ctl rt
                {| promises := promises rt; nextPromise := S (nextPromise rt);
                   log := log rt |} enqueued eq_refl) as [H1 H2].
    split; [exact H1 | intros _; exact H2].
  - destruct (enqueue_fifo
                (Command.new_MoveToCommand tgx tgy tgz options (nextPromise rt))
                ctl rt
                {| promises := promises rt; nextPromise := S (nextPromise rt);
                   log := log rt |} enqueued eq_refl) as [H1 H2].
    split; [exact H1 | intros _; exact H2].
  - destruct (enqueue_fifo
                (Command.new_RotateYawCommand angle options (nextPromise rt))
                ctl rt
                {| promises := promises rt; nextPromise := S (nextPromise rt);
                   log := log rt |} enqueued eq_refl) as [H1 H2].
    split; [exact H1 | intros _; exact H2].
  - destruct (enqueue_fifo cmd ctl rt rt enqueued eq_refl) as [H1 H2].
    split; [exact H1 | intros _; exact H2].
  - split; [| discriminate].
    apply (executeImmediate_fifo cmd). reflexivity.
  - split; [| discriminate].
    rewrite app_nil_r.
    apply (fifo_drop (ctl, rt)).
    + unfold queuedPromises.
      destruct (cancel_controller ctl rt) as (_ & _ & Hq & _).
      rewrite Hq. reflexivity.
    + apply cancel_started.
  - destruct (pause_fifo ctl rt) as [Hq Hs].
    destruct (Hkeep (DroneControl.pause ctl rt) Hq Hs) as [H1 H2].
    split; [exact H1 | intros _; exact H2].
  - destruct (resume_fifo ctl rt) as [Hq Hs].
    destruct (Hkeep (DroneControl.resume ctl rt) Hq Hs) as [H1 H2].
    split; [exact H1 | intros _; exact H2].
  - destruct (update_builtin_fifo now delta ctl rt) as (taken & Hq & Hs).
    rewrite app_nil_r.
    destruct (fifo_take (ctl, rt)
                (fst (DroneControl.update Command.builtin now delta ctl rt))
                enqueued (map Command.promise taken)) as [H1 H2].
    + cbn [fst]. unfold queuedPromises. rewrite Hq at 1. apply map_app.
    + exact Hs.
    + split; [exact H1 | intros _; exact H2].
  - destruct (Hkeep (DroneControl.with_movement movement ctl, rt)
                eq_refl eq_refl) as [H1 H2].
    split; [exact H1 | intros _; exact H2].
Qed.

Lemma calls_builtin_fifo (ks : list Call) (s : DroneControl.t * Runtime)
    (enqueued : list nat) :
  (fifo s enqueued ->
   fifo (calls Command.builtin ks s)
     (enqueued ++ enqueueHistory Command.builtin ks s))
  /\ (forallb (fun k => negb (cancels k)) ks = true ->
      fifo_strict s enqueued ->
      fifo_strict (calls Command.builtin ks s)
        (enqueued ++ enqueueHistory Command.builtin ks s)).
Proof.
  revert s enqueued. induction ks as [| k ks IH]; intros s enqueued.
  - cbn. rewrite app_nil_r. auto.
  - cbn [calls fold_left enqueueHistory forallb].
    destruct (call_builtin_fifo k s enqueued) as [H1 H2].
    destruct (IH (call Command.builtin k s) (enqueued ++ enqueuedBy k s)%list)
      as [I1 I2].
    rewrite app_assoc. split.
    + intros Hf. apply I1, H1, Hf.
    + intros Hall Hf. apply andb_true_iff in Hall as [Hk Hrest].
      apply I2; [exact Hrest |]. apply H2; [| exact Hf].
      destruct (cancels k); [discriminate | reflexivity].
Qed.

(** X6. The queue is first in, first out. Over any sequence of operations on
    a new controller with the command classes of commands.js, the commands
    enqueued so far, in the order of their enqueueing, are those that have
    left the queue followed by those still queued, and the commands that were
    started were started in that order; with no [hover], [executeImmediate]
    or [cancel] among the operations, the started commands followed by the
    queued ones are exactly the enqueued ones, in order. *)
Theorem queue_is_first_in_first_out :
  forall (ks : list Call) (movement : Movement.t),
    let s0 := (DroneControl.new movement, empty_runtime) in
    let s := calls Command.builtin ks s0 in
    let enqueued := enqueueHistory Command.builtin ks s0 in
    (exists gone : list nat,
        enqueued = (gone ++ queuedPromises (fst s))%list
        /\ startedPromises (snd s) `sublist_of` gone)
    /\ (forallb (fun k => negb (cancels k)) ks = true ->
        enqueued = (startedPromises (snd s) ++ queuedPromises (fst s))%list).
Proof.
  intros ks movement s0 s enqueued.
  destruct (calls_builtin_fifo ks s0 []) as [H1 H2].
  split.
  - apply H1. exists []. split; reflexivity.
  - intros Hall. apply (H2 Hall). reflexivity.
Qed.

(** Two rotations and a take-off: after one tick the rotations have been
    started, in order, and the take-off waits. *)
Lemma queue_is_first_in_first_out_witness :
  let ks := [CallRotateYaw 0 Command.no_options;
             CallRotateYaw 1 Command.no_options;
             CallUpdate 1 0;
             CallTakeOff None Command.no_options] in
  let s := calls Command.builtin ks (DroneControl.new loaded_vehicle, empty_runtime) in
  enqueueHistory Command.builtin ks (DroneControl.new loaded_vehicle, empty_runtime)
  = (startedPromises (snd s) ++ queuedPromises (fst s))%list
  /\ startedPromises (snd s) = [0%nat; 1%nat]
  /\ queuedPromises (fst s) = [2%nat].
Proof.
  intros ks s. split; [| split; reflexivity].
  apply (proj2 (queue_is_first_in_first_out ks loaded_vehicle)).
  reflexivity.
Defined.

(** ** Cancelling a paused controller *)

Lemma only_cancelled_refl (ps : Promises) : only_cancelled ps ps.
Proof. intros p. left. reflexivity. Qed.

Lemma only_cancelled_trans (ps1 ps2 ps3 : Promises) :
  only_cancelled ps1 ps2 -> only_cancelled ps2 ps3 -> only_cancelled ps1 ps3.
Proof.
  intros H12 H23 p. destruct (H23 p) as [E | [E1 E2]].
  - rewrite E. apply H12.
  - destruct (H12 p) as [E' | [_ E']]; [| congruence].
    right. split; congruence.
Qed.

Lemma cancelQueue_only_cancelled (q : list Command.t) (ps : Promises) :
  only_cancelled ps (DroneControl.cancelQueue q ps).
Proof.
  revert ps. induction q as [| c q IH]; intros ps; [apply only_cancelled_refl |].
  cbn [DroneControl.cancelQueue].
  apply only_cancelled_trans with (snd (Command.cancel c ps)); [| apply IH].
  intros p. destruct (ps !! p) as [s |] eqn:E.
  - left. apply cancel_store_settled, E.
  - destruct (cancel_store_pending_or_cancelled c ps p E) as [H | H]; auto.
Qed.

Lemma cancel_only_cancelled (ctl : DroneControl.t) (rt : Runtime) :
  only_cancelled (promises rt) (promises (snd (DroneControl.cancel ctl rt))).
Proof.
  rewrite cancel_promises.
  destruct (DroneControl.currentCommand ctl) as [c |];
    [| apply cancelQueue_only_cancelled].
  apply only_cancelled_trans with (snd (Command.cancel c (promises rt)));
    [| apply cancelQueue_only_cancelled].
  intros p. destruct (promises rt !! p) as [s |] eqn:E.
  - left. apply cancel_store_settled, E.
  - destruct (cancel_store_pending_or_cancelled c (promises rt) p E) as [H | H];
      auto.
Qed.

Lemma cancel_log_idle (ctl : DroneControl.t) (rt : Runtime) :
  DroneControl.state ctl = IDLE ->
  log (snd (DroneControl.cancel ctl rt)) = log rt.
Proof.
  intros Hs. unfold DroneControl.cancel, DroneControl._setState.
  cbn [DroneControl.state DroneControl.with_commandQueue
       DroneControl.with_currentCommand].
  rewrite Hs. reflexivity.
Qed.

Lemma stalled_cancel (ctl : DroneControl.t) (rt : Runtime) :
  DroneControl.paused ctl = true ->
  stalled (fst (DroneControl.cancel ctl rt)).
Proof.
  intros Hp. destruct (cancel_controller ctl rt) as (Hs & Hc & _ & Hp').
  unfold stalled. rewrite Hp', Hp. auto.
Qed.

Lemma stalled_update (M : Command.Methods) (now delta : R)
    (ctl : DroneControl.t) (rt : Runtime) :
  DroneControl.paused ctl = true ->
  DroneControl.update M now delta ctl rt = (ctl, rt, inl false).
Proof. intros Hp. unfold DroneControl.update. rewrite Hp. reflexivity. Qed.

Lemma stalled_executeImmediate (cmd : Command.t) (ctl : DroneControl.t)
    (rt rt' : Runtime) :
  stalled ctl ->
  log rt' = log rt ->
  only_cancelled (promises rt) (promises rt') ->
  let s' := fst (DroneControl.executeImmediate cmd ctl rt') in
  stalled (fst s') /\ log (snd s') = log rt
  /\ only_cancelled (promises rt) (promises (snd s')).
Proof.
  intros (Hp & Hs & Hc) Hl Ho. unfold DroneControl.executeImmediate.
  pose proof (stalled_cancel ctl rt' Hp) as Hst.
  pose proof (cancel_log_idle ctl rt' Hs) as Hlog.
  pose proof (cancel_only_cancelled ctl rt') as Hoc.
  destruct (DroneControl.cancel ctl rt') as [ctl1 rt1].
  cbn [fst snd DroneControl.enqueue] in *.
  split; [exact Hst |]. split; [congruence |].
  apply only_cancelled_trans with (promises rt'); assumption.
Qed.

Lemma stalled_call (M : Command.Methods) (k : Call)
    (s : DroneControl.t * Runtime) :
  stalled (fst s) ->
  stalled (fst (call M k s))
  /\ log (snd (call M k s)) = log (snd s)
  /\ only_cancelled (promises (snd s)) (promises (snd (call M k s))).
Proof.
  destruct s as [ctl rt]. cbn [fst snd]. intros Hst.
  pose proof Hst as (Hp & Hs & Hc).
  destruct k; cbn [call];
    unfold DroneControl.hover, DroneControl.takeOff, DroneControl.land,
      DroneControl.moveTo, DroneControl.rotateYaw, new_promise;
    cbn [fst snd DroneControl.enqueue].
  - apply (stalled_executeImmediate _ ctl rt); auto using only_cancelled_refl.
  - auto using only_cancelled_refl.
  - auto using only_cancelled_refl.
  - auto using only_cancelled_refl.
  - auto using only_cancelled_refl.
  - auto using only_cancelled_refl.
  - apply (stalled_executeImmediate _ ctl rt); auto using only_cancelled_refl.
  - split; [apply stalled_cancel, Hp |].
    split; [apply cancel_log_idle, Hs | apply cancel_only_cancelled].
  - unfold DroneControl.pause. rewrite Hs. cbn.
    auto using only_cancelled_refl.
  - unfold DroneControl.resume. rewrite Hs. cbn.
    auto using only_cancelled_refl.
  - rewrite (stalled_update M now delta ctl rt Hp). cbn.
    auto using only_cancelled_refl.
  - auto using only_cancelled_refl.
Qed.

Lemma stalled_calls (M : Command.Methods) (ks : list Call)
    (s : DroneControl.t * Runtime) :
  stalled (fst s) ->
  stalled (fst (calls M ks s))
  /\ log (snd (calls M ks s)) = log (snd s)
  /\ only_cancelled (promises (snd s)) (promises (snd (calls M ks s))).
Proof.
  revert s. induction ks as [| k ks IH]; intros s Hst.
  - cbn. auto using only_cancelled_refl.
  - cbn [calls fold_left].
    destruct (stalled_call M k s Hst) as (H1 & H2 & H3).
    destruct (IH (call M k s) H1) as (I1 & I2 & I3).
    split; [exact I1 |]. split; [unfold calls in I2; congruence |].
    apply only_cancelled_trans with (promises (snd (call M k s))); assumption.
Qed.

(** X7. [cancel()] on a paused controller leaves the flag [paused] set with
    the state at Idle, and nothing undoes it: [resume()] needs the state
    Paused, [pause()] the state Running, and a tick returns at once. Whatever
    the command classes and whatever is called afterwards, the controller
    stays so; no observer callback is ever called again, every tick returns
    false, and the only outcome a command can still get is "Command
    cancelled". *)
Theorem cancel_while_paused_stalls_controller :
  forall (M : Command.Methods) (ks : list Call) (ctl : DroneControl.t)
         (rt : Runtime),
    DroneControl.state ctl = RUNNING ->
    let s1 := calls M [CallPause; CallControlCancel] (ctl, rt) in
    let s := calls M ks s1 in
    stalled (fst s)
    /\ log (snd s) = log (snd s1)
    /\ only_cancelled (promises (snd s1)) (promises (snd s))
    /\ (forall now delta : R,
           DroneControl.update M now delta (fst s) (snd s)
           = (fst s, snd s, inl false)).
Proof.
  intros M ks ctl rt Hrun s1 s.
  assert (Hst : stalled (fst s1)).
  { unfold s1. cbn [calls fold_left call].
    assert (Hp : DroneControl.paused (fst (DroneControl.pause ctl rt)) = true).
    { unfold DroneControl.pause. rewrite Hrun. cbn [state_eqb].
      match goal with
      | |- context [DroneControl._setState ?st ?c0 ?r] =>
          pose proof (setState_rest st c0 r) as (_ & _ & Hp & _);
          destruct (DroneControl._setState st c0 r) as [ctl1 rt1]
      end.
      cbn [fst] in *. destruct (hoverInPlace_rest ctl1) as (_ & _ & _ & H4).
      rewrite H4, Hp. reflexivity. }
    destruct (DroneControl.pause ctl rt) as [ctl1 rt1]. cbn [fst] in Hp.
    apply stalled_cancel, Hp. }
  destruct (stalled_calls M ks s1 Hst) as (H1 & H2 & H3).
  split; [exact H1 |]. split; [exact H2 |]. split; [exact H3 |].
  intros now delta. apply stalled_update, H1.
Qed.

(** A rotation is flown, then [pause()] and [cancel()]: a take-off requested
    afterwards waits in the queue for good, through [resume()] and ticks. *)
Lemma cancel_while_paused_stalls_controller_witness :
  let s0 := calls Command.builtin
              [CallRotateYaw 0 Command.no_options; CallUpdate 1 0]
              (DroneControl.new loaded_vehicle, empty_runtime) in
  let s := calls Command.builtin
             [CallPause; CallControlCancel;
              CallTakeOff None Command.no_options; CallResume;
              CallUpdate 2 0.016; CallUpdate 3 0.016] s0 in
  DroneControl.state (fst s0) = RUNNING
  /\ stalled (fst s)
  /\ queuedPromises (fst s) = [1%nat]
  /\ promises (snd s) !! 1%nat = None.
Proof.
  intros s0 s.
  assert (Hrun : DroneControl.state (fst s0) = RUNNING) by reflexivity.
  split; [exact Hrun |].
  pose proof (cancel_while_paused_stalls_controller Command.builtin
                [CallTakeOff None Command.no_options; CallResume;
                 CallUpdate 2 0.016; CallUpdate 3 0.016]
                (fst s0) (snd s0) Hrun) as (Hst & _).
  split; [exact Hst |]. split; reflexivity.
Defined.

(** ** Pause and resume *)

Lemma calls_app (M : Command.Methods) (ks ks' : list Call)
    (s : DroneControl.t * Runtime) :
  calls M (ks ++ ks') s = calls M ks' (calls M ks s).
Proof. unfold calls. apply fold_left_app. Qed.

Lemma pause_running (ctl : DroneControl.t) (rt : Runtime) :
  DroneControl.state ctl = RUNNING ->
  DroneControl.pause ctl rt
  = (DroneControl.hoverInPlace
       (DroneControl.with_state PAUSED (DroneControl.with_paused true ctl)),
     notify (StateChange PAUSED RUNNING) rt).
Proof.
  intros Hs. unfold DroneControl.pause, DroneControl._setState.
  cbn [DroneControl.state DroneControl.with_paused]. rewrite Hs. reflexivity.
Qed.

Lemma resume_paused (ctl : DroneControl.t) (rt : Runtime) :
  DroneControl.state ctl = PAUSED ->
  DroneControl.resume ctl rt
  = (DroneControl.with_state RUNNING (DroneControl.with_paused false ctl),
     notify (StateChange RUNNING PAUSED) rt).
Proof.
  intros Hs. unfold DroneControl.resume, DroneControl._setState.
  cbn [DroneControl.state DroneControl.with_paused]. rewrite Hs. reflexivity.
Qed.

Lemma ticks_while_paused (M : Command.Methods) (ts : list (R * R))
    (s : DroneControl.t * Runtime) :
  DroneControl.paused (fst s) = true -> calls M (ticks ts) s = s.
Proof.
  revert s. induction ts as [| t ts IH]; intros s Hp; [reflexivity |].
  destruct s as [ctl rt]. cbn [fst] in Hp.
  change (calls M (ticks (t :: ts)) (ctl, rt))
    with (calls M (ticks ts)
            (fst (DroneControl.update M (fst t) (snd t) ctl rt))).
  rewrite (stalled_update M _ _ ctl rt Hp). apply IH. exact Hp.
Qed.

Lemma pause_ticks_resume :
  forall (M : Command.Methods) (ts : list (R * R)) (ctl : DroneControl.t)
         (rt : Runtime),
    DroneControl.state ctl = RUNNING ->
    DroneControl.paused ctl = false ->
    calls M (CallPause :: ticks ts ++ [CallResume])%list (ctl, rt)
    = (DroneControl.hoverInPlace ctl,
       {| promises := promises rt;
          nextPromise := nextPromise rt;
          log := log rt ++ [StateChange PAUSED RUNNING;
                            StateChange RUNNING PAUSED] |}).
Proof.
  intros M ts ctl rt Hs Hp.
  change (calls M (CallPause :: ticks ts ++ [CallResume])%list (ctl, rt))
    with (calls M (ticks ts ++ [CallResume])%list (DroneControl.pause ctl rt)).
  rewrite calls_app, (pause_running ctl rt Hs).
  rewrite ticks_while_paused.
  - cbn [calls fold_left call]. rewrite resume_paused.
    + f_equal.
      * destruct ctl as [mv st cur q pa]. cbn in Hs, Hp. subst st pa.
        unfold DroneControl.hoverInPlace. cbn.
        destruct (Movement.model mv); reflexivity.
      * unfold notify. cbn. rewrite <- app_assoc. reflexivity.
    + destruct (hoverInPlace_rest
                  (DroneControl.with_state PAUSED
                     (DroneControl.with_paused true ctl))) as (H1 & _).
      rewrite H1. reflexivity.
  - cbn [fst].
    destruct (hoverInPlace_rest
                (DroneControl.with_state PAUSED
                   (DroneControl.with_paused true ctl))) as (_ & _ & _ & H4).
    rewrite H4. reflexivity.
Qed.

(** X8. Pausing is transparent to the commands. On a running controller,
    [pause()], any number of ticks and [resume()] leave the current command,
    the queue, the state and every outcome as they were: the ticks in between
    do nothing, the vehicle is told to hover where it is (when its model is
    loaded), and the observer sees the two state changes. *)
Theorem pause_resume_round_trip :
  forall (M : Command.Methods) (ts : list (R * R)) (ctl : DroneControl.t)
         (rt : Runtime),
    DroneControl.state ctl = RUNNING ->
    DroneControl.paused ctl = false ->
    calls M (CallPause :: ticks ts ++ [CallResume])%list (ctl, rt)
    = (DroneControl.hoverInPlace ctl,
       {| promises := promises rt;
          nextPromise := nextPromise rt;
          log := log rt ++ [StateChange PAUSED RUNNING;
                            StateChange RUNNING PAUSED] |}).
Proof. exact pause_ticks_resume. Qed.

(** The take-off in progress, paused through two frames. *)
Lemma pause_resume_round_trip_witness :
  calls Command.builtin
    (CallPause :: ticks [(2, 0.016); (3, 0.016)] ++ [CallResume])%list
    (busy_controller, busy_runtime)
  = (DroneControl.hoverInPlace busy_controller,
     {| promises := promises busy_runtime;
        nextPromise := nextPromise busy_runtime;
        log := log busy_runtime ++ [StateChange PAUSED RUNNING;
                                    StateChange RUNNING PAUSED] |}).
Proof.
  apply (pause_resume_round_trip Command.builtin [(2, 0.016); (3, 0.016)]
           busy_controller busy_runtime); reflexivity.
Defined.

(** ** The timeout clock and pauses *)

(** What [update] does to the outcome of a command that has timed out. *)
Lemma update_times_out (now delta t : R) (ds : DroneState.t) (c : Command.t)
    (ps : Promises) :
  Command.startTime c = Some t -> t <> 0 -> now - t > Command.timeoutMs c ->
  Command.completed c = false ->
  ps !! Command.promise c = None ->
  (forall a : R, Command.variant c <> Command.RotateYaw a) ->
  let r := Command.update now delta ds c ps in
  snd (fst r) !! Command.promise c = Some (Rejected Command.timeout_error)
  /\ Command.completed (fst (fst r)) = true
  /\ Command.error (fst (fst r)) = Some Command.timeout_error
  /\ Command.promise (fst (fst r)) = Command.promise c.
Proof.
  intros Hs Ht Hgt Hc Hp Hrot r.
  pose proof (update_base_times_out now t ds c ps Hs Ht Hgt Hc) as Hb.
  pose proof (settle_pending _ (Rejected Command.timeout_error) ps Hp) as Hset.
  unfold r, Command.update.
  destruct (Command.variant c) as
    [| ta | ta tol sf la | ga tol sf | tg mx mn ptol atol sd sf | a] eqn:Hv;
    try rewrite Hb.
  - cbn. auto.
  - cbn. auto.
  - destruct (Rltb (Rabs (Position.y (DroneState.position ds) - ta)) tol);
      [destruct (2 <=? S sf)%nat; [rewrite complete_settled by reflexivity |] |];
      cbn; auto.
  - destruct (Rltb (Rabs (Position.y (DroneState.position ds) - ga)) tol);
      [destruct (2 <=? S sf)%nat; [rewrite complete_settled by reflexivity |] |];
      cbn; auto.
  - match goal with
    | |- context [if ?b then _ else _] => destruct b
    end.
    + rewrite complete_settled by reflexivity. cbn. auto.
    + cbn. auto.
  - exfalso. apply (Hrot a). reflexivity.
Qed.

(** Starting a command of commands.js never throws, and only adds to the
    observer's log. *)
Lemma startNext_builtin_never_throws (now : R) (ctl : DroneControl.t)
    (rt : Runtime) :
  snd (DroneControl._startNextCommand Command.builtin now ctl rt) = None.
Proof.
  unfold DroneControl._startNextCommand.
  destruct (DroneControl.commandQueue ctl) as [| c rest]; [reflexivity |].
  destruct (DroneControl._setState _ _ _) as [ctl1 rt1].
  cbn [Command.builtin Command.m_start].
  destruct (Command.start now (DroneControl.getState ctl1) c (promises rt1))
    as [c' ps']. reflexivity.
Qed.

Lemma setState_log (st : ControllerState) (ctl : DroneControl.t) (rt : Runtime) :
  exists more : list Notification,
    log (snd (DroneControl._setState st ctl rt)) = (log rt ++ more)%list.
Proof.
  unfold DroneControl._setState.
  destruct (state_eqb (DroneControl.state ctl) st).
  - exists []. cbn. rewrite app_nil_r. reflexivity.
  - eexists. reflexivity.
Qed.

Lemma startNext_builtin_log (now : R) (ctl : DroneControl.t) (rt : Runtime) :
  exists more : list Notification,
    log (snd (fst (DroneControl._startNextCommand Command.builtin now ctl rt)))
    = (log rt ++ more)%list.
Proof.
  unfold DroneControl._startNextCommand.
  destruct (DroneControl.commandQueue ctl) as [| c rest].
  - exists []. cbn. rewrite app_nil_r. reflexivity.
  - match goal with
    | |- context [DroneControl._setState ?s ?c0 ?r] =>
        destruct (setState_log s c0 r) as (more & Hl);
        destruct (DroneControl._setState s c0 r) as [ctl1 rt1]
    end.
    cbn [snd] in Hl. cbn [Command.builtin Command.m_start].
    destruct (Command.start now (DroneControl.getState ctl1) c (promises rt1))
      as [c' ps'].
    exists (more ++ [CommandStart c'])%list. cbn. rewrite Hl, app_assoc.
    reflexivity.
Qed.

(** The tick that finds the current command timed out. *)
Lemma update_builtin_times_out (now delta t : R) (ctl : DroneControl.t)
    (rt : Runtime) (c : Command.t) :
  DroneControl.paused ctl = false ->
  Movement.model (DroneControl.movement ctl) <> None ->
  DroneControl.currentCommand ctl = Some c ->
  Command.startTime c = Some t -> t <> 0 -> now - t > Command.timeoutMs c ->
  Command.completed c = false ->
  promises rt !! Command.promise c = None ->
  (forall a : R, Command.variant c <> Command.RotateYaw a) ->
  let r := DroneControl.update Command.builtin now delta ctl rt in
  promises (snd (fst r)) !! Command.promise c
  = Some (Rejected Command.timeout_error)
  /\ snd r = inl true
  /\ exists c' : Command.t,
       Command.promise c' = Command.promise c
       /\ In (CommandError c' Command.timeout_error) (log (snd (fst r))).
Proof.
  intros Hp Hm Hcur Hs Ht Hgt Hc Hpend Hrot r.
  unfold r, DroneControl.update. rewrite Hp, Hcur.
  destruct (Movement.model (DroneControl.movement ctl)) as [pos |] eqn:Em;
    [| contradiction].
  cbn [orb andb]. rewrite Hcur.
  unfold DroneControl.tryUpdate. cbn [Command.m_update Command.builtin].
  destruct (update_times_out now delta t (DroneControl.getState ctl) c
              (promises rt) Hs Ht Hgt Hc Hpend Hrot) as (U1 & U2 & U3 & U4).
  destruct (Command.update now delta (DroneControl.getState ctl) c (promises rt))
    as [[c' ps'] instr].
  cbn [fst snd] in U1, U2, U3, U4. rewrite U2, U3.
  cbn [DroneControl.commandQueue DroneControl.with_currentCommand
       DroneControl.with_movement].
  destruct (0 <? length (DroneControl.commandQueue ctl))%nat.
  - match goal with
    | |- context [DroneControl._startNextCommand ?M0 ?n ?c0 ?r0] =>
        pose proof (startNext_builtin_subseteq n c0 r0) as Hsub;
        pose proof (startNext_builtin_log n c0 r0) as (more & Hlog);
        destruct (DroneControl._startNextCommand M0 n c0 r0)
          as [[ctl2 rt2] thrown] eqn:Esn
    end.
    assert (Hth : thrown = None).
    { pose proof (startNext_builtin_never_throws now
                    (DroneControl.with_currentCommand None
                       (DroneControl.with_movement
                          (Movement.setMovementCommand instr
                             (DroneControl.movement
                                (DroneControl.with_currentCommand (Some c') ctl)))
                          (DroneControl.with_currentCommand (Some c') ctl)))
                    (notify (CommandError c' Command.timeout_error)
                       (with_promises ps' rt))) as Hn.
      rewrite Esn in Hn. exact Hn. }
    subst thrown. cbn [fst snd] in *.
    split; [| split; [reflexivity |]].
    + apply (lookup_weaken ps'); [exact U1 | exact Hsub].
    + exists c'. split; [exact U4 |]. rewrite Hlog.
      apply in_or_app. left. cbn. apply in_or_app. right. left. reflexivity.
  - cbn [fst snd]. split; [exact U1 |]. split; [reflexivity |].
    exists c'. split; [exact U4 |]. cbn.
    apply in_or_app. right. left. reflexivity.
Qed.

Lemma hoverInPlace_model (ctl : DroneControl.t) :
  Movement.model (DroneControl.movement (DroneControl.hoverInPlace ctl))
  = Movement.model (DroneControl.movement ctl).
Proof.
  unfold DroneControl.hoverInPlace.
  destruct (Movement.model (DroneControl.movement ctl)) eqn:E; cbn; congruence.
Qed.

(** X9. A pause does not stop the clock of the current command. A command
    checks its timeout against the clock reading of its start, and neither
    [pause()] nor [resume()] touches that reading: if the pause lasts until
    the command's time is up, the first tick after [resume()] rejects its
    outcome with "Command timeout" and reports the error to the observer. *)
Theorem pause_does_not_stop_the_timeout_clock :
  forall (ts : list (R * R)) (now delta t : R) (ctl : DroneControl.t)
         (rt : Runtime) (c : Command.t),
    DroneControl.state ctl = RUNNING ->
    DroneControl.paused ctl = false ->
    Movement.model (DroneControl.movement ctl) <> None ->
    DroneControl.currentCommand ctl = Some c ->
    Command.startTime c = Some t ->
    t <> 0 ->
    Command.completed c = false ->
    promises rt !! Command.promise c = None ->
    (forall a : R, Command.variant c <> Command.RotateYaw a) ->
    now - t > Command.timeoutMs c ->
    let s := calls Command.builtin
               (CallPause :: ticks ts ++ [CallResume; CallUpdate now delta])%list
               (ctl, rt) in
    promises (snd s) !! Command.promise c
    = Some (Rejected Command.timeout_error)
    /\ exists c' : Command.t,
         Command.promise c' = Command.promise c
         /\ In (CommandError c' Command.timeout_error) (log (snd s)).
Proof.
  intros ts now delta t ctl rt c Hs Hp Hm Hcur Hst Ht Hc Hpend Hrot Hgt s.
  assert (Es : s = fst (DroneControl.update Command.builtin now delta
                          (DroneControl.hoverInPlace ctl)
                          {| promises := promises rt;
                             nextPromise := nextPromise rt;
                             log := log rt ++ [StateChange PAUSED RUNNING;
                                               StateChange RUNNING PAUSED] |})).
  { unfold s.
    change (CallPause :: ticks ts ++ [CallResume; CallUpdate now delta])%list
      with (CallPause :: ticks ts ++ [CallResume] ++ [CallUpdate now delta])%list.
    rewrite app_assoc.
    change (CallPause :: (ticks ts ++ [CallResume]) ++ [CallUpdate now delta])%list
      with ((CallPause :: ticks ts ++ [CallResume]) ++ [CallUpdate now delta])%list.
    rewrite calls_app, (pause_ticks_resume Command.builtin ts ctl rt Hs Hp).
    reflexivity. }
  destruct (hoverInPlace_rest ctl) as (_ & H2 & _ & H4).
  destruct (update_builtin_times_out now delta t
              (DroneControl.hoverInPlace ctl)
              {| promises := promises rt;
                 nextPromise := nextPromise rt;
                 log := log rt ++ [StateChange PAUSED RUNNING;
                                   StateChange RUNNING PAUSED] |} c)
    as (U1 & _ & U3); try assumption.
  - rewrite H4. exact Hp.
  - rewrite hoverInPlace_model. exact Hm.
  - rewrite H2. exact Hcur.
  - rewrite Es. split; [exact U1 | exact U3].
Qed.

(** The take-off started at 1 ms is paused; the controller is resumed after
    its 30 s are over. *)
Lemma pause_does_not_stop_the_timeout_clock_witness :
  let s := calls Command.builtin
             (CallPause :: ticks [(2, 0.016)]
                ++ [CallResume; CallUpdate 40000 0.016])%list
             (one_running climbing, empty_runtime) in
  promises (snd s) !! Command.promise climbing
  = Some (Rejected Command.timeout_error)
  /\ exists c' : Command.t,
       Command.promise c' = Command.promise climbing
       /\ In (CommandError c' Command.timeout_error) (log (snd s)).
Proof.
  apply (pause_does_not_stop_the_timeout_clock [(2, 0.016)] 40000 0.016 1
           (one_running climbing) empty_runtime climbing);
    try reflexivity.
  - discriminate.
  - lra.
  - intros a H. discriminate H.
  - cbn. unfold Command.DEFAULT_CONFIG.timeoutMs. lra.
Defined.

(** ** Hover, from the call to the outcome *)

(** The tick that finds a new Hover command alone in the queue. *)
Lemma update_starts_hover (now delta : R) (ctl : DroneControl.t) (rt : Runtime)
    (p : nat) (pos : Position.t) :
  DroneControl.paused ctl = false ->
  Movement.model (DroneControl.movement ctl) = Some pos ->
  DroneControl.currentCommand ctl = None ->
  DroneControl.commandQueue ctl
  = [Command.new_HoverCommand Command.no_options p] ->
  promises rt !! p = None ->
  let r := DroneControl.update Command.builtin now delta ctl rt in
  snd r = inl true
  /\ promises (snd (fst r))
     = <[p := Resolved
               (RHover {| Position.x := Position.x pos;
                          Position.y := Position.y pos;
                          Position.z := Position.z pos |})]> (promises rt)
  /\ DroneControl.currentCommand (fst (fst r)) = None
  /\ DroneControl.commandQueue (fst (fst r)) = []
  /\ DroneControl.state (fst (fst r)) = RUNNING
  /\ Movement.command (DroneControl.movement (fst (fst r)))
     = Some (hover_at (Some (Position.y pos))).
Proof.
  intros Hp Hm Hc Hq Hpend r. unfold r, DroneControl.update.
  rewrite Hp, Hm, Hc, Hq. cbn [orb andb length Nat.ltb Nat.leb].
  unfold DroneControl._startNextCommand. rewrite Hq.
  match goal with
  | |- context [DroneControl._setState ?s ?c0 ?r0] =>
      pose proof (setState_state s c0 r0) as Hs;
      pose proof (setState_rest s c0 r0) as (Hc1 & Hq1 & Hp1 & Hm1);
      pose proof (setState_promises s c0 r0) as (Hps & _);
      destruct (DroneControl._setState s c0 r0) as [ctl1 rt1]
  end.
  cbn [fst snd DroneControl.with_commandQueue DroneControl.with_currentCommand
       DroneControl.currentCommand DroneControl.commandQueue
       DroneControl.paused DroneControl.movement] in Hs, Hc1, Hq1, Hp1, Hm1, Hps.
  assert (Hpos : DroneState.position (DroneControl.getState ctl1)
                 = {| Position.x := Position.x pos;
                      Position.y := Position.y pos;
                      Position.z := Position.z pos |}).
  { unfold DroneControl.getState. cbn [DroneState.position].
    rewrite Hm1, Hm. reflexivity. }
  cbn [Command.builtin Command.m_start Command.m_update].
  unfold Command.start, Command.complete.
  cbn [Command.variant Command.start_base Command.with_startTime
       Command.new_HoverCommand Command.new_base Command.with_variant
       Command.completed DroneState.position Command.promise
       Command.startTime Command.timeoutMs Command.error].
  cbn [DroneControl.currentCommand DroneControl.with_currentCommand].
  unfold DroneControl.tryUpdate.
  cbn [Command.builtin Command.m_update].
  unfold Command.update, Command.update_base, Command.check_timeout,
    Command.fail.
  cbn [Command.variant Command.completed].
  match goal with
  | |- context [if Command.timed_out ?n ?c0 then _ else _] =>
      destruct (Command.timed_out n c0)
  end;
    cbn [fst snd Command.completed Command.error
         DroneControl.commandQueue DroneControl.with_currentCommand
         DroneControl.with_movement DroneControl.currentCommand
         DroneControl.state DroneControl.movement];
    rewrite Hq1;
    cbn [fst snd length Nat.ltb Nat.leb
         DroneControl.commandQueue DroneControl.with_currentCommand
         DroneControl.with_movement DroneControl.currentCommand
         DroneControl.state DroneControl.movement
         Movement.command Movement.setMovementCommand
         promises with_promises notify];
    rewrite Hpos, Hps; cbn [Position.y];
    (split; [reflexivity |]);
    (split; [unfold settle; rewrite Hpend; reflexivity |]);
    auto.
Qed.

(** [cancel] settles no promise but those of the commands in flight. *)
Lemma cancel_command_other (c : Command.t) (ps : Promises) (p : nat) :
  Command.promise c <> p -> snd (Command.cancel c ps) !! p = ps !! p.
Proof.
  intros Hne. unfold Command.cancel, Command.fail.
  destruct (Command.completed c); [reflexivity |].
  cbn [snd]. apply settle_other. congruence.
Qed.

Lemma cancelQueue_other (q : list Command.t) (ps : Promises) (p : nat) :
  (forall c : Command.t, In c q -> Command.promise c <> p) ->
  DroneControl.cancelQueue q ps !! p = ps !! p.
Proof.
  revert ps. induction q as [| c q IH]; intros ps H; [reflexivity |].
  cbn [DroneControl.cancelQueue]. rewrite IH.
  - apply cancel_command_other, H. left. reflexivity.
  - intros c' Hin. apply H. right. exact Hin.
Qed.

Lemma cancel_other (ctl : DroneControl.t) (rt : Runtime) (p : nat) :
  (forall c : Command.t, in_flight ctl c -> Command.promise c <> p) ->
  promises (snd (DroneControl.cancel ctl rt)) !! p = promises rt !! p.
Proof.
  intros H. rewrite cancel_promises, cancelQueue_other.
  - destruct (DroneControl.currentCommand ctl) as [c |] eqn:Ec; [| reflexivity].
    apply cancel_command_other, H. left. exact Ec.
  - intros c Hin. apply H. right. exact Hin.
Qed.

(** X10. [hover()] is carried out by the next tick. On a controller that is
    not paused, with the vehicle's model loaded, [hover()] rejects every
    unsettled command in flight with "Command cancelled", and the tick that
    follows starts the Hover command, which resolves in [start] with the
    vehicle's position, sends the vehicle the hover instruction at its
    current altitude, and leaves the controller with nothing current and
    nothing queued. *)
Theorem hover_is_carried_out_by_the_next_tick :
  forall (now delta : R) (ctl : DroneControl.t) (rt : Runtime)
         (pos : Position.t),
    DroneControl.paused ctl = false ->
    Movement.model (DroneControl.movement ctl) = Some pos ->
    fresh_handle ctl rt ->
    let h := DroneControl.hover ctl rt in
    let r := DroneControl.update Command.builtin now delta
               (fst (fst h)) (snd (fst h)) in
    snd h = nextPromise rt
    /\ snd r = inl true
    /\ promises (snd (fst r)) !! snd h
       = Some (Resolved
                 (RHover {| Position.x := Position.x pos;
                            Position.y := Position.y pos;
                            Position.z := Position.z pos |}))
    /\ (forall c : Command.t,
           in_flight ctl c ->
           Command.completed c = false ->
           promises rt !! Command.promise c = None ->
           promises (snd (fst r)) !! Command.promise c
           = Some (Rejected Command.cancelled_error))
    /\ DroneControl.currentCommand (fst (fst r)) = None
    /\ DroneControl.commandQueue (fst (fst r)) = []
    /\ Movement.command (DroneControl.movement (fst (fst r)))
       = Some (hover_at (Some (Position.y pos))).
Proof.
  intros now delta ctl rt pos Hp Hm (Hfresh & Hother) h r.
  unfold h, DroneControl.hover, new_promise, DroneControl.executeImmediate in r.
  unfold h, DroneControl.hover, new_promise, DroneControl.executeImmediate.
  set (rt0 := {| promises := promises rt; nextPromise := S (nextPromise rt);
                 log := log rt |}) in *.
  destruct (cancel_controller ctl rt0) as (_ & Hc1 & Hq1 & Hp1).
  pose proof (cancel_movement ctl rt0) as Hm1. rewrite Hm in Hm1.
  pose proof (cancel_other ctl rt0 (nextPromise rt) Hother) as Hpend.
  assert (Hrej : forall c : Command.t,
             in_flight ctl c -> Command.completed c = false ->
             promises rt !! Command.promise c = None ->
             promises (snd (DroneControl.cancel ctl rt0)) !! Command.promise c
             = Some (Rejected Command.cancelled_error)).
  { intros c Hin Hc Hn. apply cancel_rejects_pending; assumption. }
  destruct (DroneControl.cancel ctl rt0) as [ctl1 rt1].
  cbn [fst snd DroneControl.enqueue] in *.
  destruct (update_starts_hover now delta
              (DroneControl.with_commandQueue
                 (DroneControl.commandQueue ctl1
                  ++ [Command.new_HoverCommand Command.no_options
                        (nextPromise rt)]) ctl1)
              rt1 (nextPromise rt) pos)
    as (U1 & U2 & U3 & U4 & _ & U6).
  - cbn. congruence.
  - cbn. rewrite Hm1. cbn. exact Hm.
  - cbn. exact Hc1.
  - cbn. rewrite Hq1. reflexivity.
  - rewrite Hpend. exact Hfresh.
  - fold r in U1, U2, U3, U4, U6.
    split; [reflexivity |]. split; [exact U1 |].
    split; [rewrite U2; apply lookup_insert_eq |].
    split; [| auto].
    intros c Hin Hc Hn. rewrite U2.
    rewrite lookup_insert_ne.
    + apply Hrej; assumption.
    + intros E. apply (Hother c Hin). symmetry. exact E.
Qed.

(** [hover()] while a take-off is climbing and a move is queued. *)
Lemma hover_is_carried_out_by_the_next_tick_witness :
  let h := DroneControl.hover busy_controller busy_runtime in
  let r := DroneControl.update Command.builtin 2 0.016
             (fst (fst h)) (snd (fst h)) in
  promises (snd (fst r)) !! 2%nat
  = Some (Resolved
            (RHover {| Position.x := 0; Position.y := 0.05; Position.z := 0 |}))
  /\ promises (snd (fst r)) !! 0%nat = Some (Rejected Command.cancelled_error)
  /\ promises (snd (fst r)) !! 1%nat = Some (Rejected Command.cancelled_error)
  /\ DroneControl.currentCommand (fst (fst r)) = None.
Proof.
  intros h r.
  assert (Hf : fresh_handle busy_controller busy_runtime).
  { split; [reflexivity |].
    intros c [Hc | [Hc | []]].
    - injection Hc as <-. discriminate.
    - subst c. discriminate. }
  destruct (hover_is_carried_out_by_the_next_tick 2 0.016 busy_controller
              busy_runtime
              {| Position.x := 0; Position.y := 0.05; Position.z := 0 |}
              eq_refl eq_refl Hf)
    as (_ & _ & H3 & H4 & H5 & _).
  split; [exact H3 |].
  split; [| split; [| exact H5]].
  - apply (H4 climbing); [left; reflexivity | reflexivity | reflexivity].
  - apply (H4 (Command.new_MoveToCommand (Some 0.5) None (Some 0.5)
                 Command.no_options 1%nat));
      [right; left; reflexivity | reflexivity | reflexivity].
Defined.

(** ** RotateYaw *)

(** The tick that finds a new RotateYaw command alone in the queue. *)
Lemma update_starts_rotateYaw (now delta angle : R) (options : Command.Options)
    (ctl : DroneControl.t) (rt : Runtime) (p : nat) (pos : Position.t) :
  DroneControl.paused ctl = false ->
  Movement.model (DroneControl.movement ctl) = Some pos ->
  DroneControl.currentCommand ctl = None ->
  DroneControl.commandQueue ctl
  = [Command.new_RotateYawCommand angle options p] ->
  promises rt !! p = None ->
  let r := DroneControl.update Command.builtin now delta ctl rt in
  snd r = inl true
  /\ promises (snd (fst r)) !! p = Some (Resolved (RRotateYaw angle))
  /\ Movement.command (DroneControl.movement (fst (fst r)))
     = Some (hover_at (Some (Position.y pos)))
  /\ Movement.currentAngle (DroneControl.movement (fst (fst r)))
     = Movement.currentAngle (DroneControl.movement ctl)
  /\ DroneControl.currentCommand (fst (fst r)) = None
  /\ DroneControl.commandQueue (fst (fst r)) = [].
Proof.
  intros Hp Hm Hc Hq Hpend r. unfold r, DroneControl.update.
  rewrite Hp, Hm, Hc, Hq. cbn [orb andb length Nat.ltb Nat.leb].
  unfold DroneControl._startNextCommand. rewrite Hq.
  match goal with
  | |- context [DroneControl._setState ?s ?c0 ?r0] =>
      pose proof (setState_rest s c0 r0) as (Hc1 & Hq1 & Hp1 & Hm1);
      pose proof (setState_promises s c0 r0) as (Hps & _);
      destruct (DroneControl._setState s c0 r0) as [ctl1 rt1]
  end.
  cbn [fst snd DroneControl.with_commandQueue DroneControl.with_currentCommand
       DroneControl.currentCommand DroneControl.commandQueue
       DroneControl.paused DroneControl.movement] in Hc1, Hq1, Hp1, Hm1, Hps.
  cbn [Command.builtin Command.m_start Command.m_update].
  unfold Command.start, Command.complete.
  cbn [Command.variant Command.start_base Command.with_startTime
       Command.new_RotateYawCommand Command.new_base Command.completed
       Command.promise].
  cbn [DroneControl.currentCommand DroneControl.with_currentCommand].
  unfold DroneControl.tryUpdate.
  cbn [Command.builtin Command.m_update].
  unfold Command.update.
  cbn [Command.variant Command.completed Command.error fst snd
       DroneControl.commandQueue DroneControl.with_currentCommand
       DroneControl.with_movement DroneControl.currentCommand
       DroneControl.state DroneControl.movement].
  rewrite Hq1.
  cbn [fst snd length Nat.ltb Nat.leb
       DroneControl.commandQueue DroneControl.with_currentCommand
       DroneControl.with_movement DroneControl.currentCommand
       DroneControl.state DroneControl.movement
       Movement.command Movement.currentAngle Movement.setMovementCommand
       promises with_promises notify].
  cbn. rewrite Hps, Hm1, Hm. cbn.
  split; [reflexivity |].
  split; [unfold settle; rewrite Hpend; apply lookup_insert_eq |].
  auto.
Qed.

(** X11. [rotateYaw] asks the vehicle for no rotation. On an idle controller
    that is not paused, with the vehicle's model loaded, the tick after
    [rotateYaw(angle)] starts the command, which resolves at once with the
    requested angle; the only instruction the vehicle gets is the hover at
    its current altitude, with angle 0 whatever the requested angle, and its
    heading is left as it was. *)
Theorem rotateYaw_asks_for_no_rotation :
  forall (now delta angle : R) (options : Command.Options)
         (ctl : DroneControl.t) (rt : Runtime) (pos : Position.t),
    DroneControl.paused ctl = false ->
    Movement.model (DroneControl.movement ctl) = Some pos ->
    DroneControl.currentCommand ctl = None ->
    DroneControl.commandQueue ctl = [] ->
    promises rt !! nextPromise rt = None ->
    let h := DroneControl.rotateYaw angle options ctl rt in
    let r := DroneControl.update Command.builtin now delta
               (fst (fst h)) (snd (fst h)) in
    snd r = inl true
    /\ promises (snd (fst r)) !! snd h = Some (Resolved (RRotateYaw angle))
    /\ Movement.command (DroneControl.movement (fst (fst r)))
       = Some (hover_at (Some (Position.y pos)))
    /\ Movement.currentAngle (DroneControl.movement (fst (fst r)))
       = Movement.currentAngle (DroneControl.movement ctl)
    /\ DroneControl.currentCommand (fst (fst r)) = None
    /\ DroneControl.commandQueue (fst (fst r)) = [].
Proof.
  intros now delta angle options ctl rt pos Hp Hm Hc Hq Hpend h r.
  apply (update_starts_rotateYaw now delta angle options
           (fst (fst h)) (snd (fst h)) (nextPromise rt) pos).
  - exact Hp.
  - exact Hm.
  - exact Hc.
  - unfold h, DroneControl.rotateYaw, new_promise, DroneControl.enqueue.
    cbn. rewrite Hq. reflexivity.
  - exact Hpend.
Qed.

(** A quarter turn is requested of a vehicle on the ground. *)
Lemma rotateYaw_asks_for_no_rotation_witness :
  let h := DroneControl.rotateYaw (PI / 2) Command.no_options
             (DroneControl.new loaded_vehicle) empty_runtime in
  let r := DroneControl.update Command.builtin 1 0.016
             (fst (fst h)) (snd (fst h)) in
  promises (snd (fst r)) !! 0%nat = Some (Resolved (RRotateYaw (PI / 2)))
  /\ Movement.command (DroneControl.movement (fst (fst r)))
     = Some (hover_at (Some 0.05))
  /\ Movement.currentAngle (DroneControl.movement (fst (fst r))) = Some 0.
Proof.
  intros h r.
  destruct (rotateYaw_asks_for_no_rotation 1 0.016 (PI / 2) Command.no_options
              (DroneControl.new loaded_vehicle) empty_runtime
              {| Position.x := 0; Position.y := 0.05; Position.z := 0 |}
              eq_refl eq_refl eq_refl eq_refl eq_refl)
    as (_ & H2 & H3 & H4 & _).
  split; [exact H2 | split; [exact H3 | exact H4]].
Defined.

(** * Further properties of the missions *)

(** ** The fields of a mission hang together *)

Lemma executeWaypoint_awaited (i : nat) (waypoint : Waypoint.t)
    (ctl : DroneControl.t) (rt : Runtime) :
  awaited (snd (Mission._executeWaypoint i waypoint ctl rt)) = Some i.
Proof.
  unfold Mission._executeWaypoint.
  repeat match goal with
         | |- context [if ?b then _ else _] => destruct b
         end;
    repeat match goal with
           | |- context [let '(_, _) := ?x in _] => destruct x as [[? ?] ?]
           end;
    reflexivity.
Qed.

Lemma seq_snoc (i : nat) : seq 0 (S i) = (seq 0 i ++ [i])%list.
Proof. rewrite seq_S. reflexivity. Qed.

Lemma iterate_consistent (now : R) (i : nat) (w : Mission.World) :
  loop_head i (Mission.mission w) ->
  consistent (Mission.mission (Mission.iterate now i w)).
Proof.
  intros (Hst & Hpr & Hres & Hdis & Hle & Hci).
  assert (Hlr : length (Mission.results (Mission.mission w)) = i).
  { rewrite <- (length_map Mission.index), Hres. apply length_seq. }
  assert (Hld : length (dispatched (Mission.mission w)) = i).
  { rewrite Hdis. apply length_seq. }
  unfold Mission.iterate.
  destruct (Mission.waypoints (Mission.mission w) !! i) as [waypoint |] eqn:Ew.
  - apply lookup_lt_Some in Ew.
    destruct (Mission.cancelled (Mission.mission w)).
    { unfold consistent, Mission.settleMission, dispatched.
      cbn [Mission.promise Mission.with_state Mission.mission
           Mission.with_mission Mission.with_continuation].
      rewrite Hpr.
      cbn [Mission.promise Mission.with_state Mission.mission
           Mission.with_mission Mission.with_continuation Mission.results
           Mission.trace Mission.state Mission.waypoints Mission.currentIndex
           Mission.continuation awaited].
      fold (dispatched (Mission.mission w)).
      rewrite Hlr, Hld. repeat split; auto with arith. }
    destruct (Rgtb _ _).
    { unfold consistent, Mission.settleMission, dispatched.
      cbn [Mission.promise Mission.with_state Mission.mission
           Mission.with_mission Mission.with_continuation].
      rewrite Hpr.
      cbn [Mission.promise Mission.with_state Mission.mission
           Mission.with_mission Mission.with_continuation Mission.results
           Mission.trace Mission.state Mission.waypoints Mission.currentIndex
           Mission.continuation awaited].
      fold (dispatched (Mission.mission w)).
      rewrite Hlr, Hld. repeat split; auto with arith.
      exists Mission.timeout_error. reflexivity. }
    pose proof (executeWaypoint_awaited i waypoint (Mission.controller w)
                  (Mission.runtime w)) as Hk.
    destruct (Mission._executeWaypoint i waypoint (Mission.controller w)
                (Mission.runtime w)) as [[ctl rt] k].
    cbn [snd] in Hk. cbn [Mission.mission].
    match goal with |- consistent ?m0 => set (m' := m0) end.
    assert (Hd : dispatched m' = seq 0 (S i)).
    { unfold m'.
      change (dispatched (Mission.with_continuation k ?m))
        with (dispatched m).
      rewrite !dispatched_app.
      change (dispatched (Mission.with_currentIndex i (Mission.mission w)))
        with (dispatched (Mission.mission w)).
      rewrite Hdis, app_nil_r, seq_snoc. reflexivity. }
    assert (Hr' : Mission.results m' = Mission.results (Mission.mission w))
      by reflexivity.
    assert (Hs' : Mission.state m' = Mission.state (Mission.mission w))
      by reflexivity.
    assert (Hp' : Mission.promise m' = Mission.promise (Mission.mission w))
      by reflexivity.
    assert (Hw' : Mission.waypoints m' = Mission.waypoints (Mission.mission w))
      by reflexivity.
    assert (Hc' : Mission.currentIndex m' = i) by reflexivity.
    assert (Hk' : Mission.continuation m' = k) by reflexivity.
    clearbody m'. unfold consistent.
    rewrite Hd, length_seq, Hr', Hs', Hp', Hw', Hc', Hk', Hlr, Hres, Hk, Hpr.
    split; [reflexivity |]. split; [reflexivity |].
    split; [lia |]. split; [reflexivity |].
    destruct Hst as [-> | ->]; auto.
  - apply lookup_ge_None in Ew.
    unfold consistent, Mission.settleMission, dispatched.
    cbn [Mission.promise Mission.with_state Mission.mission
         Mission.with_mission Mission.with_continuation].
    rewrite Hpr.
    cbn [Mission.promise Mission.with_state Mission.mission
         Mission.with_mission Mission.with_continuation Mission.results
         Mission.trace Mission.state Mission.waypoints Mission.currentIndex
         Mission.continuation awaited].
    fold (dispatched (Mission.mission w)).
    rewrite Hlr, Hld. repeat split; auto with arith; try lia.
    eexists. split; [reflexivity |]. repeat split.
Qed.

Lemma consistent_awaiting (m : Mission.t) (i : nat) :
  consistent m ->
  awaited (Mission.continuation m) = Some i ->
  (Mission.state m = Mission.RUNNING \/ Mission.state m = Mission.PAUSED)
  /\ Mission.promise m = None
  /\ map Mission.index (Mission.results m) = seq 0 i
  /\ dispatched m = seq 0 (S i)
  /\ (S i <= length (Mission.waypoints m))%nat
  /\ Mission.currentIndex m = i.
Proof.
  intros (Hres & Hdis & Hle & Hci & Hst) Hk.
  destruct (Mission.state m);
    try (destruct Hst as (Hn & _); congruence).
  - destruct Hst as (Ha & Hp & Hl).
    assert (i = length (Mission.results m)) by congruence. subst i.
    rewrite Hl in Hdis, Hle, Hci. auto 10.
  - destruct Hst as (Ha & Hp & Hl).
    assert (i = length (Mission.results m)) by congruence. subst i.
    rewrite Hl in Hdis, Hle, Hci. auto 10.
Qed.

Lemma waypointDone_consistent (now : R) (i : nat)
    (result : Mission.WaypointResult) (w : Mission.World) :
  consistent (Mission.mission w) ->
  awaited (Mission.continuation (Mission.mission w)) = Some i ->
  consistent (Mission.mission (Mission.waypointDone now i result w)).
Proof.
  intros Hc Hk.
  destruct (consistent_awaiting _ i Hc Hk) as (Hst & Hp & Hres & Hdis & Hle & Hci).
  unfold Mission.waypointDone. apply iterate_consistent.
  unfold loop_head. cbn [Mission.mission Mission.with_mission].
  change (dispatched (Mission.emit ?e (Mission.with_results ?r ?m)))
    with (dispatched (Mission.emit e m)).
  rewrite dispatched_app, app_nil_r.
  cbn [Mission.state Mission.emit Mission.with_results Mission.promise
       Mission.results Mission.waypoints Mission.currentIndex].
  rewrite map_app, Hres, seq_snoc. cbn [map Mission.index].
  rewrite <- seq_snoc. auto 10.
Qed.

Lemma waypointFailed_consistent (now : R) (i : nat) (e : Error)
    (w : Mission.World) :
  consistent (Mission.mission w) ->
  awaited (Mission.continuation (Mission.mission w)) = Some i ->
  consistent (Mission.mission (Mission.waypointFailed now i e w)).
Proof.
  intros Hc Hk.
  destruct (consistent_awaiting _ i Hc Hk) as (Hst & Hp & Hres & Hdis & Hle & Hci).
  assert (Hres' : map Mission.index
                    (Mission.results (Mission.mission w)
                     ++ [Mission.Failure i e]) = seq 0 (S i)).
  { rewrite map_app, Hres, seq_snoc. reflexivity. }
  assert (Hlr : length (Mission.results (Mission.mission w)
                        ++ [Mission.Failure i e]) = S i).
  { rewrite <- (length_map Mission.index), Hres'. apply length_seq. }
  destruct (Mission.continueOnError (Mission.mission w)) eqn:Ecoe.
  - rewrite (waypointFailed_continue now i e w Ecoe).
    apply iterate_consistent.
    unfold loop_head. cbn [Mission.mission Mission.with_mission].
    change (dispatched (Mission.emit ?e0 (Mission.with_results ?r ?m)))
      with (dispatched (Mission.emit e0 m)).
    rewrite dispatched_app, app_nil_r.
    cbn [Mission.state Mission.emit Mission.with_results Mission.promise
         Mission.results Mission.waypoints Mission.currentIndex].
    auto 10.
  - destruct (waypointFailed_abort now i e w Ecoe)
      as (Ar & As & Ak & Ad & _ & _ & Ap).
    assert (Aw : Mission.waypoints
                   (Mission.mission (Mission.waypointFailed now i e w))
                 = Mission.waypoints (Mission.mission w)
                 /\ Mission.currentIndex
                      (Mission.mission (Mission.waypointFailed now i e w))
                    = Mission.currentIndex (Mission.mission w)).
    { unfold Mission.waypointFailed, Mission.settleMission.
      cbn [Mission.continueOnError Mission.emit Mission.with_results
           Mission.promise Mission.with_state].
      rewrite Ecoe, Hp. split; reflexivity. }
    destruct Aw as [Aw Ac].
    cbv zeta in Ar, As, Ak, Ad, Ap.
    unfold consistent. rewrite Ar, As, Ak, Ad, Aw, Ac, (Ap Hp).
    rewrite Hlr, Hres', Hdis, length_seq.
    repeat split; auto. exists e. reflexivity.
Qed.

Lemma with_continuation_consistent (k : Mission.Continuation) (m : Mission.t) :
  awaited k = awaited (Mission.continuation m) ->
  consistent m -> consistent (Mission.with_continuation k m).
Proof.
  intros Hk Hc. unfold consistent in *.
  change (dispatched (Mission.with_continuation k m)) with (dispatched m).
  cbn [Mission.with_continuation Mission.results Mission.waypoints
       Mission.currentIndex Mission.state Mission.continuation
       Mission.promise].
  rewrite Hk. exact Hc.
Qed.

Lemma with_cancelled_consistent (b : bool) (m : Mission.t) :
  consistent m -> consistent (Mission.with_cancelled b m).
Proof. intros Hc. exact Hc. Qed.

Lemma new_consistent (waypoints : list Waypoint.t)
    (continueOnError : option bool) (timeoutMs : option R) :
  consistent (Mission.new waypoints continueOnError timeoutMs).
Proof.
  unfold consistent. cbn. repeat split; auto with arith.
Qed.

Lemma step_consistent (k : MissionStep) (w : Mission.World) :
  consistent (Mission.mission w) ->
  consistent (Mission.mission (missionStep k w)).
Proof.
  intros Hc. destruct k as [now | now | now | | | | ctl rt]; cbn [missionStep].
  - unfold Mission.run.
    destruct (Mission.state (Mission.mission w)) eqn:Es;
      cbn [Mission.state_eqb negb fst]; try exact Hc.
    apply iterate_consistent.
    destruct Hc as (Hres & Hdis & Hle & Hci & Hst). rewrite Es in Hst.
    destruct Hst as (_ & Hp & Hr & Hd).
    unfold loop_head. cbn [Mission.mission Mission.with_mission].
    match goal with
    | |- context [dispatched ?m0] =>
        change (dispatched m0) with (dispatched (Mission.mission w))
    end.
    cbn [Mission.state Mission.with_state Mission.promise Mission.results
         Mission.waypoints Mission.currentIndex].
    rewrite Hr, Hd, Hp. rewrite Hd in Hci. cbn in *.
    repeat split; auto with arith.
  - unfold Mission.resumeRun.
    destruct (Mission.continuation (Mission.mission w)) as [| i p | i p d | i d]
      eqn:Ek; try exact Hc.
    + destruct (promises (Mission.runtime w) !! p) as [[result | e] |];
        [apply waypointDone_consistent | apply waypointFailed_consistent |];
        try exact Hc; rewrite Ek; reflexivity.
    + destruct (promises (Mission.runtime w) !! p) as [[result | e] |];
        [| apply waypointFailed_consistent |];
        try exact Hc; try (rewrite Ek; reflexivity).
      cbn [Mission.mission Mission.with_mission].
      apply with_continuation_consistent; [rewrite Ek; reflexivity | exact Hc].
  - unfold Mission.delayElapsed.
    destruct (Mission.continuation (Mission.mission w)) as [| i p | i p d | i d]
      eqn:Ek; try exact Hc.
    apply waypointDone_consistent; [exact Hc | rewrite Ek; reflexivity].
  - unfold Mission.cancel.
    destruct (Mission.control (Mission.with_cancelled true (Mission.mission w)));
      [destruct (DroneControl.cancel _ _) |]; exact Hc.
  - unfold Mission.pause.
    destruct (Mission.state (Mission.mission w)) eqn:Es;
      cbn [Mission.state_eqb]; try exact Hc.
    assert (Hc' : consistent (Mission.with_state Mission.PAUSED (Mission.mission w))).
    { unfold consistent in *. rewrite Es in Hc. exact Hc. }
    destruct (Mission.control _); [destruct (DroneControl.pause _ _) |];
      exact Hc'.
  - unfold Mission.resume.
    destruct (Mission.state (Mission.mission w)) eqn:Es;
      cbn [Mission.state_eqb]; try exact Hc.
    assert (Hc' : consistent (Mission.with_state Mission.RUNNING (Mission.mission w))).
    { unfold consistent in *. rewrite Es in Hc. exact Hc. }
    destruct (Mission.control _); [destruct (DroneControl.resume _ _) |];
      exact Hc'.
  - exact Hc.
Qed.

Lemma steps_consistent (ks : list MissionStep) (w : Mission.World) :
  consistent (Mission.mission w) ->
  consistent (Mission.mission (missionSteps ks w)).
Proof.
  revert w. induction ks as [| k ks IH]; intros w Hc; [exact Hc |].
  cbn [missionSteps fold_left]. apply IH, step_consistent, Hc.
Qed.

Lemma new_world_steps_consistent (ks : list MissionStep)
    (waypoints : list Waypoint.t) (continueOnError : option bool)
    (timeoutMs : option R) (ctl : DroneControl.t) (rt : Runtime) :
  consistent
    (Mission.mission
       (missionSteps ks (new_world waypoints continueOnError timeoutMs ctl rt))).
Proof. apply steps_consistent, new_consistent. Qed.

Lemma filter_length_le {A : Type} (f : A -> bool) (l : list A) :
  (length (List.filter f l) <= length l)%nat.
Proof.
  induction l as [| a l IH]; [reflexivity |].
  cbn. destruct (f a); cbn; lia.
Qed.

(** ** The outcome of a mission and its state *)

(** X12. The promise of a mission is settled exactly when its state is
    Completed, Cancelled or Failed: whatever is done to a new mission (run,
    the resumptions of run, cancel, pause, resume, anything in between on
    the controller), the promise is pending in the states Pending, Running
    and Paused, resolved exactly in Completed, rejected exactly in Cancelled
    and Failed. The summary it resolves with holds one result per waypoint,
    and the number of completed waypoints is that of the successful results,
    at most the total. *)
Theorem mission_promise_settles_with_the_state :
  forall (ks : list MissionStep) (waypoints : list Waypoint.t)
         (continueOnError : option bool) (timeoutMs : option R)
         (ctl : DroneControl.t) (rt : Runtime),
    let m := Mission.mission
               (missionSteps ks
                  (new_world waypoints continueOnError timeoutMs ctl rt)) in
    (Mission.promise m = None <-> ~ terminal (Mission.state m))
    /\ (Mission.state m = Mission.COMPLETED
        <-> exists s : Mission.Summary,
              Mission.promise m = Some (Mission.MResolved s))
    /\ (Mission.state m = Mission.CANCELLED \/ Mission.state m = Mission.FAILED
        <-> exists e : Error, Mission.promise m = Some (Mission.MRejected e))
    /\ (forall s : Mission.Summary,
           Mission.promise m = Some (Mission.MResolved s) ->
           summarises m s
           /\ length (Mission.s_results s) = Mission.waypointsTotal s
           /\ (Mission.waypointsCompleted s <= Mission.waypointsTotal s)%nat).
Proof.
  intros ks waypoints continueOnError timeoutMs ctl rt m.
  pose proof (new_world_steps_consistent ks waypoints continueOnError
                timeoutMs ctl rt) as (_ & _ & _ & _ & Hst).
  fold m in Hst. unfold terminal.
  destruct (Mission.state m).
  - destruct Hst as (_ & Hp & _). rewrite Hp.
    split; [split; [intros _ [H | [H | H]]; discriminate | reflexivity] |].
    split; [split; [discriminate | intros (s & H); discriminate] |].
    split; [split; [intros [H | H]; discriminate | intros (e & H); discriminate] |].
    intros s H. discriminate.
  - destruct Hst as (_ & Hp & _). rewrite Hp.
    split; [split; [intros _ [H | [H | H]]; discriminate | reflexivity] |].
    split; [split; [discriminate | intros (s & H); discriminate] |].
    split; [split; [intros [H | H]; discriminate | intros (e & H); discriminate] |].
    intros s H. discriminate.
  - destruct Hst as (_ & Hp & _). rewrite Hp.
    split; [split; [intros _ [H | [H | H]]; discriminate | reflexivity] |].
    split; [split; [discriminate | intros (s & H); discriminate] |].
    split; [split; [intros [H | H]; discriminate | intros (e & H); discriminate] |].
    intros s H. discriminate.
  - destruct Hst as (_ & _ & Hl & s & Hp & Hsum). rewrite Hp.
    split; [split; [discriminate | intros H; exfalso; apply H; auto] |].
    split; [split; [intros _; exists s; reflexivity | reflexivity] |].
    split; [split; [intros [H | H]; discriminate | intros (e & H); discriminate] |].
    intros s' H. injection H as <-.
    split; [exact Hsum |]. destruct Hsum as (H1 & H2 & H3).
    rewrite H1, H2, H3, <- Hl. split; [reflexivity | apply filter_length_le].
  - destruct Hst as (_ & _ & Hp). rewrite Hp.
    split; [split; [discriminate | intros H; exfalso; apply H; auto] |].
    split; [split; [discriminate | intros (s & H); discriminate] |].
    split; [split; [intros _; eexists; reflexivity | auto] |].
    intros s H. discriminate.
  - destruct Hst as (_ & _ & e & Hp). rewrite Hp.
    split; [split; [discriminate | intros H; exfalso; apply H; auto] |].
    split; [split; [discriminate | intros (s & H); discriminate] |].
    split; [split; [intros _; eexists; reflexivity | auto] |].
    intros s H. discriminate.
Qed.

(** ** Waypoints are flown in order *)

(** X13. A mission hands its waypoints to the controller one at a time, in
    the order of the list, and records one result for each before it hands
    over the next: at any moment the waypoints handed over are the first k
    of the list, the results are those of the first k or k - 1 of them, in
    order, and a result is missing exactly while the mission is Running or
    Paused. *)
Theorem waypoints_are_flown_in_order :
  forall (ks : list MissionStep) (waypoints : list Waypoint.t)
         (continueOnError : option bool) (timeoutMs : option R)
         (ctl : DroneControl.t) (rt : Runtime),
    let m := Mission.mission
               (missionSteps ks
                  (new_world waypoints continueOnError timeoutMs ctl rt)) in
    let handed := length (dispatched m) in
    let recorded := length (Mission.results m) in
    dispatched m = seq 0 handed
    /\ map Mission.index (Mission.results m) = seq 0 recorded
    /\ (handed <= length (Mission.waypoints m))%nat
    /\ (handed = S recorded
        <-> Mission.state m = Mission.RUNNING
            \/ Mission.state m = Mission.PAUSED)
    /\ (handed = recorded
        <-> Mission.state m <> Mission.RUNNING
            /\ Mission.state m <> Mission.PAUSED).
Proof.
  intros ks waypoints continueOnError timeoutMs ctl rt m handed recorded.
  pose proof (new_world_steps_consistent ks waypoints continueOnError
                timeoutMs ctl rt) as (Hres & Hdis & Hle & _ & Hst).
  fold m in Hres, Hdis, Hle, Hst. fold handed in Hdis, Hle, Hst.
  fold recorded in Hres, Hst.
  split; [exact Hdis |]. split; [exact Hres |]. split; [exact Hle |].
  destruct (Mission.state m).
  - destruct Hst as (_ & _ & Hr & Hd).
    assert (handed = 0%nat) by (unfold handed; rewrite Hd; reflexivity).
    assert (recorded = 0%nat) by (unfold recorded; rewrite Hr; reflexivity).
    split; split; try lia; try (intros [H1 | H1]; discriminate).
    intros _. split; discriminate.
  - destruct Hst as (_ & _ & Hl).
    split; split; try lia; auto. intros [H1 _]. congruence.
  - destruct Hst as (_ & _ & Hl).
    split; split; try lia; auto. intros [_ H1]. congruence.
  - destruct Hst as (_ & Hl & _).
    split; split; try lia; try (intros [H1 | H1]; discriminate).
    intros _. split; discriminate.
  - destruct Hst as (_ & Hl & _).
    split; split; try lia; try (intros [H1 | H1]; discriminate).
    intros _. split; discriminate.
  - destruct Hst as (_ & Hl & _).
    split; split; try lia; try (intros [H1 | H1]; discriminate).
    intros _. split; discriminate.
Qed.

(** ** The progress report *)

Lemma step_waypoints (k : MissionStep) (w : Mission.World) :
  Mission.waypoints (Mission.mission (missionStep k w))
  = Mission.waypoints (Mission.mission w).
Proof.
  destruct k as [now | now | now | | | | ctl rt]; cbn [missionStep].
  - unfold Mission.run.
    destruct (negb _); [reflexivity |]. cbn [fst].
    rewrite (proj1 (proj2 (iterate_results _ _ _))). reflexivity.
  - unfold Mission.resumeRun, Mission.waypointDone, Mission.waypointFailed.
    destruct (Mission.continuation (Mission.mission w)); try reflexivity;
      destruct (promises (Mission.runtime w) !! p) as [[result | e] |];
      try reflexivity;
      try (rewrite (proj1 (proj2 (iterate_results _ _ _))); reflexivity);
      destruct (negb _);
      try (rewrite (proj1 (proj2 (iterate_results _ _ _))); reflexivity);
      cbn [Mission.mission Mission.with_mission Mission.with_continuation
           Mission.waypoints];
      rewrite (proj1 (proj2 (proj2 (proj2 (proj2 (settleMission_fields _ _))))));
      reflexivity.
  - unfold Mission.delayElapsed, Mission.waypointDone.
    destruct (Mission.continuation (Mission.mission w)); try reflexivity.
    rewrite (proj1 (proj2 (iterate_results _ _ _))). reflexivity.
  - unfold Mission.cancel.
    destruct (Mission.control _); [destruct (DroneControl.cancel _ _) |];
      reflexivity.
  - unfold Mission.pause.
    destruct (Mission.state_eqb _ _); [| reflexivity].
    destruct (Mission.control _); [destruct (DroneControl.pause _ _) |];
      reflexivity.
  - unfold Mission.resume.
    destruct (Mission.state_eqb _ _); [| reflexivity].
    destruct (Mission.control _); [destruct (DroneControl.resume _ _) |];
      reflexivity.
  - reflexivity.
Qed.

Lemma steps_waypoints (ks : list MissionStep) (w : Mission.World) :
  Mission.waypoints (Mission.mission (missionSteps ks w))
  = Mission.waypoints (Mission.mission w).
Proof.
  revert w. induction ks as [| k ks IH]; intros w; [reflexivity |].
  cbn [missionSteps fold_left]. unfold missionSteps in IH.
  rewrite IH. apply step_waypoints.
Qed.

(** X14. [getProgress()] reports as [current] the index of the waypoint
    handed to the controller last (0 before the first), and as [total] the
    length of the list given to the constructor. With at least one waypoint,
    [current] stays below [total] in every state: a mission that has
    completed reports [total - 1]. *)
Theorem progress_stays_below_total :
  forall (ks : list MissionStep) (waypoints : list Waypoint.t)
         (continueOnError : option bool) (timeoutMs : option R)
         (ctl : DroneControl.t) (rt : Runtime),
    let m := Mission.mission
               (missionSteps ks
                  (new_world waypoints continueOnError timeoutMs ctl rt)) in
    let current := fst (fst (Mission.getProgress m)) in
    let total := snd (fst (Mission.getProgress m)) in
    total = length waypoints
    /\ current = pred (length (dispatched m))
    /\ (waypoints <> [] -> (current < total)%nat)
    /\ (Mission.state m = Mission.COMPLETED -> current = pred total).
Proof.
  intros ks waypoints continueOnError timeoutMs ctl rt m current total.
  pose proof (new_world_steps_consistent ks waypoints continueOnError
                timeoutMs ctl rt) as (_ & _ & Hle & Hci & Hst).
  pose proof (steps_waypoints ks
                (new_world waypoints continueOnError timeoutMs ctl rt)) as Hw.
  fold m in Hle, Hci, Hst, Hw. cbn in Hw.
  unfold current, total, Mission.getProgress. cbn [fst snd].
  rewrite Hw in *.
  split; [reflexivity |]. split; [exact Hci |]. split.
  - intros Hne. destruct waypoints as [| wp wps]; [contradiction |].
    cbn [length] in *. lia.
  - intros Hc. rewrite Hc in Hst. destruct Hst as (_ & Hl & Hl' & _).
    try rewrite Hw in Hl'. lia.
Qed.

(** ** A mission that has ended *)

Lemma ended_step (k : MissionStep) (w : Mission.World) :
  terminal (Mission.state (Mission.mission w)) ->
  Mission.continuation (Mission.mission w) = Mission.NotSuspended ->
  observable (Mission.mission (missionStep k w))
  = observable (Mission.mission w).
Proof.
  intros Ht Hk.
  assert (Hs : Mission.state_eqb (Mission.state (Mission.mission w))
                 Mission.PENDING = false
               /\ Mission.state_eqb (Mission.state (Mission.mission w))
                    Mission.RUNNING = false
               /\ Mission.state_eqb (Mission.state (Mission.mission w))
                    Mission.PAUSED = false).
  { destruct Ht as [-> | [-> | ->]]; auto. }
  destruct Hs as (H1 & H2 & H3).
  destruct k as [now | now | now | | | | ctl rt]; cbn [missionStep].
  - unfold Mission.run. rewrite H1. reflexivity.
  - unfold Mission.resumeRun. rewrite Hk. reflexivity.
  - unfold Mission.delayElapsed. rewrite Hk. reflexivity.
  - unfold Mission.cancel.
    destruct (Mission.control _); [destruct (DroneControl.cancel _ _) |];
      reflexivity.
  - unfold Mission.pause. rewrite H2. reflexivity.
  - unfold Mission.resume. rewrite H3. reflexivity.
  - reflexivity.
Qed.

Lemma ended_steps (ks : list MissionStep) (w : Mission.World) :
  terminal (Mission.state (Mission.mission w)) ->
  Mission.continuation (Mission.mission w) = Mission.NotSuspended ->
  observable (Mission.mission (missionSteps ks w))
  = observable (Mission.mission w).
Proof.
  revert w. induction ks as [| k ks IH]; intros w Ht Hk; [reflexivity |].
  cbn [missionSteps fold_left].
  pose proof (ended_step k w Ht Hk) as E.
  unfold missionSteps in IH. rewrite IH.
  - exact E.
  - injection E as E1 _. rewrite E1. exact Ht.
  - injection E as _ _ _ _ _ E6. rewrite E6. exact Hk.
Qed.

Lemma consistent_terminal (m : Mission.t) :
  consistent m -> terminal (Mission.state m) ->
  Mission.continuation m = Mission.NotSuspended.
Proof.
  intros (_ & _ & _ & _ & Hst) [Ht | [Ht | Ht]]; rewrite Ht in Hst;
    destruct Hst as (Ha & _);
    destruct (Mission.continuation m); try reflexivity; discriminate.
Qed.

Lemma settleMission_control (s : Mission.MissionSettlement) (m : Mission.t) :
  Mission.control (Mission.settleMission s m) = Mission.control m.
Proof. unfold Mission.settleMission. destruct (Mission.promise m); reflexivity. Qed.

Lemma iterate_control (now : R) (i : nat) (w : Mission.World) :
  Mission.control (Mission.mission (Mission.iterate now i w))
  = Mission.control (Mission.mission w).
Proof.
  unfold Mission.iterate.
  destruct (Mission.waypoints (Mission.mission w) !! i) as [waypoint |].
  - destruct (Mission.cancelled (Mission.mission w)).
    + cbn [Mission.mission Mission.with_mission Mission.with_continuation
           Mission.control].
      rewrite settleMission_control. reflexivity.
    + destruct (Rgtb _ _).
      * cbn [Mission.mission Mission.with_mission Mission.with_continuation
             Mission.control].
        rewrite settleMission_control. reflexivity.
      * destruct (Mission._executeWaypoint _ _ _ _) as [[ctl rt] k].
        reflexivity.
  - cbn [Mission.mission Mission.with_mission Mission.with_continuation
         Mission.control].
    rewrite settleMission_control. reflexivity.
Qed.

Lemma waypointDone_control (now : R) (i : nat) (result : Mission.WaypointResult)
    (w : Mission.World) :
  Mission.control (Mission.mission (Mission.waypointDone now i result w))
  = Mission.control (Mission.mission w).
Proof. unfold Mission.waypointDone. rewrite iterate_control. reflexivity. Qed.

Lemma waypointFailed_control (now : R) (i : nat) (error : Error)
    (w : Mission.World) :
  Mission.control (Mission.mission (Mission.waypointFailed now i error w))
  = Mission.control (Mission.mission w).
Proof.
  unfold Mission.waypointFailed.
  destruct (negb _).
  - cbn [Mission.mission Mission.with_mission Mission.with_continuation
         Mission.control].
    rewrite settleMission_control. reflexivity.
  - rewrite iterate_control. reflexivity.
Qed.

Lemma step_has_control (k : MissionStep) (w : Mission.World) :
  has_control (Mission.mission w) ->
  has_control (Mission.mission (missionStep k w)).
Proof.
  intros H. destruct k as [now | now | now | | | | ctl rt]; cbn [missionStep].
  - unfold Mission.run.
    destruct (negb (Mission.state_eqb (Mission.state (Mission.mission w))
                      Mission.PENDING)); [exact H |].
    left. cbn [fst]. rewrite iterate_control. reflexivity.
  - unfold Mission.resumeRun.
    destruct (Mission.continuation (Mission.mission w)) as [| i p | i p d | i d]
      eqn:Ek; try exact H.
    + destruct H as [H | [_ H]]; [| congruence].
      destruct (promises (Mission.runtime w) !! p) as [[result | error] |];
        [left; rewrite waypointDone_control
        | left; rewrite waypointFailed_control
        | left]; exact H.
    + destruct H as [H | [_ H]]; [| congruence].
      destruct (promises (Mission.runtime w) !! p) as [[result | error] |];
        [left | left; rewrite waypointFailed_control | left]; exact H.
  - unfold Mission.delayElapsed.
    destruct (Mission.continuation (Mission.mission w)) as [| i p | i p d | i d]
      eqn:Ek; try exact H.
    destruct H as [H | [_ H]]; [| congruence].
    left. rewrite waypointDone_control. exact H.
  - unfold Mission.cancel.
    destruct (Mission.control _); [destruct (DroneControl.cancel _ _) |];
      exact H.
  - unfold Mission.pause.
    destruct (Mission.state_eqb (Mission.state (Mission.mission w))
                Mission.RUNNING) eqn:E; [| exact H].
    apply mission_state_eqb_eq in E.
    destruct H as [H | [H _]]; [| congruence].
    cbn [Mission.control Mission.with_state]. rewrite H.
    destruct (DroneControl.pause _ _). left. exact H.
  - unfold Mission.resume.
    destruct (Mission.state_eqb (Mission.state (Mission.mission w))
                Mission.PAUSED) eqn:E; [| exact H].
    apply mission_state_eqb_eq in E.
    destruct H as [H | [H _]]; [| congruence].
    cbn [Mission.control Mission.with_state]. rewrite H.
    destruct (DroneControl.resume _ _). left. exact H.
  - exact H.
Qed.

Lemma steps_has_control (ks : list MissionStep) (w : Mission.World) :
  has_control (Mission.mission w) ->
  has_control (Mission.mission (missionSteps ks w)).
Proof.
  revert w. induction ks as [| k ks IH]; intros w H; [exact H |].
  apply IH, step_has_control, H.
Qed.

(** What a step on an ended mission does around the mission. *)
Lemma ended_step_world (k : MissionStep) (w : Mission.World) :
  terminal (Mission.state (Mission.mission w)) ->
  Mission.continuation (Mission.mission w) = Mission.NotSuspended ->
  Mission.control (Mission.mission w) = true ->
  let w' := missionStep k w in
  (Mission.controller w', Mission.runtime w')
  = afterTheEnd (Mission.controller w, Mission.runtime w) k
  /\ Mission.control (Mission.mission w') = true
  /\ Mission.cancelled (Mission.mission w')
     = is_cancel k || Mission.cancelled (Mission.mission w).
Proof.
  intros Ht Hk Hc.
  assert (Hs : Mission.state_eqb (Mission.state (Mission.mission w))
                 Mission.PENDING = false
               /\ Mission.state_eqb (Mission.state (Mission.mission w))
                    Mission.RUNNING = false
               /\ Mission.state_eqb (Mission.state (Mission.mission w))
                    Mission.PAUSED = false).
  { destruct Ht as [-> | [-> | ->]]; auto. }
  destruct Hs as (H1 & H2 & H3).
  destruct k as [now | now | now | | | | ctl rt]; cbn [missionStep afterTheEnd].
  - unfold Mission.run. rewrite H1. cbn. auto.
  - unfold Mission.resumeRun. rewrite Hk. auto.
  - unfold Mission.delayElapsed. rewrite Hk. auto.
  - unfold Mission.cancel. cbn [Mission.control Mission.with_cancelled].
    rewrite Hc. cbn [fst snd].
    destruct (DroneControl.cancel (Mission.controller w) (Mission.runtime w))
      as [ctl1 rt1].
    cbn. auto.
  - unfold Mission.pause. rewrite H2. auto.
  - unfold Mission.resume. rewrite H3. auto.
  - cbn. auto.
Qed.

Lemma ended_steps_world (ks : list MissionStep) (w : Mission.World) :
  terminal (Mission.state (Mission.mission w)) ->
  Mission.continuation (Mission.mission w) = Mission.NotSuspended ->
  Mission.control (Mission.mission w) = true ->
  let w' := missionSteps ks w in
  (Mission.controller w', Mission.runtime w')
  = fold_left afterTheEnd ks (Mission.controller w, Mission.runtime w)
  /\ Mission.cancelled (Mission.mission w')
     = existsb is_cancel ks || Mission.cancelled (Mission.mission w).
Proof.
  revert w. induction ks as [| k ks IH]; intros w Ht Hk Hc.
  - cbn. auto.
  - cbn [missionSteps fold_left existsb].
    pose proof (ended_step k w Ht Hk) as E.
    destruct (ended_step_world k w Ht Hk Hc) as (W1 & W2 & W3).
    injection E as E1 _ _ _ _ E6.
    assert (Ht' : terminal (Mission.state (Mission.mission (missionStep k w))))
      by (rewrite E1; exact Ht).
    assert (Hk' : Mission.continuation (Mission.mission (missionStep k w))
                  = Mission.NotSuspended) by (rewrite E6; exact Hk).
    destruct (IH (missionStep k w) Ht' Hk' W2) as (I1 & I2).
    unfold missionSteps in I1, I2.
    split; [rewrite I1, W1; reflexivity |].
    rewrite I2, W3.
    destruct (is_cancel k), (existsb is_cancel ks),
      (Mission.cancelled (Mission.mission w)); reflexivity.
Qed.

(** X15. Completed, Cancelled and Failed are final for the mission itself.
    Once a mission has reached one of them, nothing that is called on it or
    happens around it (run, cancel, pause, resume, settlements, timers)
    changes its state, its outcome, its results or its progress, and it calls
    no callback and hands no waypoint to the controller any more. It is not
    through with the controller, though: [cancel()] tests no state, so on an
    ended mission it still sets the flag and calls [control.cancel()], which
    cancels whatever the controller is doing by then. [run], [pause] and
    [resume] do not reach the controller. *)
Theorem ended_mission_stays_as_it_is :
  forall (ks later : list MissionStep) (waypoints : list Waypoint.t)
         (continueOnError : option bool) (timeoutMs : option R)
         (ctl : DroneControl.t) (rt : Runtime),
    let w := missionSteps ks
               (new_world waypoints continueOnError timeoutMs ctl rt) in
    let w' := missionSteps later w in
    let m := Mission.mission w in
    let m' := Mission.mission w' in
    terminal (Mission.state m) ->
    Mission.state m' = Mission.state m
    /\ Mission.promise m' = Mission.promise m
    /\ Mission.results m' = Mission.results m
    /\ Mission.getProgress m' = Mission.getProgress m
    /\ Mission.trace m' = Mission.trace m
    /\ Mission.cancelled m' = existsb is_cancel later || Mission.cancelled m
    /\ (Mission.controller w', Mission.runtime w')
       = fold_left afterTheEnd later (Mission.controller w, Mission.runtime w).
Proof.
  intros ks later waypoints continueOnError timeoutMs ctl rt w w' m m' Ht.
  pose proof (new_world_steps_consistent ks waypoints continueOnError
                timeoutMs ctl rt) as Hc.
  pose proof (consistent_terminal _ Hc Ht) as Hk.
  pose proof (ended_steps later w Ht Hk) as E.
  pose proof (steps_waypoints later w) as Hw.
  assert (Hctl : Mission.control m = true).
  { destruct (steps_has_control ks
                (new_world waypoints continueOnError timeoutMs ctl rt))
      as [H | [H _]].
    - right. split; reflexivity.
    - exact H.
    - fold w in H. fold m in H.
      destruct Ht as [Ht | [Ht | Ht]]; rewrite Ht in H; discriminate H. }
  destruct (ended_steps_world later w Ht Hk Hctl) as (W1 & W2).
  fold w' in E, Hw, W1, W2. fold m' in E, Hw, W2. fold m in E, Hw, W2.
  injection E as E1 E2 E3 E4 E5 _.
  unfold Mission.getProgress. rewrite E1, E2, E3, E4, E5, Hw.
  repeat (split; [reflexivity |]). split; [exact W2 | exact W1].
Qed.

(** A mission without waypoints completes in [run]. Later the controller is
    busy with a take-off and a queued move of another caller: [cancel()] on
    the completed mission rejects both, and the mission stays Completed. *)
Lemma ended_mission_stays_as_it_is_witness :
  let w := missionSteps [StepRun 1]
             (new_world [] None None (DroneControl.new loaded_vehicle)
                empty_runtime) in
  let w' := missionSteps
              [StepEnvironment busy_controller busy_runtime; StepCancel;
               StepRun 2; StepPause; StepResume; StepResumeRun 3;
               StepDelayElapsed 4] w in
  Mission.state (Mission.mission w) = Mission.COMPLETED
  /\ Mission.state (Mission.mission w') = Mission.COMPLETED
  /\ Mission.promise (Mission.mission w') = Mission.promise (Mission.mission w)
  /\ (Mission.controller w', Mission.runtime w')
     = DroneControl.cancel busy_controller busy_runtime
  /\ promises (Mission.runtime w') !! 0%nat
     = Some (Rejected Command.cancelled_error)
  /\ promises (Mission.runtime w') !! 1%nat
     = Some (Rejected Command.cancelled_error).
Proof.
  intros w w'.
  assert (Hs : Mission.state (Mission.mission w) = Mission.COMPLETED)
    by reflexivity.
  split; [exact Hs |].
  destruct (ended_mission_stays_as_it_is [StepRun 1]
              [StepEnvironment busy_controller busy_runtime; StepCancel;
               StepRun 2; StepPause; StepResume; StepResumeRun 3;
               StepDelayElapsed 4]
              [] None None (DroneControl.new loaded_vehicle) empty_runtime
              (or_introl Hs)) as (H1 & H2 & _ & _ & _ & _ & H7).
  fold w in H1, H2, H7. fold w' in H1, H2, H7.
  split; [rewrite <- Hs; exact H1 |].
  split; [exact H2 |].
  cbn [fold_left afterTheEnd fst snd] in H7.
  split; [exact H7 |].
  pose proof (f_equal snd H7) as Hrt. cbn [snd] in Hrt. rewrite Hrt.
  split; reflexivity.
Defined.

(** ** Running a mission that was cancelled before *)

(** X16. [cancel()] before [run()] does not touch the controller (the
    mission has none yet), and [run()] is still accepted. It hands no
    waypoint to the controller: with at least one waypoint the mission ends
    Cancelled, rejected with "Mission cancelled"; with none the loop is
    never entered and the mission ends Completed, resolved with an empty
    summary. *)
Theorem run_after_cancel :
  forall (waypoints : list Waypoint.t) (continueOnError : option bool)
         (timeoutMs : option R) (ctl : DroneControl.t) (rt : Runtime)
         (now : R),
    let w0 := Mission.cancel
                (new_world waypoints continueOnError timeoutMs ctl rt) in
    let w := fst (Mission.run now w0) in
    let m := Mission.mission w in
    Mission.controller w0 = ctl
    /\ Mission.runtime w0 = rt
    /\ snd (Mission.run now w0) = None
    /\ Mission.controller w = ctl
    /\ Mission.runtime w = rt
    /\ Mission.trace m = []
    /\ (waypoints <> [] ->
        Mission.state m = Mission.CANCELLED
        /\ Mission.promise m
           = Some (Mission.MRejected Mission.cancelled_error))
    /\ (waypoints = [] ->
        Mission.state m = Mission.COMPLETED
        /\ exists s : Mission.Summary,
             Mission.promise m = Some (Mission.MResolved s)
             /\ Mission.s_results s = []
             /\ Mission.waypointsCompleted s = 0%nat
             /\ Mission.waypointsTotal s = 0%nat).
Proof.
  intros waypoints continueOnError timeoutMs ctl rt now w0 w m.
  destruct waypoints as [| wp wps].
  - do 6 (split; [reflexivity |]). split.
    + intros H. contradiction.
    + intros _. split; [reflexivity |].
      eexists. split; [reflexivity |]. repeat split.
  - do 6 (split; [reflexivity |]). split.
    + intros _. split; reflexivity.
    + intros H. discriminate.
Qed.

(** ** Cancelling during the delay of a hover waypoint *)

Lemma cancel_mission_fields (w : Mission.World) :
  Mission.mission (Mission.cancel w)
  = Mission.with_cancelled true (Mission.mission w).
Proof.
  unfold Mission.cancel.
  destruct (Mission.control _); [destruct (DroneControl.cancel _ _) |];
    reflexivity.
Qed.

Lemma hovering_mission_state :
  Mission.mission hovering_mission
  = {| Mission.waypoints := [hold_position];
       Mission.continueOnError := false;
       Mission.timeoutMs := 300000;
       Mission.state := Mission.RUNNING;
       Mission.currentIndex := 0;
       Mission.startTime := Some 1;
       Mission.results := [];
       Mission.cancelled := false;
       Mission.promise := None;
       Mission.control := true;
       Mission.continuation := Mission.AwaitDelay 0 1000;
       Mission.trace :=
         [Mission.Progress 0 1 hold_position;
          Mission.ControllerCall 0 hold_position] |}.
Proof.
  unfold hovering_mission, missionSteps, new_world.
  cbn [fold_left missionStep]. unfold Mission.run.
  cbn [Mission.mission Mission.new Mission.state Mission.state_eqb negb fst].
  rewrite (iterate_dispatch 1 0 _ hold_position);
    [| reflexivity | reflexivity | cbn; lra].
  reflexivity.
Qed.

(** X17. [cancel()] does not cut short the delay of a hover waypoint, and a
    mission cancelled during the delay of its last waypoint still completes.
    While [run] waits for the delay, [cancel()] leaves the state and the
    pending promise as they are; when the timer fires, the hover is recorded
    as a success, and the mission ends Cancelled if a waypoint is left, but
    Completed, its promise resolved, if the hover was the last one. No
    further waypoint is handed to the controller. *)
Theorem cancel_during_hover_delay :
  forall (now : R) (w : Mission.World) (i : nat) (d : R),
    Mission.continuation (Mission.mission w) = Mission.AwaitDelay i d ->
    Mission.promise (Mission.mission w) = None ->
    let m := Mission.mission w in
    let w1 := Mission.cancel w in
    let m' := Mission.mission (Mission.delayElapsed now w1) in
    Mission.state (Mission.mission w1) = Mission.state m
    /\ Mission.promise (Mission.mission w1) = None
    /\ (forall t : R, Mission.resumeRun t w1 = w1)
    /\ Mission.results m'
       = (Mission.results m ++ [Mission.Success i (Mission.Hovered d)])%list
    /\ dispatched m' = dispatched m
    /\ (Mission.waypoints m !! S i <> None ->
        Mission.state m' = Mission.CANCELLED
        /\ Mission.promise m'
           = Some (Mission.MRejected Mission.cancelled_error))
    /\ (Mission.waypoints m !! S i = None ->
        Mission.state m' = Mission.COMPLETED
        /\ exists s : Mission.Summary,
             Mission.promise m' = Some (Mission.MResolved s)
             /\ Mission.s_results s = Mission.results m').
Proof.
  intros now w i d Hk Hp m w1 m'.
  pose proof (cancel_mission_fields w) as Hm1. fold w1 in Hm1.
  assert (Hk1 : Mission.continuation (Mission.mission w1)
                = Mission.AwaitDelay i d) by (rewrite Hm1; exact Hk).
  split; [rewrite Hm1; reflexivity |].
  split; [rewrite Hm1; exact Hp |].
  split; [intros t; unfold Mission.resumeRun; rewrite Hk1; reflexivity |].
  unfold m', Mission.delayElapsed. rewrite Hk1.
  unfold Mission.waypointDone. rewrite Hm1.
  set (w2 := Mission.with_mission _ w1).
  assert (Hr2 : Mission.results (Mission.mission w2)
                = (Mission.results m ++ [Mission.Success i (Mission.Hovered d)])%list)
    by reflexivity.
  assert (Hd2 : dispatched (Mission.mission w2) = dispatched m).
  { unfold w2. cbn [Mission.mission Mission.with_mission].
    change (dispatched (Mission.emit ?e (Mission.with_results ?r
                                           (Mission.with_cancelled ?b ?m0))))
      with (dispatched (Mission.emit e m0)).
    rewrite dispatched_app, app_nil_r. reflexivity. }
  assert (Hc2 : Mission.cancelled (Mission.mission w2) = true) by reflexivity.
  assert (Hp2 : Mission.promise (Mission.mission w2) = None) by exact Hp.
  assert (Hw2 : Mission.waypoints (Mission.mission w2) = Mission.waypoints m)
    by reflexivity.
  clearbody w2.
  split; [rewrite (proj1 (iterate_results now (S i) w2)); exact Hr2 |].
  destruct (Mission.waypoints m !! S i) as [next |] eqn:En.
  - rewrite <- Hw2 in En.
    destruct (iterate_cancelled now (S i) w2 next En Hc2)
      as (Hs & _ & Ht & _).
    split; [unfold dispatched in *; rewrite Ht; exact Hd2 |].
    split; [| intros H; discriminate].
    intros _. split; [exact Hs |].
    unfold Mission.iterate. rewrite En, Hc2.
    cbn [Mission.mission Mission.with_mission Mission.with_continuation
         Mission.promise].
    unfold Mission.settleMission.
    cbn [Mission.promise Mission.with_state]. rewrite Hp2. reflexivity.
  - rewrite <- Hw2 in En.
    destruct (iterate_end now (S i) w2 En)
      as (Hs & _ & Hr & Ht & _ & _ & Hpr).
    split; [unfold dispatched in *; rewrite Ht; exact Hd2 |].
    split; [intros H; contradiction |].
    intros _. split; [exact Hs |].
    eexists. split; [apply Hpr, Hp2 |]. cbn [Mission.s_results].
    symmetry. exact Hr.
Qed.

(** The mission of a single hover is cancelled during the hover's delay: it
    completes. *)
Lemma cancel_during_hover_delay_witness :
  let m' := Mission.mission
              (Mission.delayElapsed 1003 (Mission.cancel hovering_mission)) in
  Mission.state m' = Mission.COMPLETED
  /\ Mission.results m' = [Mission.Success 0 (Mission.Hovered 1000)].
Proof.
  intros m'.
  assert (Hk : Mission.continuation (Mission.mission hovering_mission)
               = Mission.AwaitDelay 0 1000)
    by (rewrite hovering_mission_state; reflexivity).
  assert (Hp : Mission.promise (Mission.mission hovering_mission) = None)
    by (rewrite hovering_mission_state; reflexivity).
  destruct (cancel_during_hover_delay 1003 hovering_mission 0 1000 Hk Hp)
    as (_ & _ & _ & Hr & _ & _ & Hend).
  rewrite hovering_mission_state in Hr, Hend.
  split; [apply Hend; reflexivity | exact Hr].
Defined.

(** ** Cancelling the controller under a mission *)

Lemma executeWaypoint_isActive (i : nat) (waypoint : Waypoint.t)
    (ctl : DroneControl.t) (rt : Runtime) :
  DroneControl.isActive
    (fst (fst (Mission._executeWaypoint i waypoint ctl rt))) = true.
Proof.
  unfold Mission._executeWaypoint.
  repeat match goal with
         | |- context [if ?b then _ else _] => destruct b
         end;
    unfold DroneControl.takeOff, DroneControl.land, DroneControl.hover,
      DroneControl.moveTo, new_promise;
    first
      [ match goal with
        | |- context [DroneControl.executeImmediate ?c0 ?ct ?r] =>
            pose proof (isActive_executeImmediate c0 ct r) as H;
            destruct (DroneControl.executeImmediate c0 ct r) as [[ctl1 rt1] p];
            exact H
        end
      | unfold DroneControl.enqueue; cbn [fst snd];
        apply isActive_iff; right;
        cbn [DroneControl.commandQueue DroneControl.with_commandQueue];
        destruct (DroneControl.commandQueue ctl); discriminate ].
Qed.

Lemma iterate_keeps_flag (now : R) (i : nat) (w : Mission.World) :
  Mission.cancelled (Mission.mission (Mission.iterate now i w))
  = Mission.cancelled (Mission.mission w).
Proof.
  unfold Mission.iterate.
  destruct (Mission.waypoints (Mission.mission w) !! i) as [waypoint |].
  - destruct (Mission.cancelled (Mission.mission w)) eqn:Ec.
    + cbn [Mission.mission Mission.with_mission Mission.with_continuation
           Mission.cancelled].
      rewrite (proj1 (proj2 (proj2 (settleMission_fields _ _)))). exact Ec.
    + destruct (Rgtb _ _).
      * cbn [Mission.mission Mission.with_mission Mission.with_continuation
             Mission.cancelled].
        rewrite (proj1 (proj2 (proj2 (settleMission_fields _ _)))). exact Ec.
      * destruct (Mission._executeWaypoint _ _ _ _) as [[ctl rt] k].
        exact Ec.
  - cbn [Mission.mission Mission.with_mission Mission.with_continuation
         Mission.cancelled].
    rewrite (proj1 (proj2 (proj2 (settleMission_fields _ _)))). reflexivity.
Qed.

(** X18. [cancel()] on the controller (what the bridge calls for its
    [cancel] action) does not cancel the mission that runs on it. The
    command in flight is rejected with "Command cancelled" and the mission
    takes it for a failed waypoint: under the default policy it ends Failed,
    rejected with that error; under [continueOnError] it hands the next
    waypoint to the controller, which is active again. The mission's own
    cancellation flag stays unset. *)
Theorem controller_cancel_does_not_cancel_the_mission :
  forall (now : R) (w : Mission.World) (i : nat) (c : Command.t),
    let m := Mission.mission w in
    Mission.continuation m = Mission.AwaitCommand i (Command.promise c) ->
    Mission.cancelled m = false ->
    Mission.promise m = None ->
    in_flight (Mission.controller w) c ->
    Command.completed c = false ->
    promises (Mission.runtime w) !! Command.promise c = None ->
    let w' := Mission.resumeRun now (controllerCancelled w) in
    let m' := Mission.mission w' in
    Mission.results m'
    = (Mission.results m ++ [Mission.Failure i Command.cancelled_error])%list
    /\ Mission.cancelled m' = false
    /\ (Mission.continueOnError m = false ->
        Mission.state m' = Mission.FAILED
        /\ Mission.promise m'
           = Some (Mission.MRejected Command.cancelled_error))
    /\ (Mission.continueOnError m = true ->
        forall next : Waypoint.t,
          Mission.waypoints m !! S i = Some next ->
          now - to_number (Mission.startTime m) <= Mission.timeoutMs m ->
          dispatched m' = (dispatched m ++ [S i])%list
          /\ Mission.state m' = Mission.state m
          /\ Mission.promise m' = None
          /\ DroneControl.isActive (Mission.controller w') = true).
Proof.
  intros now w i c m Hk Hflag Hpend Hin Hc Hp w' m'.
  set (w1 := controllerCancelled w).
  assert (Hm1 : Mission.mission w1 = m).
  { unfold w1, controllerCancelled.
    destruct (DroneControl.cancel _ _). reflexivity. }
  assert (Hrej : promises (Mission.runtime w1) !! Command.promise c
                 = Some (Rejected Command.cancelled_error)).
  { pose proof (cancel_rejects_pending (Mission.controller w)
                  (Mission.runtime w) c Hin Hc Hp) as H.
    unfold w1, controllerCancelled.
    destruct (DroneControl.cancel _ _). exact H. }
  assert (Hw' : w' = Mission.waypointFailed now i Command.cancelled_error w1).
  { apply resumeRun_rejected with (p := Command.promise c); [left | exact Hrej].
    rewrite Hm1. exact Hk. }
  destruct (Mission.continueOnError m) eqn:Hpol.
  - assert (Hit : w' = Mission.iterate now (S i)
                         (Mission.with_mission
                            (Mission.emit
                               (Mission.ErrorCallback Command.cancelled_error i)
                               (Mission.with_results
                                  (Mission.results m
                                   ++ [Mission.Failure i Command.cancelled_error])
                                  m)) w1)).
    { rewrite Hw', waypointFailed_continue by (rewrite Hm1; exact Hpol).
      rewrite Hm1. reflexivity. }
    split; [unfold m'; rewrite Hit, (proj1 (iterate_results _ _ _)); reflexivity |].
    split; [unfold m'; rewrite Hit, iterate_keeps_flag; exact Hflag |].
    split; [discriminate |].
    intros _ next Hnext Ht. unfold m'. rewrite Hit.
    rewrite (iterate_dispatch now (S i) _ next); [| exact Hnext | exact Hflag | exact Ht].
    cbv zeta.
    pose proof (executeWaypoint_isActive (S i) next (Mission.controller w1)
                  (Mission.runtime w1)) as Hact.
    cbn [Mission.controller Mission.runtime Mission.with_mission].
    destruct (Mission._executeWaypoint (S i) next (Mission.controller w1)
                (Mission.runtime w1)) as [[ctl rt] k].
    cbn [fst Mission.mission Mission.controller] in *.
    split; [| split; [reflexivity | split; [exact Hpend | exact Hact]]].
    change (dispatched (Mission.with_continuation k ?m0)) with (dispatched m0).
    rewrite !dispatched_app.
    cbn [Mission.mission Mission.with_mission].
    change (dispatched (Mission.with_currentIndex ?j ?m0)) with (dispatched m0).
    rewrite dispatched_app.
    change (dispatched (Mission.with_results ?r ?m0)) with (dispatched m0).
    rewrite !app_nil_r. reflexivity.
  - assert (Hpol1 : Mission.continueOnError (Mission.mission w1) = false)
      by (rewrite Hm1; exact Hpol).
    destruct (waypointFailed_abort now i Command.cancelled_error w1 Hpol1)
      as (Hr & Hs & _ & _ & _ & _ & Hpr).
    cbv zeta in Hr, Hs, Hpr. rewrite <- Hw' in Hr, Hs, Hpr.
    rewrite Hm1 in Hr, Hpr.
    split; [exact Hr |].
    split.
    { unfold m'. rewrite Hw'. unfold Mission.waypointFailed.
      cbn [Mission.continueOnError Mission.emit Mission.with_results].
      rewrite Hpol1. cbn [negb Mission.mission Mission.with_mission
                            Mission.with_continuation Mission.cancelled].
      rewrite (proj1 (proj2 (proj2 (settleMission_fields _ _)))).
      cbn [Mission.cancelled Mission.with_state]. rewrite Hm1. exact Hflag. }
    split; [| discriminate].
    intros _. split; [exact Hs | exact (Hpr Hpend)].
Qed.

(** The controller is cancelled while a mission of two waypoints, run with
    [continueOnError], waits for its first: the landing is dispatched. *)
Lemma controller_cancel_does_not_cancel_the_mission_witness :
  let w := fst (Mission.run 1 (two_waypoints (Some true))) in
  let w' := Mission.resumeRun 2 (controllerCancelled w) in
  dispatched (Mission.mission w') = [0%nat; 1%nat]
  /\ Mission.state (Mission.mission w') = Mission.RUNNING
  /\ DroneControl.isActive (Mission.controller w') = true.
Proof.
  intros w w'.
  pose proof (controller_cancel_does_not_cancel_the_mission 2 w 0
                (Command.new_MoveToCommand (Some 1) None (Some 0)
                   Command.no_options 0%nat)) as H.
  unfold w in H. rewrite run_two_waypoints in H. cbv zeta in H.
  destruct H as (_ & _ & _ & H); try reflexivity.
  - right. left. reflexivity.
  - destruct (H eq_refl touch_down eq_refl) as (H1 & H2 & _ & H4).
    + cbn. lra.
    + unfold w', w. rewrite run_two_waypoints.
      split; [exact H1 | split; [exact H2 | exact H4]].
Defined.

(** ** The deadline of a mission *)

Lemma iterate_timed_out (now : R) (i : nat) (w : Mission.World)
    (waypoint : Waypoint.t) :
  Mission.waypoints (Mission.mission w) !! i = Some waypoint ->
  Mission.cancelled (Mission.mission w) = false ->
  now - to_number (Mission.startTime (Mission.mission w))
  > Mission.timeoutMs (Mission.mission w) ->
  Mission.promise (Mission.mission w) = None ->
  let w' := Mission.iterate now i w in
  Mission.state (Mission.mission w') = Mission.FAILED
  /\ Mission.promise (Mission.mission w')
     = Some (Mission.MRejected Mission.timeout_error)
  /\ Mission.results (Mission.mission w') = Mission.results (Mission.mission w)
  /\ Mission.trace (Mission.mission w') = Mission.trace (Mission.mission w)
  /\ Mission.controller w' = Mission.controller w
  /\ Mission.runtime w' = Mission.runtime w.
Proof.
  intros Hw Hc Ht Hp w'. unfold w', Mission.iterate. rewrite Hw, Hc.
  unfold Rgtb. rewrite Rltb_true by lra.
  unfold Mission.settleMission.
  cbn [Mission.promise Mission.with_state]. rewrite Hp.
  repeat split.
Qed.

(** X19. The deadline of a mission is looked at only before a waypoint is
    handed over. While the mission waits for a command, nothing happens when
    the deadline passes: the mission stays as it is until the command
    settles. When the command then resolves after the deadline, its result
    is recorded as a success; if a waypoint is left the mission ends Failed
    with "Mission timeout" without handing it over, and if it was the last
    one the mission ends Completed, although late. *)
Theorem deadline_is_checked_between_waypoints :
  forall (now : R) (w : Mission.World) (i p : nat) (result : CommandResult),
    let m := Mission.mission w in
    Mission.continuation m = Mission.AwaitCommand i p ->
    Mission.cancelled m = false ->
    Mission.promise m = None ->
    now - to_number (Mission.startTime m) > Mission.timeoutMs m ->
    (promises (Mission.runtime w) !! p = None -> Mission.resumeRun now w = w)
    /\ (promises (Mission.runtime w) !! p = Some (Resolved result) ->
        let m' := Mission.mission (Mission.resumeRun now w) in
        Mission.results m'
        = (Mission.results m
           ++ [Mission.Success i (Mission.FromCommand result)])%list
        /\ dispatched m' = dispatched m
        /\ (Mission.waypoints m !! S i <> None ->
            Mission.state m' = Mission.FAILED
            /\ Mission.promise m'
               = Some (Mission.MRejected Mission.timeout_error))
        /\ (Mission.waypoints m !! S i = None ->
            Mission.state m' = Mission.COMPLETED
            /\ exists s : Mission.Summary,
                 Mission.promise m' = Some (Mission.MResolved s)
                 /\ Mission.s_results s = Mission.results m')).
Proof.
  intros now w i p result m Hk Hc Hp Ht.
  split.
  - intros Hpend. unfold Mission.resumeRun. fold m. rewrite Hk, Hpend.
    reflexivity.
  - intros Hres m'. unfold m', Mission.resumeRun. fold m. rewrite Hk, Hres.
    unfold Mission.waypointDone. fold m.
    set (w2 := Mission.with_mission _ w).
    assert (Hr2 : Mission.results (Mission.mission w2)
                  = (Mission.results m
                     ++ [Mission.Success i (Mission.FromCommand result)])%list)
      by reflexivity.
    assert (Hd2 : dispatched (Mission.mission w2) = dispatched m).
    { unfold w2. cbn [Mission.mission Mission.with_mission].
      change (dispatched (Mission.emit ?e (Mission.with_results ?r ?m0)))
        with (dispatched (Mission.emit e m0)).
      rewrite dispatched_app, app_nil_r. reflexivity. }
    assert (Hc2 : Mission.cancelled (Mission.mission w2) = false) by exact Hc.
    assert (Hp2 : Mission.promise (Mission.mission w2) = None) by exact Hp.
    assert (Hw2 : Mission.waypoints (Mission.mission w2) = Mission.waypoints m)
      by reflexivity.
    assert (Ht2 : now - to_number (Mission.startTime (Mission.mission w2))
                  > Mission.timeoutMs (Mission.mission w2)) by exact Ht.
    clearbody w2.
    split; [rewrite (proj1 (iterate_results now (S i) w2)); exact Hr2 |].
    destruct (Mission.waypoints m !! S i) as [next |] eqn:En.
    + rewrite <- Hw2 in En.
      destruct (iterate_timed_out now (S i) w2 next En Hc2 Ht2 Hp2)
        as (Hs & Hpr & _ & Htr & _).
      split; [unfold dispatched in *; rewrite Htr; exact Hd2 |].
      split; [| intros H; discriminate].
      intros _. split; [exact Hs | exact Hpr].
    + rewrite <- Hw2 in En.
      destruct (iterate_end now (S i) w2 En)
        as (Hs & _ & Hr & Htr & _ & _ & Hpr).
      split; [unfold dispatched in *; rewrite Htr; exact Hd2 |].
      split; [intros H; contradiction |].
      intros _. split; [exact Hs |].
      eexists. split; [apply Hpr, Hp2 |]. cbn [Mission.s_results].
      symmetry. exact Hr.
Qed.

(** The mission of two waypoints started at 1 ms, whose first waypoint is
    still in flight after the five minutes: it waits on. *)
Lemma deadline_is_checked_between_waypoints_witness :
  let w := fst (Mission.run 1 (two_waypoints None)) in
  Mission.resumeRun 400000 w = w.
Proof.
  intros w.
  pose proof (deadline_is_checked_between_waypoints 400000 w 0 0 RNull) as H.
  unfold w in H. rewrite run_two_waypoints in H. cbv zeta in H.
  destruct H as [H _]; try reflexivity.
  - cbn. lra.
  - unfold w. rewrite run_two_waypoints. apply H. reflexivity.
Defined.

(** * Properties of the browser's bridge *)

(** ** Relative moves *)

Lemma cos_quarter_turn (h : R) : cos (h + PI / 2) = - sin h.
Proof. rewrite cos_plus, cos_PI2, sin_PI2. ring. Qed.

Lemma sin_quarter_turn (h : R) : sin (h + PI / 2) = cos h.
Proof. rewrite sin_plus, cos_PI2, sin_PI2. ring. Qed.

Lemma nextTarget_body (state : DroneState.t)
    (args : DroneWsBridge.RelativeArgs) :
  DroneWsBridge.frame args = Some "body" ->
  let h := DroneState.headingRad state in
  let f := nullish (DroneWsBridge.forward args) 0 in
  let r := nullish (DroneWsBridge.right args) 0 in
  displacement state (DroneWsBridge.nextTarget state args)
  = (cos h * f - sin h * r, sin h * f + cos h * r).
Proof.
  intros Hf h f r. unfold displacement, DroneWsBridge.nextTarget.
  rewrite Hf. cbn [nullish String.eqb Ascii.eqb Bool.eqb tx tz].
  rewrite cos_quarter_turn, sin_quarter_turn.
  fold h f r. f_equal; ring.
Qed.

Lemma nextTarget_world (state : DroneState.t)
    (args : DroneWsBridge.RelativeArgs) :
  DroneWsBridge.frame args <> Some "body" ->
  displacement state (DroneWsBridge.nextTarget state args)
  = (nullish (DroneWsBridge.right args) 0,
     - nullish (DroneWsBridge.forward args) 0).
Proof.
  intros Hf. unfold displacement, DroneWsBridge.nextTarget.
  destruct (String.eqb (nullish (DroneWsBridge.frame args) "world") "body")
    eqn:E.
  - exfalso. apply Hf. apply String.eqb_eq in E.
    destruct (DroneWsBridge.frame args) as [s |]; cbn in E;
      [congruence | discriminate].
  - cbn [tx tz]. f_equal; ring.
Qed.

(** X20. A relative move keeps the requested distances. In the body frame the
    displacement of the target from the vehicle is [forward] along the
    heading plus [right] along the heading turned by a quarter turn, for
    every heading; in the world frame (any other frame value, or none) it is
    [right] along +X and [forward] along -Z. In both frames the horizontal
    distance to the target is sqrt(forward^2 + right^2), and the target
    altitude is the current altitude plus [up], never null. *)
Theorem relative_move_keeps_the_distances :
  forall (state : DroneState.t) (args : DroneWsBridge.RelativeArgs),
    let target := DroneWsBridge.nextTarget state args in
    let d := displacement state target in
    let h := DroneState.headingRad state in
    let f := nullish (DroneWsBridge.forward args) 0 in
    let r := nullish (DroneWsBridge.right args) 0 in
    (DroneWsBridge.frame args = Some "body" ->
     fst d * cos h + snd d * sin h = f
     /\ snd d * cos h - fst d * sin h = r)
    /\ (DroneWsBridge.frame args <> Some "body" -> d = (r, - f))
    /\ sqrt (fst d * fst d + snd d * snd d) = sqrt (f * f + r * r)
    /\ ty target
       = Some (Position.y (DroneState.position state)
               + nullish (DroneWsBridge.up args) 0).
Proof.
  intros state args target d h f r.
  assert (Hone : cos h * cos h + sin h * sin h = 1).
  { pose proof (sin2_cos2 h) as H. unfold Rsqr in H. lra. }
  assert (Hbody : DroneWsBridge.frame args = Some "body" ->
                  d = (cos h * f - sin h * r, sin h * f + cos h * r)).
  { intros Hf. apply (nextTarget_body state args Hf). }
  assert (Hworld : DroneWsBridge.frame args <> Some "body" -> d = (r, - f)).
  { intros Hf. apply (nextTarget_world state args Hf). }
  split; [| split; [exact Hworld | split]].
  - intros Hf. rewrite (Hbody Hf). cbn [fst snd]. split.
    + replace ((cos h * f - sin h * r) * cos h + (sin h * f + cos h * r) * sin h)
        with (f * (cos h * cos h + sin h * sin h)) by ring.
      rewrite Hone. ring.
    + replace ((sin h * f + cos h * r) * cos h - (cos h * f - sin h * r) * sin h)
        with (r * (cos h * cos h + sin h * sin h)) by ring.
      rewrite Hone. ring.
  - f_equal.
    destruct (decide (DroneWsBridge.frame args = Some "body")) as [Hf | Hf].
    + rewrite (Hbody Hf). cbn [fst snd].
      replace ((cos h * f - sin h * r) * (cos h * f - sin h * r)
               + (sin h * f + cos h * r) * (sin h * f + cos h * r))
        with ((f * f + r * r) * (cos h * cos h + sin h * sin h)) by ring.
      rewrite Hone. ring.
    + rewrite (Hworld Hf). cbn [fst snd]. ring.
  - unfold target, DroneWsBridge.nextTarget.
    destruct (String.eqb _ _); reflexivity.
Qed.

(** A vehicle heading along +Z asked to go 2 m forward and 1 m to its right
    in its own frame. *)
Lemma relative_move_keeps_the_distances_witness :
  let state :=
    {| DroneState.position :=
         {| Position.x := 0; Position.y := 1; Position.z := 0 |};
       DroneState.isActive := false;
       DroneState.queueLength := 0;
       DroneState.state := IDLE;
       DroneState.currentCommand := None;
       DroneState.headingRad := PI / 2 |} in
  let args :=
    {| DroneWsBridge.frame := Some "body";
       DroneWsBridge.forward := Some 2;
       DroneWsBridge.right := Some 1;
       DroneWsBridge.up := None;
       DroneWsBridge.options := None |} in
  let d := displacement state (DroneWsBridge.nextTarget state args) in
  fst d * cos (PI / 2) + snd d * sin (PI / 2) = 2
  /\ snd d * cos (PI / 2) - fst d * sin (PI / 2) = 1.
Proof.
  intros state args d.
  apply (proj1 (relative_move_keeps_the_distances state args)).
  reflexivity.
Defined.

(** X21. The world frame is the body frame of a vehicle heading to -Z, the
    top of the map: for a vehicle whose heading is -PI/2, a relative move
    has the same target in both frames. *)
Theorem world_frame_is_body_frame_heading_up :
  forall (state : DroneState.t) (args : DroneWsBridge.RelativeArgs)
         (other : option string),
    DroneState.headingRad state = - (PI / 2) ->
    other <> Some "body" ->
    let in_frame (fr : option string) :=
      {| DroneWsBridge.frame := fr;
         DroneWsBridge.forward := DroneWsBridge.forward args;
         DroneWsBridge.right := DroneWsBridge.right args;
         DroneWsBridge.up := DroneWsBridge.up args;
         DroneWsBridge.options := DroneWsBridge.options args |} in
    DroneWsBridge.nextTarget state (in_frame (Some "body"))
    = DroneWsBridge.nextTarget state (in_frame other).
Proof.
  intros state args other Hh Hother in_frame.
  assert (Hw : String.eqb (nullish other "world") "body" = false).
  { destruct (String.eqb (nullish other "world") "body") eqn:E;
      [| reflexivity].
    exfalso. apply Hother. apply String.eqb_eq in E.
    destruct other as [s |]; cbn in E; [congruence | discriminate]. }
  unfold DroneWsBridge.nextTarget, in_frame.
  cbn [DroneWsBridge.frame DroneWsBridge.forward DroneWsBridge.right
       DroneWsBridge.up].
  rewrite Hw.
  cbn [nullish String.eqb Ascii.eqb Bool.eqb].
  rewrite cos_quarter_turn, sin_quarter_turn, Hh.
  rewrite cos_neg, sin_neg, cos_PI2, sin_PI2.
  f_equal; ring.
Qed.

(** With no frame given, the world frame is used. *)
Lemma world_frame_is_body_frame_heading_up_witness :
  let pos := {| Position.x := 1; Position.y := 1; Position.z := 1 |} in
  let args (fr : option string) :=
    {| DroneWsBridge.frame := fr;
       DroneWsBridge.forward := Some 2;
       DroneWsBridge.right := Some 1;
       DroneWsBridge.up := None;
       DroneWsBridge.options := None |} in
  DroneWsBridge.nextTarget (heading_up pos) (args (Some "body"))
  = DroneWsBridge.nextTarget (heading_up pos) (args None).
Proof.
  intros pos args.
  apply (world_frame_is_body_frame_heading_up (heading_up pos) (args None) None).
  - reflexivity.
  - discriminate.
Defined.

Lemma moveRelative_queue (args : DroneWsBridge.RelativeArgs)
    (ctl : DroneControl.t) (rt : Runtime) :
  let r := DroneWsBridge.moveRelative args ctl rt in
  map targetOf (DroneControl.commandQueue (fst (fst r)))
  = (map targetOf (DroneControl.commandQueue ctl)
     ++ [Some (DroneWsBridge.nextTarget (DroneControl.getState ctl) args)])%list
  /\ DroneControl.movement (fst (fst r)) = DroneControl.movement ctl
  /\ DroneControl.currentCommand (fst (fst r)) = DroneControl.currentCommand ctl
  /\ DroneControl.state (fst (fst r)) = DroneControl.state ctl
  /\ promises (snd (fst r)) = promises rt.
Proof.
  intros r. unfold r, DroneWsBridge.moveRelative, DroneControl.moveTo,
    new_promise, DroneControl.enqueue.
  cbn [fst snd DroneControl.commandQueue DroneControl.with_commandQueue
       DroneControl.movement DroneControl.currentCommand DroneControl.state
       promises].
  split; [| auto].
  rewrite map_app. f_equal. cbn [map]. unfold targetOf.
  cbn [Command.variant Command.new_MoveToCommand Command.new_base nullish].
  destruct (DroneWsBridge.nextTarget (DroneControl.getState ctl) args);
    reflexivity.
Qed.

(** X22. A relative move is resolved when it is requested, against the
    position and heading the vehicle has then, and queued behind what is in
    flight without cancelling anything. Relative moves requested one after
    the other before the vehicle has moved therefore all aim at the same
    point: they do not add up. *)
Theorem relative_moves_do_not_add_up :
  forall (args : DroneWsBridge.RelativeArgs) (ctl : DroneControl.t)
         (rt : Runtime),
    let target := DroneWsBridge.nextTarget (DroneControl.getState ctl) args in
    let r1 := DroneWsBridge.moveRelative args ctl rt in
    let r2 := DroneWsBridge.moveRelative args (fst (fst r1)) (snd (fst r1)) in
    map targetOf (DroneControl.commandQueue (fst (fst r2)))
    = (map targetOf (DroneControl.commandQueue ctl)
       ++ [Some target; Some target])%list
    /\ DroneControl.currentCommand (fst (fst r2))
       = DroneControl.currentCommand ctl
    /\ promises (snd (fst r2)) = promises rt
    /\ snd r1 <> snd r2.
Proof.
  intros args ctl rt target r1 r2.
  destruct (moveRelative_queue args ctl rt) as (Q1 & M1 & C1 & _ & P1).
  destruct (moveRelative_queue args (fst (fst r1)) (snd (fst r1)))
    as (Q2 & _ & C2 & _ & P2).
  fold r1 in Q1, M1, C1, P1. fold r2 in Q2, C2, P2.
  assert (Ht : DroneWsBridge.nextTarget (DroneControl.getState (fst (fst r1)))
                 args = target).
  { unfold target, DroneWsBridge.nextTarget, DroneControl.getState.
    cbn [DroneState.position DroneState.headingRad]. rewrite M1.
    reflexivity. }
  rewrite Q2, Q1, Ht, <- app_assoc, C2, C1, P2, P1.
  split; [reflexivity |]. split; [reflexivity |]. split; [reflexivity |].
  unfold r2, r1, DroneWsBridge.moveRelative, DroneControl.moveTo, new_promise,
    DroneControl.enqueue.
  cbn [fst snd Command.promise Command.new_MoveToCommand Command.new_base
       nextPromise].
  lia.
Qed.

(** ** The bridge and its missions *)

Lemma runMission_missions (waypoints : list Waypoint.t)
    (continueOnError : option bool) (timeoutMs : option R) (now : R)
    (b : DroneWsBridge.t) :
  let b' := fst (DroneWsBridge._runMission (Some waypoints) continueOnError
                   timeoutMs now b) in
  exists m : Mission.t,
    DroneWsBridge.missions b'
    = (DroneWsBridge.missions (DroneWsBridge.cancelCurrent b) ++ [m])%list
    /\ DroneWsBridge.currentMission b'
       = Some (length (DroneWsBridge.missions (DroneWsBridge.cancelCurrent b))).
Proof. eexists. split; reflexivity. Qed.

Lemma cancelCurrent_length (b : DroneWsBridge.t) :
  length (DroneWsBridge.missions (DroneWsBridge.cancelCurrent b))
  = length (DroneWsBridge.missions b).
Proof.
  unfold DroneWsBridge.cancelCurrent.
  destruct (DroneWsBridge.currentMission b) as [i |]; [| reflexivity].
  destruct (DroneWsBridge.missions b !! i); [| reflexivity].
  cbn [DroneWsBridge.store DroneWsBridge.missions]. apply length_insert.
Qed.

Lemma cancelCurrent_other (b : DroneWsBridge.t) (j : nat) :
  DroneWsBridge.currentMission b <> Some j ->
  DroneWsBridge.missions (DroneWsBridge.cancelCurrent b) !! j
  = DroneWsBridge.missions b !! j.
Proof.
  intros Hne. unfold DroneWsBridge.cancelCurrent.
  destruct (DroneWsBridge.currentMission b) as [i |]; [| reflexivity].
  destruct (DroneWsBridge.missions b !! i); [| reflexivity].
  cbn [DroneWsBridge.store DroneWsBridge.missions].
  apply list_lookup_insert_ne. congruence.
Qed.

Lemma cancelCurrent_current (b : DroneWsBridge.t) (j : nat) (mj : Mission.t) :
  DroneWsBridge.currentMission b = Some j ->
  DroneWsBridge.missions b !! j = Some mj ->
  DroneWsBridge.missions (DroneWsBridge.cancelCurrent b) !! j
  = Some (Mission.with_cancelled true mj).
Proof.
  intros Hc Hj. unfold DroneWsBridge.cancelCurrent. rewrite Hc, Hj.
  cbn [DroneWsBridge.store DroneWsBridge.missions].
  rewrite list_lookup_insert_eq by (apply lookup_lt_Some in Hj; exact Hj).
  rewrite cancel_mission_fields. reflexivity.
Qed.

(** X23. The bridge forgets the mission that is running when an earlier one
    settles. Every call of [_runMission] sets [currentMission] to null when
    the mission it started settles, whichever mission [currentMission] holds
    by then. So once a mission that was superseded has settled, the bridge
    holds no mission although the later one is still under way, and the next
    [run_mission] starts a mission without cancelling it: the running
    mission keeps its cancellation flag unset. As long as the bridge holds
    the running mission, [run_mission] does cancel it. *)
Theorem settled_mission_clears_currentMission :
  forall (b : DroneWsBridge.t) (i j : nat) (mi mj : Mission.t)
         (waypoints : list Waypoint.t) (continueOnError : option bool)
         (timeoutMs : option R) (now : R),
    DroneWsBridge.currentMission b = Some j ->
    i <> j ->
    DroneWsBridge.missions b !! i = Some mi ->
    Mission.promise mi <> None ->
    DroneWsBridge.missions b !! j = Some mj ->
    let b' := DroneWsBridge.missionSettled i b in
    let next (b0 : DroneWsBridge.t) :=
      fst (DroneWsBridge._runMission (Some waypoints) continueOnError
             timeoutMs now b0) in
    DroneWsBridge.currentMission b' = None
    /\ DroneWsBridge.missions b' = DroneWsBridge.missions b
    /\ DroneWsBridge.control b' = DroneWsBridge.control b
    /\ DroneWsBridge.missions (next b') !! j = Some mj
    /\ DroneWsBridge.missions (next b) !! j
       = Some (Mission.with_cancelled true mj).
Proof.
  intros b i j mi mj waypoints continueOnError timeoutMs now
    Hcur Hij Hi Hp Hj b' next.
  assert (Eb' : b' = {| DroneWsBridge.control := DroneWsBridge.control b;
                        DroneWsBridge.runtime := DroneWsBridge.runtime b;
                        DroneWsBridge.missions := DroneWsBridge.missions b;
                        DroneWsBridge.currentMission := None |}).
  { unfold b', DroneWsBridge.missionSettled. rewrite Hi.
    destruct (Mission.promise mi); [reflexivity | contradiction]. }
  split; [rewrite Eb'; reflexivity |].
  split; [rewrite Eb'; reflexivity |].
  split; [rewrite Eb'; reflexivity |].
  split.
  - destruct (runMission_missions waypoints continueOnError timeoutMs now b')
      as (m & Em & _).
    fold (next b') in Em. rewrite Em.
    rewrite lookup_app_l.
    + rewrite cancelCurrent_other; [rewrite Eb'; exact Hj |].
      rewrite Eb'. discriminate.
    + rewrite cancelCurrent_length, Eb'. apply lookup_lt_Some in Hj. exact Hj.
  - destruct (runMission_missions waypoints continueOnError timeoutMs now b)
      as (m & Em & _).
    fold (next b) in Em. rewrite Em.
    rewrite lookup_app_l.
    + apply cancelCurrent_current; assumption.
    + rewrite cancelCurrent_length. apply lookup_lt_Some in Hj. exact Hj.
Qed.

Lemma first_mission_resumed_state :
  DroneWsBridge.currentMission first_mission_resumed = Some 1%nat
  /\ (exists mi : Mission.t,
         DroneWsBridge.missions first_mission_resumed !! 0%nat = Some mi
         /\ Mission.state mi = Mission.FAILED
         /\ Mission.promise mi
            = Some (Mission.MRejected Command.cancelled_error))
  /\ (exists mj : Mission.t,
         DroneWsBridge.missions first_mission_resumed !! 1%nat = Some mj
         /\ Mission.state mj = Mission.RUNNING
         /\ Mission.cancelled mj = false)
  /\ queuedPromises (DroneWsBridge.control first_mission_resumed) = [1%nat].
Proof.
  unfold first_mission_resumed, second_mission_started.
  assert (EA : fst (DroneWsBridge._runMission (Some [move_east; touch_down])
                      None None 1 idle_bridge)
               = {| DroneWsBridge.control :=
                      Mission.controller (fst (Mission.run 1 (two_waypoints None)));
                    DroneWsBridge.runtime :=
                      Mission.runtime (fst (Mission.run 1 (two_waypoints None)));
                    DroneWsBridge.missions :=
                      [Mission.mission (fst (Mission.run 1 (two_waypoints None)))];
                    DroneWsBridge.currentMission := Some 0%nat |})
    by reflexivity.
  rewrite EA, run_two_waypoints.
  cbn [Mission.controller Mission.runtime Mission.mission].
  unfold DroneWsBridge._runMission. cbn [fst].
  unfold Mission.run.
  cbn [Mission.mission Mission.new Mission.state Mission.state_eqb negb fst
       DroneWsBridge.world].
  rewrite (iterate_dispatch 2 0 _ touch_down);
    [| reflexivity | reflexivity | cbn; lra].
  cbv zeta.
  split; [reflexivity |].
  split; [eexists; split; [reflexivity | split; reflexivity] |].
  split; [eexists; split; [reflexivity | split; reflexivity] |].
  reflexivity.
Qed.

(** The first mission, superseded by the second, fails and settles: the
    bridge forgets the second, which is running, and a third mission is
    started without cancelling it. *)
Lemma settled_mission_clears_currentMission_witness :
  let b' := DroneWsBridge.missionSettled 0 first_mission_resumed in
  let b'' := fst (DroneWsBridge._runMission (Some [touch_down]) None None 4 b') in
  DroneWsBridge.currentMission first_mission_resumed = Some 1%nat
  /\ DroneWsBridge.currentMission b' = None
  /\ exists mj : Mission.t,
       DroneWsBridge.missions b'' !! 1%nat = Some mj
       /\ Mission.state mj = Mission.RUNNING
       /\ Mission.cancelled mj = false.
Proof.
  intros b' b''.
  destruct first_mission_resumed_state
    as (Hcur & (mi & Hi & _ & Hp) & (mj & Hj & Hs & Hc) & _).
  assert (Hp' : Mission.promise mi <> None) by (rewrite Hp; discriminate).
  assert (Hne : 0%nat <> 1%nat) by discriminate.
  destruct (settled_mission_clears_currentMission first_mission_resumed
              0 1 mi mj [touch_down] None None 4 Hcur Hne Hi Hp' Hj)
    as (H1 & _ & _ & H4 & _).
  split; [exact Hcur |]. split; [exact H1 |].
  exists mj. split; [exact H4 | split; [exact Hs | exact Hc]].
Defined.

(** * Properties of the MCP server's bridge *)

(** ** Request ids *)

Lemma pretty_N_go_plain (x : N) (s : string) :
  plain s -> plain (pretty_N_go x s).
Proof.
  revert s. induction (N.lt_wf_0 x) as [x _ IH]; intros s Hs.
  assert (x = 0 \/ 0 < x)%N as [-> | Hx] by lia.
  - rewrite pretty_N_go_0. exact Hs.
  - rewrite pretty_N_go_step by exact Hx. apply IH.
    + apply N.div_lt; [exact Hx | reflexivity].
    + cbn [plain]. split; [| exact Hs].
      unfold pretty_N_char.
      repeat match goal with
             | |- context [match ?y with _ => _ end] => destruct y
             end; discriminate.
Qed.

Lemma pretty_N_plain (x : N) : plain (pretty x).
Proof.
  unfold pretty, pretty_N. destruct (decide (x = 0%N)).
  - cbn. split; [discriminate | exact I].
  - apply pretty_N_go_plain. exact I.
Qed.

Lemma plain_prefix (d1 d2 r1 r2 : string) :
  plain d1 -> plain d2 ->
  d1 +:+ String "_" r1 = d2 +:+ String "_" r2 ->
  d1 = d2 /\ r1 = r2.
Proof.
  revert d2. induction d1 as [| a d1 IH]; intros [| a2 d2] H1 H2 E; cbn in *.
  - injection E as E. auto.
  - injection E as Ea _. destruct H2 as [H2 _]. congruence.
  - injection E as Ea _. destruct H1 as [H1 _]. congruence.
  - injection E as Ea E. destruct H1 as [_ H1]. destruct H2 as [_ H2].
    destruct (IH d2 H1 H2 E) as [-> ->]. subst a2. auto.
Qed.

Lemma requestIdOf_inj (c1 n1 c2 n2 : N) :
  BrowserBridge.requestIdOf c1 n1 = BrowserBridge.requestIdOf c2 n2 ->
  c1 = c2 /\ n1 = n2.
Proof.
  unfold BrowserBridge.requestIdOf. intros E.
  cbn [String.append] in E. injection E as E.
  apply plain_prefix in E as [Ec En]; try apply pretty_N_plain.
  split; [apply (inj pretty), Ec | apply (inj pretty), En].
Qed.

(** ** The promises of the bridge *)

Lemma bridge_settle_pending (p : nat) (o : BrowserBridge.Outcome)
    (os : gmap nat BrowserBridge.Outcome) :
  os !! p = None -> BrowserBridge.settle p o os !! p = Some o.
Proof.
  intros H. unfold BrowserBridge.settle. rewrite H. apply lookup_insert_eq.
Qed.

Lemma bridge_settle_other (p q : nat) (o : BrowserBridge.Outcome)
    (os : gmap nat BrowserBridge.Outcome) :
  p <> q -> BrowserBridge.settle q o os !! p = os !! p.
Proof.
  intros H. unfold BrowserBridge.settle. destruct (os !! q); [reflexivity |].
  apply lookup_insert_ne. congruence.
Qed.

Lemma bridge_settle_settled (p q : nat) (o o' : BrowserBridge.Outcome)
    (os : gmap nat BrowserBridge.Outcome) :
  os !! p = Some o -> BrowserBridge.settle q o' os !! p = Some o.
Proof.
  intros H. unfold BrowserBridge.settle. destruct (os !! q) eqn:E; [exact H |].
  rewrite lookup_insert_ne; [exact H | congruence].
Qed.

Lemma bridge_settle_is_Some (p : nat) (o : BrowserBridge.Outcome)
    (os : gmap nat BrowserBridge.Outcome) :
  is_Some (BrowserBridge.settle p o os !! p).
Proof.
  destruct (os !! p) as [o0 |] eqn:E.
  - exists o0. apply bridge_settle_settled, E.
  - exists o. apply bridge_settle_pending, E.
Qed.

Lemma bridge_settle_Some (p q : nat) (o o' : BrowserBridge.Outcome)
    (os : gmap nat BrowserBridge.Outcome) :
  BrowserBridge.settle q o' os !! p = Some o ->
  os !! p = Some o \/ (p = q /\ os !! p = None).
Proof.
  intros H. destruct (decide (p = q)) as [-> | Hne].
  - destruct (os !! q) as [o0 |] eqn:E; [| auto].
    left. rewrite (bridge_settle_settled q q o0 o' os E) in H. exact H.
  - left. rewrite bridge_settle_other in H by exact Hne. exact H.
Qed.

(** ** What the bridge keeps *)

Lemma new_sound : sound BrowserBridge.new.
Proof.
  split; [| split].
  - split; [| split].
    + intros rid pd H. cbn in H. rewrite lookup_empty in H. discriminate H.
    + intros tm cb H. cbn in H. rewrite lookup_empty in H. discriminate H.
    + intros p H. cbn in H. lia.
  - split; [| split; [| split]].
    + intros rid pd H. cbn in H. rewrite lookup_empty in H. discriminate H.
    + intros p o H. cbn in H. rewrite lookup_empty in H. discriminate H.
    + intros tm cb H. cbn in H. rewrite lookup_empty in H. discriminate H.
    + intros rid1 rid2 pd1 pd2 H. cbn in H. rewrite lookup_empty in H.
      discriminate H.
  - split.
    + intros rid pd H. cbn in H. rewrite lookup_empty in H. discriminate H.
    + intros ws r H. contradiction H.
Qed.

(** A request is registered. *)
Lemma registered_sound (b b' : BrowserBridge.t) (ws : nat)
    (r : BrowserBridge.Request) (now : N) (msg : string) :
  sound b ->
  let p := BrowserBridge.nextPromise b in
  let tm := BrowserBridge.nextTimer b in
  let rid :=
    BrowserBridge.requestIdOf (BrowserBridge.requestCounter b + 1) now in
  BrowserBridge.pendingRequests b'
  = <[rid := {| BrowserBridge.promise := p; BrowserBridge.timer := tm |}]>
      (BrowserBridge.pendingRequests b) ->
  BrowserBridge.requestCounter b' = (BrowserBridge.requestCounter b + 1)%N ->
  BrowserBridge.outcomes b' = BrowserBridge.outcomes b ->
  BrowserBridge.nextPromise b' = S p ->
  BrowserBridge.timers b'
  = <[tm := {| BrowserBridge.t_requestId := rid;
               BrowserBridge.t_promise := p;
               BrowserBridge.t_message := msg |}]>
      (BrowserBridge.timers b) ->
  BrowserBridge.nextTimer b' = S tm ->
  BrowserBridge.sent b' = (BrowserBridge.sent b ++ [(ws, r)])%list ->
  BrowserBridge.r_requestId r = rid ->
  BrowserBridge.pendingRequests b !! rid = None /\ sound b'.
Proof.
  intros ((T1 & T2 & T3) & (H1 & H2 & H3 & H4) & (N1 & N2))
    p tm rid Epr Ec Eo Enp Etm Ent Es Er.
  assert (Frid : BrowserBridge.pendingRequests b !! rid = None).
  { destruct (BrowserBridge.pendingRequests b !! rid) as [pd |] eqn:E;
      [| reflexivity].
    destruct (N1 rid pd E) as (c & n & Eid & Hle).
    apply requestIdOf_inj in Eid as [Eid _]. lia. }
  assert (Fp : BrowserBridge.outcomes b !! p = None).
  { destruct (BrowserBridge.outcomes b !! p) as [o |] eqn:E; [| reflexivity].
    apply H2 in E. unfold p in E. lia. }
  assert (Ftm : BrowserBridge.timers b !! tm = None).
  { destruct (BrowserBridge.timers b !! tm) as [cb |] eqn:E; [| reflexivity].
    apply H3 in E. unfold tm in E. lia. }
  split; [exact Frid |].
  assert (Dp : p = BrowserBridge.nextPromise b) by reflexivity.
  assert (Dtm : tm = BrowserBridge.nextTimer b) by reflexivity.
  assert (Drid : rid = BrowserBridge.requestIdOf
                         (BrowserBridge.requestCounter b + 1) now)
    by reflexivity.
  clearbody p tm rid.
  split; [| split].
  - (* tidy *)
    split; [| split].
    + intros rid' pd'. rewrite Epr, Eo, Etm.
      intros [[<- <-] | [Hne E]]%lookup_insert_Some.
      * cbn. split; [exact Fp |]. exists msg. apply lookup_insert_eq.
      * destruct (T1 rid' pd' E) as (Ho & m & Ht). split; [exact Ho |].
        exists m. rewrite lookup_insert_ne; [exact Ht |].
        destruct (H1 rid' pd' E) as [_ Hlt]. lia.
    + intros tm' cb. rewrite Epr, Etm.
      intros [[<- <-] | [Hne E]]%lookup_insert_Some.
      * cbn. eexists. split; [apply lookup_insert_eq |]. auto.
      * destruct (T2 tm' cb E) as (pd & Hpd & Ht & Hp). exists pd.
        split; [| auto]. rewrite lookup_insert_ne; [exact Hpd |].
        intros Eq. rewrite <- Eq, Frid in Hpd. discriminate.
    + intros p'. rewrite Enp, Eo, Epr. intros Hlt Hnone.
      destruct (decide (p' = p)) as [-> | Hne].
      * eexists _, _. split; [apply lookup_insert_eq | reflexivity].
      * destruct (T3 p') as (rid0 & pd0 & E0 & Hp0); [lia | exact Hnone |].
        exists rid0, pd0. split; [| exact Hp0].
        rewrite lookup_insert_ne; [exact E0 |].
        intros Eq. rewrite <- Eq, Frid in E0. discriminate.
  - (* hygienic *)
    split; [| split; [| split]].
    + intros rid' pd'. rewrite Epr, Enp, Ent.
      intros [[<- <-] | [Hne E]]%lookup_insert_Some.
      * cbn. lia.
      * destruct (H1 rid' pd' E). lia.
    + intros p' o. rewrite Eo, Enp. intros E. apply H2 in E. lia.
    + intros tm' cb. rewrite Etm, Ent.
      intros [[<- <-] | [Hne E]]%lookup_insert_Some; [lia |].
      apply H3 in E. lia.
    + intros rid1 rid2 pd1 pd2. rewrite Epr.
      intros [[<- <-] | [Hne1 E1]]%lookup_insert_Some
             [[<- <-] | [Hne2 E2]]%lookup_insert_Some; cbn.
      * reflexivity.
      * intros Eq. destruct (H1 rid2 pd2 E2) as [Hlt _]. lia.
      * intros Eq. destruct (H1 rid1 pd1 E1) as [Hlt _]. lia.
      * apply (H4 rid1 rid2 pd1 pd2 E1 E2).
  - (* numbered *)
    split.
    + intros rid' pd'. rewrite Epr, Ec.
      intros [[<- <-] | [Hne E]]%lookup_insert_Some.
      * exists (BrowserBridge.requestCounter b + 1)%N, now.
        split; [exact Drid | lia].
      * destruct (N1 rid' pd' E) as (c & n & Eid & Hle).
        exists c, n. split; [exact Eid | lia].
    + intros ws' r'. rewrite Es, Ec. intros [Hin | [Heq | []]]%in_app_or.
      * destruct (N2 ws' r' Hin) as (c & n & Eid & Hle).
        exists c, n. split; [exact Eid | lia].
      * injection Heq as <- <-.
        exists (BrowserBridge.requestCounter b + 1)%N, now.
        split; [rewrite Er; exact Drid | lia].
Qed.

(** A request is refused: the promise is rejected at once. *)
Lemma refused_sound (b b' : BrowserBridge.t) (e : Error) :
  sound b ->
  let p := BrowserBridge.nextPromise b in
  BrowserBridge.pendingRequests b' = BrowserBridge.pendingRequests b ->
  BrowserBridge.requestCounter b' = BrowserBridge.requestCounter b ->
  BrowserBridge.outcomes b'
  = BrowserBridge.settle p (BrowserBridge.Failed e) (BrowserBridge.outcomes b) ->
  BrowserBridge.nextPromise b' = S p ->
  BrowserBridge.timers b' = BrowserBridge.timers b ->
  BrowserBridge.nextTimer b' = BrowserBridge.nextTimer b ->
  BrowserBridge.sent b' = BrowserBridge.sent b ->
  sound b'.
Proof.
  intros ((T1 & T2 & T3) & (H1 & H2 & H3 & H4) & (N1 & N2))
    p Epr Ec Eo Enp Etm Ent Es.
  assert (Dp : p = BrowserBridge.nextPromise b) by reflexivity.
  clearbody p.
  split; [| split].
  - split; [| split].
    + intros rid pd. rewrite Epr, Eo, Etm. intros E.
      destruct (T1 rid pd E) as (Ho & Ht). split; [| exact Ht].
      rewrite bridge_settle_other; [exact Ho |].
      destruct (H1 rid pd E) as [Hlt _]. lia.
    + intros tm cb. rewrite Epr, Etm. apply T2.
    + intros p'. rewrite Enp, Eo, Epr. intros Hlt Hnone.
      destruct (decide (p' = p)) as [-> | Hne].
      * destruct (bridge_settle_is_Some p (BrowserBridge.Failed e)
                    (BrowserBridge.outcomes b)) as [o Ho].
        congruence.
      * rewrite bridge_settle_other in Hnone by exact Hne.
        apply T3; [lia | exact Hnone].
  - split; [| split; [| split]].
    + intros rid pd. rewrite Epr, Enp, Ent. intros E.
      destruct (H1 rid pd E). lia.
    + intros p' o. rewrite Eo, Enp.
      intros [E | [-> _]]%bridge_settle_Some; [| lia].
      apply H2 in E. lia.
    + intros tm cb. rewrite Etm, Ent. apply H3.
    + intros rid1 rid2 pd1 pd2. rewrite Epr. apply H4.
  - split.
    + intros rid pd. rewrite Epr, Ec. apply N1.
    + intros ws r. rewrite Es, Ec. apply N2.
Qed.

(** A listed request is settled: by its answer or by its timer. *)
Lemma settled_sound (b b' : BrowserBridge.t) (rid : string)
    (pd : BrowserBridge.Pending) (o : BrowserBridge.Outcome) :
  sound b ->
  BrowserBridge.pendingRequests b !! rid = Some pd ->
  BrowserBridge.pendingRequests b' = delete rid (BrowserBridge.pendingRequests b) ->
  BrowserBridge.requestCounter b' = BrowserBridge.requestCounter b ->
  BrowserBridge.outcomes b'
  = BrowserBridge.settle (BrowserBridge.promise pd) o (BrowserBridge.outcomes b) ->
  BrowserBridge.nextPromise b' = BrowserBridge.nextPromise b ->
  BrowserBridge.timers b' = delete (BrowserBridge.timer pd) (BrowserBridge.timers b) ->
  BrowserBridge.nextTimer b' = BrowserBridge.nextTimer b ->
  BrowserBridge.sent b' = BrowserBridge.sent b ->
  sound b'.
Proof.
  intros ((T1 & T2 & T3) & (H1 & H2 & H3 & H4) & (N1 & N2))
    Hpd Epr Ec Eo Enp Etm Ent Es.
  destruct (T1 rid pd Hpd) as (Hpend & m & Htimer).
  split; [| split].
  - split; [| split].
    + intros rid' pd'. rewrite Epr, Eo, Etm.
      intros [Hne E]%lookup_delete_Some.
      destruct (T1 rid' pd' E) as (Ho & m' & Ht).
      split.
      * rewrite bridge_settle_other; [exact Ho |].
        intros Eq. apply Hne. apply (H4 rid rid' pd pd' Hpd E). congruence.
      * exists m'. rewrite lookup_delete_ne; [exact Ht |].
        intros Eq. rewrite Eq, Ht in Htimer. injection Htimer as Er _.
        congruence.
    + intros tm cb. rewrite Epr, Etm. intros [Hne E]%lookup_delete_Some.
      destruct (T2 tm cb E) as (pd' & Hpd' & Ht & Hp). exists pd'.
      split; [| auto]. rewrite lookup_delete_ne; [exact Hpd' |].
      intros Eq. rewrite <- Eq, Hpd in Hpd'. injection Hpd' as <-.
      congruence.
    + intros p'. rewrite Enp, Eo, Epr. intros Hlt Hnone.
      destruct (decide (p' = BrowserBridge.promise pd)) as [-> | Hne].
      * destruct (bridge_settle_is_Some (BrowserBridge.promise pd) o
                    (BrowserBridge.outcomes b)) as [o' Ho'].
        congruence.
      * rewrite bridge_settle_other in Hnone by exact Hne.
        destruct (T3 p' Hlt Hnone) as (rid0 & pd0 & E0 & Hp0).
        exists rid0, pd0. split; [| exact Hp0].
        rewrite lookup_delete_ne; [exact E0 |].
        intros Eq. rewrite <- Eq, Hpd in E0. injection E0 as <-. congruence.
  - split; [| split; [| split]].
    + intros rid' pd'. rewrite Epr, Enp, Ent.
      intros [_ E]%lookup_delete_Some. apply (H1 rid' pd' E).
    + intros p' o'. rewrite Eo, Enp.
      intros [E | [-> _]]%bridge_settle_Some; [apply (H2 p' o' E) |].
      apply (H1 rid pd Hpd).
    + intros tm cb. rewrite Etm, Ent. intros [_ E]%lookup_delete_Some.
      apply (H3 tm cb E).
    + intros rid1 rid2 pd1 pd2. rewrite Epr.
      intros [_ E1]%lookup_delete_Some [_ E2]%lookup_delete_Some.
      apply (H4 rid1 rid2 pd1 pd2 E1 E2).
  - split.
    + intros rid' pd'. rewrite Epr, Ec. intros [_ E]%lookup_delete_Some.
      apply (N1 rid' pd' E).
    + intros ws r. rewrite Es, Ec. apply N2.
Qed.

(** ** The browser disconnects *)

Lemma rejectAll_cons (entry : string * BrowserBridge.Pending)
    (entries : list (string * BrowserBridge.Pending))
    (st : gmap nat BrowserBridge.Outcome * gmap nat BrowserBridge.Timeout) :
  BrowserBridge.rejectAll (entry :: entries) st
  = BrowserBridge.rejectAll entries
      (BrowserBridge.settle (BrowserBridge.promise (snd entry))
         (BrowserBridge.Failed BrowserBridge.disconnected) (fst st),
       delete (BrowserBridge.timer (snd entry)) (snd st)).
Proof. reflexivity. Qed.

Lemma rejectAll_settled (entries : list (string * BrowserBridge.Pending))
    (st : gmap nat BrowserBridge.Outcome * gmap nat BrowserBridge.Timeout)
    (p : nat) (o : BrowserBridge.Outcome) :
  fst st !! p = Some o ->
  fst (BrowserBridge.rejectAll entries st) !! p = Some o.
Proof.
  revert st. induction entries as [| e entries IH]; intros st H; [exact H |].
  rewrite rejectAll_cons. apply IH. cbn [fst].
  apply bridge_settle_settled, H.
Qed.

Lemma rejectAll_listed (entries : list (string * BrowserBridge.Pending))
    (st : gmap nat BrowserBridge.Outcome * gmap nat BrowserBridge.Timeout)
    (rid : string) (pd : BrowserBridge.Pending) :
  In (rid, pd) entries ->
  fst st !! BrowserBridge.promise pd = None ->
  fst (BrowserBridge.rejectAll entries st) !! BrowserBridge.promise pd
  = Some (BrowserBridge.Failed BrowserBridge.disconnected).
Proof.
  revert st. induction entries as [| e entries IH]; intros st Hin Hp;
    [contradiction |].
  rewrite rejectAll_cons.
  destruct (decide (BrowserBridge.promise (snd e) = BrowserBridge.promise pd))
    as [Eq | Hne].
  - apply rejectAll_settled. cbn [fst]. rewrite Eq.
    apply bridge_settle_pending, Hp.
  - destruct Hin as [-> | Hin]; [contradiction Hne; reflexivity |].
    apply IH; [exact Hin |]. cbn [fst].
    rewrite bridge_settle_other; [exact Hp | congruence].
Qed.

Lemma rejectAll_origin (entries : list (string * BrowserBridge.Pending))
    (st : gmap nat BrowserBridge.Outcome * gmap nat BrowserBridge.Timeout)
    (p : nat) (o : BrowserBridge.Outcome) :
  fst (BrowserBridge.rejectAll entries st) !! p = Some o ->
  fst st !! p = Some o
  \/ exists (rid : string) (pd : BrowserBridge.Pending),
       In (rid, pd) entries /\ BrowserBridge.promise pd = p.
Proof.
  revert st. induction entries as [| e entries IH]; intros st H; [left; exact H |].
  rewrite rejectAll_cons in H. apply IH in H as [H | (rid & pd & Hin & Hp)].
  - cbn [fst] in H. apply bridge_settle_Some in H as [H | [-> _]];
      [left; exact H |].
    right. exists (fst e), (snd e). split; [left; destruct e; reflexivity |].
    reflexivity.
  - right. exists rid, pd. split; [right; exact Hin | exact Hp].
Qed.

Lemma rejectAll_pending (entries : list (string * BrowserBridge.Pending))
    (st : gmap nat BrowserBridge.Outcome * gmap nat BrowserBridge.Timeout)
    (p : nat) :
  fst (BrowserBridge.rejectAll entries st) !! p = None -> fst st !! p = None.
Proof.
  intros H. destruct (fst st !! p) as [o |] eqn:E; [| reflexivity].
  rewrite (rejectAll_settled entries st p o E) in H. discriminate H.
Qed.

Lemma rejectAll_timer_kept (entries : list (string * BrowserBridge.Pending))
    (st : gmap nat BrowserBridge.Outcome * gmap nat BrowserBridge.Timeout)
    (tm : nat) (cb : BrowserBridge.Timeout) :
  snd (BrowserBridge.rejectAll entries st) !! tm = Some cb ->
  snd st !! tm = Some cb
  /\ forall (rid : string) (pd : BrowserBridge.Pending),
       In (rid, pd) entries -> BrowserBridge.timer pd <> tm.
Proof.
  revert st. induction entries as [| e entries IH]; intros st H.
  - split; [exact H | intros rid pd []].
  - rewrite rejectAll_cons in H. apply IH in H as [H Hall].
    cbn [snd] in H. apply lookup_delete_Some in H as [Hne H].
    split; [exact H |].
    intros rid pd [E | Hin]; [subst e; exact Hne | apply (Hall rid pd Hin)].
Qed.

Lemma onClose_sound (ws : nat) (b : BrowserBridge.t) :
  sound b -> sound (BrowserBridge.onClose ws b).
Proof.
  intros Hs. unfold BrowserBridge.onClose.
  destruct (bool_decide (BrowserBridge.browser b = Some ws)); [| exact Hs].
  destruct Hs as ((T1 & T2 & T3) & (H1 & H2 & H3 & H4) & (N1 & N2)).
  set (entries := map_to_list (BrowserBridge.pendingRequests b)).
  assert (Hent : forall rid pd,
             In (rid, pd) entries
             <-> BrowserBridge.pendingRequests b !! rid = Some pd).
  { intros rid pd. unfold entries.
    rewrite <- list_elem_of_In. apply elem_of_map_to_list. }
  split; [| split].
  - split; [| split]; cbn.
    + intros rid pd H. rewrite lookup_empty in H. discriminate H.
    + intros tm cb H. exfalso.
      apply rejectAll_timer_kept in H as [H Hall]. cbn [snd] in H.
      destruct (T2 tm cb H) as (pd & Hpd & Ht & _).
      apply (Hall (BrowserBridge.t_requestId cb) pd);
        [apply Hent, Hpd | exact Ht].
    + intros p Hlt H. exfalso.
      pose proof (rejectAll_pending _ _ _ H) as Hold. cbn [fst] in Hold.
      destruct (T3 p Hlt Hold) as (rid & pd & Hpd & <-).
      rewrite (rejectAll_listed entries _ rid pd) in H;
        [discriminate H | apply Hent, Hpd | exact Hold].
  - split; [| split; [| split]]; cbn.
    + intros rid pd H. rewrite lookup_empty in H. discriminate H.
    + intros p o H. apply rejectAll_origin in H as [H | (rid & pd & Hin & <-)].
      * apply (H2 p o H).
      * apply Hent in Hin. apply (H1 rid pd Hin).
    + intros tm cb H. apply rejectAll_timer_kept in H as [H _].
      apply (H3 tm cb H).
    + intros rid1 rid2 pd1 pd2 H. rewrite lookup_empty in H. discriminate H.
  - split; cbn.
    + intros rid pd H. rewrite lookup_empty in H. discriminate H.
    + exact N2.
Qed.

(** ** Every event keeps the bridge sound *)

Lemma handleResponse_sound (message : BrowserBridge.Message)
    (b : BrowserBridge.t) :
  sound b -> sound (BrowserBridge._handleResponse message b).
Proof.
  intros Hs. unfold BrowserBridge._handleResponse.
  destruct (bool_decide _); [| exact Hs].
  destruct (BrowserBridge.requestId message) as [rid |]; [| exact Hs].
  destruct (BrowserBridge.pendingRequests b !! rid) as [pd |] eqn:E;
    [| exact Hs].
  destruct (BrowserBridge.ok message);
    eapply (settled_sound b _ rid pd); try exact Hs; try exact E;
    reflexivity.
Qed.

Lemma timerFires_sound (tm : nat) (b : BrowserBridge.t) :
  sound b -> sound (BrowserBridge.timerFires tm b).
Proof.
  intros Hs. unfold BrowserBridge.timerFires.
  destruct (BrowserBridge.timers b !! tm) as [cb |] eqn:E; [| exact Hs].
  pose proof Hs as ((_ & T2 & _) & _).
  destruct (T2 tm cb E) as (pd & Hpd & <- & Hp).
  eapply (settled_sound b _ (BrowserBridge.t_requestId cb) pd
            (BrowserBridge.Failed (BrowserBridge.t_message cb)));
    try exact Hs; try exact Hpd; cbn; rewrite ?Hp; reflexivity.
Qed.

Lemma bridgeStep_sound (e : BridgeEvent) (b : BrowserBridge.t) :
  sound b -> sound (bridgeStep e b).
Proof.
  intros Hs. destruct e as [action args rs now | action rs now | tm
                           | ws message | ws]; cbn [bridgeStep].
  - unfold BrowserBridge.sendCommand.
    destruct (BrowserBridge.browser b) as [ws |];
      [destruct (BrowserBridge.is_open rs) |]; cbn [fst].
    + eapply (registered_sound b _ ws); try exact Hs; reflexivity.
    + eapply (refused_sound b); try exact Hs; reflexivity.
    + eapply (refused_sound b); try exact Hs; reflexivity.
  - unfold BrowserBridge.sendQuery.
    destruct (BrowserBridge.browser b) as [ws |];
      [destruct (BrowserBridge.is_open rs) |]; cbn [fst].
    + eapply (registered_sound b _ ws); try exact Hs; reflexivity.
    + eapply (refused_sound b); try exact Hs; reflexivity.
    + eapply (refused_sound b); try exact Hs; reflexivity.
  - apply timerFires_sound, Hs.
  - unfold BrowserBridge.onMessage.
    destruct (_ && _); [exact Hs | apply handleResponse_sound, Hs].
  - apply onClose_sound, Hs.
Qed.

Lemma bridgeSteps_sound (es : list BridgeEvent) (b : BrowserBridge.t) :
  sound b -> sound (bridgeSteps es b).
Proof.
  revert b. induction es as [| e es IH]; intros b Hs; [exact Hs |].
  cbn [bridgeSteps fold_left]. apply IH, bridgeStep_sound, Hs.
Qed.

(** X24. The bridge of the MCP server lists a request in [pendingRequests]
    exactly while its promise is pending, and exactly then its timeout
    timer is armed. Whatever the tools send and the sockets deliver, in any
    order: every listed request has a pending promise and an armed timer
    whose callback is that request's; every armed timer belongs to a listed
    request (no timer outlives the answer, the timeout or the disconnect of
    its request); and every promise the bridge has returned that is still
    pending is listed, so none is left without a timer. *)
Theorem pending_requests_have_armed_timers :
  forall es : list BridgeEvent, tidy (bridgeSteps es BrowserBridge.new).
Proof.
  intros es. apply (bridgeSteps_sound es BrowserBridge.new new_sound).
Qed.

(** X25. When the socket of the registered browser closes, every request
    is settled at once: [pendingRequests] is emptied, no timer stays armed,
    every promise that was pending is rejected with "Browser disconnected",
    every outcome that was settled is kept, and no promise the bridge has
    returned is left pending. *)
Theorem disconnect_settles_every_request :
  forall (es : list BridgeEvent) (ws : nat),
    let b := bridgeSteps es BrowserBridge.new in
    let b' := BrowserBridge.onClose ws b in
    BrowserBridge.browser b = Some ws ->
    BrowserBridge.browser b' = None
    /\ BrowserBridge.pendingRequests b' = ∅
    /\ (forall tm : nat, BrowserBridge.timers b' !! tm = None)
    /\ (forall p : nat,
           (p < BrowserBridge.nextPromise b)%nat ->
           BrowserBridge.outcomes b !! p = None ->
           BrowserBridge.outcomes b' !! p
           = Some (BrowserBridge.Failed BrowserBridge.disconnected))
    /\ (forall (p : nat) (o : BrowserBridge.Outcome),
           BrowserBridge.outcomes b !! p = Some o ->
           BrowserBridge.outcomes b' !! p = Some o)
    /\ (forall p : nat,
           (p < BrowserBridge.nextPromise b')%nat ->
           is_Some (BrowserBridge.outcomes b' !! p)).
Proof.
  intros es ws b b' Hb.
  pose proof (bridgeSteps_sound es BrowserBridge.new new_sound) as Hs.
  fold b in Hs.
  pose proof (onClose_sound ws b Hs) as ((_ & T2' & T3') & _).
  fold b' in T2', T3'.
  destruct Hs as ((T1 & T2 & T3) & _).
  assert (Eb' : b' = {| BrowserBridge.browser := None;
                        BrowserBridge.pendingRequests := ∅;
                        BrowserBridge.requestCounter :=
                          BrowserBridge.requestCounter b;
                        BrowserBridge.outcomes :=
                          fst (BrowserBridge.rejectAll
                                 (map_to_list (BrowserBridge.pendingRequests b))
                                 (BrowserBridge.outcomes b,
                                  BrowserBridge.timers b));
                        BrowserBridge.nextPromise := BrowserBridge.nextPromise b;
                        BrowserBridge.timers :=
                          snd (BrowserBridge.rejectAll
                                 (map_to_list (BrowserBridge.pendingRequests b))
                                 (BrowserBridge.outcomes b,
                                  BrowserBridge.timers b));
                        BrowserBridge.nextTimer := BrowserBridge.nextTimer b;
                        BrowserBridge.sent := BrowserBridge.sent b |}).
  { unfold b', BrowserBridge.onClose. rewrite Hb.
    rewrite bool_decide_eq_true_2 by reflexivity. reflexivity. }
  assert (Hnone : forall tm : nat, BrowserBridge.timers b' !! tm = None).
  { intros tm. destruct (BrowserBridge.timers b' !! tm) as [cb |] eqn:E;
      [| reflexivity].
    destruct (T2' tm cb E) as (pd & Hpd & _).
    rewrite Eb' in Hpd. cbn in Hpd. rewrite lookup_empty in Hpd.
    discriminate Hpd. }
  assert (Hall : forall p : nat,
             (p < BrowserBridge.nextPromise b')%nat ->
             is_Some (BrowserBridge.outcomes b' !! p)).
  { intros p Hlt. destruct (BrowserBridge.outcomes b' !! p) as [o |] eqn:E;
      [exists o; reflexivity |].
    destruct (T3' p Hlt E) as (rid & pd & Hpd & _).
    rewrite Eb' in Hpd. cbn in Hpd. rewrite lookup_empty in Hpd.
    discriminate Hpd. }
  split; [rewrite Eb'; reflexivity |].
  split; [rewrite Eb'; reflexivity |].
  split; [exact Hnone |].
  split; [| split; [| exact Hall]].
  - intros p Hlt Hp. destruct (T3 p Hlt Hp) as (rid & pd & Hpd & <-).
    rewrite Eb'. cbn [BrowserBridge.outcomes].
    apply (rejectAll_listed _ _ rid pd); [| exact Hp].
    apply list_elem_of_In, elem_of_map_to_list, Hpd.
  - intros p o Hp. rewrite Eb'. cbn [BrowserBridge.outcomes].
    apply rejectAll_settled. exact Hp.
Qed.

(** Two commands are waiting for their answers when the browser goes. *)
Lemma disconnect_settles_every_request_witness :
  let b := bridgeSteps
             [BrowserMessage 7 init_message;
              SendCommand "take_off" BrowserBridge.JNull BrowserBridge.OPEN 1000;
              SendQuery "get_state" BrowserBridge.OPEN 1001]
             BrowserBridge.new in
  let b' := BrowserBridge.onClose 7 b in
  BrowserBridge.pendingRequests b' = ∅
  /\ BrowserBridge.outcomes b' !! 0%nat
     = Some (BrowserBridge.Failed BrowserBridge.disconnected)
  /\ BrowserBridge.outcomes b' !! 1%nat
     = Some (BrowserBridge.Failed BrowserBridge.disconnected).
Proof.
  intros b b'.
  destruct (disconnect_settles_every_request
              [BrowserMessage 7 init_message;
               SendCommand "take_off" BrowserBridge.JNull BrowserBridge.OPEN 1000;
               SendQuery "get_state" BrowserBridge.OPEN 1001] 7 eq_refl)
    as (_ & H2 & _ & H4 & _).
  split; [exact H2 |].
  split; (apply H4; [vm_compute; lia | reflexivity]).
Defined.

(** ** Request ids are never reused *)

Lemma bridgeStep_sent (e : BridgeEvent) (b : BrowserBridge.t) :
  (BrowserBridge.sent (bridgeStep e b) = BrowserBridge.sent b
   /\ BrowserBridge.requestCounter (bridgeStep e b)
      = BrowserBridge.requestCounter b)
  \/ exists (ws : nat) (r : BrowserBridge.Request) (now : N),
       BrowserBridge.sent (bridgeStep e b)
       = (BrowserBridge.sent b ++ [(ws, r)])%list
       /\ BrowserBridge.r_requestId r
          = BrowserBridge.requestIdOf (BrowserBridge.requestCounter b + 1) now.
Proof.
  destruct e as [action args rs now | action rs now | tm | ws message | ws];
    cbn [bridgeStep].
  - unfold BrowserBridge.sendCommand.
    destruct (BrowserBridge.browser b) as [ws |];
      [destruct (BrowserBridge.is_open rs) |]; cbn [fst]; auto.
    right. eexists _, _, now. split; reflexivity.
  - unfold BrowserBridge.sendQuery.
    destruct (BrowserBridge.browser b) as [ws |];
      [destruct (BrowserBridge.is_open rs) |]; cbn [fst]; auto.
    right. eexists _, _, now. split; reflexivity.
  - left. unfold BrowserBridge.timerFires.
    destruct (BrowserBridge.timers b !! tm); auto.
  - left. unfold BrowserBridge.onMessage, BrowserBridge._handleResponse.
    destruct (_ && _); [auto |].
    destruct (bool_decide _); [| auto].
    destruct (BrowserBridge.requestId message) as [rid |]; [| auto].
    destruct (BrowserBridge.pendingRequests b !! rid); auto.
  - left. unfold BrowserBridge.onClose.
    destruct (bool_decide _); auto.
Qed.

(** X26. No two requests carry the same id. The id of a request is
    "req_", the counter after its increment, "_" and the clock reading;
    two ids are equal only if both numbers are, and the ids of the requests
    the bridge has sent are pairwise different, also when requests are sent
    within the same millisecond. *)
Theorem request_ids_are_never_reused :
  (forall c1 n1 c2 n2 : N,
      BrowserBridge.requestIdOf c1 n1 = BrowserBridge.requestIdOf c2 n2 ->
      c1 = c2 /\ n1 = n2)
  /\ forall es : list BridgeEvent,
       NoDup (sentIds (bridgeSteps es BrowserBridge.new)).
Proof.
  split; [exact requestIdOf_inj |].
  assert (Hstep : forall (es : list BridgeEvent) (b : BrowserBridge.t),
             sound b -> NoDup (sentIds b) -> NoDup (sentIds (bridgeSteps es b))).
  { intros es. induction es as [| e es IH]; intros b Hs Hnd; [exact Hnd |].
    cbn [bridgeSteps fold_left].
    apply IH; [apply bridgeStep_sound, Hs |].
    destruct (bridgeStep_sent e b) as [[E _] | (ws & r & now & E & Er)].
    - unfold sentIds. rewrite E. exact Hnd.
    - unfold sentIds. rewrite E, map_app. cbn [map snd].
      apply NoDup_app. split; [exact Hnd |]. split.
      + intros rid Hin Hin'. apply list_elem_of_In in Hin.
        apply in_map_iff in Hin as ((ws0 & r0) & <- & Hin).
        apply list_elem_of_In in Hin'. destruct Hin' as [Eq | []].
        destruct Hs as (_ & _ & (_ & N2)).
        destruct (N2 ws0 r0 Hin) as (c & n & Eid & Hle).
        cbn [snd] in Eq. rewrite Er, Eid in Eq.
        apply requestIdOf_inj in Eq as [Eq _]. lia.
      + apply NoDup_singleton. }
  intros es. apply (Hstep es BrowserBridge.new new_sound). constructor.
Qed.

(** ** A request and its answer *)

Lemma bridgeStep_outcome_final (e : BridgeEvent) (b : BrowserBridge.t)
    (p : nat) (o : BrowserBridge.Outcome) :
  BrowserBridge.outcomes b !! p = Some o ->
  BrowserBridge.outcomes (bridgeStep e b) !! p = Some o.
Proof.
  intros H.
  destruct e as [action args rs now | action rs now | tm | ws message | ws];
    cbn [bridgeStep].
  - unfold BrowserBridge.sendCommand.
    destruct (BrowserBridge.browser b) as [ws |];
      [destruct (BrowserBridge.is_open rs) |]; cbn [fst BrowserBridge.outcomes];
      auto using bridge_settle_settled.
  - unfold BrowserBridge.sendQuery.
    destruct (BrowserBridge.browser b) as [ws |];
      [destruct (BrowserBridge.is_open rs) |]; cbn [fst BrowserBridge.outcomes];
      auto using bridge_settle_settled.
  - unfold BrowserBridge.timerFires.
    destruct (BrowserBridge.timers b !! tm); cbn [BrowserBridge.outcomes];
      auto using bridge_settle_settled.
  - unfold BrowserBridge.onMessage, BrowserBridge._handleResponse.
    destruct (_ && _); [exact H |].
    destruct (bool_decide _); [| exact H].
    destruct (BrowserBridge.requestId message) as [rid |]; [| exact H].
    destruct (BrowserBridge.pendingRequests b !! rid); [| exact H].
    destruct (BrowserBridge.ok message); cbn [BrowserBridge.outcomes];
      auto using bridge_settle_settled.
  - unfold BrowserBridge.onClose.
    destruct (bool_decide _); [| exact H].
    cbn [BrowserBridge.outcomes]. apply rejectAll_settled. exact H.
Qed.

Lemma bridgeSteps_outcome_final (es : list BridgeEvent) (b : BrowserBridge.t)
    (p : nat) (o : BrowserBridge.Outcome) :
  BrowserBridge.outcomes b !! p = Some o ->
  BrowserBridge.outcomes (bridgeSteps es b) !! p = Some o.
Proof.
  revert b. induction es as [| e es IH]; intros b H; [exact H |].
  cbn [bridgeSteps fold_left]. apply IH, bridgeStep_outcome_final, H.
Qed.

(** X27. A command and its response are a round trip. When a command is
    sent to a connected browser and the response with its id arrives (from
    whichever socket), the promise of the command is settled with the
    response: resolved with its result if [ok] is truthy, rejected with its
    error, or "Unknown error" if it has none, otherwise. The request is
    unlisted and its timer disarmed, so that [pendingRequests] and the
    timers are as before the command; and nothing that happens later (the
    same response again, the timer, a disconnect) changes the outcome. *)
Theorem command_response_round_trip :
  forall (es later : list BridgeEvent) (action : string)
         (args : BrowserBridge.Json) (now : N) (ws from : nat)
         (message : BrowserBridge.Message),
    let b := bridgeSteps es BrowserBridge.new in
    let sp := BrowserBridge.sendCommand action args BrowserBridge.OPEN now b in
    let b' := BrowserBridge.onMessage from message (fst sp) in
    BrowserBridge.browser b = Some ws ->
    BrowserBridge.type message = Some "response" ->
    BrowserBridge.requestId message
    = Some (BrowserBridge.requestIdOf (BrowserBridge.requestCounter b + 1) now) ->
    BrowserBridge.outcomes (fst sp) !! snd sp = None
    /\ BrowserBridge.outcomes b' !! snd sp = Some (outcomeOf message)
    /\ BrowserBridge.pendingRequests b' = BrowserBridge.pendingRequests b
    /\ BrowserBridge.timers b' = BrowserBridge.timers b
    /\ BrowserBridge.outcomes (bridgeSteps later b') !! snd sp
       = Some (outcomeOf message).
Proof.
  intros es later action args now ws from message b sp b' Hb Ht Hrid.
  pose proof (bridgeSteps_sound es BrowserBridge.new new_sound) as Hs.
  fold b in Hs.
  set (rid := BrowserBridge.requestIdOf (BrowserBridge.requestCounter b + 1) now)
    in *.
  set (p := BrowserBridge.nextPromise b).
  set (tm := BrowserBridge.nextTimer b).
  set (b1 := {| BrowserBridge.browser := Some ws;
                BrowserBridge.pendingRequests :=
                  <[rid := {| BrowserBridge.promise := p;
                              BrowserBridge.timer := tm |}]>
                    (BrowserBridge.pendingRequests b);
                BrowserBridge.requestCounter :=
                  (BrowserBridge.requestCounter b + 1)%N;
                BrowserBridge.outcomes := BrowserBridge.outcomes b;
                BrowserBridge.nextPromise := S p;
                BrowserBridge.timers :=
                  <[tm := {| BrowserBridge.t_requestId := rid;
                             BrowserBridge.t_promise := p;
                             BrowserBridge.t_message :=
                               "Request timeout: " +:+ action |}]>
                    (BrowserBridge.timers b);
                BrowserBridge.nextTimer := S tm;
                BrowserBridge.sent :=
                  BrowserBridge.sent b
                  ++ [(ws, {| BrowserBridge.r_type := "command";
                              BrowserBridge.r_requestId := rid;
                              BrowserBridge.r_action := action;
                              BrowserBridge.r_args := Some args |})] |}).
  assert (Esp : sp = (b1, p)).
  { unfold sp, BrowserBridge.sendCommand. rewrite Hb. reflexivity. }
  destruct (registered_sound b b1 ws
              {| BrowserBridge.r_type := "command";
                 BrowserBridge.r_requestId := rid;
                 BrowserBridge.r_action := action;
                 BrowserBridge.r_args := Some args |}
              now ("Request timeout: " +:+ action) Hs
              eq_refl eq_refl eq_refl eq_refl eq_refl eq_refl eq_refl eq_refl)
    as (Frid & ((T1 & _) & _)).
  destruct (T1 rid {| BrowserBridge.promise := p; BrowserBridge.timer := tm |})
    as (Hp & _); [apply lookup_insert_eq |].
  cbn [BrowserBridge.promise] in Hp.
  assert (Ftm : BrowserBridge.timers b !! tm = None).
  { destruct Hs as (_ & (_ & _ & H3 & _) & _).
    destruct (BrowserBridge.timers b !! tm) as [cb |] eqn:E; [| reflexivity].
    apply H3 in E. unfold tm in E. lia. }
  assert (Eb' : b' = {| BrowserBridge.browser := BrowserBridge.browser b1;
                        BrowserBridge.pendingRequests :=
                          delete rid (BrowserBridge.pendingRequests b1);
                        BrowserBridge.requestCounter :=
                          BrowserBridge.requestCounter b1;
                        BrowserBridge.outcomes :=
                          BrowserBridge.settle p (outcomeOf message)
                            (BrowserBridge.outcomes b1);
                        BrowserBridge.nextPromise := BrowserBridge.nextPromise b1;
                        BrowserBridge.timers :=
                          delete tm (BrowserBridge.timers b1);
                        BrowserBridge.nextTimer := BrowserBridge.nextTimer b1;
                        BrowserBridge.sent := BrowserBridge.sent b1 |}).
  { unfold b'. rewrite Esp. cbn [fst].
    unfold BrowserBridge.onMessage, BrowserBridge._handleResponse.
    rewrite Ht, Hrid.
    rewrite (bool_decide_eq_false_2 (Some "response" = Some "init"))
      by discriminate.
    rewrite (bool_decide_eq_true_2 (Some "response" = Some "response"))
      by reflexivity.
    cbn [andb]. unfold b1 at 1. cbn [BrowserBridge.pendingRequests].
    rewrite lookup_insert_eq. cbn [BrowserBridge.promise BrowserBridge.timer].
    unfold outcomeOf. destruct (BrowserBridge.ok message); reflexivity. }
  assert (Ho : BrowserBridge.outcomes b' !! p = Some (outcomeOf message)).
  { rewrite Eb'. cbn [BrowserBridge.outcomes]. apply bridge_settle_pending.
    exact Hp. }
  rewrite Esp. cbn [fst snd].
  split; [exact Hp |]. split; [exact Ho |].
  split; [rewrite Eb'; cbn; apply delete_insert_id, Frid |].
  split; [rewrite Eb'; cbn; apply delete_insert_id, Ftm |].
  apply bridgeSteps_outcome_final, Ho.
Qed.

(** A take-off is sent and answered; the answer comes a second time, the
    timer comes due and the browser disconnects. *)
Lemma command_response_round_trip_witness :
  let b := bridgeSteps [BrowserMessage 7 init_message] BrowserBridge.new in
  let answer :=
    response (BrowserBridge.requestIdOf 1 1000) true
      (BrowserBridge.JObject [("altitude", BrowserBridge.JNumber 1)]) None in
  let sp := BrowserBridge.sendCommand "take_off" BrowserBridge.JNull
              BrowserBridge.OPEN 1000 b in
  let b' := BrowserBridge.onMessage 7 answer (fst sp) in
  BrowserBridge.outcomes
    (bridgeSteps [BrowserMessage 7 answer; TimerFires 0; SocketClosed 7] b')
    !! snd sp
  = Some (BrowserBridge.Answered
            (BrowserBridge.JObject [("altitude", BrowserBridge.JNumber 1)])).
Proof.
  intros b answer sp b'.
  apply (command_response_round_trip [BrowserMessage 7 init_message]
           [BrowserMessage 7 answer; TimerFires 0; SocketClosed 7]
           "take_off" BrowserBridge.JNull 1000 7 7 answer);
    reflexivity.
Defined.
